(** * BinaryText: a shallow embedding of the codecs and of ByteBuffer

    The development follows [src/BinaryText.hpp].

    Modelling conventions.
    - A [char] / [unsigned char] / [std::byte] is a [byte] (256 constructors).
    - A [std::string] is a [list byte]; string growth never fails in the
      model, so [INTERNAL_STRING_RESERVE_ERROR] is never raised.
    - A [std::bitset<n>] is a [Z] in [0, 2^n); left shifts are truncated to
      [n] bits explicitly.
    - An [unsigned int] is a [Z] reduced modulo [2^32] after every addition.
    - An iterator into a string or buffer is the [nat] index of the element
      it points to; [cend()] is [length s].  Dereferencing is [nth] with
      default [x00].
    - A call either returns, throws the module's [Error], reaches
      [UnreachableTerminate], or (model only) exhausts the fuel that bounds
      the source's [for] loops. *)

From Stdlib Require Import ZArith List Bool Lia Strings.Byte.
From Stdlib Require Strings.String.
Import ListNotations.
Import String.StringSyntax.
Local Open Scope byte_scope.
Local Open Scope Z_scope.

(** ** Outcomes of a call *)

Inductive Outcome (E A : Type) : Type :=
| Returned (a : A)
| Thrown (e : E)
| Terminated
| OutOfFuel.

Arguments Returned {E A} a.
Arguments Thrown {E A} e.
Arguments Terminated {E A}.
Arguments OutOfFuel {E A}.

(** Sequencing: an exception, an abort or lack of fuel ends the call. *)
Definition bind {E A B : Type} (m : Outcome E A) (k : A -> Outcome E B)
    : Outcome E B :=
  match m with
  | Returned a => k a
  | Thrown e => Thrown e
  | Terminated => Terminated
  | OutOfFuel => OutOfFuel
  end.

Notation "'let*' x ':=' m 'in' k" := (bind m (fun x => k))
  (at level 10, x pattern, m at level 200, k at level 200).

(** An exception of an inner call seen through the caller's type. *)
Definition lift {E E' A : Type} (f : E -> E') (m : Outcome E A)
    : Outcome E' A :=
  match m with
  | Returned a => Returned a
  | Thrown e => Thrown (f e)
  | Terminated => Terminated
  | OutOfFuel => OutOfFuel
  end.

(** [encodedString.append(1, c)] and [decodedString.append(1, c)]. *)
Definition appendChar {E : Type} (s : list byte) (c : byte)
    : Outcome E (list byte) :=
  Returned (s ++ [c]).

(** ** Machine data *)

Definition byteToZ (b : byte) : Z := Z.of_N (Byte.to_N b).

(** [static_cast<unsigned char>(x)]: keep the low eight bits. *)
Definition byteOfZ (z : Z) : byte :=
  match Byte.of_N (Z.to_N (z mod 256)) with
  | Some b => b
  | None => x00
  end.

(** [unsigned int] arithmetic. *)
Definition u32 (z : Z) : Z := z mod 2 ^ 32.

(** [bitset <<= k] on a [std::bitset<n>]. *)
Definition bitsetShl (n b k : Z) : Z := Z.shiftl b k mod 2 ^ n.

(** [*iter == ' ' or *iter == '\n'] *)
Definition isBlank (c : byte) : bool :=
  match c with
  | x20 | x0a => true
  | _ => false
  end.

(** * ByteBuffer (lines 81-1031) *)

Module ByteBuffer.

Inductive ErrorType : Type :=
| EMPTY_BUFFER_ERROR
| INVALID_ARGUMENTS_ERROR
| OPEN_FILE_ERROR
| READ_FROM_FILE_ERROR
| WRITE_TO_FILE_ERROR
| OUT_OF_RANGE_ERROR
| MAXIMUM_SIZE_LIMIT_ERROR
| ALLOCATION_ERROR.

(** What a member function lets escape: the class's own [Error], or a
    [std::bad_alloc] raised outside every [try] block of the class. *)
Inductive Exception : Type :=
| Error (type_ : ErrorType)
| bad_alloc.

(** [_size] is a [std::size_t]; [_buffer] is a [std::unique_ptr], [None]
    being [nullptr]. *)
Record ByteBuffer : Type := {
  _size : Z;
  _buffer : option (list byte)
}.

(** [std::size_t] is 64 bits wide; sums wrap around. *)
Definition SizeType (z : Z) : Z := z mod 2 ^ 64.

(** [std::numeric_limits<std::ptrdiff_t>::max()] *)
Definition GetMaximumSize : Z := 2 ^ 63 - 1.

(** The allocator is scripted: each [std::make_unique] consumes one entry,
    [false] meaning that it throws [std::bad_alloc]; an exhausted script
    always succeeds. *)
Definition Heap : Type := list bool.

Definition make_unique (n : Z) (h : Heap) : option (list byte) * Heap :=
  match h with
  | false :: h' => (None, h')
  | true :: h' => (Some (repeat x00 (Z.to_nat n)), h')
  | [] => (Some (repeat x00 (Z.to_nat n)), [])
  end.

(** [_buffer.get()] seen as the array it points to. *)
Definition get (b : option (list byte)) : list byte :=
  match b with
  | Some l => l
  | None => []
  end.

(** [std::copy(src, src + n, dst + off)] *)
Definition copy (src : list byte) (n : Z) (dst : list byte) (off : Z)
    : list byte :=
  firstn (Z.to_nat off) dst ++ firstn (Z.to_nat n) src
    ++ skipn (Z.to_nat off + Z.to_nat n) dst.

(** [std::fill(dst + from, dst + to, v)] *)
Definition fill (dst : list byte) (from to : Z) (v : byte) : list byte :=
  firstn (Z.to_nat from) dst ++ repeat v (Z.to_nat to - Z.to_nat from)
    ++ skipn (Z.to_nat to) dst.

Definition empty : ByteBuffer := {| _size := 0; _buffer := None |}.

(** *** Constructors: the outcome carries the constructed object. *)

Definition ByteBuffer_default : ByteBuffer := empty.

Definition ByteBuffer_sized (size_ : Z) (h : Heap)
    : Outcome Exception ByteBuffer * Heap :=
  if size_ >? GetMaximumSize then (Thrown (Error MAXIMUM_SIZE_LIMIT_ERROR), h)
  else if size_ >? 0 then
    match make_unique size_ h with
    | (Some b, h') =>
        (Returned {| _size := size_; _buffer := Some (fill b 0 size_ x00) |},
         h')
    | (None, h') => (Thrown (Error ALLOCATION_ERROR), h')
    end
  else (Returned empty, h).

Definition ByteBuffer_from_pointer (buffer_ : option (list byte)) (size_ : Z)
    (h : Heap) : Outcome Exception ByteBuffer * Heap :=
  if size_ >? GetMaximumSize then (Thrown (Error MAXIMUM_SIZE_LIMIT_ERROR), h)
  else
    match buffer_ with
    | None =>
        if size_ >? 0 then (Thrown (Error INVALID_ARGUMENTS_ERROR), h)
        else (Returned empty, h)
    | Some src =>
        if size_ <? 1 then (Thrown (Error INVALID_ARGUMENTS_ERROR), h)
        else
          match make_unique size_ h with
          | (Some b, h') =>
              (Returned {| _size := size_;
                           _buffer := Some (copy src size_ b 0) |}, h')
          | (None, h') => (Thrown (Error ALLOCATION_ERROR), h')
          end
    end.

Definition ByteBuffer_from_vector (vector_ : list byte) (h : Heap)
    : Outcome Exception ByteBuffer * Heap :=
  let n := Z.of_nat (length vector_) in
  if n >? GetMaximumSize then (Thrown (Error MAXIMUM_SIZE_LIMIT_ERROR), h)
  else if n >? 0 then
    match make_unique n h with
    | (Some b, h') =>
        (Returned {| _size := n; _buffer := Some (copy vector_ n b 0) |}, h')
    | (None, h') => (Thrown (Error ALLOCATION_ERROR), h')
    end
  else (Returned empty, h).

Definition ByteBuffer_copy (byteBuffer_ : ByteBuffer) (h : Heap)
    : Outcome Exception ByteBuffer * Heap :=
  match _buffer byteBuffer_ with
  | Some src =>
      match make_unique (_size byteBuffer_) h with
      | (Some b, h') =>
          (Returned {| _size := _size byteBuffer_;
                       _buffer := Some (copy src (_size byteBuffer_) b 0) |},
           h')
      | (None, h') => (Thrown (Error ALLOCATION_ERROR), h')
      end
  | None => (Returned empty, h)
  end.

(** The move constructor returns the new object and the moved-from one. *)
Definition ByteBuffer_move (byteBuffer_ : ByteBuffer)
    : ByteBuffer * ByteBuffer :=
  ({| _size := _size byteBuffer_; _buffer := _buffer byteBuffer_ |}, empty).

(** *** Member functions: outcome, state of [*this] afterwards, heap. *)

Definition Call : Type := Outcome Exception unit * ByteBuffer * Heap.

(** [std::fill] does not allocate, so the handler is dead code. *)
Definition SetAllBytes (this : ByteBuffer) (byte_ : byte) (h : Heap) : Call :=
  match _buffer this with
  | Some b =>
      (Returned tt,
       {| _size := _size this;
          _buffer := Some (fill b 0 (_size this) byte_) |}, h)
  | None => (Returned tt, this, h)
  end.

Definition GetSize (this : ByteBuffer) : Z := _size this.

Definition IsEmpty (this : ByteBuffer) : bool :=
  match _buffer this with
  | Some _ => false
  | None => true
  end.

(** [At(position_)]: the element, or [OUT_OF_RANGE_ERROR]. *)
Definition At (this : ByteBuffer) (position_ : Z)
    : Outcome Exception byte :=
  match _buffer this with
  | Some b =>
      if position_ <? _size this
      then Returned (nth (Z.to_nat position_) b x00)
      else Thrown (Error OUT_OF_RANGE_ERROR)
  | None => Thrown (Error OUT_OF_RANGE_ERROR)
  end.

(** [At(position_) = byte_]: assignment through the returned reference. *)
Definition AtPut (this : ByteBuffer) (position_ : Z) (byte_ : byte)
    : Outcome Exception ByteBuffer :=
  match _buffer this with
  | Some b =>
      if position_ <? _size this
      then Returned {| _size := _size this;
                       _buffer := Some (fill b position_ (position_ + 1)
                                          byte_) |}
      else Thrown (Error OUT_OF_RANGE_ERROR)
  | None => Thrown (Error OUT_OF_RANGE_ERROR)
  end.

(** [Resize(size_, byte_)]; [Resize(size_)] is the instance [byte_ = 0]. *)
Definition ResizeWith (this : ByteBuffer) (size_ : Z) (byte_ : byte)
    (h : Heap) : Call :=
  if size_ >? GetMaximumSize
  then (Thrown (Error MAXIMUM_SIZE_LIMIT_ERROR), this, h)
  else if size_ =? _size this then (Returned tt, this, h)
  else if size_ <? 1 then (Returned tt, empty, h)
  else
    let previousSize := _size this in
    match make_unique previousSize h with
    | (None, h1) => (Thrown (Error ALLOCATION_ERROR), empty, h1)
    | (Some p, h1) =>
        let previousBuffer := copy (get (_buffer this)) previousSize p 0 in
        match make_unique size_ h1 with
        | (None, h2) => (Thrown (Error ALLOCATION_ERROR), empty, h2)
        | (Some b, h2) =>
            if size_ <? previousSize then
              (Returned tt,
               {| _size := size_;
                  _buffer := Some (copy previousBuffer size_ b 0) |}, h2)
            else
              (Returned tt,
               {| _size := size_;
                  _buffer :=
                    Some (fill (copy previousBuffer previousSize b 0)
                            previousSize size_ byte_) |}, h2)
        end
    end.

Definition Resize (this : ByteBuffer) (size_ : Z) (h : Heap) : Call :=
  ResizeWith this size_ x00 h.

Definition Swap (this byteBuffer_ : ByteBuffer) : ByteBuffer * ByteBuffer :=
  (byteBuffer_, this).

Definition Clear (this : ByteBuffer) : ByteBuffer := empty.

(** [operator=(const ByteBuffer&)] on distinct objects; self-assignment
    returns at once and changes nothing. *)
Definition operator_assign (this byteBuffer_ : ByteBuffer) (h : Heap)
    : Call :=
  match _buffer byteBuffer_ with
  | Some src =>
      match make_unique (_size byteBuffer_) h with
      | (Some b, h') =>
          (Returned tt,
           {| _size := _size byteBuffer_;
              _buffer := Some (copy src (_size byteBuffer_) b 0) |}, h')
      | (None, h') => (Thrown (Error ALLOCATION_ERROR), empty, h')
      end
  | None => (Returned tt, empty, h)
  end.

(** [operator=(ByteBuffer&&)]: the new [*this] and the moved-from object. *)
Definition operator_assign_move (this byteBuffer_ : ByteBuffer)
    : ByteBuffer * ByteBuffer :=
  ({| _size := _size byteBuffer_; _buffer := _buffer byteBuffer_ |}, empty).

(** [operator+=] (lines 840-885). *)
Definition operator_plus_assign (this byteBuffer_ : ByteBuffer) (h : Heap)
    : Call :=
  match _buffer this with
  | Some mine =>
      match _buffer byteBuffer_ with
      | Some theirs =>
          let nextSize := SizeType (_size this + _size byteBuffer_) in
          if nextSize >? GetMaximumSize
          then (Thrown (Error MAXIMUM_SIZE_LIMIT_ERROR), this, h)
          else if nextSize <? _size this
          then (Thrown (Error MAXIMUM_SIZE_LIMIT_ERROR), this, h)
          else
            match make_unique nextSize h with
            | (None, h') => (Thrown (Error ALLOCATION_ERROR), empty, h')
            | (Some b, h') =>
                let nextBuffer :=
                  copy theirs (_size byteBuffer_)
                    (copy mine (_size this) b 0) (_size this) in
                (Returned tt,
                 {| _size := nextSize; _buffer := Some nextBuffer |}, h')
            end
      | None => (Returned tt, this, h)
      end
  | None =>
      match _buffer byteBuffer_ with
      | Some theirs =>
          (* no try block here: a failed allocation escapes as
             std::bad_alloc after _size has been assigned *)
          match make_unique (_size byteBuffer_) h with
          | (None, h') =>
              (Thrown bad_alloc,
               {| _size := _size byteBuffer_; _buffer := None |}, h')
          | (Some b, h') =>
              (Returned tt,
               {| _size := _size byteBuffer_;
                  _buffer := Some (copy theirs (_size byteBuffer_) b 0) |},
               h')
          end
      | None => (Returned tt, this, h)
      end
  end.

(** [return x;] of a [ByteBuffer] by value out of a member function: the
    copy constructor runs, and [*this] stays as it is. *)
Definition returnCopy (this x : ByteBuffer) (h : Heap)
    : Outcome Exception ByteBuffer * ByteBuffer * Heap :=
  let (r, h') := ByteBuffer_copy x h in (r, this, h').

(** [operator+] (lines 891-932) as it is written: the outcome with the
    sum, [*this] afterwards, and the heap.  The [catch] handler assigns
    [_size] and [_buffer] of [*this] (lines 910-911) as the handler of
    [operator+=] does, although the member is declared [const]; a member
    of a class template is compiled only where it is used, and a use of
    this one is ill-formed. *)
Definition operator_plus (this byteBuffer_ : ByteBuffer) (h : Heap)
    : Outcome Exception ByteBuffer * ByteBuffer * Heap :=
  match _buffer this with
  | Some mine =>
      match _buffer byteBuffer_ with
      | Some theirs =>
          let nextSize := SizeType (_size this + _size byteBuffer_) in
          if nextSize >? GetMaximumSize
          then (Thrown (Error MAXIMUM_SIZE_LIMIT_ERROR), this, h)
          else if nextSize <? _size this
          then (Thrown (Error MAXIMUM_SIZE_LIMIT_ERROR), this, h)
          else
            match make_unique nextSize h with
            | (None, h') => (Thrown (Error ALLOCATION_ERROR), empty, h')
            | (Some b, h') =>
                let nextBuffer :=
                  copy theirs (_size byteBuffer_)
                    (copy mine (_size this) b 0) (_size this) in
                (Returned {| _size := nextSize;
                             _buffer := Some nextBuffer |}, this, h')
            end
      | None => returnCopy this this h
      end
  | None =>
      match _buffer byteBuffer_ with
      | Some _ => returnCopy this byteBuffer_ h
      | None => returnCopy this this h
      end
  end.

(** [operator==] *)
Definition operator_eq (this byteBuffer_ : ByteBuffer) : bool :=
  if _size this =? _size byteBuffer_ then
    match _buffer this, _buffer byteBuffer_ with
    | None, None => true
    | Some a, Some b =>
        forallb (fun i => Byte.eqb (nth i a x00) (nth i b x00))
          (seq 0 (Z.to_nat (_size this)))
    | _, _ => false
    end
  else false.

(** *** Reading a file

    The stream is scripted by the sequence of results of its [read]
    calls: a chunk after which the stream is still good, a final chunk
    that hit the end of the file ([eofbit] and [failbit] set), or a
    failed read ([failbit] without [eofbit]). *)
Inductive Read : Type :=
| Chunk (data : list byte)
| LastChunk (data : list byte)
| Failure.

Inductive File : Type :=
| Missing
| Opened (reads : list Read).

(** One turn of the [while(fileStream)] loop that received [data]. *)
Definition appendRead (this : ByteBuffer) (data : list byte) (h : Heap)
    : Call :=
  match ByteBuffer_sized 8192 h with
  | (Returned byteBuffer, h1) =>
      let readCount := Z.of_nat (length data) in
      let byteBuffer :=
        {| _size := _size byteBuffer;
           _buffer := Some (copy data readCount
                              (get (_buffer byteBuffer)) 0) |} in
      if readCount >? 0 then
        match Resize byteBuffer (SizeType readCount) h1 with
        | (Returned _, byteBuffer, h2) =>
            operator_plus_assign this byteBuffer h2
        | (Thrown e, _, h2) => (Thrown e, this, h2)
        | (Terminated, _, h2) => (Terminated, this, h2)
        | (OutOfFuel, _, h2) => (OutOfFuel, this, h2)
        end
      else (Returned tt, this, h1)
  | (Thrown e, h1) => (Thrown e, this, h1)
  | (Terminated, h1) => (Terminated, this, h1)
  | (OutOfFuel, h1) => (OutOfFuel, this, h1)
  end.

Fixpoint readLoop (this : ByteBuffer) (reads : list Read) (h : Heap)
    : Call :=
  match reads with
  | [] => appendRead this [] h
  | Chunk data :: rest =>
      match appendRead this data h with
      | (Returned _, this', h') => readLoop this' rest h'
      | r => r
      end
  | LastChunk data :: _ => appendRead this data h
  | Failure :: _ =>
      match ByteBuffer_sized 8192 h with
      | (Returned _, h1) => (Thrown (Error READ_FROM_FILE_ERROR), empty, h1)
      | (Thrown e, h1) => (Thrown e, this, h1)
      | (Terminated, h1) => (Terminated, this, h1)
      | (OutOfFuel, h1) => (OutOfFuel, this, h1)
      end
  end.

Definition ReadFromFile (this : ByteBuffer) (file : File) (h : Heap)
    : Call :=
  match file with
  | Opened reads => readLoop empty reads h
  | Missing => (Thrown (Error OPEN_FILE_ERROR), empty, h)
  end.

Definition ByteBuffer_from_file (file : File) (h : Heap)
    : Outcome Exception ByteBuffer * Heap :=
  match ReadFromFile empty file h with
  | (Returned _, this, h') => (Returned this, h')
  | (Thrown e, _, h') => (Thrown e, h')
  | (Terminated, _, h') => (Terminated, h')
  | (OutOfFuel, _, h') => (OutOfFuel, h')
  end.

(** *** The class invariant of section 3 *)

(** "The storage pointer is non-null if and only if n > 0." *)
Definition storageInvariant (b : ByteBuffer) : Prop :=
  (exists l, _buffer b = Some l) <-> 0 < _size b.

(** The stronger representation invariant: the array has [_size]
    elements and [_size] is within bounds. *)
Definition wellFormed (b : ByteBuffer) : Prop :=
  match _buffer b with
  | Some l => 0 < _size b <= GetMaximumSize /\ Z.of_nat (length l) = _size b
  | None => _size b = 0
  end.

(** *** The staging buffer of the [DecodeStringToByteBuffer] functions

    [decodedByteBuffer], the 8 KiB [byteBuffer], [bufferIterator], and the
    allocator the calls run against. *)
Record Staging : Type := {
  decodedByteBuffer : ByteBuffer;
  byteBuffer : ByteBuffer;
  bufferIterator : Z;
  heap : Heap
}.

(** [ByteBuffer<ByteType> decodedByteBuffer; ByteBuffer<ByteType>
    byteBuffer(8192); SizeType bufferIterator(0);] *)
Definition newStaging (h : Heap) : Outcome Exception Staging :=
  match ByteBuffer_sized 8192 h with
  | (Returned b, h') =>
      Returned {| decodedByteBuffer := ByteBuffer_default;
                  byteBuffer := b;
                  bufferIterator := 0;
                  heap := h' |}
  | (Thrown e, _) => Thrown e
  | (Terminated, _) => Terminated
  | (OutOfFuel, _) => OutOfFuel
  end.

(** The lambda [addToByteBuffer] (e.g. lines 2067-2088); Base16 has the
    same statements inline (lines 1542-1561). *)
Definition addToByteBuffer (st : Staging) (byte_ : byte)
    : Outcome Exception Staging :=
  if bufferIterator st <? 8192 then
    let* b := AtPut (byteBuffer st) (bufferIterator st) byte_ in
    Returned {| decodedByteBuffer := decodedByteBuffer st;
                byteBuffer := b;
                bufferIterator := SizeType (bufferIterator st + 1);
                heap := heap st |}
  else
    match operator_plus_assign (decodedByteBuffer st) (byteBuffer st)
            (heap st) with
    | (Returned _, d, h') =>
        let* b := AtPut (byteBuffer st) 0 byte_ in
        Returned {| decodedByteBuffer := d;
                    byteBuffer := b;
                    bufferIterator := SizeType (0 + 1);
                    heap := h' |}
    | (Thrown e, _, _) => Thrown e
    | (Terminated, _, _) => Terminated
    | (OutOfFuel, _, _) => OutOfFuel
    end.

(** [if(bufferIterator > 0) { byteBuffer.Resize(bufferIterator);
    decodedByteBuffer += byteBuffer; } return decodedByteBuffer;] *)
Definition finishStaging (st : Staging) : Outcome Exception ByteBuffer :=
  if bufferIterator st >? 0 then
    match Resize (byteBuffer st) (bufferIterator st) (heap st) with
    | (Returned _, b, h1) =>
        match operator_plus_assign (decodedByteBuffer st) b h1 with
        | (Returned _, d, _) => Returned d
        | (Thrown e, _, _) => Thrown e
        | (Terminated, _, _) => Terminated
        | (OutOfFuel, _, _) => OutOfFuel
        end
    | (Thrown e, _, _) => Thrown e
    | (Terminated, _, _) => Terminated
    | (OutOfFuel, _, _) => OutOfFuel
    end
  else Returned (decodedByteBuffer st).

(** The bytes between [ConstantBegin()] and [ConstantEnd()]. *)
Definition contents (b : ByteBuffer) : list byte :=
  firstn (Z.to_nat (_size b)) (get (_buffer b)).

(** The outcome of a call and the state of [*this] after it. *)
Definition outcome (c : Call) : Outcome Exception unit := fst (fst c).
Definition after (c : Call) : ByteBuffer := snd (fst c).

(** The call returned normally or raised a [ByteBuffer::Error]. *)
Definition accounted {A : Type} (r : Outcome Exception A) : Prop :=
  match r with
  | Returned _ => True
  | Thrown (Error _) => True
  | _ => False
  end.

(** [ToVector()] (lines 716-723). *)
Definition ToVector (this : ByteBuffer) : list byte :=
  match _buffer this with
  | Some b => firstn (Z.to_nat (_size this)) b
  | None => []
  end.

(** *** Notions used to state what the operations do *)

(** The buffer that holds exactly the bytes [l]: no storage when there are
    none, else an array of [length l] elements. *)
Definition ofList (l : list byte) : ByteBuffer :=
  match l with
  | [] => empty
  | _ :: _ => {| _size := Z.of_nat (length l); _buffer := Some l |}
  end.

(** An allocator script on which no [std::make_unique] fails. *)
Definition unfailing (h : Heap) : Prop :=
  Forall (fun granted => granted = true) h.

(** The bytes a staging buffer has taken so far: those already moved to
    [decodedByteBuffer], then the first [bufferIterator] bytes of
    [byteBuffer]. *)
Definition staged (st : Staging) : list byte :=
  contents (decodedByteBuffer st)
    ++ firstn (Z.to_nat (bufferIterator st)) (get (_buffer (byteBuffer st))).

(** The state the staging statements keep between two calls. *)
Definition stagingReady (st : Staging) : Prop :=
  wellFormed (decodedByteBuffer st)
  /\ (exists l, byteBuffer st = {| _size := 8192; _buffer := Some l |}
                /\ Z.of_nat (length l) = 8192)
  /\ 0 <= bufferIterator st <= 8192
  /\ unfailing (heap st).

(** The sink of the buffer decoders: [addToByteBuffer] seen from a
    function that can also throw its namespace's [Error]. *)
Definition stageByte {E : Type} (st : Staging) (c : byte)
    : Outcome (E + Exception) Staging :=
  lift inr (addToByteBuffer st c).

(** The outcome of a string decoder as the outcome of the buffer decoder
    that does the same: the same bytes in a buffer, the same error. *)
Definition toByteBuffer {E : Type} (r : Outcome E (list byte))
    : Outcome (E + Exception) ByteBuffer :=
  match r with
  | Returned out => Returned (ofList out)
  | Thrown e => Thrown (inl e)
  | Terminated => Terminated
  | OutOfFuel => OutOfFuel
  end.

(** A loop that appends to a string and the same loop on a staging
    buffer have come to the same point: the same at most [bound] bytes,
    or the same error. *)
Definition agree {E : Type} (bound : Z) (r : Outcome E (list byte))
    (r' : Outcome (E + Exception) Staging) : Prop :=
  match r with
  | Returned out =>
      Z.of_nat (length out) <= bound
      /\ exists st, r' = Returned st /\ stagingReady st /\ staged st = out
  | Thrown e => r' = Thrown (inl e)
  | Terminated => r' = Terminated
  | OutOfFuel => r' = OutOfFuel
  end.

End ByteBuffer.

(** * Base16 *)

Module Base16.

Inductive ErrorType : Type :=
| INTERNAL_STRING_RESERVE_ERROR
| INVALID_CASE_ERROR
| STRING_PARSE_ERROR.

Inductive Case : Type :=
| LOWERCASE
| MIXED
| UPPERCASE.

(** The three [switch] on [*jter] tables of the decoders; [None] is the
    [default: throw Error(STRING_PARSE_ERROR)] branch. *)
Definition decodeDigit (case_ : Case) (c : byte) : option Z :=
  match case_ with
  | MIXED =>
      match c with
      | "0" => Some 0x0 | "1" => Some 0x1 | "2" => Some 0x2 | "3" => Some 0x3
      | "4" => Some 0x4 | "5" => Some 0x5 | "6" => Some 0x6 | "7" => Some 0x7
      | "8" => Some 0x8 | "9" => Some 0x9
      | "A" => Some 0xA | "B" => Some 0xB | "C" => Some 0xC
      | "D" => Some 0xD | "E" => Some 0xE | "F" => Some 0xF
      | "a" => Some 0xA | "b" => Some 0xB | "c" => Some 0xC
      | "d" => Some 0xD | "e" => Some 0xE | "f" => Some 0xF
      | _ => None
      end
  | UPPERCASE =>
      match c with
      | "0" => Some 0x0 | "1" => Some 0x1 | "2" => Some 0x2 | "3" => Some 0x3
      | "4" => Some 0x4 | "5" => Some 0x5 | "6" => Some 0x6 | "7" => Some 0x7
      | "8" => Some 0x8 | "9" => Some 0x9
      | "A" => Some 0xA | "B" => Some 0xB | "C" => Some 0xC
      | "D" => Some 0xD | "E" => Some 0xE | "F" => Some 0xF
      | _ => None
      end
  | LOWERCASE =>
      match c with
      | "0" => Some 0x0 | "1" => Some 0x1 | "2" => Some 0x2 | "3" => Some 0x3
      | "4" => Some 0x4 | "5" => Some 0x5 | "6" => Some 0x6 | "7" => Some 0x7
      | "8" => Some 0x8 | "9" => Some 0x9
      | "a" => Some 0xA | "b" => Some 0xB | "c" => Some 0xC
      | "d" => Some 0xD | "e" => Some 0xE | "f" => Some 0xF
      | _ => None
      end
  end.

(** The two [switch(partialBitset.to_ullong())] tables of the encoders. *)
Definition encodeDigit (case_ : Case) (v : Z) : Outcome ErrorType byte :=
  match case_ with
  | UPPERCASE =>
      match v with
      | 0x0 => Returned "0" | 0x1 => Returned "1" | 0x2 => Returned "2"
      | 0x3 => Returned "3" | 0x4 => Returned "4" | 0x5 => Returned "5"
      | 0x6 => Returned "6" | 0x7 => Returned "7" | 0x8 => Returned "8"
      | 0x9 => Returned "9" | 0xA => Returned "A" | 0xB => Returned "B"
      | 0xC => Returned "C" | 0xD => Returned "D" | 0xE => Returned "E"
      | 0xF => Returned "F"
      | _ => Terminated
      end
  | LOWERCASE =>
      match v with
      | 0x0 => Returned "0" | 0x1 => Returned "1" | 0x2 => Returned "2"
      | 0x3 => Returned "3" | 0x4 => Returned "4" | 0x5 => Returned "5"
      | 0x6 => Returned "6" | 0x7 => Returned "7" | 0x8 => Returned "8"
      | 0x9 => Returned "9" | 0xA => Returned "a" | 0xB => Returned "b"
      | 0xC => Returned "c" | 0xD => Returned "d" | 0xE => Returned "e"
      | 0xF => Returned "f"
      | _ => Terminated
      end
  | MIXED => Thrown INVALID_CASE_ERROR
  end.

(** The body of the encoders' outer loop for one input byte: the high
    nibble [(bitset >> 4)], then the low nibble [((bitset << 4) >> 4)],
    each through a [std::bitset<4>]. *)
Definition EncodeByte (case_ : Case) (c : byte) (encodedString : list byte)
    : Outcome ErrorType (list byte) :=
  let bitset := byteToZ c in
  let* hi := encodeDigit case_ (Z.shiftr bitset 4 mod 2 ^ 4) in
  let* encodedString := appendChar encodedString hi in
  let* lo := encodeDigit case_
               (Z.shiftr (bitsetShl 8 bitset 4) 4 mod 2 ^ 4) in
  appendChar encodedString lo.

Fixpoint EncodeLoop (case_ : Case) (s : list byte) (encodedString : list byte)
    : Outcome ErrorType (list byte) :=
  match s with
  | [] => Returned encodedString
  | c :: rest =>
      let* encodedString := EncodeByte case_ c encodedString in
      EncodeLoop case_ rest encodedString
  end.

Definition EncodeStringToString (string_ : list byte) (case_ : Case)
    : Outcome ErrorType (list byte) :=
  EncodeLoop case_ string_ [].

Definition EncodeByteBufferToString (byteBuffer_ : ByteBuffer.ByteBuffer)
    (case_ : Case) : Outcome ErrorType (list byte) :=
  EncodeLoop case_ (ByteBuffer.contents byteBuffer_) [].

Section Decoder.

(** The decoders differ only in where the decoded bytes go: [put] is
    [decodedString.append(1, c)] or the staging-buffer statements, and
    [raise] injects the namespace's [Error] into what the function can
    throw. *)
Context {E St : Type}.
Variable raise : ErrorType -> E.
Variable put : St -> byte -> Outcome E St.

(** The inner [for(jter(iter); jter != cend; ++jter)] loop of the decoders
    (lines 1302-1400 and 1436-1534).  It returns the value of [iter],
    [bitset] and [counter] when the loop is left. *)
Fixpoint DecodeGroup (fuel : nat) (s : list byte) (case_ : Case)
    (iter jter : nat) (bitset counter : Z)
    : Outcome E (nat * Z * Z) :=
  match fuel with
  | O => OutOfFuel
  | S fuel' =>
      if (jter =? length s)%nat then Returned (iter, bitset, counter)
      else
        let c := nth jter s x00 in
        if isBlank c then
          if (S jter =? length s)%nat then Returned (iter, bitset, counter)
          else DecodeGroup fuel' s case_ (S iter) (S jter) bitset counter
        else
          let counter := u32 (counter + 1) in
          let bitset := bitsetShl 8 bitset 4 in
          match decodeDigit case_ c with
          | None => Thrown (raise STRING_PARSE_ERROR)
          | Some v =>
              let bitset := Z.lor bitset v in
              if (S jter =? length s)%nat || (S jter =? iter + 2)%nat
              then Returned (jter, bitset, counter)
              else DecodeGroup fuel' s case_ iter (S jter) bitset counter
          end
  end.

(** [switch(counter)] after the inner loop (lines 1402-1406). *)
Definition flushGroup (bitset counter : Z) : Outcome E Z :=
  match counter with
  | 2 => Returned bitset
  | 1 => Returned (bitsetShl 8 bitset 4)
  | _ => Terminated
  end.

(** The outer [for(iter(cbegin); iter != cend; ++iter)] loop. *)
Fixpoint DecodeLoop (fuel : nat) (s : list byte) (case_ : Case)
    (iter : nat) (out : St) : Outcome E St :=
  match fuel with
  | O => OutOfFuel
  | S fuel' =>
      if (iter =? length s)%nat then Returned out
      else if isBlank (nth iter s x00) then
        DecodeLoop fuel' s case_ (S iter) out
      else
        let* (iter', bitset, counter) :=
          DecodeGroup (length s) s case_ iter iter 0 0 in
        let* bitset' := flushGroup bitset counter in
        let* out := put out (byteOfZ bitset') in
        DecodeLoop fuel' s case_ (S iter') out
  end.

End Decoder.

Definition DecodeStringToString (encodedString_ : list byte) (case_ : Case)
    : Outcome ErrorType (list byte) :=
  DecodeLoop (fun e => e) appendChar
    (S (length encodedString_)) encodedString_ case_ 0 [].

(** What [DecodeStringToByteBuffer] can throw. *)
Definition Exception : Type := (ErrorType + ByteBuffer.Exception)%type.

Definition DecodeStringToByteBuffer (encodedString_ : list byte)
    (case_ : Case) (h : ByteBuffer.Heap)
    : Outcome Exception ByteBuffer.ByteBuffer :=
  let* st := lift inr (ByteBuffer.newStaging h) in
  let* st :=
    DecodeLoop inl (fun st c => lift inr (ByteBuffer.addToByteBuffer st c))
      (S (length encodedString_)) encodedString_ case_ 0 st in
  lift inr (ByteBuffer.finishStaging st).

(** *** The decoder as the specification words it (section 4.2)

    Two hex digits per output byte, most significant nibble first; blanks
    are ignored; a final unpaired digit is the high nibble of a byte whose
    low nibble is zero; any other character is a parse error. *)

Definition inRange (lo hi c : byte) : bool :=
  (byteToZ lo <=? byteToZ c) && (byteToZ c <=? byteToZ hi).

Definition alphabetValue (case_ : Case) (c : byte) : option Z :=
  if inRange "0" "9" c then Some (byteToZ c - byteToZ "0")
  else if inRange "A" "F" c then
    match case_ with
    | LOWERCASE => None
    | _ => Some (byteToZ c - byteToZ "A" + 10)
    end
  else if inRange "a" "f" c then
    match case_ with
    | UPPERCASE => None
    | _ => Some (byteToZ c - byteToZ "a" + 10)
    end
  else None.

Definition stripBlanks (s : list byte) : list byte :=
  filter (fun c => negb (isBlank c)) s.

Fixpoint digitsOf (case_ : Case) (s : list byte) : option (list Z) :=
  match s with
  | [] => Some []
  | c :: r =>
      match alphabetValue case_ c, digitsOf case_ r with
      | Some d, Some ds => Some (d :: ds)
      | _, _ => None
      end
  end.

Fixpoint pairDigits (ds : list Z) : list byte :=
  match ds with
  | [] => []
  | hi :: tl =>
      match tl with
      | [] => [byteOfZ (Z.shiftl hi 4)]
      | lo :: r => byteOfZ (16 * hi + lo) :: pairDigits r
      end
  end.

Definition decode_spec (s : list byte) (case_ : Case)
    : Outcome ErrorType (list byte) :=
  match digitsOf case_ (stripBlanks s) with
  | Some ds => Returned (pairDigits ds)
  | None => Thrown STRING_PARSE_ERROR
  end.

(** *** The encoder in words

    Every byte becomes two hex digits, the high nibble first, upper case
    or lower case as the policy says. *)

Definition digitChar (case_ : Case) (v : Z) : byte :=
  nth (Z.to_nat v)
    (match case_ with
     | LOWERCASE => String.list_byte_of_string "0123456789abcdef"
     | _ => String.list_byte_of_string "0123456789ABCDEF"
     end) x00.

Definition hexDigits (case_ : Case) (s : list byte) : list byte :=
  flat_map (fun c => [digitChar case_ (byteToZ c / 16);
                      digitChar case_ (byteToZ c mod 16)]) s.

(** *** Auxiliary notions for the proofs *)

(** Leading blanks removed: what the inner loop skips. *)
Fixpoint dropBlanks (l : list byte) : list byte :=
  match l with
  | [] => []
  | c :: r => if isBlank c then dropBlanks r else l
  end.

(** The specification started on a suffix, with the output so far. *)
Definition decodeFrom (case_ : Case) (l acc : list byte)
    : Outcome ErrorType (list byte) :=
  match digitsOf case_ (stripBlanks l) with
  | Some ds => Returned (acc ++ pairDigits ds)
  | None => Thrown STRING_PARSE_ERROR
  end.

End Base16.

(** * The loops shared by Base32, Base32Hex, Base64 and Base64Url

    The four namespaces repeat the same nested loops; they differ in the
    width of the bitset, the size of a group, the alphabet tables and the
    [switch] statements that follow the inner loop.  [Base32Hex] is
    [Base32] with other tables and [Base64Url] is [Base64] with other
    tables; their [Error] classes have the same two kinds. *)

Module Rfc4648.

Inductive ErrorType : Type :=
| INTERNAL_STRING_RESERVE_ERROR
| STRING_PARSE_ERROR.

(** What a [DecodeStringToByteBuffer] can throw. *)
Definition Exception : Type := (ErrorType + ByteBuffer.Exception)%type.

(** The branch taken by a decoder's [switch] on [*jter]: a symbol of the
    alphabet with its value, the ['='] case, or [default]. *)
Inductive Symbol : Type :=
| Digit (v : Z)
| Pad
| Invalid.

Section Shape.

Context {E St : Type}.
Variable raise : ErrorType -> E.
Variable put : St -> byte -> Outcome E St.

(** [charSize * 5] or [charSize * 3]: the width of [bitset]. *)
Variable bits : Z.
(** [(charSize * 5) / 8] or [(charSize * 3) / 4]: the bits of a symbol. *)
Variable symbolBits : Z.
(** 5 or 3 bytes, 8 or 4 symbols to a group. *)
Variable groupBytes : nat.
Variable groupSymbols : nat.

Variable encodeSymbol : Z -> Outcome E byte.
Variable decodeSymbol : byte -> Symbol.
(** The encoders' [switch(counter)]. *)
Variable padGroup : Z -> Z -> Outcome E (Z * Z).
(** The decoders' [switch(loopCounter)] and [switch(paddingCounter)]. *)
Variable tailGroup : Z -> Z -> Z -> Outcome E (Z * Z).
Variable decodedBytes : Z -> Z -> Outcome E (list byte).

(** *** Encoding *)

(** [counter += 1U; bitset <<= charSize; bitset |= ...] with the byte
    under [jter]. *)
Definition CollectStep (c : byte) (bitset counter : Z) : Z * Z :=
  (Z.lor (bitsetShl bits bitset 8) (byteToZ c), u32 (counter + 1)).

(** The encoders' inner [for(jter(iter); jter != cend; ++jter)] loop. *)
Fixpoint CollectGroup (fuel : nat) (s : list byte) (iter jter : nat)
    (bitset counter : Z) : Outcome E (nat * Z * Z) :=
  match fuel with
  | O => OutOfFuel
  | S fuel' =>
      if (jter =? length s)%nat then Returned (iter, bitset, counter)
      else
        let (bitset, counter) := CollectStep (nth jter s x00) bitset counter in
        if (S jter =? length s)%nat || (S jter =? iter + groupBytes)%nat
        then Returned (jter, bitset, counter)
        else CollectGroup fuel' s iter (S jter) bitset counter
  end.

(** [for(unsigned int i(1U); i < 9U; ++i)] (or [i < 5U]), over the values
    of [i] still to come. *)
Fixpoint EmitSymbols (indices : list Z) (bitset counter : Z)
    (withPadding_ : bool) (encodedString : list byte)
    : Outcome E (list byte) :=
  match indices with
  | [] => Returned encodedString
  | i :: rest =>
      if counter <? i then
        if withPadding_ then
          let* encodedString := appendChar encodedString "=" in
          EmitSymbols rest bitset counter withPadding_ encodedString
        else Returned encodedString
      else
        let partialBitset :=
          Z.shiftr bitset (bits - symbolBits * i) mod 2 ^ symbolBits in
        let* c := encodeSymbol partialBitset in
        let* encodedString := appendChar encodedString c in
        EmitSymbols rest bitset counter withPadding_ encodedString
  end.

Definition symbolIndices : list Z := map Z.of_nat (seq 1 groupSymbols).

(** The encoders' outer loop. *)
Fixpoint EncodeLoop (fuel : nat) (s : list byte) (withPadding_ : bool)
    (iter : nat) (encodedString : list byte) : Outcome E (list byte) :=
  match fuel with
  | O => OutOfFuel
  | S fuel' =>
      if (iter =? length s)%nat then Returned encodedString
      else
        let* (iter', bitset, counter) :=
          CollectGroup (length s) s iter iter 0 0 in
        let* (bitset, counter) := padGroup bitset counter in
        let* encodedString :=
          EmitSymbols symbolIndices bitset counter withPadding_
            encodedString in
        EncodeLoop fuel' s withPadding_ (S iter') encodedString
  end.

(** *** Decoding *)

(** The body of the decoders' inner loop up to the test that leaves it. *)
Definition DecodeStep (c : byte) (bitset paddingCounter loopCounter : Z)
    : Outcome E (Z * Z * Z) :=
  let loopCounter := u32 (loopCounter + 1) in
  let bitset := bitsetShl bits bitset symbolBits in
  if (0 <? paddingCounter) && negb (Byte.eqb c "=")
  then Thrown (raise STRING_PARSE_ERROR)
  else
    match decodeSymbol c with
    | Digit v => Returned (Z.lor bitset v, paddingCounter, loopCounter)
    | Pad => Returned (bitset, u32 (paddingCounter + 1), loopCounter)
    | Invalid => Thrown (raise STRING_PARSE_ERROR)
    end.

(** The decoders' inner [for(jter(iter); jter != cend; ++jter)] loop. *)
Fixpoint DecodeGroup (fuel : nat) (s : list byte) (iter jter : nat)
    (bitset paddingCounter loopCounter : Z)
    : Outcome E (nat * Z * Z * Z) :=
  match fuel with
  | O => OutOfFuel
  | S fuel' =>
      if (jter =? length s)%nat
      then Returned (iter, bitset, paddingCounter, loopCounter)
      else
        let* (bitset, paddingCounter, loopCounter) :=
          DecodeStep (nth jter s x00) bitset paddingCounter loopCounter in
        if (S jter =? length s)%nat || (S jter =? iter + groupSymbols)%nat
        then Returned (jter, bitset, paddingCounter, loopCounter)
        else DecodeGroup fuel' s iter (S jter) bitset paddingCounter
               loopCounter
  end.

Fixpoint putAll (out : St) (bytes : list byte) : Outcome E St :=
  match bytes with
  | [] => Returned out
  | b :: rest => let* out := put out b in putAll out rest
  end.

(** The decoders' outer loop, left by [break] after a padded group. *)
Fixpoint DecodeLoop (fuel : nat) (s : list byte) (iter : nat) (out : St)
    : Outcome E St :=
  match fuel with
  | O => OutOfFuel
  | S fuel' =>
      if (iter =? length s)%nat then Returned out
      else
        let* (iter', bitset, paddingCounter, loopCounter) :=
          DecodeGroup (length s) s iter iter 0 0 0 in
        let* (bitset, paddingCounter) :=
          tailGroup bitset paddingCounter loopCounter in
        let* bytes := decodedBytes bitset paddingCounter in
        let* out := putAll out bytes in
        if 0 <? paddingCounter then Returned out
        else DecodeLoop fuel' s (S iter') out
  end.

(** *** Auxiliary notions for the proofs: the inner loops as folds *)

(** The decoders' inner loop over the characters of one group. *)
Fixpoint scanSymbols (l : list byte) (bitset paddingCounter loopCounter : Z)
    : Outcome E (Z * Z * Z) :=
  match l with
  | [] => Returned (bitset, paddingCounter, loopCounter)
  | c :: rest =>
      let* (bitset, paddingCounter, loopCounter) :=
        DecodeStep c bitset paddingCounter loopCounter in
      scanSymbols rest bitset paddingCounter loopCounter
  end.

(** The encoders' inner loop over the bytes of one group. *)
Fixpoint collectBytes (l : list byte) (bitset counter : Z) : Z * Z :=
  match l with
  | [] => (bitset, counter)
  | c :: rest =>
      let (bitset, counter) := CollectStep c bitset counter in
      collectBytes rest bitset counter
  end.

(** The bytes of a group as one number, the first byte the most
    significant, on top of [bitset]. *)
Definition bigEndian (l : list byte) (bitset : Z) : Z :=
  fold_left (fun b c => b * 256 + byteToZ c) l bitset.

(** One turn of the encoders' outer loop on the bytes [g] of a group. *)
Definition EncodeGroup (g : list byte) (withPadding_ : bool)
    (encodedString : list byte) : Outcome E (list byte) :=
  let (bitset, counter) := collectBytes g 0 0 in
  let* (bitset, counter) := padGroup bitset counter in
  EmitSymbols symbolIndices bitset counter withPadding_ encodedString.

(** The two ways a decoder is meant to end: with a result, or with the
    parse error. *)
Definition returnsOrRefuses {A : Type} (r : Outcome E A) : Prop :=
  (exists a, r = Returned a) \/ r = Thrown (raise STRING_PARSE_ERROR).

(** A character of the alphabet proper, and its value. *)
Definition isSymbol (c : byte) : bool :=
  match decodeSymbol c with
  | Digit _ => true
  | _ => false
  end.

Definition symbolValue (c : byte) : Z :=
  match decodeSymbol c with
  | Digit v => v
  | _ => 0
  end.

(** The bitset after a run of alphabet symbols. *)
Definition packSymbols (l : list byte) (bitset : Z) : Z :=
  fold_left
    (fun b c => Z.lor (bitsetShl bits b symbolBits) (symbolValue c)) l bitset.

(** The bitset after [k] pad characters. *)
Fixpoint shiftPads (k : nat) (bitset : Z) : Z :=
  match k with
  | O => bitset
  | S k' => shiftPads k' (bitsetShl bits bitset symbolBits)
  end.

(** The bytes a decoder appends for one full group of alphabet symbols. *)
Definition fullGroupBytes (g : list byte) : list byte :=
  match decodedBytes (packSymbols g 0) 0 with
  | Returned bytes => bytes
  | _ => []
  end.

(** The bytes a decoder appends for [k] full groups of alphabet symbols. *)
Fixpoint fullGroupsBytes (k : nat) (p : list byte) : list byte :=
  match k with
  | O => []
  | S k' =>
      fullGroupBytes (firstn groupSymbols p)
        ++ fullGroupsBytes k' (skipn groupSymbols p)
  end.

End Shape.

(** The first [n] symbols of the group held in [bitset]: the [i]-th one
    stands for the [i]-th run of [symbolBits] bits from the top, as
    [symbolOf] writes it. *)
Definition groupSymbolsOf (bits symbolBits : Z) (symbolOf : Z -> byte)
    (n : nat) (bitset : Z) : list byte :=
  map (fun i : nat =>
         symbolOf (Z.shiftr bitset (bits - symbolBits * Z.of_nat i)
                   mod 2 ^ symbolBits))
    (seq 1 n).

(** The character an encoder's table gives for a value. *)
Definition symbolOf (encodeSymbol : Z -> Outcome ErrorType byte) (v : Z)
    : byte :=
  match encodeSymbol v with
  | Returned c => c
  | _ => x00
  end.

(** The symbols of [k] full groups of bytes, when a full group [g] is
    encoded to [symbolsOf g]. *)
Fixpoint symbolsOfGroups (groupBytes : nat)
    (symbolsOf : list byte -> list byte) (k : nat) (l : list byte)
    : list byte :=
  match k with
  | O => []
  | S k' =>
      symbolsOf (firstn groupBytes l)
        ++ symbolsOfGroups groupBytes symbolsOf k' (skipn groupBytes l)
  end.

(** The encoding of [s] in words: the characters of each full group of
    [groupBytes] bytes, then those of the bytes left over, if any. *)
Definition encodingOf (groupBytes : nat)
    (groupOf : list byte -> bool -> list byte) (s : list byte)
    (withPadding_ : bool) : list byte :=
  let k := (length s / groupBytes)%nat in
  symbolsOfGroups groupBytes (fun g => groupOf g withPadding_) k
    (firstn (k * groupBytes) s)
  ++ match skipn (k * groupBytes) s with
     | [] => []
     | g => groupOf g withPadding_
     end.

End Rfc4648.

(** * Radix32: Base32 and Base32Hex *)

Module Radix32.

Import Rfc4648.

Section Switches.

Context {E : Type}.
Variable raise : ErrorType -> E.

(** [switch(counter)] of the encoders. *)
Definition padGroup (bitset counter : Z) : Outcome E (Z * Z) :=
  match counter with
  | 5 => Returned (bitset, 8)
  | 4 => Returned (bitsetShl 40 bitset 8, 7)
  | 3 => Returned (bitsetShl 40 bitset 16, 5)
  | 2 => Returned (bitsetShl 40 bitset 24, 4)
  | 1 => Returned (bitsetShl 40 bitset 32, 2)
  | _ => Terminated
  end.

(** [switch(loopCounter)] of the decoders. *)
Definition tailGroup (bitset paddingCounter loopCounter : Z)
    : Outcome E (Z * Z) :=
  match loopCounter with
  | 8 => Returned (bitset, paddingCounter)
  | 7 =>
      let bitset := bitsetShl 40 bitset 5 in
      match paddingCounter with
      | 5 => Returned (bitset, 6)
      | 3 => Returned (bitset, 4)
      | 2 => Returned (bitset, 3)
      | 0 => Returned (bitset, 1)
      | _ => Thrown (raise STRING_PARSE_ERROR)
      end
  | 6 =>
      let bitset := bitsetShl 40 bitset 10 in
      match paddingCounter with
      | 4 => Returned (bitset, 6)
      | 2 => Returned (bitset, 4)
      | 1 => Returned (bitset, 3)
      | _ => Thrown (raise STRING_PARSE_ERROR)
      end
  | 5 =>
      let bitset := bitsetShl 40 bitset 15 in
      match paddingCounter with
      | 3 => Returned (bitset, 6)
      | 1 => Returned (bitset, 4)
      | 0 => Returned (bitset, 3)
      | _ => Thrown (raise STRING_PARSE_ERROR)
      end
  | 4 =>
      let bitset := bitsetShl 40 bitset 20 in
      match paddingCounter with
      | 2 => Returned (bitset, 6)
      | 0 => Returned (bitset, 4)
      | _ => Thrown (raise STRING_PARSE_ERROR)
      end
  | 3 =>
      let bitset := bitsetShl 40 bitset 25 in
      match paddingCounter with
      | 1 => Returned (bitset, 6)
      | _ => Thrown (raise STRING_PARSE_ERROR)
      end
  | 2 =>
      let bitset := bitsetShl 40 bitset 30 in
      match paddingCounter with
      | 0 => Returned (bitset, 6)
      | _ => Thrown (raise STRING_PARSE_ERROR)
      end
  | 1 => Thrown (raise STRING_PARSE_ERROR)
  | _ => Terminated
  end.

(** [switch(paddingCounter)] of the decoders: the bytes appended. *)
Definition decodedBytes (bitset paddingCounter : Z)
    : Outcome E (list byte) :=
  match paddingCounter with
  | 0 =>
      Returned [byteOfZ (Z.shiftr bitset 32);
                 byteOfZ (Z.shiftr bitset 24);
                 byteOfZ (Z.shiftr bitset 16);
                 byteOfZ (Z.shiftr bitset 8);
                 byteOfZ (Z.shiftr bitset 0)]
  | 1 =>
      Returned [byteOfZ (Z.shiftr bitset 32);
                 byteOfZ (Z.shiftr bitset 24);
                 byteOfZ (Z.shiftr bitset 16);
                 byteOfZ (Z.shiftr bitset 8)]
  | 3 =>
      Returned [byteOfZ (Z.shiftr bitset 32);
                 byteOfZ (Z.shiftr bitset 24);
                 byteOfZ (Z.shiftr bitset 16)]
  | 4 =>
      Returned [byteOfZ (Z.shiftr bitset 32);
                 byteOfZ (Z.shiftr bitset 24)]
  | 6 =>
      Returned [byteOfZ (Z.shiftr bitset 32)]
  | _ => Thrown (raise STRING_PARSE_ERROR)
  end.

End Switches.

Section Alphabet.

Variable encodeSymbol : Z -> Outcome ErrorType byte.
Variable decodeSymbol : byte -> Symbol.

Definition EncodeStringToString (string_ : list byte) (withPadding_ : bool)
    : Outcome ErrorType (list byte) :=
  EncodeLoop 40 5 5 8 encodeSymbol padGroup
    (S (length string_)) string_ withPadding_ 0 [].

(** The characters of a group of one to five bytes, in words (RFC 4648,
    section 6): the bytes, filled up with zero bits to 40 bits, are cut
    into runs of 5 bits; as many runs as hold a bit of the bytes are
    written as symbols, and pad characters fill the group up to 8
    characters when padding is asked for. *)
Definition groupOf (g : list byte) (withPadding_ : bool) : list byte :=
  let n := ((8 * length g + 4) / 5)%nat in
  groupSymbolsOf 40 5 (symbolOf encodeSymbol) n
    (bigEndian g 0 * 2 ^ (8 * Z.of_nat (5 - length g)))
  ++ if withPadding_ then repeat "="%byte (8 - n) else [].

Definition EncodeByteBufferToString (byteBuffer_ : ByteBuffer.ByteBuffer)
    (withPadding_ : bool) : Outcome ErrorType (list byte) :=
  EncodeStringToString (ByteBuffer.contents byteBuffer_) withPadding_.

Definition DecodeStringToString (encodedString_ : list byte)
    : Outcome ErrorType (list byte) :=
  DecodeLoop (fun e => e) appendChar 40 5 8 decodeSymbol
    (tailGroup (fun e => e)) (decodedBytes (fun e => e))
    (S (length encodedString_)) encodedString_ 0 [].

Definition DecodeStringToByteBuffer (encodedString_ : list byte)
    (h : ByteBuffer.Heap) : Outcome Exception ByteBuffer.ByteBuffer :=
  let* st := lift inr (ByteBuffer.newStaging h) in
  let* st :=
    DecodeLoop inl (fun st c => lift inr (ByteBuffer.addToByteBuffer st c))
      40 5 8 decodeSymbol (tailGroup inl) (decodedBytes inl)
      (S (length encodedString_)) encodedString_ 0 st in
  lift inr (ByteBuffer.finishStaging st).

End Alphabet.


End Radix32.

(** * Radix64: Base64 and Base64Url *)

Module Radix64.

Import Rfc4648.

Section Switches.

Context {E : Type}.
Variable raise : ErrorType -> E.

(** [switch(counter)] of the encoders. *)
Definition padGroup (bitset counter : Z) : Outcome E (Z * Z) :=
  match counter with
  | 3 => Returned (bitset, 4)
  | 2 => Returned (bitsetShl 24 bitset 8, 3)
  | 1 => Returned (bitsetShl 24 bitset 16, 2)
  | _ => Terminated
  end.

(** [switch(loopCounter)] of the decoders. *)
Definition tailGroup (bitset paddingCounter loopCounter : Z)
    : Outcome E (Z * Z) :=
  match loopCounter with
  | 4 => Returned (bitset, paddingCounter)
  | 3 =>
      let bitset := bitsetShl 24 bitset 6 in
      match paddingCounter with
      | 1 => Returned (bitset, 2)
      | 0 => Returned (bitset, 1)
      | _ => Thrown (raise STRING_PARSE_ERROR)
      end
  | 2 =>
      let bitset := bitsetShl 24 bitset 12 in
      match paddingCounter with
      | 0 => Returned (bitset, 2)
      | _ => Thrown (raise STRING_PARSE_ERROR)
      end
  | 1 => Thrown (raise STRING_PARSE_ERROR)
  | _ => Terminated
  end.

(** [switch(paddingCounter)] of the decoders: the bytes appended. *)
Definition decodedBytes (bitset paddingCounter : Z)
    : Outcome E (list byte) :=
  match paddingCounter with
  | 0 =>
      Returned [byteOfZ (Z.shiftr bitset 16);
                 byteOfZ (Z.shiftr bitset 8);
                 byteOfZ (Z.shiftr bitset 0)]
  | 1 =>
      Returned [byteOfZ (Z.shiftr bitset 16);
                 byteOfZ (Z.shiftr bitset 8)]
  | 2 =>
      Returned [byteOfZ (Z.shiftr bitset 16)]
  | _ => Thrown (raise STRING_PARSE_ERROR)
  end.

End Switches.

Section Alphabet.

Variable encodeSymbol : Z -> Outcome ErrorType byte.
Variable decodeSymbol : byte -> Symbol.

Definition EncodeStringToString (string_ : list byte) (withPadding_ : bool)
    : Outcome ErrorType (list byte) :=
  EncodeLoop 24 6 3 4 encodeSymbol padGroup
    (S (length string_)) string_ withPadding_ 0 [].

(** The characters of a group of one to three bytes, in words (RFC 4648,
    section 4): the bytes, filled up with zero bits to 24 bits, are cut
    into runs of 6 bits; as many runs as hold a bit of the bytes are
    written as symbols, and pad characters fill the group up to 4
    characters when padding is asked for. *)
Definition groupOf (g : list byte) (withPadding_ : bool) : list byte :=
  let n := ((8 * length g + 5) / 6)%nat in
  groupSymbolsOf 24 6 (symbolOf encodeSymbol) n
    (bigEndian g 0 * 2 ^ (8 * Z.of_nat (3 - length g)))
  ++ if withPadding_ then repeat "="%byte (4 - n) else [].

Definition EncodeByteBufferToString (byteBuffer_ : ByteBuffer.ByteBuffer)
    (withPadding_ : bool) : Outcome ErrorType (list byte) :=
  EncodeStringToString (ByteBuffer.contents byteBuffer_) withPadding_.

Definition DecodeStringToString (encodedString_ : list byte)
    : Outcome ErrorType (list byte) :=
  DecodeLoop (fun e => e) appendChar 24 6 4 decodeSymbol
    (tailGroup (fun e => e)) (decodedBytes (fun e => e))
    (S (length encodedString_)) encodedString_ 0 [].

Definition DecodeStringToByteBuffer (encodedString_ : list byte)
    (h : ByteBuffer.Heap) : Outcome Exception ByteBuffer.ByteBuffer :=
  let* st := lift inr (ByteBuffer.newStaging h) in
  let* st :=
    DecodeLoop inl (fun st c => lift inr (ByteBuffer.addToByteBuffer st c))
      24 6 4 decodeSymbol (tailGroup inl) (decodedBytes inl)
      (S (length encodedString_)) encodedString_ 0 st in
  lift inr (ByteBuffer.finishStaging st).

End Alphabet.

End Radix64.

(** * Base32 (lines 1576-2269) *)

Module Base32.

(** [switch(partialBitset.to_ullong())] of the encoders. *)
Definition encodeSymbol {E : Type} (v : Z) : Outcome E byte :=
  match v with
  | 0 => Returned "A" | 1 => Returned "B" | 2 => Returned "C"
  | 3 => Returned "D" | 4 => Returned "E" | 5 => Returned "F"
  | 6 => Returned "G" | 7 => Returned "H" | 8 => Returned "I"
  | 9 => Returned "J" | 10 => Returned "K" | 11 => Returned "L"
  | 12 => Returned "M" | 13 => Returned "N" | 14 => Returned "O"
  | 15 => Returned "P" | 16 => Returned "Q" | 17 => Returned "R"
  | 18 => Returned "S" | 19 => Returned "T" | 20 => Returned "U"
  | 21 => Returned "V" | 22 => Returned "W" | 23 => Returned "X"
  | 24 => Returned "Y" | 25 => Returned "Z" | 26 => Returned "2"
  | 27 => Returned "3" | 28 => Returned "4" | 29 => Returned "5"
  | 30 => Returned "6" | 31 => Returned "7"
  | _ => Terminated
  end.

(** [switch] on [*jter] of the decoders. *)
Definition decodeSymbol (c : byte) : Rfc4648.Symbol :=
  match c with
  | "A" => Rfc4648.Digit 0 | "B" => Rfc4648.Digit 1 | "C" => Rfc4648.Digit 2 | "D" => Rfc4648.Digit 3
  | "E" => Rfc4648.Digit 4 | "F" => Rfc4648.Digit 5 | "G" => Rfc4648.Digit 6 | "H" => Rfc4648.Digit 7
  | "I" => Rfc4648.Digit 8 | "J" => Rfc4648.Digit 9 | "K" => Rfc4648.Digit 10 | "L" => Rfc4648.Digit 11
  | "M" => Rfc4648.Digit 12 | "N" => Rfc4648.Digit 13 | "O" => Rfc4648.Digit 14 | "P" => Rfc4648.Digit 15
  | "Q" => Rfc4648.Digit 16 | "R" => Rfc4648.Digit 17 | "S" => Rfc4648.Digit 18 | "T" => Rfc4648.Digit 19
  | "U" => Rfc4648.Digit 20 | "V" => Rfc4648.Digit 21 | "W" => Rfc4648.Digit 22 | "X" => Rfc4648.Digit 23
  | "Y" => Rfc4648.Digit 24 | "Z" => Rfc4648.Digit 25 | "2" => Rfc4648.Digit 26 | "3" => Rfc4648.Digit 27
  | "4" => Rfc4648.Digit 28 | "5" => Rfc4648.Digit 29 | "6" => Rfc4648.Digit 30 | "7" => Rfc4648.Digit 31
  | "=" => Rfc4648.Pad
  | _ => Rfc4648.Invalid
  end%byte.

Definition EncodeStringToString :=
  Radix32.EncodeStringToString encodeSymbol.
Definition EncodeByteBufferToString :=
  Radix32.EncodeByteBufferToString encodeSymbol.
Definition DecodeStringToString :=
  Radix32.DecodeStringToString decodeSymbol.
Definition DecodeStringToByteBuffer :=
  Radix32.DecodeStringToByteBuffer decodeSymbol.

End Base32.

(** * Base32Hex (lines 2272-2965) *)

Module Base32Hex.

(** [switch(partialBitset.to_ullong())] of the encoders. *)
Definition encodeSymbol {E : Type} (v : Z) : Outcome E byte :=
  match v with
  | 0 => Returned "0" | 1 => Returned "1" | 2 => Returned "2"
  | 3 => Returned "3" | 4 => Returned "4" | 5 => Returned "5"
  | 6 => Returned "6" | 7 => Returned "7" | 8 => Returned "8"
  | 9 => Returned "9" | 10 => Returned "A" | 11 => Returned "B"
  | 12 => Returned "C" | 13 => Returned "D" | 14 => Returned "E"
  | 15 => Returned "F" | 16 => Returned "G" | 17 => Returned "H"
  | 18 => Returned "I" | 19 => Returned "J" | 20 => Returned "K"
  | 21 => Returned "L" | 22 => Returned "M" | 23 => Returned "N"
  | 24 => Returned "O" | 25 => Returned "P" | 26 => Returned "Q"
  | 27 => Returned "R" | 28 => Returned "S" | 29 => Returned "T"
  | 30 => Returned "U" | 31 => Returned "V"
  | _ => Terminated
  end.

(** [switch] on [*jter] of the decoders. *)
Definition decodeSymbol (c : byte) : Rfc4648.Symbol :=
  match c with
  | "0" => Rfc4648.Digit 0 | "1" => Rfc4648.Digit 1 | "2" => Rfc4648.Digit 2 | "3" => Rfc4648.Digit 3
  | "4" => Rfc4648.Digit 4 | "5" => Rfc4648.Digit 5 | "6" => Rfc4648.Digit 6 | "7" => Rfc4648.Digit 7
  | "8" => Rfc4648.Digit 8 | "9" => Rfc4648.Digit 9 | "A" => Rfc4648.Digit 10 | "B" => Rfc4648.Digit 11
  | "C" => Rfc4648.Digit 12 | "D" => Rfc4648.Digit 13 | "E" => Rfc4648.Digit 14 | "F" => Rfc4648.Digit 15
  | "G" => Rfc4648.Digit 16 | "H" => Rfc4648.Digit 17 | "I" => Rfc4648.Digit 18 | "J" => Rfc4648.Digit 19
  | "K" => Rfc4648.Digit 20 | "L" => Rfc4648.Digit 21 | "M" => Rfc4648.Digit 22 | "N" => Rfc4648.Digit 23
  | "O" => Rfc4648.Digit 24 | "P" => Rfc4648.Digit 25 | "Q" => Rfc4648.Digit 26 | "R" => Rfc4648.Digit 27
  | "S" => Rfc4648.Digit 28 | "T" => Rfc4648.Digit 29 | "U" => Rfc4648.Digit 30 | "V" => Rfc4648.Digit 31
  | "=" => Rfc4648.Pad
  | _ => Rfc4648.Invalid
  end%byte.

Definition EncodeStringToString :=
  Radix32.EncodeStringToString encodeSymbol.
Definition EncodeByteBufferToString :=
  Radix32.EncodeByteBufferToString encodeSymbol.
Definition DecodeStringToString :=
  Radix32.DecodeStringToString decodeSymbol.
Definition DecodeStringToByteBuffer :=
  Radix32.DecodeStringToByteBuffer decodeSymbol.

End Base32Hex.

(** * Base64 (lines 2968-3637) *)

Module Base64.

(** [switch(partialBitset.to_ullong())] of the encoders. *)
Definition encodeSymbol {E : Type} (v : Z) : Outcome E byte :=
  match v with
  | 0 => Returned "A" | 1 => Returned "B" | 2 => Returned "C"
  | 3 => Returned "D" | 4 => Returned "E" | 5 => Returned "F"
  | 6 => Returned "G" | 7 => Returned "H" | 8 => Returned "I"
  | 9 => Returned "J" | 10 => Returned "K" | 11 => Returned "L"
  | 12 => Returned "M" | 13 => Returned "N" | 14 => Returned "O"
  | 15 => Returned "P" | 16 => Returned "Q" | 17 => Returned "R"
  | 18 => Returned "S" | 19 => Returned "T" | 20 => Returned "U"
  | 21 => Returned "V" | 22 => Returned "W" | 23 => Returned "X"
  | 24 => Returned "Y" | 25 => Returned "Z" | 26 => Returned "a"
  | 27 => Returned "b" | 28 => Returned "c" | 29 => Returned "d"
  | 30 => Returned "e" | 31 => Returned "f" | 32 => Returned "g"
  | 33 => Returned "h" | 34 => Returned "i" | 35 => Returned "j"
  | 36 => Returned "k" | 37 => Returned "l" | 38 => Returned "m"
  | 39 => Returned "n" | 40 => Returned "o" | 41 => Returned "p"
  | 42 => Returned "q" | 43 => Returned "r" | 44 => Returned "s"
  | 45 => Returned "t" | 46 => Returned "u" | 47 => Returned "v"
  | 48 => Returned "w" | 49 => Returned "x" | 50 => Returned "y"
  | 51 => Returned "z" | 52 => Returned "0" | 53 => Returned "1"
  | 54 => Returned "2" | 55 => Returned "3" | 56 => Returned "4"
  | 57 => Returned "5" | 58 => Returned "6" | 59 => Returned "7"
  | 60 => Returned "8" | 61 => Returned "9" | 62 => Returned "+"
  | 63 => Returned "/"
  | _ => Terminated
  end.

(** [switch] on [*jter] of the decoders. *)
Definition decodeSymbol (c : byte) : Rfc4648.Symbol :=
  match c with
  | "A" => Rfc4648.Digit 0 | "B" => Rfc4648.Digit 1 | "C" => Rfc4648.Digit 2 | "D" => Rfc4648.Digit 3
  | "E" => Rfc4648.Digit 4 | "F" => Rfc4648.Digit 5 | "G" => Rfc4648.Digit 6 | "H" => Rfc4648.Digit 7
  | "I" => Rfc4648.Digit 8 | "J" => Rfc4648.Digit 9 | "K" => Rfc4648.Digit 10 | "L" => Rfc4648.Digit 11
  | "M" => Rfc4648.Digit 12 | "N" => Rfc4648.Digit 13 | "O" => Rfc4648.Digit 14 | "P" => Rfc4648.Digit 15
  | "Q" => Rfc4648.Digit 16 | "R" => Rfc4648.Digit 17 | "S" => Rfc4648.Digit 18 | "T" => Rfc4648.Digit 19
  | "U" => Rfc4648.Digit 20 | "V" => Rfc4648.Digit 21 | "W" => Rfc4648.Digit 22 | "X" => Rfc4648.Digit 23
  | "Y" => Rfc4648.Digit 24 | "Z" => Rfc4648.Digit 25 | "a" => Rfc4648.Digit 26 | "b" => Rfc4648.Digit 27
  | "c" => Rfc4648.Digit 28 | "d" => Rfc4648.Digit 29 | "e" => Rfc4648.Digit 30 | "f" => Rfc4648.Digit 31
  | "g" => Rfc4648.Digit 32 | "h" => Rfc4648.Digit 33 | "i" => Rfc4648.Digit 34 | "j" => Rfc4648.Digit 35
  | "k" => Rfc4648.Digit 36 | "l" => Rfc4648.Digit 37 | "m" => Rfc4648.Digit 38 | "n" => Rfc4648.Digit 39
  | "o" => Rfc4648.Digit 40 | "p" => Rfc4648.Digit 41 | "q" => Rfc4648.Digit 42 | "r" => Rfc4648.Digit 43
  | "s" => Rfc4648.Digit 44 | "t" => Rfc4648.Digit 45 | "u" => Rfc4648.Digit 46 | "v" => Rfc4648.Digit 47
  | "w" => Rfc4648.Digit 48 | "x" => Rfc4648.Digit 49 | "y" => Rfc4648.Digit 50 | "z" => Rfc4648.Digit 51
  | "0" => Rfc4648.Digit 52 | "1" => Rfc4648.Digit 53 | "2" => Rfc4648.Digit 54 | "3" => Rfc4648.Digit 55
  | "4" => Rfc4648.Digit 56 | "5" => Rfc4648.Digit 57 | "6" => Rfc4648.Digit 58 | "7" => Rfc4648.Digit 59
  | "8" => Rfc4648.Digit 60 | "9" => Rfc4648.Digit 61 | "+" => Rfc4648.Digit 62 | "/" => Rfc4648.Digit 63
  | "=" => Rfc4648.Pad
  | _ => Rfc4648.Invalid
  end%byte.

Definition EncodeStringToString :=
  Radix64.EncodeStringToString encodeSymbol.
Definition EncodeByteBufferToString :=
  Radix64.EncodeByteBufferToString encodeSymbol.
Definition DecodeStringToString :=
  Radix64.DecodeStringToString decodeSymbol.
Definition DecodeStringToByteBuffer :=
  Radix64.DecodeStringToByteBuffer decodeSymbol.

End Base64.

(** * Base64Url (lines 3640-4309) *)

Module Base64Url.

(** [switch(partialBitset.to_ullong())] of the encoders. *)
Definition encodeSymbol {E : Type} (v : Z) : Outcome E byte :=
  match v with
  | 0 => Returned "A" | 1 => Returned "B" | 2 => Returned "C"
  | 3 => Returned "D" | 4 => Returned "E" | 5 => Returned "F"
  | 6 => Returned "G" | 7 => Returned "H" | 8 => Returned "I"
  | 9 => Returned "J" | 10 => Returned "K" | 11 => Returned "L"
  | 12 => Returned "M" | 13 => Returned "N" | 14 => Returned "O"
  | 15 => Returned "P" | 16 => Returned "Q" | 17 => Returned "R"
  | 18 => Returned "S" | 19 => Returned "T" | 20 => Returned "U"
  | 21 => Returned "V" | 22 => Returned "W" | 23 => Returned "X"
  | 24 => Returned "Y" | 25 => Returned "Z" | 26 => Returned "a"
  | 27 => Returned "b" | 28 => Returned "c" | 29 => Returned "d"
  | 30 => Returned "e" | 31 => Returned "f" | 32 => Returned "g"
  | 33 => Returned "h" | 34 => Returned "i" | 35 => Returned "j"
  | 36 => Returned "k" | 37 => Returned "l" | 38 => Returned "m"
  | 39 => Returned "n" | 40 => Returned "o" | 41 => Returned "p"
  | 42 => Returned "q" | 43 => Returned "r" | 44 => Returned "s"
  | 45 => Returned "t" | 46 => Returned "u" | 47 => Returned "v"
  | 48 => Returned "w" | 49 => Returned "x" | 50 => Returned "y"
  | 51 => Returned "z" | 52 => Returned "0" | 53 => Returned "1"
  | 54 => Returned "2" | 55 => Returned "3" | 56 => Returned "4"
  | 57 => Returned "5" | 58 => Returned "6" | 59 => Returned "7"
  | 60 => Returned "8" | 61 => Returned "9" | 62 => Returned "-"
  | 63 => Returned "_"
  | _ => Terminated
  end.

(** [switch] on [*jter] of the decoders. *)
Definition decodeSymbol (c : byte) : Rfc4648.Symbol :=
  match c with
  | "A" => Rfc4648.Digit 0 | "B" => Rfc4648.Digit 1 | "C" => Rfc4648.Digit 2 | "D" => Rfc4648.Digit 3
  | "E" => Rfc4648.Digit 4 | "F" => Rfc4648.Digit 5 | "G" => Rfc4648.Digit 6 | "H" => Rfc4648.Digit 7
  | "I" => Rfc4648.Digit 8 | "J" => Rfc4648.Digit 9 | "K" => Rfc4648.Digit 10 | "L" => Rfc4648.Digit 11
  | "M" => Rfc4648.Digit 12 | "N" => Rfc4648.Digit 13 | "O" => Rfc4648.Digit 14 | "P" => Rfc4648.Digit 15
  | "Q" => Rfc4648.Digit 16 | "R" => Rfc4648.Digit 17 | "S" => Rfc4648.Digit 18 | "T" => Rfc4648.Digit 19
  | "U" => Rfc4648.Digit 20 | "V" => Rfc4648.Digit 21 | "W" => Rfc4648.Digit 22 | "X" => Rfc4648.Digit 23
  | "Y" => Rfc4648.Digit 24 | "Z" => Rfc4648.Digit 25 | "a" => Rfc4648.Digit 26 | "b" => Rfc4648.Digit 27
  | "c" => Rfc4648.Digit 28 | "d" => Rfc4648.Digit 29 | "e" => Rfc4648.Digit 30 | "f" => Rfc4648.Digit 31
  | "g" => Rfc4648.Digit 32 | "h" => Rfc4648.Digit 33 | "i" => Rfc4648.Digit 34 | "j" => Rfc4648.Digit 35
  | "k" => Rfc4648.Digit 36 | "l" => Rfc4648.Digit 37 | "m" => Rfc4648.Digit 38 | "n" => Rfc4648.Digit 39
  | "o" => Rfc4648.Digit 40 | "p" => Rfc4648.Digit 41 | "q" => Rfc4648.Digit 42 | "r" => Rfc4648.Digit 43
  | "s" => Rfc4648.Digit 44 | "t" => Rfc4648.Digit 45 | "u" => Rfc4648.Digit 46 | "v" => Rfc4648.Digit 47
  | "w" => Rfc4648.Digit 48 | "x" => Rfc4648.Digit 49 | "y" => Rfc4648.Digit 50 | "z" => Rfc4648.Digit 51
  | "0" => Rfc4648.Digit 52 | "1" => Rfc4648.Digit 53 | "2" => Rfc4648.Digit 54 | "3" => Rfc4648.Digit 55
  | "4" => Rfc4648.Digit 56 | "5" => Rfc4648.Digit 57 | "6" => Rfc4648.Digit 58 | "7" => Rfc4648.Digit 59
  | "8" => Rfc4648.Digit 60 | "9" => Rfc4648.Digit 61 | "-" => Rfc4648.Digit 62 | "_" => Rfc4648.Digit 63
  | "=" => Rfc4648.Pad
  | _ => Rfc4648.Invalid
  end%byte.

Definition EncodeStringToString :=
  Radix64.EncodeStringToString encodeSymbol.
Definition EncodeByteBufferToString :=
  Radix64.EncodeByteBufferToString encodeSymbol.
Definition DecodeStringToString :=
  Radix64.DecodeStringToString decodeSymbol.
Definition DecodeStringToByteBuffer :=
  Radix64.DecodeStringToByteBuffer decodeSymbol.

End Base64Url.

(** * Ascii85 (lines 4312-4878) *)

Module Ascii85.

Inductive ErrorType : Type :=
| INTERNAL_STRING_RESERVE_ERROR
| STRING_PARSE_ERROR.

(** What [DecodeStringToByteBuffer] can throw. *)
Definition Exception : Type := (ErrorType + ByteBuffer.Exception)%type.

(** [unsigned long long] arithmetic. *)
Definition u64 (z : Z) : Z := z mod 2 ^ 64.

(** *** Encoding *)

(** [switch(counter)] of the encoders (lines 4408-4414): a full group
    resets [counter] to zero, a ragged one is shifted to the top. *)
Definition padGroup (bitset counter : Z) : Outcome ErrorType (Z * Z) :=
  match counter with
  | 4 => Returned (bitset, 0)
  | 3 => Returned (bitsetShl 32 bitset 8, counter)
  | 2 => Returned (bitsetShl 32 bitset 16, counter)
  | 1 => Returned (bitsetShl 32 bitset 24, counter)
  | _ => Terminated
  end.

(** The first loop over [codes]: five times [*jter = bitsetNumber % 85]
    and [bitsetNumber = floor(double(bitsetNumber) / 85.0)], least
    significant digit first.  [bitsetNumber] is below [2^32], so the
    conversion to [double] is exact and the floored quotient is the integer
    quotient. *)
Fixpoint radix85 (n : nat) (bitsetNumber : Z) : list Z :=
  match n with
  | O => []
  | S n' => bitsetNumber mod 85 :: radix85 n' (bitsetNumber / 85)
  end.

(** The five digits appended most significant first, each plus 33, then
    [erase] of the last [4 - counter] characters unless that is 4. *)
Definition appendDigits (bitset counter : Z) (encodedString : list byte)
    : list byte :=
  let codes := radix85 5 bitset in
  let encodedString :=
    encodedString ++ map (fun code => byteOfZ (code + 33)) (rev codes) in
  if u32 (4 - counter) =? 4 then encodedString
  else firstn (length encodedString - Z.to_nat (u32 (4 - counter)))
         encodedString.

(** The statements after the inner loop (lines 4408-4436). *)
Definition EncodeGroup (foldSpaces_ : bool) (bitset counter : Z)
    (encodedString : list byte) : Outcome ErrorType (list byte) :=
  let* (bitset, counter) := padGroup bitset counter in
  if bitset =? 0 then appendChar encodedString "z"
  else if (bitset =? 0x20202020) && foldSpaces_
  then appendChar encodedString "y"
  else Returned (appendDigits bitset counter encodedString).

(** The outer loop; its inner loop is, statement for statement, the
    byte-collecting loop of the other encoders on a 32-bit bitset with
    groups of four bytes. *)
Fixpoint EncodeLoop (fuel : nat) (s : list byte) (foldSpaces_ : bool)
    (iter : nat) (encodedString : list byte)
    : Outcome ErrorType (list byte) :=
  match fuel with
  | O => OutOfFuel
  | S fuel' =>
      if (iter =? length s)%nat then Returned encodedString
      else
        let* (iter', bitset, counter) :=
          Rfc4648.CollectGroup 32 4 (length s) s iter iter 0 0 in
        let* encodedString :=
          EncodeGroup foldSpaces_ bitset counter encodedString in
        EncodeLoop fuel' s foldSpaces_ (S iter') encodedString
  end.

Definition EncodeStringToString (string_ : list byte)
    (foldSpaces_ adobeMode_ : bool) : Outcome ErrorType (list byte) :=
  let encodedString := if adobeMode_ then ["<"; "~"] else [] in
  let* encodedString :=
    EncodeLoop (S (length string_)) string_ foldSpaces_ 0 encodedString in
  Returned (if adobeMode_ then encodedString ++ ["~"; ">"]
            else encodedString).

Definition EncodeByteBufferToString (byteBuffer_ : ByteBuffer.ByteBuffer)
    (foldSpaces_ adobeMode_ : bool) : Outcome ErrorType (list byte) :=
  EncodeStringToString (ByteBuffer.contents byteBuffer_) foldSpaces_
    adobeMode_.

(** *** Decoding *)

Section Decoder.

Context {E St : Type}.
Variable raise : ErrorType -> E.
Variable put : St -> byte -> Outcome E St.
(** What the surface does on a ['z'] met outside a group: the string
    surface has [continue;] with the append commented out (line 4596),
    the buffer surface adds four zero bytes (lines 4777-4783). *)
Variable putZeros : St -> Outcome E St.

(** Adobe mode, first loop (lines 4547-4561): the index just after the
    opening delimiter.  Reading one past the last character yields the
    terminating zero of the string. *)
Fixpoint FindBegin (fuel : nat) (s : list byte) (iter : nat)
    : Outcome E nat :=
  match fuel with
  | O => OutOfFuel
  | S fuel' =>
      if (iter =? length s)%nat then Returned 0%nat
      else
        let c := nth iter s x00 in
        if Byte.eqb c "<" && Byte.eqb (nth (S iter) s x00) "~"
           && negb (iter + 2 =? length s)%nat
        then Returned (iter + 2)%nat
        else if isBlank c then
          if (S iter =? length s)%nat then Thrown (raise STRING_PARSE_ERROR)
          else FindBegin fuel' s (S iter)
        else Thrown (raise STRING_PARSE_ERROR)
  end.

(** Adobe mode, second loop (lines 4563-4577), over reverse iterators:
    [riter] counts from the last character.  The result is the index of
    the closing delimiter, [std::next(iter, 2).base()]. *)
Fixpoint FindEnd (fuel : nat) (s : list byte) (riter : nat)
    : Outcome E nat :=
  match fuel with
  | O => OutOfFuel
  | S fuel' =>
      if (riter =? length s)%nat then Returned (length s)
      else
        let c := nth riter (rev s) x00 in
        if Byte.eqb c ">" && Byte.eqb (nth (S riter) (rev s) x00) "~"
           && negb (riter + 2 =? length s)%nat
        then Returned (length s - (riter + 2))%nat
        else if isBlank c then
          if (S riter =? length s)%nat then Thrown (raise STRING_PARSE_ERROR)
          else FindEnd fuel' s (S riter)
        else Thrown (raise STRING_PARSE_ERROR)
  end.

(** [switch(counter)] inside the inner loop (lines 4614-4621). *)
Definition addDigit (bitsetNumber partialBitsetNumber counter : Z)
    : Outcome E Z :=
  match counter with
  | 1 => Returned (u64 (bitsetNumber
                        + (partialBitsetNumber - 33) * (85 * 85 * 85 * 85)))
  | 2 => Returned (u64 (bitsetNumber
                        + (partialBitsetNumber - 33) * (85 * 85 * 85)))
  | 3 => Returned (u64 (bitsetNumber + (partialBitsetNumber - 33) * (85 * 85)))
  | 4 => Returned (u64 (bitsetNumber + (partialBitsetNumber - 33) * 85))
  | 5 => Returned (u64 (bitsetNumber + (partialBitsetNumber - 33)))
  | _ => Terminated
  end.

(** The inner loop (lines 4598-4630); note that its condition tests
    [iter], not [jter]. *)
Fixpoint DecodeGroup (fuel : nat) (s : list byte) (encodedStringEnd : nat)
    (iter jter : nat) (bitsetNumber counter : Z)
    : Outcome E (nat * Z * Z) :=
  match fuel with
  | O => OutOfFuel
  | S fuel' =>
      if (iter =? encodedStringEnd)%nat
      then Returned (iter, bitsetNumber, counter)
      else
        let c := nth jter s x00 in
        if isBlank c then
          if (S jter =? encodedStringEnd)%nat
          then Returned (iter, bitsetNumber, counter)
          else DecodeGroup fuel' s encodedStringEnd (S iter) (S jter)
                 bitsetNumber counter
        else
          let partialBitsetNumber := byteToZ c in
          let counter := u32 (counter + 1) in
          if (partialBitsetNumber <? 33) || (partialBitsetNumber >? 117)
          then Thrown (raise STRING_PARSE_ERROR)
          else
            let* bitsetNumber :=
              addDigit bitsetNumber partialBitsetNumber counter in
            if (S jter =? encodedStringEnd)%nat || (S jter =? iter + 5)%nat
            then Returned (jter, bitsetNumber, counter)
            else DecodeGroup fuel' s encodedStringEnd iter (S jter)
                   bitsetNumber counter
  end.

(** [while(counter < 5U)] (lines 4637-4648): missing digits count as 84. *)
Fixpoint PadDigits (fuel : nat) (bitsetNumber counter : Z) : Outcome E Z :=
  match fuel with
  | O => OutOfFuel
  | S fuel' =>
      if counter <? 5 then
        let counter := u32 (counter + 1) in
        let* bitsetNumber :=
          match counter with
          | 1 => Returned (u64 (bitsetNumber + 84 * 85 * 85 * 85 * 85))
          | 2 => Returned (u64 (bitsetNumber + 84 * 85 * 85 * 85))
          | 3 => Returned (u64 (bitsetNumber + 84 * 85 * 85))
          | 4 => Returned (u64 (bitsetNumber + 84 * 85))
          | 5 => Returned (u64 (bitsetNumber + 84))
          | _ => Terminated
          end in
        PadDigits fuel' bitsetNumber counter
      else Returned bitsetNumber
  end.

(** [switch(counter)] on the number of missing digits (lines 4655-4680):
    the bytes appended. *)
Definition decodedBytes (bitset counter : Z) : Outcome E (list byte) :=
  match counter with
  | 0 =>
      Returned [byteOfZ (Z.shiftr bitset 24); byteOfZ (Z.shiftr bitset 16);
                byteOfZ (Z.shiftr bitset 8); byteOfZ bitset]
  | 1 =>
      Returned [byteOfZ (Z.shiftr bitset 24); byteOfZ (Z.shiftr bitset 16);
                byteOfZ (Z.shiftr bitset 8)]
  | 2 => Returned [byteOfZ (Z.shiftr bitset 24); byteOfZ (Z.shiftr bitset 16)]
  | 3 => Returned [byteOfZ (Z.shiftr bitset 24)]
  | 4 => Returned []
  | _ => Terminated
  end.

(** The statements after the [switch] on [*iter] (lines 4634-4680). *)
Definition FlushGroup (bitsetNumber counter : Z) (out : St) : Outcome E St :=
  let previousCounter := counter in
  let* bitsetNumber := PadDigits 6 bitsetNumber counter in
  let counter := u32 (5 - previousCounter) in
  let bitset := bitsetNumber mod 2 ^ 32 in
  let* bytes := decodedBytes bitset counter in
  Rfc4648.putAll put out bytes.

(** The main loop (lines 4580-4681). *)
Fixpoint DecodeLoop (fuel : nat) (s : list byte) (encodedStringEnd : nat)
    (foldSpaces_ : bool) (iter : nat) (out : St) : Outcome E St :=
  match fuel with
  | O => OutOfFuel
  | S fuel' =>
      if (iter =? encodedStringEnd)%nat then Returned out
      else
        match nth iter s x00 with
        | " " | x0a =>
            DecodeLoop fuel' s encodedStringEnd foldSpaces_ (S iter) out
        | "y" =>
            if foldSpaces_ then
              let* out := Rfc4648.putAll put out [" "; " "; " "; " "] in
              DecodeLoop fuel' s encodedStringEnd foldSpaces_ (S iter) out
            else Thrown (raise STRING_PARSE_ERROR)
        | "z" =>
            let* out := putZeros out in
            DecodeLoop fuel' s encodedStringEnd foldSpaces_ (S iter) out
        | _ =>
            let* (iter', bitsetNumber, counter) :=
              DecodeGroup (length s) s encodedStringEnd iter iter 0 0 in
            let* out := FlushGroup bitsetNumber counter out in
            DecodeLoop fuel' s encodedStringEnd foldSpaces_ (S iter') out
        end
  end.

(** The whole decoder, from the delimiters to the end of the main loop. *)
Definition Decode (s : list byte) (foldSpaces_ adobeMode_ : bool) (out : St)
    : Outcome E St :=
  let* (encodedStringBegin, encodedStringEnd) :=
    if adobeMode_ then
      let* b := FindBegin (S (length s)) s 0 in
      let* e := FindEnd (S (length s)) s 0 in
      Returned (b, e)
    else Returned (0%nat, length s) in
  DecodeLoop (S (length s)) s encodedStringEnd foldSpaces_
    encodedStringBegin out.

End Decoder.

Definition DecodeStringToString (encodedString_ : list byte)
    (foldSpaces_ adobeMode_ : bool) : Outcome ErrorType (list byte) :=
  Decode (fun e => e) appendChar (fun out => Returned out)
    encodedString_ foldSpaces_ adobeMode_ [].

Definition DecodeStringToByteBuffer (encodedString_ : list byte)
    (foldSpaces_ adobeMode_ : bool) (h : ByteBuffer.Heap)
    : Outcome Exception ByteBuffer.ByteBuffer :=
  let add := fun st c => lift inr (ByteBuffer.addToByteBuffer st c) in
  let* st := lift inr (ByteBuffer.newStaging h) in
  let* st :=
    Decode inl add (fun st => Rfc4648.putAll add st [x00; x00; x00; x00])
      encodedString_ foldSpaces_ adobeMode_ st in
  lift inr (ByteBuffer.finishStaging st).

(** *** Auxiliary notions for the proofs *)

(** The groups of four bytes the encoders cut [s] into, the last one
    shorter when the length of [s] is not a multiple of four. *)
Fixpoint groups (fuel : nat) (s : list byte) : list (list byte) :=
  match fuel, s with
  | S fuel', _ :: _ => firstn 4 s :: groups fuel' (skipn 4 s)
  | _, _ => []
  end.

(** Groups of four bytes, the last one of one to four. *)
Fixpoint grouped (gs : list (list byte)) : Prop :=
  match gs with
  | [] => True
  | [g] => (1 <= length g <= 4)%nat
  | g :: rest => length g = 4%nat /\ grouped rest
  end.

Definition zeroGroup (g : list byte) : bool := forallb (Byte.eqb x00) g.

(** The 32-bit value of a group, a ragged one shifted to the top. *)
Definition groupValue (g : list byte) : Z :=
  Rfc4648.bigEndian g 0 * 2 ^ (8 * (4 - Z.of_nat (length g))).

(** The five radix-85 digits of a value as characters, the most
    significant first. *)
Definition digitsOf (bitset : Z) : list byte :=
  map (fun code => byteOfZ (code + 33)) (rev (radix85 5 bitset)).

(** The characters the encoders write for the bytes [g] of one group. *)
Definition groupOf (foldSpaces_ : bool) (g : list byte) : list byte :=
  if zeroGroup g then ["z"]
  else if (groupValue g =? 0x20202020) && foldSpaces_ then ["y"]
  else firstn (S (length g)) (digitsOf (groupValue g)).

(** The encoding of [s] in words: the characters of each of its groups,
    between the delimiters in Adobe mode. *)
Definition encodingOf (s : list byte) (foldSpaces_ adobeMode_ : bool)
    : list byte :=
  let body := flat_map (groupOf foldSpaces_) (groups (length s) s) in
  if adobeMode_ then ["<"; "~"] ++ body ++ ["~"; ">"] else body.

(** [bitsetNumber] after the digits [l], [counter] digits having been
    added before them. *)
Fixpoint digitsValue (l : list byte) (counter bitsetNumber : Z) : Z :=
  match l with
  | [] => bitsetNumber
  | c :: rest =>
      digitsValue rest (counter + 1)
        (bitsetNumber + (byteToZ c - 33) * 85 ^ (4 - counter))
  end.

(** What a decoder hands to its sink for the encoding of the groups [gs]:
    an all-zero group was written as ['z']. *)
Fixpoint putGroups {E St : Type} (put : St -> byte -> Outcome E St)
    (putZeros : St -> Outcome E St) (gs : list (list byte)) (out : St)
    : Outcome E St :=
  match gs with
  | [] => Returned out
  | g :: rest =>
      let* out :=
        if zeroGroup g then putZeros out else Rfc4648.putAll put out g in
      putGroups put putZeros rest out
  end.

End Ascii85.

(** * Buffers and sinks the statements are evaluated on *)

(** A buffer of one byte and a buffer that already has the maximum
    permitted length. *)
Definition oneByte : ByteBuffer.ByteBuffer :=
  {| ByteBuffer._size := 1; ByteBuffer._buffer := Some [x01] |}.

Definition fullBuffer : ByteBuffer.ByteBuffer :=
  {| ByteBuffer._size := ByteBuffer.GetMaximumSize;
     ByteBuffer._buffer :=
       Some (repeat x00 (Z.to_nat ByteBuffer.GetMaximumSize)) |}.

(** The [put] of the Ascii85 buffer surface. *)
Definition stage (st : ByteBuffer.Staging) (c : byte)
    : Outcome Ascii85.Exception ByteBuffer.Staging :=
  lift inr (ByteBuffer.addToByteBuffer st c).

(** A buffer holding the single byte zero. *)
Definition zeroByte : ByteBuffer.ByteBuffer :=
  {| ByteBuffer._size := 1; ByteBuffer._buffer := Some [x00] |}.

(** A buffer holding four zero bytes. *)
Definition fourZeros : ByteBuffer.ByteBuffer :=
  {| ByteBuffer._size := 4;
     ByteBuffer._buffer := Some [x00; x00; x00; x00] |}.

(** * Part II: proofs *)

(** ** General list facts used for iterator reasoning *)

Lemma skipn_nth_cons (s : list byte) (i : nat) :
  (i < length s)%nat -> skipn i s = nth i s x00 :: skipn (S i) s.
Proof.
  revert i; induction s as [|a s IH]; intros [|i] H; simpl in *; try lia.
  - reflexivity.
  - apply IH; lia.
Qed.

Lemma skipn_S_nil (s : list byte) (i : nat) :
  skipn (S i) s = [] <-> (length s <= S i)%nat.
Proof.
  split; intro H.
  - assert (E : length (skipn (S i) s) = 0%nat) by (rewrite H; reflexivity).
    rewrite length_skipn in E; lia.
  - apply skipn_all2; exact H.
Qed.

Lemma byteToZ_range (b : byte) : 0 <= byteToZ b < 256.
Proof.
  unfold byteToZ; pose proof (Byte.to_N_bounded b); lia.
Qed.

Lemma byteOfZ_byteToZ (b : byte) : byteOfZ (byteToZ b) = b.
Proof.
  unfold byteOfZ; rewrite Z.mod_small by apply byteToZ_range.
  unfold byteToZ; rewrite N2Z.id, Byte.of_to_N; reflexivity.
Qed.

Lemma byteToZ_byteOfZ (z : Z) : byteToZ (byteOfZ z) = z mod 256.
Proof.
  unfold byteOfZ, byteToZ.
  assert (R : 0 <= z mod 256 < 256) by (apply Z.mod_pos_bound; lia).
  destruct (Byte.of_N (Z.to_N (z mod 256))) as [b|] eqn:E.
  - apply Byte.to_of_N in E; rewrite E; lia.
  - apply Byte.of_N_None_iff in E; lia.
Qed.

Example Base16_decode_scenario2 :
  Base16.DecodeStringToString
    (String.list_byte_of_string "48 65
6c6C6f") Base16.MIXED
  = Returned (String.list_byte_of_string "Hello").
Proof. vm_compute. reflexivity. Qed.

(** ** Base16 decoding refines its specification *)

Section Base16Decode.

Import Base16.

Lemma decodeDigit_alphabetValue (case_ : Case) (c : byte) :
  decodeDigit case_ c = alphabetValue case_ c.
Proof. destruct case_; destruct c; reflexivity. Qed.

Lemma decodeDigit_range (case_ : Case) (c : byte) (v : Z) :
  decodeDigit case_ c = Some v -> 0 <= v < 16.
Proof.
  destruct case_; destruct c; simpl; intro H;
    try discriminate H; injection H as <-; lia.
Qed.

Lemma nibble_cases (v : Z) :
  0 <= v < 16 ->
  In v [0; 1; 2; 3; 4; 5; 6; 7; 8; 9; 10; 11; 12; 13; 14; 15].
Proof. simpl; lia. Qed.

Lemma pack_nibbles (hi lo : Z) :
  0 <= hi < 16 -> 0 <= lo < 16 ->
  Z.lor (bitsetShl 8 hi 4) lo = 16 * hi + lo.
Proof.
  intros Hh Hl.
  apply nibble_cases in Hh; apply nibble_cases in Hl.
  simpl in Hh, Hl.
  repeat (destruct Hh as [<-|Hh]; [| ]); try contradiction;
    repeat (destruct Hl as [<-|Hl]; [| ]); try contradiction;
    reflexivity.
Qed.

Lemma byteOfZ_mod (z : Z) : byteOfZ (z mod 256) = byteOfZ z.
Proof. unfold byteOfZ; rewrite Z.mod_mod by lia; reflexivity. Qed.

Lemma byteOfZ_bitsetShl8 (b k : Z) :
  byteOfZ (bitsetShl 8 b k) = byteOfZ (Z.shiftl b k).
Proof. unfold bitsetShl; change (2 ^ 8) with 256; apply byteOfZ_mod. Qed.

Lemma stripBlanks_dropBlanks (l : list byte) :
  stripBlanks (dropBlanks l) = stripBlanks l.
Proof.
  induction l as [|c r IH]; simpl; [reflexivity|].
  destruct (isBlank c) eqn:E; simpl; rewrite ?E; simpl; auto.
Qed.

Lemma dropBlanks_head (l r : list byte) (c : byte) :
  dropBlanks l = c :: r -> isBlank c = false.
Proof.
  induction l as [|a l IH]; simpl; [discriminate|].
  destruct (isBlank a) eqn:E; [exact IH|].
  intro H; injection H as -> _; exact E.
Qed.

Lemma dropBlanks_length (l : list byte) :
  (length (dropBlanks l) <= length l)%nat.
Proof.
  induction l as [|a l IH]; simpl; [lia|].
  destruct (isBlank a); simpl; lia.
Qed.

Lemma dropBlanks_suffix (l : list byte) :
  skipn (length l - length (dropBlanks l)) l = dropBlanks l.
Proof.
  induction l as [|a l IH]; [reflexivity|].
  cbn [dropBlanks]. destruct (isBlank a) eqn:E.
  - pose proof (dropBlanks_length l). cbn [length].
    replace (S (length l) - length (dropBlanks l))%nat
      with (S (length l - length (dropBlanks l))) by lia.
    cbn [skipn]. exact IH.
  - rewrite Nat.sub_diag. reflexivity.
Qed.

Lemma stripBlanks_skipn_nil (l : list byte) (k : nat) :
  stripBlanks l = [] -> stripBlanks (skipn k l) = [].
Proof.
  revert k; induction l as [|a l IH]; intros [|k] H; simpl in *; auto.
  destruct (isBlank a); simpl in H; [auto | discriminate].
Qed.

Variable s : list byte.
Variable case_ : Case.
Context {X : Type}.
Variable raise : ErrorType -> X.

(** The inner loop once the first digit of the group has been read:
    [jter] is one past [iter] and stays so while blanks are skipped. *)
Lemma DecodeGroup_after_first (fuel iter : nat) (bitset : Z) :
  (S iter < length s)%nat ->
  (length s - S iter <= fuel)%nat ->
  DecodeGroup raise fuel s case_ iter (S iter) bitset 1 =
    match dropBlanks (skipn (S iter) s) with
    | [] => Returned ((length s - 2)%nat, bitset, 1)
    | c :: r =>
        match decodeDigit case_ c with
        | None => Thrown (raise STRING_PARSE_ERROR)
        | Some v =>
            Returned ((length s - S (length r))%nat,
                      Z.lor (bitsetShl 8 bitset 4) v, 2)
        end
    end.
Proof.
  revert iter; induction fuel as [|fuel IH]; intros iter Hlt Hfuel;
    [lia|].
  cbn [DecodeGroup].
  destruct (Nat.eqb_spec (S iter) (length s)) as [E|_]; [lia|].
  rewrite (skipn_nth_cons s (S iter)) by exact Hlt.
  cbn [dropBlanks].
  destruct (isBlank (nth (S iter) s x00)) eqn:Eb.
  - destruct (Nat.eqb_spec (S (S iter)) (length s)) as [E|NE].
    + rewrite skipn_all2 by lia. cbn [dropBlanks].
      repeat f_equal; lia.
    + apply IH; lia.
  - change (u32 (1 + 1)) with 2.
    destruct (decodeDigit case_ (nth (S iter) s x00)) as [v|];
      [|reflexivity].
    replace (S (S iter) =? iter + 2)%nat with true
      by (symmetry; apply Nat.eqb_eq; lia).
    rewrite orb_true_r.
    rewrite length_skipn. repeat f_equal; lia.
Qed.

Lemma DecodeGroup_first (fuel iter : nat) :
  (iter < length s)%nat ->
  isBlank (nth iter s x00) = false ->
  DecodeGroup raise (S fuel) s case_ iter iter 0 0 =
    match decodeDigit case_ (nth iter s x00) with
    | None => Thrown (raise STRING_PARSE_ERROR)
    | Some v =>
        if (S iter =? length s)%nat then Returned (iter, v, 1)
        else DecodeGroup raise fuel s case_ iter (S iter) v 1
    end.
Proof.
  intros Hlt Eb. cbn [DecodeGroup].
  destruct (Nat.eqb_spec iter (length s)) as [E|_]; [lia|].
  rewrite Eb.
  change (u32 (0 + 1)) with 1.
  change (bitsetShl 8 0 4) with 0.
  destruct (decodeDigit case_ (nth iter s x00)) as [v|]; [|reflexivity].
  rewrite Z.lor_0_l.
  replace (S iter =? iter + 2)%nat with false
    by (symmetry; apply Nat.eqb_neq; lia).
  rewrite orb_false_r. reflexivity.
Qed.

End Base16Decode.

Section Base16DecodeString.

Import Base16.

Variable s : list byte.
Variable case_ : Case.

Lemma stripBlanks_cons_blank (c : byte) (l : list byte) :
  isBlank c = true -> stripBlanks (c :: l) = stripBlanks l.
Proof. intro E; unfold stripBlanks; cbn [filter]; rewrite E; reflexivity. Qed.

Lemma stripBlanks_cons_digit (c : byte) (l : list byte) :
  isBlank c = false -> stripBlanks (c :: l) = c :: stripBlanks l.
Proof. intro E; unfold stripBlanks; cbn [filter]; rewrite E; reflexivity. Qed.

Lemma DecodeLoop_decodeFrom (fuel iter : nat) (acc : list byte) :
  (iter <= length s)%nat ->
  (length s - iter < fuel)%nat ->
  DecodeLoop (fun e => e) appendChar fuel s case_ iter acc
  = decodeFrom case_ (skipn iter s) acc.
Proof.
  revert iter acc; induction fuel as [|fuel IH]; intros iter acc Hle Hfuel;
    [lia|].
  cbn [DecodeLoop].
  destruct (Nat.eqb_spec iter (length s)) as [E|NE].
  { subst iter. rewrite skipn_all. unfold decodeFrom; simpl.
    rewrite app_nil_r; reflexivity. }
  assert (Hlt : (iter < length s)%nat) by lia.
  rewrite (skipn_nth_cons s iter Hlt).
  set (c := nth iter s x00).
  destruct (isBlank c) eqn:Eb.
  { rewrite IH by lia. unfold decodeFrom.
    rewrite stripBlanks_cons_blank by exact Eb; reflexivity. }
  replace (DecodeGroup (fun e => e) (length s))
    with (DecodeGroup (fun e : ErrorType => e) (S (length s - 1)))
    by (f_equal; lia).
  rewrite DecodeGroup_first by assumption. fold c.
  unfold decodeFrom at 1.
  rewrite stripBlanks_cons_digit by exact Eb.
  cbn [digitsOf]. rewrite <- decodeDigit_alphabetValue.
  destruct (decodeDigit case_ c) as [v|] eqn:Ev; [|reflexivity].
  pose proof (decodeDigit_range _ _ _ Ev) as Rv.
  destruct (Nat.eqb_spec (S iter) (length s)) as [E1|NE1].
  { (* the digit is the last character *)
    cbn [bind flushGroup appendChar].
    rewrite IH by lia.
    rewrite skipn_all2 by lia.
    unfold decodeFrom. cbn [stripBlanks filter digitsOf pairDigits].
    rewrite byteOfZ_bitsetShl8, app_nil_r; reflexivity. }
  rewrite DecodeGroup_after_first by lia.
  rewrite <- (stripBlanks_dropBlanks (skipn (S iter) s)).
  pose proof (dropBlanks_suffix (skipn (S iter) s)) as Hsuf.
  pose proof (dropBlanks_length (skipn (S iter) s)) as Hlen.
  rewrite skipn_skipn, length_skipn in Hsuf.
  rewrite length_skipn in Hlen.
  destruct (dropBlanks (skipn (S iter) s)) as [|c2 r2] eqn:Ed.
  { (* only blanks follow *)
    cbn [bind flushGroup appendChar].
    rewrite IH by lia.
    replace (S (length s - 2)) with ((length s - 1 - S iter) + S iter)%nat
      by lia.
    rewrite <- skipn_skipn.
    unfold decodeFrom.
    rewrite stripBlanks_skipn_nil
      by (rewrite <- stripBlanks_dropBlanks, Ed; reflexivity).
    cbn [stripBlanks filter digitsOf pairDigits].
    rewrite byteOfZ_bitsetShl8, app_nil_r; reflexivity. }
  pose proof (dropBlanks_head _ _ _ Ed) as Eb2.
  rewrite stripBlanks_cons_digit by exact Eb2.
  cbn [digitsOf].
  rewrite <- decodeDigit_alphabetValue.
  destruct (decodeDigit case_ c2) as [v2|] eqn:Ev2.
  2:{ destruct (digitsOf case_ (stripBlanks r2)); reflexivity. }
  pose proof (decodeDigit_range _ _ _ Ev2) as Rv2.
  cbn [bind flushGroup appendChar].
  cbn [length] in Hsuf, Hlen.
  rewrite IH by lia.
  assert (Hr2 : skipn (S (length s - S (length r2))) s = r2).
  { replace (length s - S iter - S (length r2) + S iter)%nat
      with (length s - S (length r2))%nat in Hsuf by lia.
    rewrite (skipn_nth_cons s (length s - S (length r2))) in Hsuf by lia.
    injection Hsuf as _ H; exact H. }
  rewrite Hr2. unfold decodeFrom.
  destruct (digitsOf case_ (stripBlanks r2)) as [ds|]; [|reflexivity].
  cbn [pairDigits]. rewrite pack_nibbles by assumption.
  rewrite <- app_assoc; reflexivity.
Qed.

Lemma DecodeStringToString_refines :
  DecodeStringToString s case_ = decode_spec s case_.
Proof.
  unfold DecodeStringToString.
  rewrite DecodeLoop_decodeFrom by lia.
  reflexivity.
Qed.

End Base16DecodeString.

(** ** ByteBuffer: the storage invariant and the size limit *)

Section ByteBufferFacts.

Import ByteBuffer.

Lemma storageInvariant_empty : storageInvariant empty.
Proof.
  unfold storageInvariant; simpl; split.
  - intros [l H]; discriminate H.
  - lia.
Qed.

Lemma storageInvariant_some (n : Z) (l : list byte) :
  0 < n -> storageInvariant {| _size := n; _buffer := Some l |}.
Proof.
  intro H; unfold storageInvariant; simpl; split; auto.
  intros _; exists l; reflexivity.
Qed.

Lemma storageInvariant_positive (b : ByteBuffer) (l : list byte) :
  storageInvariant b -> _buffer b = Some l -> 0 < _size b.
Proof. intros [H _] E; apply H; exists l; exact E. Qed.

Lemma make_unique_cases (n : Z) (h : Heap) :
  (exists h', make_unique n h = (None, h'))
  \/ (exists h', make_unique n h = (Some (repeat x00 (Z.to_nat n)), h')).
Proof.
  destruct h as [|[|] h]; simpl; eauto.
Qed.

Create HintDb bytebuffer.
Hint Resolve storageInvariant_empty storageInvariant_some : bytebuffer.

Ltac alloc n h :=
  let h' := fresh "h" in
  destruct (make_unique_cases n h) as [[h' ->]|[h' ->]].

Lemma ByteBuffer_sized_inv (size_ : Z) (h : Heap) (b : ByteBuffer) :
  fst (ByteBuffer_sized size_ h) = Returned b -> storageInvariant b.
Proof.
  unfold ByteBuffer_sized.
  destruct (Z.gtb_spec size_ GetMaximumSize); [discriminate|].
  destruct (Z.gtb_spec size_ 0).
  - alloc size_ h; simpl; intro E; try discriminate E.
    injection E as <-; auto with bytebuffer.
  - simpl; intro E; injection E as <-; auto with bytebuffer.
Qed.

Lemma ByteBuffer_from_pointer_inv (p : option (list byte)) (size_ : Z)
    (h : Heap) (b : ByteBuffer) :
  fst (ByteBuffer_from_pointer p size_ h) = Returned b -> storageInvariant b.
Proof.
  unfold ByteBuffer_from_pointer.
  destruct (Z.gtb_spec size_ GetMaximumSize); [discriminate|].
  destruct p as [src|].
  - destruct (Z.ltb_spec size_ 1); [discriminate|].
    alloc size_ h; simpl; intro E; try discriminate E.
    injection E as <-; apply storageInvariant_some; lia.
  - destruct (Z.gtb_spec size_ 0); [discriminate|].
    simpl; intro E; injection E as <-; auto with bytebuffer.
Qed.

Lemma ByteBuffer_from_vector_inv (v : list byte) (h : Heap)
    (b : ByteBuffer) :
  fst (ByteBuffer_from_vector v h) = Returned b -> storageInvariant b.
Proof.
  unfold ByteBuffer_from_vector.
  destruct (Z.gtb_spec (Z.of_nat (length v)) GetMaximumSize);
    [discriminate|].
  destruct (Z.gtb_spec (Z.of_nat (length v)) 0).
  - alloc (Z.of_nat (length v)) h; simpl; intro E; try discriminate E.
    injection E as <-; auto with bytebuffer.
  - simpl; intro E; injection E as <-; auto with bytebuffer.
Qed.

Lemma ByteBuffer_copy_inv (other : ByteBuffer) (h : Heap) (b : ByteBuffer) :
  storageInvariant other ->
  fst (ByteBuffer_copy other h) = Returned b -> storageInvariant b.
Proof.
  intro I; unfold ByteBuffer_copy.
  destruct (_buffer other) as [src|] eqn:Eo.
  - pose proof (storageInvariant_positive _ _ I Eo).
    alloc (_size other) h; simpl; intro E; try discriminate E.
    injection E as <-; auto with bytebuffer.
  - simpl; intro E; injection E as <-; auto with bytebuffer.
Qed.

Lemma ResizeWith_inv (this : ByteBuffer) (size_ : Z) (byte_ : byte)
    (h : Heap) :
  storageInvariant this ->
  storageInvariant (after (ResizeWith this size_ byte_ h)).
Proof.
  intro I; unfold ResizeWith, after.
  destruct (Z.gtb_spec size_ GetMaximumSize); [exact I|].
  destruct (Z.eqb_spec size_ (_size this)); [exact I|].
  destruct (Z.ltb_spec size_ 1); [simpl; auto with bytebuffer|].
  alloc (_size this) h; [simpl; auto with bytebuffer|].
  alloc size_ h0; [simpl; auto with bytebuffer|].
  destruct (size_ <? _size this); simpl;
    apply storageInvariant_some; lia.
Qed.

Lemma SetAllBytes_inv (this : ByteBuffer) (byte_ : byte) (h : Heap) :
  storageInvariant this ->
  storageInvariant (after (SetAllBytes this byte_ h)).
Proof.
  intro I; unfold SetAllBytes, after.
  destruct (_buffer this) as [b|] eqn:E; simpl; [|exact I].
  apply storageInvariant_some.
  exact (storageInvariant_positive _ _ I E).
Qed.

Lemma operator_assign_inv (this other : ByteBuffer) (h : Heap) :
  storageInvariant other ->
  storageInvariant (after (operator_assign this other h)).
Proof.
  intro I; unfold operator_assign, after.
  destruct (_buffer other) as [src|] eqn:Eo;
    [|simpl; auto with bytebuffer].
  pose proof (storageInvariant_positive _ _ I Eo).
  alloc (_size other) h; simpl; auto with bytebuffer.
Qed.

Lemma operator_plus_assign_inv (this other : ByteBuffer) (h : Heap) :
  storageInvariant this -> storageInvariant other ->
  accounted (outcome (operator_plus_assign this other h)) ->
  storageInvariant (after (operator_plus_assign this other h)).
Proof.
  intros I J; unfold operator_plus_assign, after, outcome.
  destruct (_buffer this) as [mine|] eqn:Et;
    destruct (_buffer other) as [theirs|] eqn:Eo; simpl; auto.
  - pose proof (storageInvariant_positive _ _ I Et).
    destruct (Z.gtb_spec (SizeType (_size this + _size other))
                GetMaximumSize); [auto|].
    destruct (Z.ltb_spec (SizeType (_size this + _size other))
                (_size this)); [auto|].
    alloc (SizeType (_size this + _size other)) h; simpl;
      auto with bytebuffer.
    intros _; apply storageInvariant_some; lia.
  - pose proof (storageInvariant_positive _ _ J Eo).
    alloc (_size other) h; simpl; [contradiction|].
    auto with bytebuffer.
Qed.

Lemma returnCopy_inv (this x : ByteBuffer) (h : Heap) :
  storageInvariant this -> storageInvariant x ->
  (forall b, fst (fst (returnCopy this x h)) = Returned b ->
             storageInvariant b)
  /\ storageInvariant (snd (fst (returnCopy this x h))).
Proof.
  intros I J. unfold returnCopy.
  pose proof (ByteBuffer_copy_inv x h) as C.
  destruct (ByteBuffer_copy x h) as [r h']. cbn [fst snd] in *.
  split; [intros b E; apply C; assumption|exact I].
Qed.

Lemma operator_plus_inv (this other : ByteBuffer) (h : Heap) :
  storageInvariant this -> storageInvariant other ->
  (forall b, fst (fst (operator_plus this other h)) = Returned b ->
             storageInvariant b)
  /\ storageInvariant (snd (fst (operator_plus this other h))).
Proof.
  intros I J; unfold operator_plus.
  destruct (_buffer this) as [mine|] eqn:Et;
    destruct (_buffer other) as [theirs|] eqn:Eo;
    try (apply returnCopy_inv; assumption).
  pose proof (storageInvariant_positive _ _ I Et).
  destruct (Z.gtb_spec (SizeType (_size this + _size other))
              GetMaximumSize);
    [split; [discriminate|exact I]|].
  destruct (Z.ltb_spec (SizeType (_size this + _size other))
              (_size this));
    [split; [discriminate|exact I]|].
  alloc (SizeType (_size this + _size other)) h; cbn [fst snd].
  - split; [discriminate|apply storageInvariant_empty].
  - split; [|exact I].
    intros b E; injection E as <-; apply storageInvariant_some; lia.
Qed.

Lemma AtPut_inv (this : ByteBuffer) (position_ : Z) (byte_ : byte)
    (b : ByteBuffer) :
  storageInvariant this ->
  AtPut this position_ byte_ = Returned b -> storageInvariant b.
Proof.
  intro I; unfold AtPut.
  destruct (_buffer this) as [l|] eqn:E; [|discriminate].
  pose proof (storageInvariant_positive _ _ I E).
  destruct (position_ <? _size this); [|discriminate].
  intro R; injection R as <-; auto with bytebuffer.
Qed.

Lemma appendRead_inv (this : ByteBuffer) (data : list byte) (h : Heap) :
  storageInvariant this ->
  accounted (outcome (appendRead this data h)) ->
  storageInvariant (after (appendRead this data h)).
Proof.
  intro I; unfold appendRead.
  destruct (ByteBuffer_sized 8192 h) as [[b| | |] h1] eqn:Eb;
    try (intros _; exact I).
  assert (Ib : storageInvariant b)
    by (apply (ByteBuffer_sized_inv 8192 h); rewrite Eb; reflexivity).
  destruct (Z.gtb_spec (Z.of_nat (length data)) 0);
    [|intros _; exact I].
  set (b' := {| _size := _size b; _buffer := _ |}).
  assert (Ib' : storageInvariant b').
  { apply storageInvariant_some.
    unfold ByteBuffer_sized in Eb; simpl in Eb.
    destruct h as [|[|] h]; simpl in Eb; inversion Eb; simpl; lia. }
  pose proof (ResizeWith_inv b' (SizeType (Z.of_nat (length data))) x00 h1
                Ib') as IR.
  unfold Resize, after in *.
  destruct (ResizeWith b' _ x00 h1) as [[[u| | |] b2] h2];
    try (intros _; exact I).
  apply operator_plus_assign_inv; assumption.
Qed.

Lemma readLoop_inv (reads : list Read) (this : ByteBuffer) (h : Heap) :
  storageInvariant this ->
  accounted (outcome (readLoop this reads h)) ->
  storageInvariant (after (readLoop this reads h)).
Proof.
  revert this h; induction reads as [|r rest IH]; intros this h I;
    cbn [readLoop].
  - apply appendRead_inv; exact I.
  - destruct r as [data|data|].
    + pose proof (appendRead_inv this data h I) as IA.
      unfold outcome, after in *.
      destruct (appendRead this data h) as [[[u|e| |] this'] h'];
        simpl in *; auto.
    + apply appendRead_inv; exact I.
    + destruct (ByteBuffer_sized 8192 h) as [[b| | |] h1]; simpl;
        auto with bytebuffer.
Qed.

Lemma ReadFromFile_inv (this : ByteBuffer) (file : File) (h : Heap) :
  accounted (outcome (ReadFromFile this file h)) ->
  storageInvariant (after (ReadFromFile this file h)).
Proof.
  destruct file as [|reads]; simpl.
  - intros _; apply storageInvariant_empty.
  - apply readLoop_inv; apply storageInvariant_empty.
Qed.

(** The size check of [operator+=] leaves [*this] as it was. *)
Lemma operator_plus_assign_size_limit (this other : ByteBuffer)
    (mine theirs : list byte) (h : Heap) :
  _buffer this = Some mine -> _buffer other = Some theirs ->
  0 <= _size this < 2 ^ 64 -> 0 <= _size other < 2 ^ 64 ->
  GetMaximumSize < _size this + _size other ->
  operator_plus_assign this other h
  = (Thrown (Error MAXIMUM_SIZE_LIMIT_ERROR), this, h).
Proof.
  unfold operator_plus_assign, GetMaximumSize, SizeType.
  intros -> -> Rt Ro Hsum.
  destruct (Z.ltb_spec (_size this + _size other) (2 ^ 64)) as [S|S].
  - rewrite Z.mod_small by lia.
    destruct (Z.gtb_spec (_size this + _size other) (2 ^ 63 - 1));
      [reflexivity | lia].
  - replace ((_size this + _size other) mod 2 ^ 64)
      with (_size this + _size other - 2 ^ 64)
      by (apply Z.mod_unique with (q := 1); lia).
    destruct (Z.gtb_spec (_size this + _size other - 2 ^ 64) (2 ^ 63 - 1));
      [reflexivity|].
    destruct (Z.ltb_spec (_size this + _size other - 2 ^ 64) (_size this));
      [reflexivity | lia].
Qed.

Lemma wellFormed_storageInvariant (b : ByteBuffer) :
  wellFormed b -> storageInvariant b.
Proof.
  unfold wellFormed, storageInvariant.
  destruct (_buffer b) as [l|]; intro W; split.
  - intros _; lia.
  - intros _; exists l; reflexivity.
  - intros [l H]; discriminate H.
  - lia.
Qed.

End ByteBufferFacts.

(** ** Claims about ByteBuffer *)

Lemma oneByte_wellFormed : ByteBuffer.wellFormed oneByte.
Proof.
  unfold ByteBuffer.wellFormed, oneByte, ByteBuffer.GetMaximumSize.
  cbn [ByteBuffer._buffer ByteBuffer._size length]. lia.
Qed.

Lemma fullBuffer_wellFormed : ByteBuffer.wellFormed fullBuffer.
Proof.
  unfold ByteBuffer.wellFormed, fullBuffer.
  cbn [ByteBuffer._buffer ByteBuffer._size].
  rewrite repeat_length.
  unfold ByteBuffer.GetMaximumSize. lia.
Qed.

(** C4, as stated, fails: concatenating a full buffer onto a one-byte
    buffer breaches the maximum length; [operator+=] raises
    [MAXIMUM_SIZE_LIMIT_ERROR], but the left operand still holds its byte
    and is not the empty buffer. *)
Lemma operator_plus_assign_size_limit_not_reset :
  ByteBuffer.wellFormed oneByte /\ ByteBuffer.wellFormed fullBuffer
  /\ ByteBuffer.GetMaximumSize
     < ByteBuffer._size oneByte + ByteBuffer._size fullBuffer
  /\ ByteBuffer.outcome (ByteBuffer.operator_plus_assign oneByte fullBuffer [])
     = Thrown (ByteBuffer.Error ByteBuffer.MAXIMUM_SIZE_LIMIT_ERROR)
  /\ ByteBuffer.after (ByteBuffer.operator_plus_assign oneByte fullBuffer [])
     = oneByte
  /\ ByteBuffer.after (ByteBuffer.operator_plus_assign oneByte fullBuffer [])
     <> ByteBuffer.empty.
Proof.
  assert (L : ByteBuffer.GetMaximumSize
              < ByteBuffer._size oneByte + ByteBuffer._size fullBuffer)
    by (unfold ByteBuffer.GetMaximumSize; cbn [ByteBuffer._size oneByte
          fullBuffer]; unfold ByteBuffer.GetMaximumSize; lia).
  assert (E : ByteBuffer.operator_plus_assign oneByte fullBuffer []
              = (Thrown (ByteBuffer.Error ByteBuffer.MAXIMUM_SIZE_LIMIT_ERROR),
                 oneByte, [])).
  { apply operator_plus_assign_size_limit
      with (mine := [x01])
           (theirs := repeat x00 (Z.to_nat ByteBuffer.GetMaximumSize));
      try reflexivity; try exact L;
      cbn [ByteBuffer._size oneByte fullBuffer];
      unfold ByteBuffer.GetMaximumSize; lia. }
  repeat match goal with |- _ /\ _ => split end.
  - exact oneByte_wellFormed.
  - exact fullBuffer_wellFormed.
  - exact L.
  - rewrite E; reflexivity.
  - rewrite E; reflexivity.
  - rewrite E; unfold ByteBuffer.after, oneByte, ByteBuffer.empty; simpl.
    intro H; discriminate H.
Qed.

(** C4, amended: for all non-empty buffers [a] and [b] whose lengths sum
    to more than the maximum permitted length (whether or not the 64-bit
    sum wraps around), [a += b] raises the size-limit error and leaves [a]
    exactly as it was. *)
Theorem operator_plus_assign_size_limit_unchanged
    (a b : ByteBuffer.ByteBuffer) (mine theirs : list byte)
    (h : ByteBuffer.Heap) :
  ByteBuffer._buffer a = Some mine ->
  ByteBuffer._buffer b = Some theirs ->
  0 <= ByteBuffer._size a < 2 ^ 64 ->
  0 <= ByteBuffer._size b < 2 ^ 64 ->
  ByteBuffer.GetMaximumSize < ByteBuffer._size a + ByteBuffer._size b ->
  ByteBuffer.outcome (ByteBuffer.operator_plus_assign a b h)
  = Thrown (ByteBuffer.Error ByteBuffer.MAXIMUM_SIZE_LIMIT_ERROR)
  /\ ByteBuffer.after (ByteBuffer.operator_plus_assign a b h) = a.
Proof.
  intros Ea Eb Ra Rb Hsum.
  rewrite (operator_plus_assign_size_limit a b mine theirs h)
    by assumption.
  split; reflexivity.
Qed.

Lemma operator_plus_assign_size_limit_unchanged_witness :
  ByteBuffer.outcome (ByteBuffer.operator_plus_assign oneByte fullBuffer [])
  = Thrown (ByteBuffer.Error ByteBuffer.MAXIMUM_SIZE_LIMIT_ERROR)
  /\ ByteBuffer.after (ByteBuffer.operator_plus_assign oneByte fullBuffer [])
     = oneByte.
Proof.
  apply (operator_plus_assign_size_limit_unchanged oneByte fullBuffer
           [x01] (repeat x00 (Z.to_nat ByteBuffer.GetMaximumSize)) []).
  - reflexivity.
  - reflexivity.
  - cbn [ByteBuffer._size oneByte]; lia.
  - cbn [ByteBuffer._size fullBuffer]; unfold ByteBuffer.GetMaximumSize; lia.
  - cbn [ByteBuffer._size oneByte fullBuffer];
      unfold ByteBuffer.GetMaximumSize; lia.
Defined.

(** C5: the storage pointer is non-null exactly when the length is
    positive.  This holds of every constructed buffer and is preserved by
    every public operation that returns normally or raises a
    [ByteBuffer::Error]: [Resize] (both overloads), [Clear], [SetAllBytes],
    [operator+=], [operator+], both assignments, [Swap], [ReadFromFile] and
    writes through [At]. *)
Theorem ByteBuffer_storage_invariant :
  (* construction *)
  ByteBuffer.storageInvariant ByteBuffer.ByteBuffer_default
  /\ (forall size_ h b,
        fst (ByteBuffer.ByteBuffer_sized size_ h) = Returned b ->
        ByteBuffer.storageInvariant b)
  /\ (forall p size_ h b,
        fst (ByteBuffer.ByteBuffer_from_pointer p size_ h) = Returned b ->
        ByteBuffer.storageInvariant b)
  /\ (forall v h b,
        fst (ByteBuffer.ByteBuffer_from_vector v h) = Returned b ->
        ByteBuffer.storageInvariant b)
  /\ (forall other h b,
        ByteBuffer.storageInvariant other ->
        fst (ByteBuffer.ByteBuffer_copy other h) = Returned b ->
        ByteBuffer.storageInvariant b)
  /\ (forall other,
        ByteBuffer.storageInvariant other ->
        ByteBuffer.storageInvariant (fst (ByteBuffer.ByteBuffer_move other))
        /\ ByteBuffer.storageInvariant
             (snd (ByteBuffer.ByteBuffer_move other)))
  /\ (forall file h b,
        fst (ByteBuffer.ByteBuffer_from_file file h) = Returned b ->
        ByteBuffer.storageInvariant b)
  (* operations *)
  /\ (forall this size_ h,
        ByteBuffer.storageInvariant this ->
        ByteBuffer.storageInvariant
          (ByteBuffer.after (ByteBuffer.Resize this size_ h)))
  /\ (forall this size_ byte_ h,
        ByteBuffer.storageInvariant this ->
        ByteBuffer.storageInvariant
          (ByteBuffer.after (ByteBuffer.ResizeWith this size_ byte_ h)))
  /\ (forall this, ByteBuffer.storageInvariant (ByteBuffer.Clear this))
  /\ (forall this byte_ h,
        ByteBuffer.storageInvariant this ->
        ByteBuffer.storageInvariant
          (ByteBuffer.after (ByteBuffer.SetAllBytes this byte_ h)))
  /\ (forall this other h,
        ByteBuffer.storageInvariant this ->
        ByteBuffer.storageInvariant other ->
        ByteBuffer.accounted
          (ByteBuffer.outcome (ByteBuffer.operator_plus_assign this other h)) ->
        ByteBuffer.storageInvariant
          (ByteBuffer.after (ByteBuffer.operator_plus_assign this other h)))
  /\ (forall this other h,
        ByteBuffer.storageInvariant this ->
        ByteBuffer.storageInvariant other ->
        (forall b,
            fst (fst (ByteBuffer.operator_plus this other h)) = Returned b ->
            ByteBuffer.storageInvariant b)
        /\ ByteBuffer.storageInvariant
             (snd (fst (ByteBuffer.operator_plus this other h))))
  /\ (forall this other h,
        ByteBuffer.storageInvariant other ->
        ByteBuffer.storageInvariant
          (ByteBuffer.after (ByteBuffer.operator_assign this other h)))
  /\ (forall this other,
        ByteBuffer.storageInvariant other ->
        ByteBuffer.storageInvariant
          (fst (ByteBuffer.operator_assign_move this other))
        /\ ByteBuffer.storageInvariant
             (snd (ByteBuffer.operator_assign_move this other)))
  /\ (forall this other,
        ByteBuffer.storageInvariant this ->
        ByteBuffer.storageInvariant other ->
        ByteBuffer.storageInvariant (fst (ByteBuffer.Swap this other))
        /\ ByteBuffer.storageInvariant (snd (ByteBuffer.Swap this other)))
  /\ (forall this file h,
        ByteBuffer.accounted
          (ByteBuffer.outcome (ByteBuffer.ReadFromFile this file h)) ->
        ByteBuffer.storageInvariant
          (ByteBuffer.after (ByteBuffer.ReadFromFile this file h)))
  /\ (forall this position_ byte_ b,
        ByteBuffer.storageInvariant this ->
        ByteBuffer.AtPut this position_ byte_ = Returned b ->
        ByteBuffer.storageInvariant b).
Proof.
  repeat match goal with |- _ /\ _ => split end.
  - apply storageInvariant_empty.
  - apply ByteBuffer_sized_inv.
  - apply ByteBuffer_from_pointer_inv.
  - apply ByteBuffer_from_vector_inv.
  - apply ByteBuffer_copy_inv.
  - intros other I; split;
      [destruct other; exact I | apply storageInvariant_empty].
  - intros file h b.
    unfold ByteBuffer.ByteBuffer_from_file.
    pose proof (ReadFromFile_inv ByteBuffer.empty file h) as R.
    unfold ByteBuffer.outcome, ByteBuffer.after in R.
    destruct (ByteBuffer.ReadFromFile ByteBuffer.empty file h)
      as [[[u|e| |] this'] h']; simpl in *; intro E; try discriminate E.
    injection E as <-; apply R; exact I.
  - intros; apply ResizeWith_inv; assumption.
  - intros; apply ResizeWith_inv; assumption.
  - intros; apply storageInvariant_empty.
  - intros; apply SetAllBytes_inv; assumption.
  - intros; apply operator_plus_assign_inv; assumption.
  - intros this other h; apply operator_plus_inv.
  - intros; apply operator_assign_inv; assumption.
  - intros this other I; split;
      [destruct other; exact I | apply storageInvariant_empty].
  - intros this other I J; split; [exact J | exact I].
  - intros this file h; apply ReadFromFile_inv.
  - intros this position_ byte_ b; apply AtPut_inv.
Qed.

Lemma ByteBuffer_storage_invariant_witness :
  ByteBuffer.storageInvariant
    (ByteBuffer.after (ByteBuffer.Resize oneByte 3 []))
  /\ ByteBuffer.storageInvariant
       (ByteBuffer.after (ByteBuffer.operator_plus_assign oneByte oneByte []))
  /\ ByteBuffer.storageInvariant
       (ByteBuffer.after
          (ByteBuffer.ReadFromFile oneByte
             (ByteBuffer.Opened [ByteBuffer.LastChunk [x41; x42]]) [])).
Proof.
  assert (I : ByteBuffer.storageInvariant oneByte).
  { split; [intros _; simpl; lia | intros _; exists [x01]; reflexivity]. }
  destruct ByteBuffer_storage_invariant
    as (_ & _ & _ & _ & _ & _ & _ & HR & _ & _ & _ & HP & _ & _ & _ & _
        & HF & _).
  split; [|split].
  - apply HR; exact I.
  - apply HP; [exact I | exact I | exact Logic.I].
  - apply HF; exact Logic.I.
Defined.

(** ** Claims about Base16 decoding *)

Lemma stripBlanks_idempotent (s : list byte) :
  Base16.stripBlanks (Base16.stripBlanks s) = Base16.stripBlanks s.
Proof.
  unfold Base16.stripBlanks.
  induction s as [|c s IH]; [reflexivity|].
  cbn [filter]. destruct (isBlank c) eqn:E; cbn [negb]; [exact IH|].
  cbn [filter]. rewrite E; cbn [negb]. rewrite IH; reflexivity.
Qed.

Lemma pairDigits_unpaired (ds : list Z) (d : Z) :
  Nat.Even (length ds) ->
  Base16.pairDigits (ds ++ [d])
  = Base16.pairDigits ds ++ [byteOfZ (Z.shiftl d 4)].
Proof.
  intros [k Hk]; revert ds Hk.
  induction k as [|k IH]; intros ds Hk.
  - destruct ds; [reflexivity | simpl in Hk; lia].
  - destruct ds as [|hi [|lo r]]; simpl in Hk; try lia.
    cbn [app Base16.pairDigits].
    destruct (r ++ [d]) as [|x y] eqn:E.
    + destruct r; discriminate E.
    + rewrite <- E, IH by lia. reflexivity.
Qed.

Lemma digitsOf_range (case_ : Base16.Case) (s : list byte) (ds : list Z) :
  Base16.digitsOf case_ s = Some ds -> Forall (fun d => 0 <= d < 16) ds.
Proof.
  revert ds; induction s as [|c s IH]; intros ds; cbn [Base16.digitsOf].
  - intro E; injection E as <-; constructor.
  - destruct (Base16.alphabetValue case_ c) as [d|] eqn:Ed; [|discriminate].
    destruct (Base16.digitsOf case_ s) as [ds'|]; [|discriminate].
    intro E; injection E as <-; constructor; [|apply IH; reflexivity].
    rewrite <- decodeDigit_alphabetValue in Ed.
    exact (decodeDigit_range _ _ _ Ed).
Qed.

Lemma digitsOf_invalid (case_ : Base16.Case) (s : list byte) (c : byte) :
  In c s -> Base16.alphabetValue case_ c = None ->
  Base16.digitsOf case_ s = None.
Proof.
  induction s as [|a s IH]; intros Hin Hc; [contradiction|].
  cbn [Base16.digitsOf].
  destruct Hin as [->|Hin].
  - rewrite Hc; reflexivity.
  - rewrite (IH Hin Hc).
    destruct (Base16.alphabetValue case_ a); reflexivity.
Qed.

Lemma high_nibble_byte (d : Z) :
  0 <= d < 16 ->
  Z.shiftr (byteToZ (byteOfZ (Z.shiftl d 4))) 4 = d
  /\ Z.land (byteToZ (byteOfZ (Z.shiftl d 4))) 15 = 0.
Proof.
  intro R. apply nibble_cases in R. simpl in R.
  repeat (destruct R as [<-|R]; [split; reflexivity|]).
  contradiction.
Qed.

(** C6: Base16 decoding ignores spaces and newlines, pairs the remaining
    hex digits most significant nibble first, turns a final unpaired digit
    [d] into the byte whose high nibble is [d] and whose low nibble is zero,
    and raises the parse error as soon as the input holds a character that
    is neither a blank nor in the alphabet of the case policy.  In short,
    [DecodeStringToString] computes exactly [decode_spec]. *)
Theorem Base16_decode_blanks_unpaired_parse
    (s : list byte) (case_ : Base16.Case) :
  Base16.DecodeStringToString s case_ = Base16.decode_spec s case_
  /\ Base16.DecodeStringToString s case_
     = Base16.DecodeStringToString (Base16.stripBlanks s) case_
  /\ (forall ds d,
        Base16.digitsOf case_ (Base16.stripBlanks s) = Some (ds ++ [d]) ->
        Nat.Even (length ds) ->
        Base16.DecodeStringToString s case_
        = Returned (Base16.pairDigits ds ++ [byteOfZ (Z.shiftl d 4)])
        /\ Z.shiftr (byteToZ (byteOfZ (Z.shiftl d 4))) 4 = d
        /\ Z.land (byteToZ (byteOfZ (Z.shiftl d 4))) 15 = 0)
  /\ (forall c,
        In c s -> isBlank c = false ->
        Base16.alphabetValue case_ c = None ->
        Base16.DecodeStringToString s case_
        = Thrown Base16.STRING_PARSE_ERROR).
Proof.
  repeat match goal with |- _ /\ _ => split end.
  - apply DecodeStringToString_refines.
  - rewrite !DecodeStringToString_refines.
    unfold Base16.decode_spec. rewrite stripBlanks_idempotent. reflexivity.
  - intros ds d Hd Hev.
    rewrite DecodeStringToString_refines. unfold Base16.decode_spec.
    rewrite Hd, pairDigits_unpaired by exact Hev.
    split; [reflexivity|].
    apply high_nibble_byte.
    apply digitsOf_range in Hd.
    rewrite Forall_app in Hd. destruct Hd as [_ Hd].
    inversion Hd; assumption.
  - intros c Hin Hb Hc.
    rewrite DecodeStringToString_refines. unfold Base16.decode_spec.
    rewrite (digitsOf_invalid case_ (Base16.stripBlanks s) c); auto.
    unfold Base16.stripBlanks. apply filter_In. rewrite Hb. auto.
Qed.

Lemma Base16_decode_blanks_unpaired_parse_witness :
  Base16.DecodeStringToString [x34; x20; x38; x0a; x36] Base16.MIXED
  = Returned [x48; x60]
  /\ Base16.DecodeStringToString [x34; x67] Base16.MIXED
     = Thrown Base16.STRING_PARSE_ERROR.
Proof.
  split.
  - destruct (Base16_decode_blanks_unpaired_parse
                [x34; x20; x38; x0a; x36] Base16.MIXED) as (_ & _ & H & _).
    destruct (H [4; 8] 6) as [E _].
    + reflexivity.
    + exists 1%nat; reflexivity.
    + exact E.
  - destruct (Base16_decode_blanks_unpaired_parse [x34; x67] Base16.MIXED)
      as (_ & _ & _ & H).
    apply (H x67).
    + simpl; auto.
    + reflexivity.
    + reflexivity.
Defined.

(** C10: [DecodeStringToString] never reaches [UnreachableTerminate].
    Whenever the outer loop stands on a non-blank character, the inner loop
    either raises the parse error or leaves with a digit count of exactly 1
    or 2, so [flushGroup] never takes its default branch; and the function
    as a whole always returns a string or raises a Base16 error. *)
Theorem Base16_decode_never_terminates_abruptly
    (s : list byte) (case_ : Base16.Case) :
  (forall iter,
      (iter < length s)%nat -> isBlank (nth iter s x00) = false ->
      match Base16.DecodeGroup (fun e => e) (length s) s case_ iter iter 0 0
      with
      | Returned (_, bitset, counter) =>
          (counter = 1 \/ counter = 2)
          /\ @Base16.flushGroup Base16.ErrorType bitset counter <> Terminated
      | Thrown e => e = Base16.STRING_PARSE_ERROR
      | Terminated | OutOfFuel => False
      end)
  /\ ((exists r, Base16.DecodeStringToString s case_ = Returned r)
      \/ (exists e, Base16.DecodeStringToString s case_ = Thrown e)).
Proof.
  split.
  - intros iter Hlt Hb.
    replace (Base16.DecodeGroup (fun e => e) (length s))
      with (Base16.DecodeGroup (fun e : Base16.ErrorType => e)
              (S (length s - 1))) by (f_equal; lia).
    rewrite DecodeGroup_first by assumption.
    destruct (Base16.decodeDigit case_ (nth iter s x00)) as [v|];
      [|reflexivity].
    destruct (Nat.eqb_spec (S iter) (length s)) as [E|NE].
    + split; [left; reflexivity | discriminate].
    + rewrite DecodeGroup_after_first by lia.
      destruct (Base16.dropBlanks (skipn (S iter) s)) as [|c r].
      * split; [left; reflexivity | discriminate].
      * destruct (Base16.decodeDigit case_ c); [|reflexivity].
        split; [right; reflexivity | discriminate].
  - rewrite DecodeStringToString_refines. unfold Base16.decode_spec.
    destruct (Base16.digitsOf case_ (Base16.stripBlanks s)) as [ds|].
    + left; eexists; reflexivity.
    + right; eexists; reflexivity.
Qed.

Lemma Base16_decode_never_terminates_abruptly_witness :
  match Base16.DecodeGroup (fun e => e) 3 [x34; x20; x38] Base16.MIXED
          0 0 0 0
  with
  | Returned (_, bitset, counter) =>
      (counter = 1 \/ counter = 2)
      /\ @Base16.flushGroup Base16.ErrorType bitset counter <> Terminated
  | Thrown e => e = Base16.STRING_PARSE_ERROR
  | Terminated | OutOfFuel => False
  end.
Proof.
  apply (proj1 (Base16_decode_never_terminates_abruptly
                  [x34; x20; x38] Base16.MIXED) 0%nat).
  - simpl; lia.
  - reflexivity.
Defined.

(** ** The loops of the RFC 4648 decoders *)

(** Equality of outcomes that carry tuples of numbers. *)
Ltac tuple_eq := repeat (f_equal; try lia).

Lemma bind_Returned {X A B : Type} (a : A) (k : A -> Outcome X B) :
  bind (Returned a) k = k a.
Proof. reflexivity. Qed.

Lemma putAll_appendChar {X : Type} (out bytes : list byte) :
  Rfc4648.putAll (E := X) appendChar out bytes = Returned (out ++ bytes).
Proof.
  revert out; induction bytes as [|b bytes IH]; intro out;
    cbn [Rfc4648.putAll appendChar bind].
  - rewrite app_nil_r; reflexivity.
  - rewrite IH, <- app_assoc; reflexivity.
Qed.

Section Rfc4648Decode.

Import Rfc4648.

Context {X : Type}.
Variable raise : ErrorType -> X.
Variable bits symbolBits : Z.
Variable groupSymbols : nat.
Variable decodeSymbol : byte -> Symbol.
Variable tailGroup : Z -> Z -> Z -> Outcome X (Z * Z).
Variable decodedBytes : Z -> Z -> Outcome X (list byte).

Local Abbreviation scan := (scanSymbols raise bits symbolBits decodeSymbol).
Local Abbreviation group :=
  (DecodeGroup raise bits symbolBits groupSymbols decodeSymbol).
Local Abbreviation loop :=
  (DecodeLoop raise appendChar bits symbolBits groupSymbols decodeSymbol
     tailGroup decodedBytes).

(** The inner loop is the fold over what is left of the group. *)
Lemma DecodeGroup_scan (fuel : nat) (s : list byte) (iter jter : nat)
    (b p n : Z) :
  (iter <= jter)%nat -> (jter < length s)%nat ->
  (jter < iter + groupSymbols)%nat ->
  (Nat.min (iter + groupSymbols) (length s) - jter <= fuel)%nat ->
  group fuel s iter jter b p n =
    let* (b', p', n') :=
      scan (firstn (iter + groupSymbols - jter) (skipn jter s)) b p n in
    Returned ((Nat.min (iter + groupSymbols) (length s) - 1)%nat, b', p', n').
Proof.
  revert jter b p n; induction fuel as [|fuel IH];
    intros jter b p n Hij Hlen Hgrp Hfuel; [lia|].
  cbn [DecodeGroup].
  destruct (Nat.eqb_spec jter (length s)) as [Heq|_]; [lia|].
  rewrite (skipn_nth_cons s jter Hlen).
  replace (iter + groupSymbols - jter)%nat
    with (S (iter + groupSymbols - S jter)) by lia.
  cbn [firstn scanSymbols].
  destruct (DecodeStep raise bits symbolBits decodeSymbol (nth jter s x00)
              b p n) as [[[b' p'] n']|e| |]; cbn [bind]; try reflexivity.
  destruct (Nat.eqb_spec (S jter) (length s)) as [He|Hne];
    [|destruct (Nat.eqb_spec (S jter) (iter + groupSymbols)) as [Hg|Hng]];
    cbn [orb].
  - rewrite skipn_all2 by lia. rewrite firstn_nil. cbn [scanSymbols bind].
    tuple_eq.
  - replace (iter + groupSymbols - S jter)%nat with 0%nat by lia.
    cbn [firstn scanSymbols bind]. tuple_eq.
  - apply IH; lia.
Qed.

(** One turn of the outer loop. *)
Lemma DecodeLoop_step (fuel : nat) (s : list byte) (iter : nat)
    (out : list byte) :
  (0 < groupSymbols)%nat ->
  (iter < length s)%nat ->
  loop (S fuel) s iter out =
    let* (b, p, n) := scan (firstn groupSymbols (skipn iter s)) 0 0 0 in
    let* (b, p) := tailGroup b p n in
    let* bytes := decodedBytes b p in
    if 0 <? p then Returned (out ++ bytes)
    else loop fuel s (iter + length (firstn groupSymbols (skipn iter s)))%nat
           (out ++ bytes).
Proof.
  intros Hpos Hlt. cbn [DecodeLoop].
  destruct (Nat.eqb_spec iter (length s)) as [Heq|_]; [lia|].
  rewrite DecodeGroup_scan by lia.
  replace (iter + groupSymbols - iter)%nat with groupSymbols by lia.
  destruct (scan (firstn groupSymbols (skipn iter s)) 0 0 0)
    as [[[b p] n]|e| |]; cbn [bind]; try reflexivity.
  destruct (tailGroup b p n) as [[b' p']|e| |]; cbn [bind]; try reflexivity.
  destruct (decodedBytes b' p') as [bytes|e| |]; cbn [bind];
    try reflexivity.
  rewrite putAll_appendChar; cbn [bind].
  destruct (0 <? p'); [reflexivity|].
  f_equal. rewrite length_firstn, length_skipn. lia.
Qed.

(** The fold over a concatenation. *)
Lemma scan_app (l1 l2 : list byte) (b p n : Z) :
  scan (l1 ++ l2) b p n =
    let* (b', p', n') := scan l1 b p n in scan l2 b' p' n'.
Proof.
  revert b p n; induction l1 as [|c l1 IH]; intros b p n;
    cbn [app scanSymbols bind]; [reflexivity|].
  destruct (DecodeStep raise bits symbolBits decodeSymbol c b p n)
    as [[[b' p'] n']|e| |]; cbn [bind]; auto.
Qed.

(** A run of alphabet symbols met before any pad character. *)
Lemma scan_symbols (l : list byte) (b n : Z) :
  Forall (fun c => isSymbol decodeSymbol c = true) l ->
  0 <= n -> n + Z.of_nat (length l) < 2 ^ 32 ->
  scan l b 0 n
  = Returned (packSymbols bits symbolBits decodeSymbol l b, 0,
              n + Z.of_nat (length l)).
Proof.
  revert b n; induction l as [|c l IH]; intros b n Hall Hn Hlen.
  - cbn. rewrite Z.add_0_r. reflexivity.
  - inversion Hall as [|? ? Hc Hl]; subst.
    cbn [scanSymbols]. unfold DecodeStep.
    cbn [Z.ltb Z.compare andb].
    unfold isSymbol in Hc. unfold packSymbols. cbn [fold_left].
    unfold symbolValue at 2.
    destruct (decodeSymbol c) as [v| |]; try discriminate Hc.
    cbn [bind]. cbn [length] in Hlen |- *.
    unfold u32. rewrite (Z.mod_small (n + 1)) by lia.
    rewrite IH by (assumption || lia).
    unfold packSymbols. cbn [length]. tuple_eq.
Qed.

Hypothesis pad_symbol : decodeSymbol "=" = Pad.

(** A run of pad characters. *)
Lemma scan_pads (k : nat) (b p n : Z) :
  0 <= p -> 0 <= n ->
  p + Z.of_nat k < 2 ^ 32 -> n + Z.of_nat k < 2 ^ 32 ->
  scan (repeat "=" k) b p n
  = Returned (shiftPads bits symbolBits k b, p + Z.of_nat k,
              n + Z.of_nat k).
Proof.
  revert b p n; induction k as [|k IH]; intros b p n Hp Hn Hpk Hnk.
  - cbn. rewrite !Z.add_0_r. reflexivity.
  - cbn [repeat scanSymbols shiftPads]. unfold DecodeStep.
    rewrite pad_symbol.
    change (Byte.eqb "=" "=") with true. cbn [negb]. rewrite andb_false_r.
    cbn [bind]. unfold u32. rewrite !Z.mod_small by lia.
    rewrite IH by lia. tuple_eq.
Qed.

(** The fold never aborts and raises nothing but the parse error. *)
Lemma scan_outcome (l : list byte) (b p n : Z) :
  (exists r, scan l b p n = Returned r)
  \/ scan l b p n = Thrown (raise STRING_PARSE_ERROR).
Proof.
  revert b p n; induction l as [|c l IH]; intros b p n; cbn [scanSymbols].
  - left; eexists; reflexivity.
  - unfold DecodeStep.
    destruct ((0 <? p) && negb (Byte.eqb c "=")); [right; reflexivity|].
    destruct (decodeSymbol c); cbn [bind]; auto.
Qed.

(** The pad count never decreases along the fold. *)
Lemma scan_pad_monotone (l : list byte) (b p n b' p' n' : Z) :
  0 <= p -> p + Z.of_nat (length l) < 2 ^ 32 ->
  scan l b p n = Returned (b', p', n') ->
  p <= p' <= p + Z.of_nat (length l).
Proof.
  revert b p n; induction l as [|c l IH]; intros b p n Hp Hlen;
    cbn [scanSymbols].
  - intro H; injection H as <- <- <-. cbn; lia.
  - cbn [length] in Hlen |- *. unfold DecodeStep.
    destruct ((0 <? p) && negb (Byte.eqb c "=")); [discriminate|].
    destruct (decodeSymbol c); cbn [bind]; try discriminate.
    + intro H; apply IH in H; lia.
    + unfold u32; rewrite Z.mod_small by lia.
      intro H; apply IH in H; lia.
Qed.

(** Once a pad character has been counted, any other character is a
    parse error. *)
Lemma scan_after_pad (l : list byte) (b p n : Z) (c : byte) :
  0 < p -> p + Z.of_nat (length l) < 2 ^ 32 ->
  In c l -> c <> "=" ->
  scan l b p n = Thrown (raise STRING_PARSE_ERROR).
Proof.
  revert b p n; induction l as [|a l IH]; intros b p n Hp Hlen Hin Hc;
    [contradiction|].
  cbn [scanSymbols]. cbn [length] in Hlen |- *. unfold DecodeStep.
  destruct (Z.ltb_spec 0 p) as [_|]; [|lia]. cbn [andb].
  destruct (Byte.eqb a "=") eqn:Ea; cbn [negb]; [|reflexivity].
  apply Byte.byte_dec_bl in Ea. subst a.
  rewrite pad_symbol. cbn [bind].
  destruct Hin as [Heq|Hin]; [symmetry in Heq; contradiction|].
  unfold u32; rewrite Z.mod_small by lia.
  apply IH; auto; lia.
Qed.

(** A pad character followed, later in the group, by another character. *)
Lemma scan_pad_then_other (l1 l2 : list byte) (c : byte) :
  Z.of_nat (length (l1 ++ "=" :: l2)) < 2 ^ 32 ->
  In c l2 -> c <> "=" ->
  scan (l1 ++ "=" :: l2) 0 0 0 = Thrown (raise STRING_PARSE_ERROR).
Proof.
  intros Hlen Hin Hc.
  rewrite length_app in Hlen. cbn [length] in Hlen |- *.
  rewrite scan_app.
  destruct (scan_outcome l1 0 0 0) as [[[[b p] n] Hr]|Ht];
    rewrite ?Hr, ?Ht; cbn [bind]; [|reflexivity].
  apply scan_pad_monotone in Hr; [|lia|lia].
  cbn [scanSymbols]. unfold DecodeStep.
  change (Byte.eqb "=" "=") with true. cbn [negb]. rewrite andb_false_r.
  rewrite pad_symbol. cbn [bind].
  unfold u32; rewrite Z.mod_small by lia.
  apply scan_after_pad with (c := c); auto; lia.
Qed.

(** A group that holds a pad character leaves the fold, if at all, with a
    positive pad count. *)
Lemma scan_pad_positive (l : list byte) (b p n b' p' n' : Z) :
  0 <= p -> p + Z.of_nat (length l) < 2 ^ 32 ->
  In "=" l ->
  scan l b p n = Returned (b', p', n') -> 0 < p'.
Proof.
  revert b p n; induction l as [|a l IH]; intros b p n Hp Hlen Hin;
    [contradiction|].
  cbn [scanSymbols]. cbn [length] in Hlen |- *. unfold DecodeStep.
  destruct ((0 <? p) && negb (Byte.eqb a "=")); [discriminate|].
  destruct Hin as [Heq|Hin].
  - subst a. rewrite pad_symbol. cbn [bind].
    unfold u32; rewrite Z.mod_small by lia.
    intro H; apply scan_pad_monotone in H; lia.
  - destruct (decodeSymbol a); cbn [bind]; try discriminate.
    + apply IH; auto; lia.
    + unfold u32; rewrite Z.mod_small by lia. apply IH; auto; lia.
Qed.

(** The loop counter after a whole fold counts the characters. *)
Lemma scan_counts (l : list byte) (b p n b' p' n' : Z) :
  0 <= n -> n + Z.of_nat (length l) < 2 ^ 32 ->
  scan l b p n = Returned (b', p', n') -> n' = n + Z.of_nat (length l).
Proof.
  revert b p n; induction l as [|a l IH]; intros b p n Hn Hlen;
    cbn [scanSymbols].
  - intro H; injection H as <- <- <-. cbn; lia.
  - cbn [length] in Hlen |- *. unfold DecodeStep.
    destruct ((0 <? p) && negb (Byte.eqb a "=")); [discriminate|].
    unfold u32; rewrite Z.mod_small by lia.
    destruct (decodeSymbol a); cbn [bind]; try discriminate;
      intro H; apply IH in H; lia.
Qed.

End Rfc4648Decode.

Lemma skipn_length_app (pre l : list byte) :
  skipn (length pre) (pre ++ l) = l.
Proof.
  rewrite skipn_app, skipn_all, Nat.sub_diag. reflexivity.
Qed.

Lemma firstn_length_app (g l : list byte) :
  firstn (length g) (g ++ l) = g.
Proof.
  rewrite firstn_app, firstn_all, Nat.sub_diag, firstn_O, app_nil_r.
  reflexivity.
Qed.

Section Rfc4648DecodeGroups.

Import Rfc4648.

Context {X : Type}.
Variable raise : ErrorType -> X.
Variable bits symbolBits : Z.
Variable groupSymbols : nat.
Variable decodeSymbol : byte -> Symbol.
Variable tailGroup : Z -> Z -> Z -> Outcome X (Z * Z).
Variable decodedBytes : Z -> Z -> Outcome X (list byte).

Hypothesis groupSymbols_pos : (0 < groupSymbols)%nat.
Hypothesis groupSymbols_small : Z.of_nat groupSymbols < 2 ^ 32.
Hypothesis tail_full :
  forall b p, tailGroup b p (Z.of_nat groupSymbols) = Returned (b, p).
Hypothesis bytes_full :
  forall b, exists bytes, decodedBytes b 0 = Returned bytes.

Local Abbreviation scan := (scanSymbols raise bits symbolBits decodeSymbol).
Local Abbreviation loop :=
  (DecodeLoop raise appendChar bits symbolBits groupSymbols decodeSymbol
     tailGroup decodedBytes).
Local Abbreviation symbols :=
  (Forall (fun c => isSymbol decodeSymbol c = true)).
Local Abbreviation groupsBytes :=
  (fullGroupsBytes bits symbolBits groupSymbols decodeSymbol decodedBytes).

(** A full group of alphabet symbols yields its bytes and the loop goes
    on behind it. *)
Lemma DecodeLoop_full_group (fuel : nat) (s g : list byte) (iter : nat)
    (out : list byte) :
  firstn groupSymbols (skipn iter s) = g ->
  length g = groupSymbols -> symbols g ->
  loop (S fuel) s iter out
  = loop fuel s (iter + groupSymbols)%nat
      (out ++ fullGroupBytes bits symbolBits decodeSymbol decodedBytes g).
Proof.
  intros Hg Hlen Hsym.
  assert (Hlt : (iter < length s)%nat).
  { destruct (Nat.lt_ge_cases iter (length s)) as [H|H]; [exact H|].
    rewrite skipn_all2, firstn_nil in Hg by exact H.
    subst g; cbn in Hlen; lia. }
  rewrite DecodeLoop_step by assumption.
  rewrite Hg, scan_symbols by (assumption || lia).
  cbn [bind]. rewrite Z.add_0_l, Hlen, tail_full. cbn [bind].
  unfold fullGroupBytes.
  destruct (bytes_full (packSymbols bits symbolBits decodeSymbol g 0))
    as [bytes ->].
  cbn [bind Z.ltb Z.compare]. reflexivity.
Qed.

(** [k] full groups of alphabet symbols. *)
Lemma DecodeLoop_full_groups (k : nat) :
  forall (pre p t out : list byte) (fuel : nat),
    length p = (k * groupSymbols)%nat -> symbols p ->
    loop (k + fuel) (pre ++ p ++ t) (length pre) out
    = loop fuel (pre ++ p ++ t) (length pre + length p)%nat
        (out ++ groupsBytes k p).
Proof.
  induction k as [|k IH]; intros pre p t out fuel Hlen Hsym.
  - destruct p; [|cbn in Hlen; lia].
    cbn. rewrite Nat.add_0_r, app_nil_r. reflexivity.
  - cbn [Nat.mul] in Hlen.
    rewrite <- (firstn_skipn groupSymbols p) in Hsym.
    apply Forall_app in Hsym. destruct Hsym as [Hg Hp'].
    assert (Lg : length (firstn groupSymbols p) = groupSymbols)
      by (rewrite length_firstn; lia).
    assert (Lp : length (skipn groupSymbols p) = (k * groupSymbols)%nat)
      by (rewrite length_skipn; lia).
    cbn [Nat.add fullGroupsBytes].
    assert (Hfirst : firstn groupSymbols
                       (skipn (length pre) (pre ++ p ++ t))
                     = firstn groupSymbols p).
    { rewrite skipn_length_app.
      rewrite <- (firstn_skipn groupSymbols p) at 1.
      rewrite <- app_assoc.
      rewrite <- Lg at 1.
      apply firstn_length_app. }
    rewrite (DecodeLoop_full_group (k + fuel) (pre ++ p ++ t)
               (firstn groupSymbols p) (length pre) out Hfirst Lg Hg).
    pose proof (IH (pre ++ firstn groupSymbols p) (skipn groupSymbols p) t
                  (out ++ fullGroupBytes bits symbolBits decodeSymbol
                            decodedBytes (firstn groupSymbols p))
                  fuel Lp Hp') as H.
    rewrite <- !app_assoc in H.
    rewrite (app_assoc (firstn groupSymbols p)), firstn_skipn in H.
    rewrite length_app, Lg, Lp in H.
    rewrite H.
    replace (length pre + length p)%nat
      with (length pre + groupSymbols + k * groupSymbols)%nat by lia.
    reflexivity.
Qed.

(** The loop on an input made of [k] full groups of alphabet symbols
    followed by [t]: the first group of [t] decides. *)
Lemma DecodeLoop_after_groups (k : nat) (p t : list byte) (c : byte) :
  length p = (k * groupSymbols)%nat -> symbols p ->
  loop (S (length (p ++ c :: t))) (p ++ c :: t) 0 [] =
    let* (b, pd, n) := scan (firstn groupSymbols (c :: t)) 0 0 0 in
    let* (b, pd) := tailGroup b pd n in
    let* bytes := decodedBytes b pd in
    if 0 <? pd then Returned (groupsBytes k p ++ bytes)
    else loop (length (p ++ c :: t) - k) (p ++ c :: t)
           (length p + length (firstn groupSymbols (c :: t)))%nat
           (groupsBytes k p ++ bytes).
Proof.
  intros Hlen Hsym.
  assert (Hk : (k <= length p)%nat) by nia.
  replace (S (length (p ++ c :: t)))
    with (k + S (length (p ++ c :: t) - k))%nat
    by (rewrite length_app; cbn [length]; clear - Hk; lia).
  pose proof (DecodeLoop_full_groups k [] p (c :: t) []
                (S (length (p ++ c :: t) - k)) Hlen Hsym) as H.
  cbn [app length Nat.add] in H. rewrite H. clear H.
  rewrite DecodeLoop_step
    by (try rewrite length_app; cbn [length]; clear - groupSymbols_pos; lia).
  rewrite skipn_length_app. reflexivity.
Qed.

Lemma DecodeLoop_only_groups (k : nat) (p : list byte) :
  length p = (k * groupSymbols)%nat -> symbols p ->
  loop (S (length p)) p 0 [] = Returned (groupsBytes k p).
Proof.
  intros Hlen Hsym.
  assert (Hk : (k <= length p)%nat) by nia.
  replace (S (length p)) with (k + S (length p - k))%nat
    by (clear - Hk; lia).
  pose proof (DecodeLoop_full_groups k [] p [] []
                (S (length p - k)) Hlen Hsym) as H.
  cbn [app length Nat.add] in H. rewrite app_nil_r in H. rewrite H.
  cbn [DecodeLoop]. rewrite Nat.eqb_refl. reflexivity.
Qed.

(** The same, when [t] is a single, possibly short, final group. *)
Lemma DecodeLoop_last_group (k : nat) (p t : list byte) (c : byte) :
  length p = (k * groupSymbols)%nat -> symbols p ->
  (length (c :: t) <= groupSymbols)%nat ->
  loop (S (length (p ++ c :: t))) (p ++ c :: t) 0 [] =
    let* (b, pd, n) := scan (c :: t) 0 0 0 in
    let* (b, pd) := tailGroup b pd n in
    let* bytes := decodedBytes b pd in
    Returned (groupsBytes k p ++ bytes).
Proof.
  intros Hlen Hsym Ht.
  rewrite (DecodeLoop_after_groups k) by assumption.
  rewrite firstn_all2 by exact Ht.
  destruct (scan (c :: t) 0 0 0) as [[[b pd] n]|e| |]; cbn [bind];
    try reflexivity.
  destruct (tailGroup b pd n) as [[b' pd']|e| |]; cbn [bind];
    try reflexivity.
  destruct (decodedBytes b' pd') as [bytes|e| |]; cbn [bind];
    try reflexivity.
  destruct (0 <? pd'); [reflexivity|].
  assert (Hk : (k <= length p)%nat) by nia.
  replace (length (p ++ c :: t) - k)%nat
    with (S (length (p ++ c :: t) - S k))
    by (rewrite length_app; cbn [length]; clear - Hk; lia).
  cbn [DecodeLoop].
  replace (length p + length (c :: t))%nat with (length (p ++ c :: t))
    by (rewrite length_app; reflexivity).
  rewrite Nat.eqb_refl. reflexivity.
Qed.

End Rfc4648DecodeGroups.

Section Rfc4648DecodePadding.

Import Rfc4648.

Context {X : Type}.
Variable raise : ErrorType -> X.
Variable bits symbolBits : Z.
Variable groupSymbols : nat.
Variable decodeSymbol : byte -> Symbol.
Variable tailGroup : Z -> Z -> Z -> Outcome X (Z * Z).
Variable decodedBytes : Z -> Z -> Outcome X (list byte).

Hypothesis groupSymbols_pos : (0 < groupSymbols)%nat.
Hypothesis groupSymbols_small : Z.of_nat groupSymbols < 2 ^ 32.
Hypothesis tail_full :
  forall b p, tailGroup b p (Z.of_nat groupSymbols) = Returned (b, p).
Hypothesis bytes_full :
  forall b, exists bytes, decodedBytes b 0 = Returned bytes.
Hypothesis pad_symbol : decodeSymbol "=" = Pad.

Local Abbreviation scan := (scanSymbols raise bits symbolBits decodeSymbol).
Local Abbreviation loop :=
  (DecodeLoop raise appendChar bits symbolBits groupSymbols decodeSymbol
     tailGroup decodedBytes).
Local Abbreviation symbols :=
  (Forall (fun c => isSymbol decodeSymbol c = true)).

(** Inside one group, a character other than the pad character that
    comes after a pad character is a parse error. *)
Lemma DecodeLoop_pad_then_other (k : nat) (p t l1 l2 : list byte)
    (c : byte) :
  length p = (k * groupSymbols)%nat -> symbols p ->
  firstn groupSymbols t = l1 ++ "=" :: l2 -> In c l2 -> c <> "=" ->
  loop (S (length (p ++ t))) (p ++ t) 0 []
  = Thrown (raise STRING_PARSE_ERROR).
Proof.
  intros Hlen Hsym Hg Hin Hc.
  destruct t as [|a t];
    [rewrite firstn_nil in Hg; destruct l1; discriminate Hg|].
  rewrite (DecodeLoop_after_groups raise bits symbolBits groupSymbols
             decodeSymbol tailGroup decodedBytes groupSymbols_pos
             groupSymbols_small tail_full bytes_full k) by assumption.
  rewrite Hg.
  rewrite (scan_pad_then_other raise bits symbolBits decodeSymbol
             pad_symbol l1 l2 c); auto.
  rewrite <- Hg, length_firstn. lia.
Qed.

(** Once a full group that holds a pad character has been decoded, the
    loop is left: what follows the group is not looked at. *)
Lemma DecodeLoop_stops_after_pad (k : nat) (p g rest : list byte) :
  length p = (k * groupSymbols)%nat -> symbols p ->
  length g = groupSymbols -> In "=" g ->
  loop (S (length (p ++ g ++ rest))) (p ++ g ++ rest) 0 []
  = loop (S (length (p ++ g))) (p ++ g) 0 [].
Proof.
  intros Hlen Hsym Hg Hin.
  destruct g as [|a g]; [contradiction|].
  cbn [app].
  rewrite !(DecodeLoop_after_groups raise bits symbolBits groupSymbols
              decodeSymbol tailGroup decodedBytes groupSymbols_pos
              groupSymbols_small tail_full bytes_full k) by assumption.
  change (a :: g ++ rest) with ((a :: g) ++ rest).
  assert (F1 : firstn groupSymbols ((a :: g) ++ rest) = a :: g)
    by (rewrite <- Hg; apply firstn_length_app).
  assert (F2 : firstn groupSymbols (a :: g) = a :: g)
    by (rewrite <- Hg; apply firstn_all).
  rewrite F1, F2.
  destruct (scan (a :: g) 0 0 0) as [[[b pd] n]|e| |] eqn:Hs; cbn [bind];
    try reflexivity.
  pose proof (scan_pad_positive raise bits symbolBits decodeSymbol
                pad_symbol _ _ _ _ _ _ _ (Z.le_refl 0)
                ltac:(rewrite Hg; lia) Hin Hs) as Hpd.
  pose proof (scan_counts raise bits symbolBits decodeSymbol
                _ _ _ _ _ _ _ (Z.le_refl 0) ltac:(rewrite Hg; lia) Hs)
    as Hn.
  rewrite Hg, Z.add_0_l in Hn. subst n.
  rewrite tail_full. cbn [bind].
  destruct (decodedBytes b pd) as [bytes|e| |]; cbn [bind]; try reflexivity.
  destruct (Z.ltb_spec 0 pd); [reflexivity | lia].
Qed.

End Rfc4648DecodePadding.



(** ** Base64 and Base64Url: the final group *)

Section Radix64Decode.

Import Rfc4648.

Variable decodeSymbol : byte -> Symbol.
Hypothesis pad_symbol : decodeSymbol "=" = Pad.

Local Abbreviation decode := (Radix64.DecodeStringToString decodeSymbol).
Local Abbreviation symbols :=
  (Forall (fun c => isSymbol decodeSymbol c = true)).
Local Abbreviation groupsBytes :=
  (fullGroupsBytes 24 6 4 decodeSymbol
     (Radix64.decodedBytes (fun e : ErrorType => e))).

Lemma Radix64_tail_full (b p : Z) :
  Radix64.tailGroup (fun e : ErrorType => e) b p (Z.of_nat 4)
  = Returned (b, p).
Proof. reflexivity. Qed.

Lemma Radix64_bytes_full (b : Z) :
  exists bytes,
    Radix64.decodedBytes (fun e : ErrorType => e) b 0 = Returned bytes.
Proof. eexists; reflexivity. Qed.





End Radix64Decode.

(** ** Base32 and Base32Hex: the padded group *)

Section Radix32Decode.

Import Rfc4648.

Variable decodeSymbol : byte -> Symbol.
Hypothesis pad_symbol : decodeSymbol "=" = Pad.

Local Abbreviation decode := (Radix32.DecodeStringToString decodeSymbol).
Local Abbreviation symbols :=
  (Forall (fun c => isSymbol decodeSymbol c = true)).
Local Abbreviation groupsBytes :=
  (fullGroupsBytes 40 5 8 decodeSymbol
     (Radix32.decodedBytes (fun e : ErrorType => e))).

Lemma Radix32_tail_full (b p : Z) :
  Radix32.tailGroup (fun e : ErrorType => e) b p (Z.of_nat 8)
  = Returned (b, p).
Proof. reflexivity. Qed.

Lemma Radix32_bytes_full (b : Z) :
  exists bytes,
    Radix32.decodedBytes (fun e : ErrorType => e) b 0 = Returned bytes.
Proof. eexists; reflexivity. Qed.



End Radix32Decode.

(** ** Claims about Base64 and Base32 decoding *)





(** C9 (code defect): the refusal of a character other than the pad
    after a pad reaches to the end of the group only.  In Base64 and in
    Base32 decoding, after any number of complete groups of alphabet
    symbols, (1) once a pad character has been seen in a group, any
    other character met later in the same 4-symbol (8-symbol) group
    raises the parse error, as the claim has it; but (2) after a full
    group that holds a pad character the decoders leave the outer loop
    (lines 3447-3449 and 2047-2049), and the input behind that group is
    never read: the outcome is that of the input cut after the group,
    whatever follows.  So (3) ["QQ==QQ=="], and ["QQ=="] followed by a
    line feed, decode to ["A"], and ["MY======MY======"] decodes to
    ["f"], where the claim asks for the parse error. *)
Theorem pad_then_other_character
    (k : nat) (p t l1 l2 g rest : list byte) (c : byte) :
  (length p = (k * 4)%nat ->
   Forall (fun c => Rfc4648.isSymbol Base64.decodeSymbol c = true) p ->
   (firstn 4 t = l1 ++ "=" :: l2 -> In c l2 -> c <> "=" ->
    Base64.DecodeStringToString (p ++ t)
    = Thrown Rfc4648.STRING_PARSE_ERROR)
   /\ (length g = 4%nat -> In "=" g ->
       Base64.DecodeStringToString (p ++ g ++ rest)
       = Base64.DecodeStringToString (p ++ g)))
  /\ (length p = (k * 8)%nat ->
      Forall (fun c => Rfc4648.isSymbol Base32.decodeSymbol c = true) p ->
      (firstn 8 t = l1 ++ "=" :: l2 -> In c l2 -> c <> "=" ->
       Base32.DecodeStringToString (p ++ t)
       = Thrown Rfc4648.STRING_PARSE_ERROR)
      /\ (length g = 8%nat -> In "=" g ->
          Base32.DecodeStringToString (p ++ g ++ rest)
          = Base32.DecodeStringToString (p ++ g)))
  /\ (Base64.DecodeStringToString ["Q"; "Q"; "="; "="; "Q"; "Q"; "="; "="]
      = Returned ["A"]
      /\ Base64.DecodeStringToString ["Q"; "Q"; "="; "="; x0a]
         = Returned ["A"]
      /\ Base32.DecodeStringToString
           ["M"; "Y"; "="; "="; "="; "="; "="; "=";
            "M"; "Y"; "="; "="; "="; "="; "="; "="]
         = Returned ["f"]).
Proof.
  split; [|split]; [| |repeat split]; intros Hlen Hsym; split.
  - intros Hg Hin Hc.
    unfold Base64.DecodeStringToString, Radix64.DecodeStringToString.
    apply (DecodeLoop_pad_then_other (fun e : Rfc4648.ErrorType => e) 24 6 4
             Base64.decodeSymbol _ _ ltac:(lia) ltac:(cbn; lia)
             Radix64_tail_full Radix64_bytes_full eq_refl
             k p t l1 l2 c Hlen Hsym Hg Hin Hc).
  - intros Hg Hin.
    unfold Base64.DecodeStringToString, Radix64.DecodeStringToString.
    apply (DecodeLoop_stops_after_pad (fun e : Rfc4648.ErrorType => e) 24 6 4
             Base64.decodeSymbol _ _ ltac:(lia) ltac:(cbn; lia)
             Radix64_tail_full Radix64_bytes_full eq_refl
             k p g rest Hlen Hsym Hg Hin).
  - intros Hg Hin Hc.
    unfold Base32.DecodeStringToString, Radix32.DecodeStringToString.
    apply (DecodeLoop_pad_then_other (fun e : Rfc4648.ErrorType => e) 40 5 8
             Base32.decodeSymbol _ _ ltac:(lia) ltac:(cbn; lia)
             Radix32_tail_full Radix32_bytes_full eq_refl
             k p t l1 l2 c Hlen Hsym Hg Hin Hc).
  - intros Hg Hin.
    unfold Base32.DecodeStringToString, Radix32.DecodeStringToString.
    apply (DecodeLoop_stops_after_pad (fun e : Rfc4648.ErrorType => e) 40 5 8
             Base32.decodeSymbol _ _ ltac:(lia) ltac:(cbn; lia)
             Radix32_tail_full Radix32_bytes_full eq_refl
             k p g rest Hlen Hsym Hg Hin).
Qed.

Lemma pad_then_other_character_witness :
  Base64.DecodeStringToString ([] ++ ["Q"; "="; "Q"; "Q"])
  = Thrown Rfc4648.STRING_PARSE_ERROR
  /\ Base64.DecodeStringToString
       ([] ++ ["Q"; "Q"; "="; "="] ++ ["Q"; "Q"; "="; "="])
     = Base64.DecodeStringToString ([] ++ ["Q"; "Q"; "="; "="])
  /\ Base32.DecodeStringToString
       ([] ++ ["M"; "Y"; "="; "="; "="; "="; "M"; "="])
     = Thrown Rfc4648.STRING_PARSE_ERROR
  /\ Base32.DecodeStringToString
       ([] ++ ["M"; "Y"; "="; "="; "="; "="; "="; "="] ++ ["M"; "Y"])
     = Base32.DecodeStringToString
         ([] ++ ["M"; "Y"; "="; "="; "="; "="; "="; "="]).
Proof.
  split; [|split; [|split]].
  - apply (proj1 (pad_then_other_character 0 [] ["Q"; "="; "Q"; "Q"]
                    ["Q"] ["Q"; "Q"] [] [] "Q"));
      [reflexivity | constructor | reflexivity | simpl; auto | discriminate].
  - apply (proj1 (pad_then_other_character 0 [] [] [] []
                    ["Q"; "Q"; "="; "="] ["Q"; "Q"; "="; "="] "Q"));
      [reflexivity | constructor | reflexivity | simpl; auto].
  - apply (proj1 (proj2 (pad_then_other_character 0 []
                    ["M"; "Y"; "="; "="; "="; "="; "M"; "="]
                    ["M"; "Y"] ["="; "="; "="; "M"; "="] [] [] "M")));
      [reflexivity | constructor | reflexivity | simpl; auto | discriminate].
  - apply (proj1 (proj2 (pad_then_other_character 0 [] [] [] []
                    ["M"; "Y"; "="; "="; "="; "="; "="; "="] ["M"; "Y"]
                    "M")));
      [reflexivity | constructor | reflexivity | simpl; auto].
Defined.

(** ** Claims about Ascii85 *)

(** C2 (code defect): on a ['z'] met outside a group, the main loop of
    [DecodeStringToByteBuffer] adds four zero bytes and goes on, but the
    main loop of [DecodeStringToString] goes on with its output unchanged:
    line 4596 is [case 'z': continue;] with the append commented out.  So
    ["z"] decodes to the empty string on the string surface and to four
    zero bytes on the buffer surface. *)
Theorem Ascii85_z_outside_group
    (fuel : nat) (s : list byte) (encodedStringEnd iter : nat)
    (foldSpaces_ : bool) :
  iter <> encodedStringEnd -> nth iter s x00 = "z" ->
  (forall out,
      Ascii85.DecodeLoop (fun e => e) appendChar (fun out => Returned out)
        (S fuel) s encodedStringEnd foldSpaces_ iter out
      = Ascii85.DecodeLoop (fun e => e) appendChar (fun out => Returned out)
          fuel s encodedStringEnd foldSpaces_ (S iter) out)
  /\ (forall st,
        Ascii85.DecodeLoop inl stage
          (fun st => Rfc4648.putAll stage st [x00; x00; x00; x00])
          (S fuel) s encodedStringEnd foldSpaces_ iter st
        = let* st := Rfc4648.putAll stage st [x00; x00; x00; x00] in
          Ascii85.DecodeLoop inl stage
            (fun st => Rfc4648.putAll stage st [x00; x00; x00; x00])
            fuel s encodedStringEnd foldSpaces_ (S iter) st)
  /\ Ascii85.DecodeStringToString ["z"] false false = Returned []
  /\ Ascii85.DecodeStringToByteBuffer ["z"] false false []
     = Returned fourZeros.
Proof.
  intros Hne Hz.
  repeat match goal with |- _ /\ _ => split end.
  - intro out. cbn [Ascii85.DecodeLoop].
    destruct (Nat.eqb_spec iter encodedStringEnd) as [E|_];
      [contradiction|].
    rewrite Hz. reflexivity.
  - intro st. cbn [Ascii85.DecodeLoop].
    destruct (Nat.eqb_spec iter encodedStringEnd) as [E|_];
      [contradiction|].
    rewrite Hz. reflexivity.
  - reflexivity.
  - vm_compute. reflexivity.
Qed.

Lemma Ascii85_z_outside_group_witness :
  Ascii85.DecodeLoop (fun e : Ascii85.ErrorType => e) appendChar
    (fun out => Returned out) 2 ["z"] 1 false 0 []
  = Ascii85.DecodeLoop (fun e => e) appendChar (fun out => Returned out)
      1 ["z"] 1 false 1 [].
Proof.
  apply (proj1 (Ascii85_z_outside_group 1 ["z"] 1 0 false
                  ltac:(discriminate) eq_refl)).
Defined.

(** C3 (code defect): the encoders test [bitset == 0] without asking
    whether the group is full (lines 4416-4417 and 4495-4496), so a ragged
    final group of one, two or three zero bytes is emitted as ['z'], not
    as two, three or four ['!'] digits. *)
Theorem Ascii85_ragged_zero_group_emits_z
    (foldSpaces_ : bool) (counter : Z) (encodedString : list byte) :
  1 <= counter <= 4 ->
  Ascii85.EncodeGroup foldSpaces_ 0 counter encodedString
  = Returned (encodedString ++ ["z"])
  /\ Ascii85.EncodeStringToString [x00] false false = Returned ["z"]
  /\ Ascii85.EncodeStringToString [x00; x00] false false = Returned ["z"]
  /\ Ascii85.EncodeStringToString [x00; x00; x00] false false
     = Returned ["z"]
  /\ Ascii85.EncodeByteBufferToString zeroByte false false = Returned ["z"]
  /\ Ascii85.EncodeStringToString [x00; x00; x00; x01] false false
     = Returned ["!"; "!"; "!"; "!"; x22].
Proof.
  intro H.
  repeat match goal with |- _ /\ _ => split end; try reflexivity.
  assert (C : counter = 1 \/ counter = 2 \/ counter = 3 \/ counter = 4)
    by lia.
  destruct C as [->|[->|[->| ->]]]; reflexivity.
Qed.

Lemma Ascii85_ragged_zero_group_emits_z_witness :
  Ascii85.EncodeGroup false 0 1 [] = Returned ([] ++ ["z"]).
Proof.
  apply (proj1 (Ascii85_ragged_zero_group_emits_z false 1 []
                  ltac:(lia))).
Defined.

(** C1 (code defect): the round trip fails for Ascii85 on a buffer whose
    ragged final group is all zero.  The one-byte buffer [{0x00}] is
    encoded as ["z"], which decodes to four zero bytes. *)
Theorem Ascii85_round_trip_fails_on_zero_byte :
  ByteBuffer.wellFormed zeroByte
  /\ Ascii85.EncodeByteBufferToString zeroByte false false = Returned ["z"]
  /\ Ascii85.DecodeStringToByteBuffer ["z"] false false []
     = Returned fourZeros
  /\ ByteBuffer.operator_eq fourZeros zeroByte = false.
Proof.
  repeat match goal with |- _ /\ _ => split end.
  - unfold ByteBuffer.wellFormed, ByteBuffer.GetMaximumSize; simpl; lia.
  - reflexivity.
  - vm_compute. reflexivity.
  - reflexivity.
Qed.

(** * Part III: what the operations compute *)

(** ** ByteBuffer: contents of the buffers the operations build *)

Section ByteBufferContents.

Import ByteBuffer.

Lemma unfailing_make_unique (n : Z) (h : Heap) :
  unfailing h ->
  make_unique n h = (Some (repeat x00 (Z.to_nat n)), tl h)
  /\ unfailing (tl h).
Proof.
  intro H. destruct h as [|[|] h]; cbn [make_unique tl].
  - split; [reflexivity|constructor].
  - split; [reflexivity|]. inversion H; assumption.
  - inversion H; discriminate.
Qed.

Lemma copy_fresh (l : list byte) :
  copy l (Z.of_nat (length l)) (repeat x00 (length l)) 0 = l.
Proof.
  unfold copy. rewrite Nat2Z.id. cbn [Z.to_nat firstn app Nat.add].
  rewrite firstn_all, skipn_all2 by (rewrite repeat_length; lia).
  apply app_nil_r.
Qed.

Lemma copy_prefix (l : list byte) (n : nat) :
  (n <= length l)%nat ->
  copy l (Z.of_nat n) (repeat x00 n) 0 = firstn n l.
Proof.
  intro H. unfold copy. rewrite Nat2Z.id. cbn [Z.to_nat firstn app Nat.add].
  rewrite skipn_all2 by (rewrite repeat_length; lia).
  apply app_nil_r.
Qed.

Lemma copy_append (mine theirs : list byte) :
  copy theirs (Z.of_nat (length theirs))
    (copy mine (Z.of_nat (length mine))
       (repeat x00 (length mine + length theirs)) 0)
    (Z.of_nat (length mine))
  = mine ++ theirs.
Proof.
  unfold copy. rewrite !Nat2Z.id. cbn [Z.to_nat firstn app Nat.add].
  rewrite (firstn_all mine).
  rewrite firstn_app, firstn_all, Nat.sub_diag, firstn_O, app_nil_r.
  rewrite firstn_all.
  rewrite skipn_all2; [rewrite app_nil_r; reflexivity|].
  rewrite length_app, length_skipn, repeat_length. lia.
Qed.

Lemma fill_grow (l : list byte) (n : nat) (v : byte) :
  (length l <= n)%nat ->
  fill (copy l (Z.of_nat (length l)) (repeat x00 n) 0)
    (Z.of_nat (length l)) (Z.of_nat n) v
  = l ++ repeat v (n - length l).
Proof.
  intro H. unfold fill, copy.
  rewrite !Nat2Z.id. cbn [Z.to_nat firstn app Nat.add].
  rewrite (firstn_all l).
  rewrite firstn_app, firstn_all, Nat.sub_diag, firstn_O, app_nil_r.
  rewrite skipn_all2; [rewrite app_nil_r; reflexivity|].
  rewrite length_app, length_skipn, repeat_length. lia.
Qed.

Lemma fill_whole (l : list byte) (v : byte) :
  fill l 0 (Z.of_nat (length l)) v = repeat v (length l).
Proof.
  unfold fill. rewrite Nat2Z.id. cbn [Z.to_nat firstn app].
  rewrite Nat.sub_0_r, skipn_all. apply app_nil_r.
Qed.

Lemma ofList_size (l : list byte) : _size (ofList l) = Z.of_nat (length l).
Proof. destruct l; reflexivity. Qed.

Lemma ofList_contents (l : list byte) : contents (ofList l) = l.
Proof.
  destruct l as [|c l]; [reflexivity|].
  unfold contents, ofList. cbn [_size _buffer get].
  rewrite Nat2Z.id. apply firstn_all.
Qed.

Lemma ofList_wellFormed (l : list byte) :
  Z.of_nat (length l) <= GetMaximumSize -> wellFormed (ofList l).
Proof.
  intro H. destruct l as [|c l]; [reflexivity|].
  unfold wellFormed, ofList. cbn [_size _buffer].
  cbn [length] in *. lia.
Qed.

Lemma wellFormed_ofList (b : ByteBuffer) :
  wellFormed b -> b = ofList (contents b).
Proof.
  destruct b as [n [l|]]; unfold wellFormed, contents;
    cbn [_size _buffer get].
  - intros [Hn Hl]. subst n. rewrite Nat2Z.id, firstn_all.
    destruct l as [|c l]; [cbn in Hn; lia|reflexivity].
  - intros ->. reflexivity.
Qed.

Lemma wellFormed_size (b : ByteBuffer) :
  wellFormed b ->
  _size b = Z.of_nat (length (contents b))
  /\ Z.of_nat (length (contents b)) <= GetMaximumSize.
Proof.
  destruct b as [n [l|]]; unfold wellFormed, contents;
    cbn [_size _buffer get].
  - intros [Hn Hl]. subst n. rewrite Nat2Z.id, firstn_all. lia.
  - intros ->. cbn. unfold GetMaximumSize. lia.
Qed.

Lemma ofList_nonempty (l : list byte) :
  l <> [] ->
  ofList l = {| _size := Z.of_nat (length l); _buffer := Some l |}.
Proof. destruct l; [contradiction|reflexivity]. Qed.

Lemma length_nonempty (l : list byte) : l <> [] -> (0 < length l)%nat.
Proof. destruct l; [contradiction|cbn; lia]. Qed.

Lemma GetMaximumSize_small : GetMaximumSize < 2 ^ 64.
Proof. unfold GetMaximumSize. lia. Qed.

(** [operator+=] on buffers given by their bytes. *)
Lemma operator_plus_assign_ofList (mine theirs : list byte) (h : Heap) :
  unfailing h ->
  Z.of_nat (length mine) + Z.of_nat (length theirs) <= GetMaximumSize ->
  exists h',
    unfailing h'
    /\ operator_plus_assign (ofList mine) (ofList theirs) h
       = (Returned tt, ofList (mine ++ theirs), h').
Proof.
  intros Hh Hmax. pose proof GetMaximumSize_small as Hsmall.
  destruct (list_eq_dec Byte.byte_eq_dec theirs []) as [->|Ht].
  - exists h. split; [assumption|]. rewrite app_nil_r.
    destruct mine; reflexivity.
  - pose proof (length_nonempty theirs Ht) as Hlt.
    destruct (list_eq_dec Byte.byte_eq_dec mine []) as [->|Hm].
    + cbn [app]. rewrite (ofList_nonempty theirs Ht).
      unfold operator_plus_assign. cbn [ofList empty _buffer _size].
      destruct (unfailing_make_unique (Z.of_nat (length theirs)) h Hh)
        as [-> Hh'].
      exists (tl h). split; [assumption|].
      rewrite Nat2Z.id, copy_fresh. reflexivity.
    + pose proof (length_nonempty mine Hm) as Hlm.
      assert (Hmt : mine ++ theirs <> [])
        by (intro E; apply app_eq_nil in E; tauto).
      rewrite (ofList_nonempty theirs Ht), (ofList_nonempty mine Hm),
        (ofList_nonempty _ Hmt).
      unfold operator_plus_assign. cbn [_buffer _size].
      unfold SizeType. rewrite Z.mod_small by lia.
      destruct (Z.gtb_spec (Z.of_nat (length mine)
                            + Z.of_nat (length theirs)) GetMaximumSize);
        [lia|].
      destruct (Z.ltb_spec (Z.of_nat (length mine)
                            + Z.of_nat (length theirs))
                  (Z.of_nat (length mine))); [lia|].
      destruct (unfailing_make_unique
                  (Z.of_nat (length mine) + Z.of_nat (length theirs)) h Hh)
        as [-> Hh'].
      exists (tl h). split; [assumption|].
      rewrite <- Nat2Z.inj_add, Nat2Z.id, copy_append, length_app.
      reflexivity.
Qed.

(** [Resize(size_, byte_)] on a buffer given by its bytes. *)
Lemma ResizeWith_ofList (l : list byte) (n : nat) (v : byte) (h : Heap) :
  unfailing h ->
  Z.of_nat n <= GetMaximumSize ->
  exists h',
    unfailing h'
    /\ ResizeWith (ofList l) (Z.of_nat n) v h
       = (Returned tt, ofList (firstn n l ++ repeat v (n - length l)), h').
Proof.
  intros Hh Hmax. unfold ResizeWith.
  destruct (Z.gtb_spec (Z.of_nat n) GetMaximumSize); [lia|].
  rewrite ofList_size.
  destruct (Z.eqb_spec (Z.of_nat n) (Z.of_nat (length l))) as [E|NE].
  - apply Nat2Z.inj in E. subst n.
    rewrite firstn_all, Nat.sub_diag. cbn [repeat]. rewrite app_nil_r.
    exists h. split; [assumption|reflexivity].
  - destruct (Z.ltb_spec (Z.of_nat n) 1) as [Hz|Hpos].
    + assert (n = 0%nat) by lia. subst n. cbn [firstn Nat.sub repeat app].
      exists h. split; [assumption|reflexivity].
    + destruct (unfailing_make_unique (Z.of_nat (length l)) h Hh)
        as [-> Hh1].
      destruct (unfailing_make_unique (Z.of_nat n) (tl h) Hh1)
        as [-> Hh2].
      exists (tl (tl h)). split; [assumption|].
      assert (G : get (_buffer (ofList l)) = l) by (destruct l; reflexivity).
      rewrite G, !Nat2Z.id, copy_fresh.
      destruct (Z.ltb_spec (Z.of_nat n) (Z.of_nat (length l))) as [Hs|Hg].
      * rewrite copy_prefix by lia.
        replace (n - length l)%nat with 0%nat by lia.
        cbn [repeat]. rewrite app_nil_r.
        rewrite ofList_nonempty.
        -- rewrite length_firstn, Nat.min_l by lia. reflexivity.
        -- intro E. apply (f_equal (@length byte)) in E.
           rewrite length_firstn in E. cbn [length] in E. lia.
      * rewrite fill_grow by lia. rewrite firstn_all2 by lia.
        rewrite ofList_nonempty.
        -- rewrite length_app, repeat_length.
           replace (length l + (n - length l))%nat with n by lia.
           reflexivity.
        -- intro E. apply (f_equal (@length byte)) in E.
           rewrite length_app, repeat_length in E. cbn [length] in E. lia.
Qed.

Lemma ByteBuffer_copy_ofList (l : list byte) (h : Heap) :
  unfailing h ->
  exists h',
    unfailing h' /\ ByteBuffer_copy (ofList l) h = (Returned (ofList l), h').
Proof.
  intro Hh. destruct (list_eq_dec Byte.byte_eq_dec l []) as [->|Hl].
  - exists h. split; [assumption|reflexivity].
  - rewrite (ofList_nonempty l Hl). unfold ByteBuffer_copy.
    cbn [_buffer _size].
    destruct (unfailing_make_unique (Z.of_nat (length l)) h Hh) as [-> Hh'].
    exists (tl h). split; [assumption|].
    rewrite Nat2Z.id, copy_fresh. reflexivity.
Qed.

Lemma operator_assign_ofList (this : ByteBuffer) (l : list byte) (h : Heap) :
  unfailing h ->
  exists h',
    unfailing h'
    /\ operator_assign this (ofList l) h = (Returned tt, ofList l, h').
Proof.
  intro Hh. destruct (list_eq_dec Byte.byte_eq_dec l []) as [->|Hl].
  - exists h. split; [assumption|reflexivity].
  - rewrite (ofList_nonempty l Hl). unfold operator_assign.
    cbn [_buffer _size].
    destruct (unfailing_make_unique (Z.of_nat (length l)) h Hh) as [-> Hh'].
    exists (tl h). split; [assumption|].
    rewrite Nat2Z.id, copy_fresh. reflexivity.
Qed.

Lemma ByteBuffer_sized_ofList (n : nat) (h : Heap) :
  unfailing h ->
  Z.of_nat n <= GetMaximumSize ->
  exists h',
    unfailing h'
    /\ ByteBuffer_sized (Z.of_nat n) h = (Returned (ofList (repeat x00 n)), h').
Proof.
  intros Hh Hmax. unfold ByteBuffer_sized.
  destruct (Z.gtb_spec (Z.of_nat n) GetMaximumSize); [lia|].
  destruct (Z.gtb_spec (Z.of_nat n) 0) as [Hpos|Hz].
  - destruct (unfailing_make_unique (Z.of_nat n) h Hh) as [-> Hh'].
    exists (tl h). split; [assumption|].
    rewrite Nat2Z.id.
    pose proof (fill_whole (repeat x00 n) x00) as F.
    rewrite repeat_length in F. rewrite F.
    rewrite ofList_nonempty.
    + rewrite repeat_length. reflexivity.
    + destruct n; [lia|discriminate].
  - assert (n = 0%nat) by lia. subst n.
    exists h. split; [assumption|reflexivity].
Qed.

Lemma ByteBuffer_from_vector_ofList (v : list byte) (h : Heap) :
  unfailing h ->
  Z.of_nat (length v) <= GetMaximumSize ->
  exists h',
    unfailing h'
    /\ ByteBuffer_from_vector v h = (Returned (ofList v), h').
Proof.
  intros Hh Hmax. unfold ByteBuffer_from_vector.
  destruct (Z.gtb_spec (Z.of_nat (length v)) GetMaximumSize); [lia|].
  destruct (Z.gtb_spec (Z.of_nat (length v)) 0) as [Hpos|Hz].
  - destruct (unfailing_make_unique (Z.of_nat (length v)) h Hh)
      as [-> Hh'].
    exists (tl h). split; [assumption|].
    rewrite Nat2Z.id, copy_fresh.
    rewrite ofList_nonempty; [reflexivity|].
    destruct v; [cbn in Hpos; lia|discriminate].
  - destruct v; [|cbn [length] in Hz; lia].
    exists h. split; [assumption|reflexivity].
Qed.

Lemma ToVector_contents (b : ByteBuffer) : ToVector b = contents b.
Proof. destruct b as [n [l|]]; [reflexivity|]. unfold contents.
  cbn [_buffer get]. rewrite firstn_nil. reflexivity. Qed.

End ByteBufferContents.

Section ByteBufferOperations.

Import ByteBuffer.

Lemma operator_eq_ofList (la lb : list byte) :
  operator_eq (ofList la) (ofList lb) = true <-> la = lb.
Proof.
  split.
  - unfold operator_eq. rewrite !ofList_size.
    destruct (Z.eqb_spec (Z.of_nat (length la)) (Z.of_nat (length lb)))
      as [E|_]; [|discriminate].
    apply Nat2Z.inj in E.
    destruct la as [|a la]; destruct lb as [|b lb]; try discriminate E;
      [reflexivity|].
    cbn [ofList _buffer]. rewrite Nat2Z.id. intro H.
    rewrite forallb_forall in H.
    apply (nth_ext _ _ x00 x00 E). intros i Hi.
    apply Byte.byte_dec_bl, H, in_seq. lia.
  - intros <-. unfold operator_eq. rewrite Z.eqb_refl.
    destruct la as [|a la]; [reflexivity|].
    cbn [ofList _buffer]. apply forallb_forall. intros i _.
    apply Byte.byte_dec_lb. reflexivity.
Qed.

(** [operator+=] appends the bytes of the right operand: when the two
    lengths sum to at most the maximum and no allocation fails, [a += b]
    returns and leaves in [a] the bytes of [a] followed by those of
    [b]. *)
Theorem ByteBuffer_concatenation_contents (a b : ByteBuffer) (h : Heap) :
  wellFormed a -> wellFormed b ->
  _size a + _size b <= GetMaximumSize ->
  unfailing h ->
  outcome (operator_plus_assign a b h) = Returned tt
  /\ wellFormed (after (operator_plus_assign a b h))
  /\ contents (after (operator_plus_assign a b h))
     = contents a ++ contents b.
Proof.
  intros Ha Hb Hmax Hh.
  destruct (wellFormed_size a Ha) as [Sa _].
  destruct (wellFormed_size b Hb) as [Sb _].
  rewrite Sa, Sb in Hmax.
  assert (Hlen : Z.of_nat (length (contents a ++ contents b))
                 <= GetMaximumSize) by (rewrite length_app; lia).
  rewrite (wellFormed_ofList a Ha), (wellFormed_ofList b Hb).
  rewrite !ofList_contents.
  destruct (operator_plus_assign_ofList _ _ h Hh Hmax) as [h1 [_ ->]].
  unfold outcome, after. cbn [fst snd].
  split; [reflexivity|]. split.
  - apply ofList_wellFormed, Hlen.
  - apply ofList_contents.
Qed.

Lemma ByteBuffer_concatenation_contents_witness :
  contents (after (operator_plus_assign oneByte zeroByte []))
  = contents oneByte ++ contents zeroByte.
Proof.
  apply (ByteBuffer_concatenation_contents oneByte zeroByte []);
    unfold wellFormed, unfailing, GetMaximumSize; cbn; try lia; constructor.
Defined.

(** [Resize(size_, byte_)] keeps the first [size_] bytes and, when it
    grows the buffer, sets every new byte to [byte_]; [Resize(size_)] sets
    them to zero. *)
Theorem ByteBuffer_resize_contents
    (this : ByteBuffer) (size_ : Z) (byte_ : byte) (h : Heap) :
  wellFormed this ->
  0 <= size_ <= GetMaximumSize ->
  unfailing h ->
  outcome (ResizeWith this size_ byte_ h) = Returned tt
  /\ wellFormed (after (ResizeWith this size_ byte_ h))
  /\ _size (after (ResizeWith this size_ byte_ h)) = size_
  /\ contents (after (ResizeWith this size_ byte_ h))
     = firstn (Z.to_nat size_) (contents this)
       ++ repeat byte_ (Z.to_nat size_ - length (contents this))
  /\ contents (after (Resize this size_ h))
     = firstn (Z.to_nat size_) (contents this)
       ++ repeat x00 (Z.to_nat size_ - length (contents this)).
Proof.
  intros Hw Hs Hh. unfold Resize.
  rewrite (wellFormed_ofList this Hw). rewrite !ofList_contents.
  destruct (Z_of_nat_complete size_) as [n ->]; [lia|].
  rewrite !Nat2Z.id.
  assert (Hn : Z.of_nat n <= GetMaximumSize) by lia.
  destruct (ResizeWith_ofList (contents this) n byte_ h Hh Hn)
    as [h1 [_ ->]].
  destruct (ResizeWith_ofList (contents this) n x00 h Hh Hn)
    as [h2 [_ ->]].
  unfold outcome, after. cbn [fst snd].
  assert (L : forall v,
             length (firstn n (contents this)
                     ++ repeat v (n - length (contents this)))
             = n).
  { intro v. rewrite length_app, length_firstn, repeat_length. lia. }
  repeat match goal with |- _ /\ _ => split end.
  - reflexivity.
  - apply ofList_wellFormed. rewrite L. exact Hn.
  - rewrite ofList_size, L. reflexivity.
  - apply ofList_contents.
  - apply ofList_contents.
Qed.

Lemma ByteBuffer_resize_contents_witness :
  contents (after (ResizeWith oneByte 3 xff [])) = [x01; xff; xff].
Proof.
  apply (ByteBuffer_resize_contents oneByte 3 xff []);
    unfold wellFormed, unfailing, GetMaximumSize; cbn; try lia; constructor.
Defined.

(** [operator==] compares the bytes: two buffers are equal exactly when
    they hold the same bytes, and then they are the same value. *)
Theorem ByteBuffer_equality (a b : ByteBuffer) :
  wellFormed a -> wellFormed b ->
  (operator_eq a b = true <-> contents a = contents b)
  /\ (operator_eq a b = true -> a = b)
  /\ operator_eq a a = true.
Proof.
  intros Ha Hb.
  rewrite (wellFormed_ofList a Ha), (wellFormed_ofList b Hb).
  rewrite !ofList_contents.
  repeat match goal with |- _ /\ _ => split end.
  - apply operator_eq_ofList.
  - intro H. apply operator_eq_ofList in H. congruence.
  - apply operator_eq_ofList. reflexivity.
Qed.

Lemma ByteBuffer_equality_witness :
  operator_eq oneByte zeroByte = true <-> contents oneByte = contents zeroByte.
Proof.
  apply (ByteBuffer_equality oneByte zeroByte);
    unfold wellFormed, GetMaximumSize; cbn; lia.
Defined.

Lemma nth_skipn_add (l : list byte) (n k : nat) :
  nth k (skipn n l) x00 = nth (n + k) l x00.
Proof.
  revert l; induction n as [|n IH]; intro l; [reflexivity|].
  destruct l as [|a l]; [destruct k; reflexivity|].
  cbn [skipn Nat.add nth]. apply IH.
Qed.

Lemma nth_fill_one (l : list byte) (i j : nat) (v : byte) :
  (i < length l)%nat ->
  nth j (firstn i l ++ repeat v 1 ++ skipn (i + 1) l) x00
  = if (j =? i)%nat then v else nth j l x00.
Proof.
  intro Hi.
  assert (Lf : length (firstn i l) = i)
    by (rewrite length_firstn; lia).
  destruct (Nat.eqb_spec j i) as [->|Hne].
  - rewrite app_nth2 by lia. rewrite Lf, Nat.sub_diag. reflexivity.
  - destruct (Nat.lt_ge_cases j i) as [Hlt|Hge].
    + rewrite app_nth1 by lia.
      rewrite nth_firstn.
      destruct (Nat.ltb_spec j i); [reflexivity|lia].
    + rewrite app_nth2 by lia. rewrite Lf.
      rewrite app_nth2 by (cbn [repeat length]; lia).
      cbn [repeat length]. rewrite nth_skipn_add. f_equal. lia.
Qed.

(** Bounds-checked access: [At] returns the byte at a position below the
    length and raises the out-of-range error at any other position; a
    write through [At] changes that position and no other. *)
Theorem ByteBuffer_At_bounds_and_write
    (this : ByteBuffer) (position_ : Z) (byte_ : byte) :
  wellFormed this -> 0 <= position_ ->
  (position_ < _size this ->
   At this position_
   = Returned (nth (Z.to_nat position_) (contents this) x00)
   /\ exists b',
        AtPut this position_ byte_ = Returned b'
        /\ wellFormed b' /\ _size b' = _size this
        /\ At b' position_ = Returned byte_
        /\ forall j, 0 <= j -> j <> position_ -> At b' j = At this j)
  /\ (_size this <= position_ ->
      At this position_ = Thrown (Error OUT_OF_RANGE_ERROR)
      /\ AtPut this position_ byte_ = Thrown (Error OUT_OF_RANGE_ERROR)).
Proof.
  intros Hw Hp. split.
  - intro Hlt. destruct this as [n [l|]];
      unfold wellFormed, contents in *; cbn [_size _buffer get] in *;
      [|lia].
    destruct Hw as [Hn Hl]. subst n.
    unfold At, AtPut. cbn [_size _buffer].
    destruct (Z.ltb_spec position_ (Z.of_nat (length l))) as [_|]; [|lia].
    rewrite Nat2Z.id, firstn_all. split; [reflexivity|].
    eexists. split; [reflexivity|]. cbn [_size _buffer].
    unfold fill.
    replace (Z.to_nat (position_ + 1) - Z.to_nat position_)%nat
      with 1%nat by lia.
    replace (Z.to_nat (position_ + 1))
      with (Z.to_nat position_ + 1)%nat by lia.
    assert (Hi : (Z.to_nat position_ < length l)%nat) by lia.
    split; [|split; [|split]].
    + split; [lia|].
      rewrite !length_app, length_firstn, length_skipn. cbn [repeat length].
      lia.
    + reflexivity.
    + destruct (Z.ltb_spec position_ (Z.of_nat (length l))); [|lia].
      rewrite nth_fill_one by exact Hi. rewrite Nat.eqb_refl. reflexivity.
    + intros j Hj Hne.
      destruct (Z.ltb_spec j (Z.of_nat (length l))); [|reflexivity].
      rewrite nth_fill_one by exact Hi.
      destruct (Nat.eqb_spec (Z.to_nat j) (Z.to_nat position_)); [lia|].
      reflexivity.
  - intro Hge. unfold At, AtPut. destruct (_buffer this); [|auto].
    destruct (Z.ltb_spec position_ (_size this)); [lia|auto].
Qed.

Lemma ByteBuffer_At_bounds_and_write_witness :
  At oneByte 0 = Returned (nth (Z.to_nat 0) (contents oneByte) x00)
  /\ At oneByte 1 = Thrown (Error OUT_OF_RANGE_ERROR).
Proof.
  assert (W : wellFormed oneByte)
    by (unfold wellFormed, GetMaximumSize; cbn; lia).
  split.
  - apply (ByteBuffer_At_bounds_and_write oneByte 0 x00 W); cbn; lia.
  - apply (ByteBuffer_At_bounds_and_write oneByte 1 x00 W); cbn; lia.
Defined.

(** [SetAllBytes] overwrites every byte and keeps the length. *)
Theorem ByteBuffer_SetAllBytes_contents
    (this : ByteBuffer) (byte_ : byte) (h : Heap) :
  wellFormed this ->
  outcome (SetAllBytes this byte_ h) = Returned tt
  /\ wellFormed (after (SetAllBytes this byte_ h))
  /\ _size (after (SetAllBytes this byte_ h)) = _size this
  /\ contents (after (SetAllBytes this byte_ h))
     = repeat byte_ (length (contents this)).
Proof.
  intro Hw. destruct this as [n [l|]];
    unfold wellFormed, contents, SetAllBytes, outcome, after in *;
    cbn [_size _buffer get fst snd] in *.
  - destruct Hw as [Hn Hl]. subst n. rewrite fill_whole.
    rewrite !Nat2Z.id, repeat_length, !firstn_all.
    repeat match goal with |- _ /\ _ => split end;
      try reflexivity; try lia.
    rewrite <- (repeat_length byte_ (length l)) at 1. apply firstn_all.
  - subst n. cbn. auto.
Qed.

Lemma ByteBuffer_SetAllBytes_contents_witness :
  contents (after (SetAllBytes oneByte xff [])) = [xff].
Proof.
  apply (ByteBuffer_SetAllBytes_contents oneByte xff []).
  unfold wellFormed, GetMaximumSize; cbn; lia.
Defined.

(** Copies are equal to their source: the copy constructor and the copy
    assignment give a buffer with the bytes of the source, whatever the
    assigned-to buffer held before. *)
Theorem ByteBuffer_copy_equal (this source : ByteBuffer) (h : Heap) :
  wellFormed source -> unfailing h ->
  fst (ByteBuffer_copy source h) = Returned source
  /\ outcome (operator_assign this source h) = Returned tt
  /\ after (operator_assign this source h) = source
  /\ operator_eq (after (operator_assign this source h)) source = true.
Proof.
  intros Hw Hh. rewrite (wellFormed_ofList source Hw).
  destruct (ByteBuffer_copy_ofList (contents source) h Hh) as [h1 [_ ->]].
  destruct (operator_assign_ofList this (contents source) h Hh)
    as [h2 [_ ->]].
  unfold outcome, after. cbn [fst snd].
  repeat match goal with |- _ /\ _ => split end; try reflexivity.
  apply operator_eq_ofList. reflexivity.
Qed.

Lemma ByteBuffer_copy_equal_witness :
  after (operator_assign zeroByte oneByte []) = oneByte.
Proof.
  apply (ByteBuffer_copy_equal zeroByte oneByte []).
  - unfold wellFormed, GetMaximumSize; cbn; lia.
  - constructor.
Defined.

(** From a vector and back: the buffer built from a vector holds its
    elements, and [ToVector] returns them. *)
Theorem ByteBuffer_vector_round_trip (vector_ : list byte) (h : Heap) :
  Z.of_nat (length vector_) <= GetMaximumSize -> unfailing h ->
  exists b,
    fst (ByteBuffer_from_vector vector_ h) = Returned b
    /\ wellFormed b
    /\ _size b = Z.of_nat (length vector_)
    /\ ToVector b = vector_.
Proof.
  intros Hmax Hh.
  destruct (ByteBuffer_from_vector_ofList vector_ h Hh Hmax) as [h1 [_ ->]].
  eexists. split; [reflexivity|].
  split; [apply ofList_wellFormed, Hmax|].
  split; [apply ofList_size|].
  rewrite ToVector_contents. apply ofList_contents.
Qed.

Lemma ByteBuffer_vector_round_trip_witness :
  exists b,
    fst (ByteBuffer_from_vector [x01; x02] []) = Returned b
    /\ wellFormed b
    /\ _size b = Z.of_nat (length [x01; x02])
    /\ ToVector b = [x01; x02].
Proof.
  apply (ByteBuffer_vector_round_trip [x01; x02] []).
  - unfold GetMaximumSize; cbn; lia.
  - constructor.
Defined.

(** A failed allocation empties the buffer: when [std::make_unique]
    throws inside [Resize], the copy assignment, or [operator+=] on a
    non-empty left operand, the call raises the allocation error and the
    buffer is left empty, the bytes it held being lost; a breach of the
    maximum length, in contrast, leaves the buffer as it was. *)
Theorem ByteBuffer_allocation_failure_empties
    (this other : ByteBuffer) (mine theirs : list byte) (size_ : Z)
    (byte_ : byte) (h : Heap) :
  _buffer this = Some mine -> _buffer other = Some theirs ->
  (1 <= size_ <= GetMaximumSize -> size_ <> _size this ->
   ResizeWith this size_ byte_ (false :: h)
   = (Thrown (Error ALLOCATION_ERROR), empty, h)
   /\ ResizeWith this size_ byte_ (true :: false :: h)
      = (Thrown (Error ALLOCATION_ERROR), empty, h))
  /\ operator_assign this other (false :: h)
     = (Thrown (Error ALLOCATION_ERROR), empty, h)
  /\ (0 <= _size this -> 0 <= _size other ->
      _size this + _size other <= GetMaximumSize ->
      operator_plus_assign this other (false :: h)
      = (Thrown (Error ALLOCATION_ERROR), empty, h))
  /\ (GetMaximumSize < size_ ->
      ResizeWith this size_ byte_ h
      = (Thrown (Error MAXIMUM_SIZE_LIMIT_ERROR), this, h)).
Proof.
  intros Hm Ht. pose proof GetMaximumSize_small as Hsmall.
  repeat match goal with |- _ /\ _ => split end.
  - intros Hs Hne. unfold ResizeWith.
    destruct (Z.gtb_spec size_ GetMaximumSize); [lia|].
    destruct (Z.eqb_spec size_ (_size this)); [contradiction|].
    destruct (Z.ltb_spec size_ 1); [lia|]. split; reflexivity.
  - unfold operator_assign. rewrite Ht. reflexivity.
  - intros Ha Hb Hmax. unfold operator_plus_assign. rewrite Hm, Ht.
    unfold SizeType. rewrite Z.mod_small by lia.
    destruct (Z.gtb_spec (_size this + _size other) GetMaximumSize); [lia|].
    destruct (Z.ltb_spec (_size this + _size other) (_size this)); [lia|].
    reflexivity.
  - intro Hs. unfold ResizeWith.
    destruct (Z.gtb_spec size_ GetMaximumSize); [reflexivity|lia].
Qed.

Lemma ByteBuffer_allocation_failure_empties_witness :
  operator_assign oneByte zeroByte [false]
  = (Thrown (Error ALLOCATION_ERROR), empty, []).
Proof.
  exact (proj1 (proj2 (ByteBuffer_allocation_failure_empties oneByte
                         zeroByte [x01] [x00] 2 x00 [] eq_refl eq_refl))).
Defined.

(** The unguarded branch of [operator+=]: when the left operand is empty
    and the right one is not, the allocation is outside every [try]
    block, so a failure escapes as [std::bad_alloc], not as a
    [ByteBuffer::Error], after [_size] has been assigned: the buffer is
    left with a positive length and no storage. *)
Theorem ByteBuffer_append_to_empty_bad_alloc
    (this other : ByteBuffer) (theirs : list byte) (h : Heap) :
  _buffer this = None -> _buffer other = Some theirs -> 0 < _size other ->
  outcome (operator_plus_assign this other (false :: h)) = Thrown bad_alloc
  /\ _size (after (operator_plus_assign this other (false :: h)))
     = _size other
  /\ _buffer (after (operator_plus_assign this other (false :: h))) = None
  /\ ~ storageInvariant (after (operator_plus_assign this other (false :: h))).
Proof.
  intros Hn Ht Hpos. unfold operator_plus_assign. rewrite Hn, Ht.
  cbn [make_unique outcome after fst snd _size _buffer].
  repeat match goal with |- _ /\ _ => split end; try reflexivity.
  unfold storageInvariant. cbn [_size _buffer].
  intros [_ H]. destruct (H Hpos) as [l E]. discriminate E.
Qed.

Lemma ByteBuffer_append_to_empty_bad_alloc_witness :
  outcome (operator_plus_assign empty oneByte [false]) = Thrown bad_alloc.
Proof.
  apply (ByteBuffer_append_to_empty_bad_alloc empty oneByte [x01] []
           eq_refl eq_refl).
  cbn; lia.
Defined.








End ByteBufferOperations.

(** ** The staging buffer of the [DecodeStringToByteBuffer] functions *)

Section StagingBuffer.

Import ByteBuffer.

Lemma firstn_fill_one (l : list byte) (i : nat) (c : byte) :
  (i < length l)%nat ->
  firstn (i + 1) (firstn i l ++ repeat c 1 ++ skipn (i + 1) l)
  = firstn i l ++ [c].
Proof.
  intro H.
  assert (Lf : length (firstn i l) = i) by (rewrite length_firstn; lia).
  rewrite firstn_app, Lf.
  rewrite (firstn_all2 (n := i + 1)) by lia.
  replace (i + 1 - i)%nat with 1%nat by lia. reflexivity.
Qed.

Lemma newStaging_ready (h : Heap) :
  unfailing h ->
  exists st, newStaging h = Returned st /\ stagingReady st /\ staged st = [].
Proof.
  intro Hh.
  assert (E8 : 8192 = Z.of_nat (Z.to_nat 8192)) by lia.
  assert (Hn : Z.of_nat (Z.to_nat 8192) <= GetMaximumSize)
    by (rewrite <- E8; unfold GetMaximumSize; lia).
  destruct (ByteBuffer_sized_ofList _ h Hh Hn) as [h1 [Hh1 E]].
  rewrite <- E8 in E. unfold newStaging. rewrite E.
  eexists. split; [reflexivity|].
  assert (L : length (repeat x00 (Z.to_nat 8192)) = Z.to_nat 8192)
    by apply repeat_length.
  split.
  - unfold stagingReady.
    cbn [decodedByteBuffer byteBuffer bufferIterator heap].
    split; [reflexivity|]. split; [|split; [lia|assumption]].
    exists (repeat x00 (Z.to_nat 8192)). split; [|rewrite L; lia].
    rewrite ofList_nonempty; [rewrite L, <- E8; reflexivity|].
    intro N. rewrite N in L. cbn [length] in L. lia.
  - unfold staged. cbn [decodedByteBuffer bufferIterator Z.to_nat firstn].
    reflexivity.
Qed.

Lemma addToByteBuffer_staged (st : Staging) (c : byte) :
  stagingReady st ->
  Z.of_nat (length (staged st)) < GetMaximumSize ->
  exists st',
    addToByteBuffer st c = Returned st'
    /\ stagingReady st' /\ staged st' = staged st ++ [c].
Proof.
  intros (Hd & (l & Hb & Hl) & Hi & Hh) Hlen.
  pose proof GetMaximumSize_small as Hsmall.
  unfold staged in Hlen |- *. unfold addToByteBuffer. rewrite Hb in *.
  cbn [get _buffer] in *. rewrite length_app in Hlen.
  destruct (Z.ltb_spec (bufferIterator st) 8192) as [Hlt|Hge].
  - unfold AtPut. cbn [_buffer _size].
    destruct (Z.ltb_spec (bufferIterator st) 8192) as [_|]; [|lia].
    cbn [bind]. eexists. split; [reflexivity|].
    unfold fill, SizeType. rewrite Z.mod_small by lia.
    replace (Z.to_nat (bufferIterator st + 1) - Z.to_nat (bufferIterator st))%nat
      with 1%nat by lia.
    replace (Z.to_nat (bufferIterator st + 1))
      with (Z.to_nat (bufferIterator st) + 1)%nat by lia.
    split.
    + unfold stagingReady.
      cbn [decodedByteBuffer byteBuffer bufferIterator heap].
      split; [assumption|]. split; [|split; [lia|assumption]].
      eexists. split; [reflexivity|].
      rewrite !length_app, length_firstn, length_skipn.
      cbn [repeat length]. lia.
    + cbn [decodedByteBuffer byteBuffer bufferIterator _buffer get].
      replace (Z.to_nat (bufferIterator st + 1))
        with (Z.to_nat (bufferIterator st) + 1)%nat by lia.
      rewrite firstn_fill_one by lia. apply app_assoc.
  - assert (Ei : bufferIterator st = 8192) by lia.
    rewrite Ei in *.
    assert (Fl : firstn (Z.to_nat 8192) l = l)
      by (apply firstn_all2; lia).
    rewrite Fl in *.
    assert (Bl : {| _size := 8192; _buffer := Some l |} = ofList l).
    { rewrite ofList_nonempty; [rewrite Hl; reflexivity|].
      intro N. rewrite N in Hl. cbn [length] in Hl. lia. }
    destruct (wellFormed_size _ Hd) as [Sd _].
    rewrite (wellFormed_ofList _ Hd), Bl.
    destruct (operator_plus_assign_ofList
                (contents (decodedByteBuffer st)) l (heap st) Hh)
      as [h1 [Hh1 ->]]; [lia|].
    rewrite <- Bl. unfold AtPut. cbn [_buffer _size].
    change (0 <? 8192) with true. cbn [bind].
    eexists. split; [reflexivity|].
    unfold fill, SizeType. change ((0 + 1) mod 2 ^ 64) with 1.
    change (Z.to_nat (0 + 1) - Z.to_nat 0)%nat with 1%nat.
    change (Z.to_nat (0 + 1)) with 1%nat. change (Z.to_nat 0) with 0%nat.
    split.
    + unfold stagingReady.
      cbn [decodedByteBuffer byteBuffer bufferIterator heap].
      split; [apply ofList_wellFormed; rewrite length_app; lia|].
      split; [|split; [lia|assumption]].
      eexists. split; [reflexivity|].
      cbn [firstn repeat app length]. rewrite length_skipn. lia.
    + cbn [decodedByteBuffer byteBuffer bufferIterator _buffer get].
      rewrite !ofList_contents.
      change (Z.to_nat 1) with 1%nat. cbn [firstn repeat app].
      reflexivity.
Qed.

Lemma finishStaging_staged (st : Staging) :
  stagingReady st ->
  Z.of_nat (length (staged st)) <= GetMaximumSize ->
  finishStaging st = Returned (ofList (staged st)).
Proof.
  intros (Hd & (l & Hb & Hl) & Hi & Hh) Hlen.
  unfold staged in Hlen |- *. unfold finishStaging. rewrite Hb in *.
  cbn [get _buffer] in *. rewrite length_app, length_firstn in Hlen.
  destruct (wellFormed_size _ Hd) as [Sd _].
  destruct (Z.gtb_spec (bufferIterator st) 0) as [Hpos|Hz].
  - assert (Bl : {| _size := 8192; _buffer := Some l |} = ofList l).
    { rewrite ofList_nonempty; [rewrite Hl; reflexivity|].
      intro N. rewrite N in Hl. cbn [length] in Hl. lia. }
    rewrite Bl. unfold Resize.
    destruct (Z_of_nat_complete (bufferIterator st)) as [n En]; [lia|].
    rewrite En in *. rewrite Nat2Z.id in *.
    destruct (ResizeWith_ofList l n x00 (heap st) Hh) as [h1 [Hh1 ->]];
      [unfold GetMaximumSize; lia|].
    replace (n - length l)%nat with 0%nat by lia.
    cbn [repeat]. rewrite app_nil_r.
    rewrite (wellFormed_ofList _ Hd) at 1.
    destruct (operator_plus_assign_ofList
                (contents (decodedByteBuffer st)) (firstn n l) h1 Hh1)
      as [h2 [Hh2 ->]]; [rewrite length_firstn; lia|].
    reflexivity.
  - assert (Ei : bufferIterator st = 0) by lia. rewrite Ei.
    cbn [Z.to_nat firstn]. rewrite app_nil_r.
    rewrite <- wellFormed_ofList by assumption. reflexivity.
Qed.

Context {X : Type}.

Lemma agree_weaken (n m : Z) (r : Outcome X (list byte))
    (r' : Outcome (X + Exception) Staging) :
  n <= m -> agree n r r' -> agree m r r'.
Proof.
  intro H. destruct r as [out| | |]; cbn [agree]; auto.
  intros [Hn Hst]. split; [lia|assumption].
Qed.

Lemma agree_Returned (st : Staging) :
  stagingReady st ->
  agree (E := X) (Z.of_nat (length (staged st))) (Returned (staged st))
    (Returned st).
Proof. intro H. split; [lia|]. exists st. auto. Qed.

(** The two sinks take a byte alike. *)
Lemma stageByte_staged (st : Staging) (c : byte) :
  stagingReady st ->
  Z.of_nat (length (staged st)) < GetMaximumSize ->
  exists st',
    stageByte (E := X) st c = Returned st'
    /\ stagingReady st' /\ staged st' = staged st ++ [c].
Proof.
  intros Hr Hlen.
  destruct (addToByteBuffer_staged st c Hr Hlen) as (st' & E & Hr' & Hs).
  exists st'. unfold stageByte. rewrite E. auto.
Qed.

(** ... and a run of bytes. *)
Lemma putAll_staged (st : Staging) (bytes : list byte) :
  stagingReady st ->
  Z.of_nat (length (staged st)) + Z.of_nat (length bytes) <= GetMaximumSize ->
  exists st',
    Rfc4648.putAll (stageByte (E := X)) st bytes = Returned st'
    /\ stagingReady st' /\ staged st' = staged st ++ bytes.
Proof.
  revert st; induction bytes as [|c bytes IH]; intros st Hr Hlen.
  - exists st. rewrite app_nil_r. auto.
  - cbn [length] in Hlen. cbn [Rfc4648.putAll].
    destruct (stageByte_staged st c Hr) as (st1 & -> & Hr1 & Hs1); [lia|].
    cbn [bind].
    destruct (IH st1 Hr1) as (st2 & E & Hr2 & Hs2).
    { rewrite Hs1, length_app. cbn [length]. lia. }
    exists st2. rewrite E, Hs2, Hs1, <- app_assoc. auto.
Qed.

(** The buffer decoders' frame: a new staging buffer, the loop, and the
    final flush give the buffer of the bytes the string loop appends. *)
Lemma staging_frame
    (loop : list byte -> Outcome X (list byte))
    (loop' : Staging -> Outcome (X + Exception) Staging) (h : Heap) :
  unfailing h ->
  (forall st, stagingReady st -> staged st = [] ->
              agree GetMaximumSize (loop []) (loop' st)) ->
  (let* st := lift inr (newStaging h) in
   let* st := loop' st in
   lift inr (finishStaging st))
  = toByteBuffer (loop []).
Proof.
  intros Hh Hloop.
  destruct (newStaging_ready h Hh) as (st & -> & Hr & Hs).
  cbn [lift bind]. specialize (Hloop st Hr Hs).
  destruct (loop []) as [out|e| |]; cbn [agree toByteBuffer] in *;
    try (rewrite Hloop; reflexivity).
  destruct Hloop as (Hlen & st' & -> & Hr' & Hs').
  cbn [bind]. rewrite finishStaging_staged by (rewrite ?Hs'; assumption).
  rewrite Hs'. reflexivity.
Qed.

End StagingBuffer.

(** ** Base16: the two decoding surfaces *)

Section Base16Surfaces.

Import Base16.

Variable s : list byte.
Variable case_ : Case.

Lemma DecodeGroup_lift (fuel iter jter : nat) (bitset counter : Z) :
  DecodeGroup (@inl ErrorType ByteBuffer.Exception) fuel s case_ iter jter
    bitset counter
  = lift inl (DecodeGroup (fun e => e) fuel s case_ iter jter bitset counter).
Proof.
  revert iter jter bitset counter; induction fuel as [|fuel IH];
    intros iter jter bitset counter; cbn [DecodeGroup]; [reflexivity|].
  destruct (jter =? length s)%nat; [reflexivity|].
  destruct (isBlank (nth jter s x00)).
  - destruct (S jter =? length s)%nat; [reflexivity|apply IH].
  - destruct (decodeDigit case_ (nth jter s x00)); [|reflexivity].
    destruct ((S jter =? length s)%nat || (S jter =? iter + 2)%nat);
      [reflexivity|apply IH].
Qed.

Lemma DecodeGroup_iter {X : Type} (raise : ErrorType -> X)
    (fuel iter jter : nat) (bitset counter : Z) (iter' : nat)
    (bitset' counter' : Z) :
  (iter <= jter)%nat -> (jter < length s)%nat ->
  DecodeGroup raise fuel s case_ iter jter bitset counter
  = Returned (iter', bitset', counter') ->
  (iter <= iter' < length s)%nat.
Proof.
  revert iter jter bitset counter; induction fuel as [|fuel IH];
    intros iter jter bitset counter Hij Hj; cbn [DecodeGroup];
    [discriminate|].
  destruct (Nat.eqb_spec jter (length s)); [lia|].
  destruct (isBlank (nth jter s x00)).
  - destruct (Nat.eqb_spec (S jter) (length s)).
    + intro H; injection H as <- _ _. lia.
    + intro H. apply IH in H; lia.
  - destruct (decodeDigit case_ (nth jter s x00)); [|discriminate].
    destruct (Nat.eqb_spec (S jter) (length s)); cbn [orb].
    + intro H; injection H as <- _ _. lia.
    + destruct (S jter =? iter + 2)%nat.
      * intro H; injection H as <- _ _. lia.
      * intro H. apply IH in H; lia.
Qed.

Lemma flushGroup_lift (bitset counter : Z) :
  flushGroup (E := ErrorType + ByteBuffer.Exception) bitset counter
  = lift inl (flushGroup (E := ErrorType) bitset counter).
Proof.
  unfold flushGroup.
  repeat match goal with
         | |- context [match ?x with _ => _ end] =>
             destruct x; try reflexivity
         end.
Qed.

(** The loop on a staging buffer follows the loop on a string. *)
Lemma DecodeLoop_staging (fuel iter : nat) (st : ByteBuffer.Staging) :
  (iter <= length s)%nat ->
  ByteBuffer.stagingReady st ->
  Z.of_nat (length (ByteBuffer.staged st)) + Z.of_nat (length s - iter)
  <= ByteBuffer.GetMaximumSize ->
  ByteBuffer.agree
    (Z.of_nat (length (ByteBuffer.staged st)) + Z.of_nat (length s - iter))
    (DecodeLoop (fun e => e) appendChar fuel s case_ iter
       (ByteBuffer.staged st))
    (DecodeLoop inl ByteBuffer.stageByte fuel s case_ iter st).
Proof.
  revert iter st; induction fuel as [|fuel IH]; intros iter st Hi Hr Hmax;
    cbn [DecodeLoop]; [reflexivity|].
  destruct (Nat.eqb_spec iter (length s)) as [E|NE].
  { eapply agree_weaken; [|apply agree_Returned, Hr]. lia. }
  destruct (isBlank (nth iter s x00)).
  { eapply agree_weaken; [|apply IH; try assumption; lia]. lia. }
  rewrite DecodeGroup_lift.
  destruct (DecodeGroup (fun e => e) (length s) s case_ iter iter 0 0)
    as [[[iter' bitset] counter]|e| |] eqn:Eg; cbn [lift bind ByteBuffer.agree];
    try reflexivity.
  apply DecodeGroup_iter in Eg; [|lia|lia].
  rewrite flushGroup_lift.
  destruct (flushGroup bitset counter) as [bitset'|e| |];
    cbn [lift bind ByteBuffer.agree]; try reflexivity.
  destruct (stageByte_staged (X := ErrorType) st (byteOfZ bitset') Hr)
    as (st1 & -> & Hr1 & Hs1); [lia|].
  cbn [appendChar bind]. rewrite <- Hs1.
  eapply agree_weaken; [|apply IH; try assumption; try lia].
  - rewrite Hs1, length_app. cbn [length]. lia.
  - rewrite Hs1, length_app. cbn [length]. lia.
Qed.

End Base16Surfaces.

Lemma Base16_DecodeStringToByteBuffer_staged
    (encodedString_ : list byte) (case_ : Base16.Case)
    (h : ByteBuffer.Heap) :
  Z.of_nat (length encodedString_) <= ByteBuffer.GetMaximumSize ->
  ByteBuffer.unfailing h ->
  Base16.DecodeStringToByteBuffer encodedString_ case_ h
  = ByteBuffer.toByteBuffer (Base16.DecodeStringToString encodedString_ case_).
Proof.
  intros Hmax Hh. unfold Base16.DecodeStringToByteBuffer.
  apply (staging_frame
           (fun out => Base16.DecodeLoop (fun e => e) appendChar
                         (S (length encodedString_)) encodedString_ case_ 0
                         out)
           (fun st => Base16.DecodeLoop inl
                        (fun st c =>
                           lift inr (ByteBuffer.addToByteBuffer st c))
                        (S (length encodedString_)) encodedString_ case_ 0
                        st) h Hh).
  intros st Hr Hs.
  pose proof (DecodeLoop_staging encodedString_ case_
                (S (length encodedString_)) 0 st (Nat.le_0_l _) Hr) as H.
  rewrite Hs in H. cbn [length] in H.
  eapply agree_weaken; [|apply H; lia]. lia.
Qed.

(** The two decoding surfaces of Base16 agree: on an input of at most the
    maximum buffer length, and when no allocation fails,
    [DecodeStringToByteBuffer] returns the buffer of the bytes that
    [DecodeStringToString] returns, or raises the same error. *)
Theorem Base16_decode_surfaces_agree
    (encodedString_ : list byte) (case_ : Base16.Case)
    (h : ByteBuffer.Heap) :
  Z.of_nat (length encodedString_) <= ByteBuffer.GetMaximumSize ->
  ByteBuffer.unfailing h ->
  Base16.DecodeStringToByteBuffer encodedString_ case_ h
  = ByteBuffer.toByteBuffer (Base16.DecodeStringToString encodedString_ case_).
Proof. apply Base16_DecodeStringToByteBuffer_staged. Qed.

Lemma Base16_decode_surfaces_agree_witness :
  Base16.DecodeStringToByteBuffer ["4"; "1"] Base16.MIXED []
  = ByteBuffer.toByteBuffer
      (Base16.DecodeStringToString ["4"; "1"] Base16.MIXED).
Proof.
  apply (Base16_decode_surfaces_agree ["4"; "1"] Base16.MIXED []).
  - unfold ByteBuffer.GetMaximumSize; cbn [length]; lia.
  - constructor.
Defined.

(** ** Base16: encoding, and decoding what was encoded *)

Section Base16Encode.

Import Base16.

Lemma EncodeByte_hexDigits (case_ : Case) (c : byte) (acc : list byte) :
  case_ <> MIXED ->
  EncodeByte case_ c acc
  = Returned (acc ++ [digitChar case_ (byteToZ c / 16);
                      digitChar case_ (byteToZ c mod 16)]).
Proof.
  intro H. unfold EncodeByte.
  assert (E : forall hi lo,
             encodeDigit case_ (Z.shiftr (byteToZ c) 4 mod 2 ^ 4)
             = Returned hi ->
             encodeDigit case_
               (Z.shiftr (bitsetShl 8 (byteToZ c) 4) 4 mod 2 ^ 4)
             = Returned lo ->
             (let* hi := encodeDigit case_ (Z.shiftr (byteToZ c) 4 mod 2 ^ 4) in
              let* encodedString := appendChar acc hi in
              let* lo := encodeDigit case_
                           (Z.shiftr (bitsetShl 8 (byteToZ c) 4) 4 mod 2 ^ 4) in
              appendChar encodedString lo)
             = Returned (acc ++ [hi; lo])).
  { intros hi lo -> ->. cbn [bind appendChar]. unfold appendChar.
    rewrite <- app_assoc. reflexivity. }
  apply E; destruct case_; try contradiction; destruct c; reflexivity.
Qed.

Lemma EncodeLoop_hexDigits (case_ : Case) (s acc : list byte) :
  case_ <> MIXED ->
  EncodeLoop case_ s acc = Returned (acc ++ hexDigits case_ s).
Proof.
  intro H. revert acc; induction s as [|c s IH]; intro acc;
    cbn [EncodeLoop hexDigits flat_map].
  - rewrite app_nil_r. reflexivity.
  - rewrite EncodeByte_hexDigits by assumption. cbn [bind].
    rewrite IH, <- app_assoc. reflexivity.
Qed.

Lemma hexDigits_length (case_ : Case) (s : list byte) :
  length (hexDigits case_ s) = (2 * length s)%nat.
Proof.
  induction s as [|c s IH]; [reflexivity|].
  cbn [hexDigits flat_map app length]. fold (hexDigits case_ s).
  rewrite IH. lia.
Qed.

Lemma digitChar_decodes (case_ policy : Case) (v : Z) :
  case_ <> MIXED -> policy = case_ \/ policy = MIXED ->
  0 <= v < 16 ->
  isBlank (digitChar case_ v) = false
  /\ alphabetValue policy (digitChar case_ v) = Some v.
Proof.
  intros Hc Hp Hv. apply nibble_cases in Hv. cbn [In] in Hv.
  destruct case_; try contradiction;
    destruct Hp as [-> | ->];
    repeat (destruct Hv as [<-|Hv]; [split; reflexivity|]);
    contradiction.
Qed.

Lemma hexDigits_stripBlanks (case_ : Case) (s : list byte) :
  case_ <> MIXED -> stripBlanks (hexDigits case_ s) = hexDigits case_ s.
Proof.
  intro Hc. induction s as [|c s IH]; [reflexivity|].
  cbn [hexDigits flat_map app].
  pose proof (byteToZ_range c) as R.
  destruct (digitChar_decodes case_ case_ (byteToZ c / 16) Hc (or_introl eq_refl))
    as [B1 _]; [split; [apply Z.div_pos; lia|apply Z.div_lt_upper_bound; lia]|].
  destruct (digitChar_decodes case_ case_ (byteToZ c mod 16) Hc
              (or_introl eq_refl)) as [B2 _];
    [apply Z.mod_pos_bound; lia|].
  rewrite !stripBlanks_cons_digit by assumption.
  fold (hexDigits case_ s). rewrite IH. reflexivity.
Qed.

Lemma hexDigits_pairDigits (case_ policy : Case) (s : list byte) :
  case_ <> MIXED -> policy = case_ \/ policy = MIXED ->
  exists ds,
    digitsOf policy (hexDigits case_ s) = Some ds /\ pairDigits ds = s.
Proof.
  intros Hc Hp. induction s as [|c s [ds [Ed Ep]]].
  - exists []. split; reflexivity.
  - cbn [hexDigits flat_map app]. fold (hexDigits case_ s).
    pose proof (byteToZ_range c) as R.
    destruct (digitChar_decodes case_ policy (byteToZ c / 16) Hc Hp)
      as [_ V1];
      [split; [apply Z.div_pos; lia|apply Z.div_lt_upper_bound; lia]|].
    destruct (digitChar_decodes case_ policy (byteToZ c mod 16) Hc Hp)
      as [_ V2]; [apply Z.mod_pos_bound; lia|].
    cbn [digitsOf]. rewrite V1, V2, Ed.
    eexists. split; [reflexivity|].
    cbn [pairDigits]. rewrite Ep. f_equal.
    rewrite <- Z.div_mod by lia. apply byteOfZ_byteToZ.
Qed.

End Base16Encode.

(** Base16 encoding writes two hex digits for every byte, the high
    nibble first, in upper or lower case as asked; the mixed-case policy
    is refused with the invalid-case error as soon as there is a byte to
    encode, and only then: the empty input is encoded as the empty string
    under every policy. *)
Theorem Base16_encode_hex_digits (string_ : list byte) (case_ : Base16.Case) :
  (case_ <> Base16.MIXED ->
   Base16.EncodeStringToString string_ case_
   = Returned (Base16.hexDigits case_ string_)
   /\ length (Base16.hexDigits case_ string_) = (2 * length string_)%nat)
  /\ (string_ <> [] ->
      Base16.EncodeStringToString string_ Base16.MIXED
      = Thrown Base16.INVALID_CASE_ERROR)
  /\ Base16.EncodeStringToString [] case_ = Returned [].
Proof.
  repeat match goal with |- _ /\ _ => split end.
  - intro H. split.
    + unfold Base16.EncodeStringToString.
      rewrite EncodeLoop_hexDigits by assumption. reflexivity.
    + apply hexDigits_length.
  - destruct string_ as [|c r]; [contradiction|reflexivity].
  - reflexivity.
Qed.

Lemma Base16_encode_hex_digits_witness :
  Base16.EncodeStringToString [x4a; xff] Base16.LOWERCASE
  = Returned (Base16.hexDigits Base16.LOWERCASE [x4a; xff]).
Proof.
  apply (Base16_encode_hex_digits [x4a; xff] Base16.LOWERCASE).
  discriminate.
Defined.

Lemma Base16_decode_hexDigits
    (string_ : list byte) (case_ policy : Base16.Case) :
  case_ <> Base16.MIXED -> policy = case_ \/ policy = Base16.MIXED ->
  exists encoded,
    Base16.EncodeStringToString string_ case_ = Returned encoded
    /\ Base16.DecodeStringToString encoded policy = Returned string_.
Proof.
  intros Hc Hp. exists (Base16.hexDigits case_ string_). split.
  - unfold Base16.EncodeStringToString.
    rewrite EncodeLoop_hexDigits by assumption. reflexivity.
  - rewrite DecodeStringToString_refines. unfold Base16.decode_spec.
    rewrite hexDigits_stripBlanks by assumption.
    destruct (hexDigits_pairDigits case_ policy string_ Hc Hp)
      as [ds [-> ->]].
    reflexivity.
Qed.

(** Base16 round trip on strings: what was encoded in upper or lower
    case decodes to the original bytes, under the same policy and under
    the mixed-case policy. *)
Theorem Base16_round_trip_string
    (string_ : list byte) (case_ policy : Base16.Case) :
  case_ <> Base16.MIXED -> policy = case_ \/ policy = Base16.MIXED ->
  exists encoded,
    Base16.EncodeStringToString string_ case_ = Returned encoded
    /\ Base16.DecodeStringToString encoded policy = Returned string_.
Proof. apply Base16_decode_hexDigits. Qed.

Lemma Base16_round_trip_string_witness :
  exists encoded,
    Base16.EncodeStringToString [x4a; xff] Base16.LOWERCASE = Returned encoded
    /\ Base16.DecodeStringToString encoded Base16.MIXED = Returned [x4a; xff].
Proof.
  apply (Base16_round_trip_string [x4a; xff] Base16.LOWERCASE Base16.MIXED).
  - discriminate.
  - right; reflexivity.
Defined.

(** Base16 round trip on buffers: the encoding of a buffer decodes to a
    buffer equal to it, when no allocation fails and the encoded string is
    no longer than the maximum buffer length. *)
Theorem Base16_round_trip_bytes
    (byteBuffer_ : ByteBuffer.ByteBuffer) (case_ policy : Base16.Case)
    (h : ByteBuffer.Heap) :
  ByteBuffer.wellFormed byteBuffer_ ->
  2 * ByteBuffer._size byteBuffer_ <= ByteBuffer.GetMaximumSize ->
  ByteBuffer.unfailing h ->
  case_ <> Base16.MIXED -> policy = case_ \/ policy = Base16.MIXED ->
  exists encoded,
    Base16.EncodeByteBufferToString byteBuffer_ case_ = Returned encoded
    /\ Base16.DecodeStringToByteBuffer encoded policy h = Returned byteBuffer_
    /\ forall decoded,
         Base16.DecodeStringToByteBuffer encoded policy h = Returned decoded ->
         ByteBuffer.operator_eq decoded byteBuffer_ = true.
Proof.
  intros Hw Hmax Hh Hc Hp.
  destruct (wellFormed_size byteBuffer_ Hw) as [Sz _].
  destruct (Base16_decode_hexDigits (ByteBuffer.contents byteBuffer_)
              case_ policy Hc Hp) as [encoded [He Hd]].
  assert (Hlen : length encoded
                 = (2 * length (ByteBuffer.contents byteBuffer_))%nat).
  { unfold Base16.EncodeStringToString in He.
    rewrite EncodeLoop_hexDigits in He by assumption.
    injection He as <-. apply hexDigits_length. }
  assert (Hb : Base16.DecodeStringToByteBuffer encoded policy h
               = Returned byteBuffer_).
  { rewrite Base16_DecodeStringToByteBuffer_staged
      by (rewrite ?Hlen; lia || assumption).
    rewrite Hd. cbn [ByteBuffer.toByteBuffer].
    rewrite <- wellFormed_ofList by assumption. reflexivity. }
  exists encoded. split; [exact He|]. split; [exact Hb|].
  intros decoded Hdec. rewrite Hb in Hdec. injection Hdec as <-.
  rewrite (wellFormed_ofList byteBuffer_ Hw).
  apply operator_eq_ofList. reflexivity.
Qed.

Lemma Base16_round_trip_bytes_witness :
  exists encoded,
    Base16.EncodeByteBufferToString oneByte Base16.UPPERCASE = Returned encoded
    /\ Base16.DecodeStringToByteBuffer encoded Base16.MIXED [] = Returned oneByte
    /\ forall decoded,
         Base16.DecodeStringToByteBuffer encoded Base16.MIXED []
         = Returned decoded ->
         ByteBuffer.operator_eq decoded oneByte = true.
Proof.
  apply (Base16_round_trip_bytes oneByte Base16.UPPERCASE Base16.MIXED []).
  - unfold ByteBuffer.wellFormed, ByteBuffer.GetMaximumSize; cbn; lia.
  - unfold ByteBuffer.GetMaximumSize; cbn; lia.
  - constructor.
  - discriminate.
  - right; reflexivity.
Defined.

(** ** Base32, Base32Hex, Base64, Base64Url: the two decoding surfaces *)

Ltac case_switch :=
  repeat match goal with
         | |- context [match ?x with _ => _ end] =>
             destruct x; try reflexivity
         end.

Section Rfc4648Surfaces.

Import Rfc4648.

Variable bits symbolBits : Z.
Variable groupSymbols : nat.
Variable decodeSymbol : byte -> Symbol.
Variable tailGroup : Z -> Z -> Z -> Outcome ErrorType (Z * Z).
Variable tailGroup' : Z -> Z -> Z -> Outcome Exception (Z * Z).
Variable decodedBytes : Z -> Z -> Outcome ErrorType (list byte).
Variable decodedBytes' : Z -> Z -> Outcome Exception (list byte).
(** The most bytes one group decodes to. *)
Variable most : nat.

Hypothesis tail_lift :
  forall b p n, tailGroup' b p n = lift inl (tailGroup b p n).
Hypothesis bytes_lift :
  forall b p, decodedBytes' b p = lift inl (decodedBytes b p).
Hypothesis bytes_most :
  forall b p bytes,
    decodedBytes b p = Returned bytes -> (length bytes <= most)%nat.

Variable s : list byte.

Lemma DecodeStep_lift (c : byte) (b p n : Z) :
  DecodeStep (@inl ErrorType ByteBuffer.Exception) bits symbolBits
    decodeSymbol c b p n
  = lift inl (DecodeStep (fun e => e) bits symbolBits decodeSymbol c b p n).
Proof.
  unfold DecodeStep.
  destruct ((0 <? p) && negb (Byte.eqb c "=")); [reflexivity|].
  destruct (decodeSymbol c); reflexivity.
Qed.

Lemma Rfc4648_DecodeGroup_lift (fuel iter jter : nat) (b p n : Z) :
  DecodeGroup (@inl ErrorType ByteBuffer.Exception) bits symbolBits
    groupSymbols decodeSymbol fuel s iter jter b p n
  = lift inl (DecodeGroup (fun e => e) bits symbolBits groupSymbols
                decodeSymbol fuel s iter jter b p n).
Proof.
  revert iter jter b p n; induction fuel as [|fuel IH];
    intros iter jter b p n; cbn [DecodeGroup]; [reflexivity|].
  destruct (jter =? length s)%nat; [reflexivity|].
  rewrite DecodeStep_lift.
  destruct (DecodeStep (fun e => e) bits symbolBits decodeSymbol
              (nth jter s x00) b p n) as [[[b' p'] n']|e| |];
    cbn [lift bind]; try reflexivity.
  destruct ((S jter =? length s)%nat || (S jter =? iter + groupSymbols)%nat);
    [reflexivity|apply IH].
Qed.

Lemma Rfc4648_DecodeGroup_iter {X : Type} (raise : ErrorType -> X)
    (fuel iter jter : nat) (b p n : Z) (iter' : nat) (b' p' n' : Z) :
  (iter <= jter)%nat -> (jter < length s)%nat ->
  DecodeGroup raise bits symbolBits groupSymbols decodeSymbol fuel s iter
    jter b p n
  = Returned (iter', b', p', n') ->
  (iter <= iter' < length s)%nat.
Proof.
  revert jter b p n; induction fuel as [|fuel IH];
    intros jter b p n Hij Hj; cbn [DecodeGroup]; [discriminate|].
  destruct (Nat.eqb_spec jter (length s)); [lia|].
  destruct (DecodeStep raise bits symbolBits decodeSymbol (nth jter s x00)
              b p n) as [[[b1 p1] n1]|e| |]; cbn [bind]; try discriminate.
  destruct (Nat.eqb_spec (S jter) (length s)); cbn [orb].
  - intro H; injection H as <- _ _ _. lia.
  - destruct (S jter =? iter + groupSymbols)%nat.
    + intro H; injection H as <- _ _ _. lia.
    + intro H. apply IH in H; lia.
Qed.

(** The loop on a staging buffer follows the loop on a string. *)
Lemma Rfc4648_DecodeLoop_staging (fuel iter : nat)
    (st : ByteBuffer.Staging) :
  (iter <= length s)%nat ->
  ByteBuffer.stagingReady st ->
  Z.of_nat (length (ByteBuffer.staged st))
  + Z.of_nat most * Z.of_nat (length s - iter)
  <= ByteBuffer.GetMaximumSize ->
  ByteBuffer.agree
    (Z.of_nat (length (ByteBuffer.staged st))
     + Z.of_nat most * Z.of_nat (length s - iter))
    (DecodeLoop (fun e => e) appendChar bits symbolBits groupSymbols
       decodeSymbol tailGroup decodedBytes fuel s iter
       (ByteBuffer.staged st))
    (DecodeLoop inl ByteBuffer.stageByte bits symbolBits groupSymbols
       decodeSymbol tailGroup' decodedBytes' fuel s iter st).
Proof.
  revert iter st; induction fuel as [|fuel IH]; intros iter st Hi Hr Hmax;
    cbn [DecodeLoop]; [reflexivity|].
  destruct (Nat.eqb_spec iter (length s)) as [E|NE].
  { eapply agree_weaken; [|apply agree_Returned, Hr]. lia. }
  rewrite Rfc4648_DecodeGroup_lift.
  destruct (DecodeGroup (fun e => e) bits symbolBits groupSymbols
              decodeSymbol (length s) s iter iter 0 0 0)
    as [[[[iter' b] p] n]|e| |] eqn:Eg;
    cbn [lift bind ByteBuffer.agree]; try reflexivity.
  apply Rfc4648_DecodeGroup_iter in Eg; [|lia|lia].
  rewrite tail_lift.
  destruct (tailGroup b p n) as [[b1 p1]|e| |];
    cbn [lift bind ByteBuffer.agree]; try reflexivity.
  rewrite bytes_lift.
  destruct (decodedBytes b1 p1) as [bytes|e| |] eqn:Eb;
    cbn [lift bind ByteBuffer.agree]; try reflexivity.
  apply bytes_most in Eb.
  rewrite putAll_appendChar. cbn [bind].
  assert (Hroom : Z.of_nat most * Z.of_nat (length s - S iter')
                  + Z.of_nat most
                  <= Z.of_nat most * Z.of_nat (length s - iter)).
  { assert (Hab : Z.of_nat (length s - S iter') + 1
                  <= Z.of_nat (length s - iter)) by lia.
    pose proof (Nat2Z.is_nonneg most) as Hm.
    apply (Z.mul_le_mono_nonneg_l _ _ _ Hm) in Hab. lia. }
  assert (Hnn : 0 <= Z.of_nat most * Z.of_nat (length s - S iter'))
    by (apply Z.mul_nonneg_nonneg; lia).
  destruct (putAll_staged (X := ErrorType) st bytes Hr)
    as (st1 & -> & Hr1 & Hs1); [lia|].
  cbn [bind].
  assert (L1 : Z.of_nat (length (ByteBuffer.staged st1))
               = Z.of_nat (length (ByteBuffer.staged st))
                 + Z.of_nat (length bytes))
    by (rewrite Hs1, length_app; lia).
  rewrite <- Hs1.
  destruct (0 <? p1).
  - eapply agree_weaken; [|apply agree_Returned, Hr1]. lia.
  - eapply agree_weaken; [|apply IH; try assumption; try lia]; lia.
Qed.

(** The frame around the loop. *)
Lemma Rfc4648_staging_frame (h : ByteBuffer.Heap) :
  Z.of_nat most * Z.of_nat (length s) <= ByteBuffer.GetMaximumSize ->
  ByteBuffer.unfailing h ->
  (let* st := lift inr (ByteBuffer.newStaging h) in
   let* st :=
     DecodeLoop inl (fun st c => lift inr (ByteBuffer.addToByteBuffer st c))
       bits symbolBits groupSymbols decodeSymbol tailGroup' decodedBytes'
       (S (length s)) s 0 st in
   lift inr (ByteBuffer.finishStaging st))
  = ByteBuffer.toByteBuffer
      (DecodeLoop (fun e => e) appendChar bits symbolBits groupSymbols
         decodeSymbol tailGroup decodedBytes (S (length s)) s 0 []).
Proof.
  intros Hmax Hh.
  apply (staging_frame
           (fun out => DecodeLoop (fun e => e) appendChar bits symbolBits
                         groupSymbols decodeSymbol tailGroup decodedBytes
                         (S (length s)) s 0 out)
           (fun st => DecodeLoop inl
                        (fun st c =>
                           lift inr (ByteBuffer.addToByteBuffer st c))
                        bits symbolBits groupSymbols decodeSymbol tailGroup'
                        decodedBytes' (S (length s)) s 0 st) h Hh).
  intros st Hr Hs.
  pose proof (Rfc4648_DecodeLoop_staging (S (length s)) 0 st
                (Nat.le_0_l _) Hr) as H.
  rewrite Hs in H. cbn [length] in H. rewrite Nat.sub_0_r in H.
  eapply agree_weaken; [|apply H; lia]. lia.
Qed.

End Rfc4648Surfaces.

Section RadixSurfaces.

Variable decodeSymbol : byte -> Rfc4648.Symbol.

Lemma Radix64_tailGroup_lift (b p n : Z) :
  Radix64.tailGroup (@inl Rfc4648.ErrorType ByteBuffer.Exception) b p n
  = lift inl (Radix64.tailGroup (fun e => e) b p n).
Proof. unfold Radix64.tailGroup. case_switch. Qed.

Lemma Radix64_decodedBytes_lift (b p : Z) :
  Radix64.decodedBytes (@inl Rfc4648.ErrorType ByteBuffer.Exception) b p
  = lift inl (Radix64.decodedBytes (fun e => e) b p).
Proof. unfold Radix64.decodedBytes. case_switch. Qed.

Lemma Radix64_decodedBytes_most (b p : Z) (bytes : list byte) :
  Radix64.decodedBytes (fun e : Rfc4648.ErrorType => e) b p = Returned bytes ->
  (length bytes <= 3)%nat.
Proof.
  unfold Radix64.decodedBytes.
  repeat match goal with
         | |- context [match ?x with _ => _ end] =>
             destruct x; try discriminate
         end;
    intro H; injection H as <-; cbn [length]; lia.
Qed.

Lemma Radix32_tailGroup_lift (b p n : Z) :
  Radix32.tailGroup (@inl Rfc4648.ErrorType ByteBuffer.Exception) b p n
  = lift inl (Radix32.tailGroup (fun e => e) b p n).
Proof. unfold Radix32.tailGroup. case_switch. Qed.

Lemma Radix32_decodedBytes_lift (b p : Z) :
  Radix32.decodedBytes (@inl Rfc4648.ErrorType ByteBuffer.Exception) b p
  = lift inl (Radix32.decodedBytes (fun e => e) b p).
Proof. unfold Radix32.decodedBytes. case_switch. Qed.

Lemma Radix32_decodedBytes_most (b p : Z) (bytes : list byte) :
  Radix32.decodedBytes (fun e : Rfc4648.ErrorType => e) b p = Returned bytes ->
  (length bytes <= 5)%nat.
Proof.
  unfold Radix32.decodedBytes.
  repeat match goal with
         | |- context [match ?x with _ => _ end] =>
             destruct x; try discriminate
         end;
    intro H; injection H as <-; cbn [length]; lia.
Qed.

Lemma Radix64_DecodeStringToByteBuffer_staged
    (s : list byte) (h : ByteBuffer.Heap) :
  3 * Z.of_nat (length s) <= ByteBuffer.GetMaximumSize ->
  ByteBuffer.unfailing h ->
  Radix64.DecodeStringToByteBuffer decodeSymbol s h
  = ByteBuffer.toByteBuffer (Radix64.DecodeStringToString decodeSymbol s).
Proof.
  intros Hmax Hh.
  apply (Rfc4648_staging_frame 24 6 4 decodeSymbol _ _ _ _ 3%nat
           Radix64_tailGroup_lift Radix64_decodedBytes_lift
           Radix64_decodedBytes_most s h); assumption.
Qed.

Lemma Radix32_DecodeStringToByteBuffer_staged
    (s : list byte) (h : ByteBuffer.Heap) :
  5 * Z.of_nat (length s) <= ByteBuffer.GetMaximumSize ->
  ByteBuffer.unfailing h ->
  Radix32.DecodeStringToByteBuffer decodeSymbol s h
  = ByteBuffer.toByteBuffer (Radix32.DecodeStringToString decodeSymbol s).
Proof.
  intros Hmax Hh.
  apply (Rfc4648_staging_frame 40 5 8 decodeSymbol _ _ _ _ 5%nat
           Radix32_tailGroup_lift Radix32_decodedBytes_lift
           Radix32_decodedBytes_most s h); assumption.
Qed.

End RadixSurfaces.

(** The two decoding surfaces of Base64 and of Base64Url agree: when no
    allocation fails, [DecodeStringToByteBuffer] returns the buffer of the
    bytes that [DecodeStringToString] returns, or raises the same error. *)
Theorem Base64_decode_surfaces_agree
    (encodedString_ : list byte) (h : ByteBuffer.Heap) :
  3 * Z.of_nat (length encodedString_) <= ByteBuffer.GetMaximumSize ->
  ByteBuffer.unfailing h ->
  Base64.DecodeStringToByteBuffer encodedString_ h
  = ByteBuffer.toByteBuffer (Base64.DecodeStringToString encodedString_)
  /\ Base64Url.DecodeStringToByteBuffer encodedString_ h
     = ByteBuffer.toByteBuffer
         (Base64Url.DecodeStringToString encodedString_).
Proof.
  intros Hmax Hh.
  split; apply Radix64_DecodeStringToByteBuffer_staged; assumption.
Qed.

Lemma Base64_decode_surfaces_agree_witness :
  Base64.DecodeStringToByteBuffer ["Q"; "Q"; "="; "="] []
  = ByteBuffer.toByteBuffer
      (Base64.DecodeStringToString ["Q"; "Q"; "="; "="]).
Proof.
  apply (Base64_decode_surfaces_agree ["Q"; "Q"; "="; "="] []).
  - unfold ByteBuffer.GetMaximumSize; cbn [length]; lia.
  - constructor.
Defined.

(** The two decoding surfaces of Base32 and of Base32Hex agree in the
    same way. *)
Theorem Base32_decode_surfaces_agree
    (encodedString_ : list byte) (h : ByteBuffer.Heap) :
  5 * Z.of_nat (length encodedString_) <= ByteBuffer.GetMaximumSize ->
  ByteBuffer.unfailing h ->
  Base32.DecodeStringToByteBuffer encodedString_ h
  = ByteBuffer.toByteBuffer (Base32.DecodeStringToString encodedString_)
  /\ Base32Hex.DecodeStringToByteBuffer encodedString_ h
     = ByteBuffer.toByteBuffer
         (Base32Hex.DecodeStringToString encodedString_).
Proof.
  intros Hmax Hh.
  split; apply Radix32_DecodeStringToByteBuffer_staged; assumption.
Qed.

Lemma Base32_decode_surfaces_agree_witness :
  Base32.DecodeStringToByteBuffer ["M"; "Y"] []
  = ByteBuffer.toByteBuffer (Base32.DecodeStringToString ["M"; "Y"]).
Proof.
  apply (Base32_decode_surfaces_agree ["M"; "Y"] []).
  - unfold ByteBuffer.GetMaximumSize; cbn [length]; lia.
  - constructor.
Defined.

(** ** Base32, Base32Hex, Base64, Base64Url: encoding *)

Section Rfc4648Encode.

Import Rfc4648.

Context {X : Type}.
Variable bits symbolBits : Z.
Variable groupBytes groupSymbols : nat.
Variable encodeSymbol : Z -> Outcome X byte.
Variable padGroup : Z -> Z -> Outcome X (Z * Z).

Local Abbreviation encode :=
  (EncodeLoop bits symbolBits groupBytes groupSymbols encodeSymbol padGroup).
Local Abbreviation encodeGroup :=
  (EncodeGroup bits symbolBits groupSymbols encodeSymbol padGroup).

(** The encoders' inner loop is the fold over what is left of the group. *)
Lemma CollectGroup_collect (fuel : nat) (s : list byte) (iter jter : nat)
    (b c : Z) :
  (iter <= jter)%nat -> (jter < length s)%nat ->
  (jter < iter + groupBytes)%nat ->
  (Nat.min (iter + groupBytes) (length s) - jter <= fuel)%nat ->
  CollectGroup (E := X) bits groupBytes fuel s iter jter b c =
    let (b', c') :=
      collectBytes bits (firstn (iter + groupBytes - jter) (skipn jter s))
        b c in
    Returned ((Nat.min (iter + groupBytes) (length s) - 1)%nat, b', c').
Proof.
  revert jter b c; induction fuel as [|fuel IH];
    intros jter b c Hij Hlen Hgrp Hfuel; [lia|].
  cbn [CollectGroup].
  destruct (Nat.eqb_spec jter (length s)) as [Heq|_]; [lia|].
  rewrite (skipn_nth_cons s jter Hlen).
  replace (iter + groupBytes - jter)%nat
    with (S (iter + groupBytes - S jter)) by lia.
  cbn [firstn collectBytes].
  destruct (CollectStep bits (nth jter s x00) b c) as [b' c'].
  destruct (Nat.eqb_spec (S jter) (length s)) as [He|Hne];
    [|destruct (Nat.eqb_spec (S jter) (iter + groupBytes)) as [Hg|Hng]];
    cbn [orb].
  - rewrite skipn_all2 by lia. rewrite firstn_nil. cbn [collectBytes].
    tuple_eq.
  - replace (iter + groupBytes - S jter)%nat with 0%nat by lia.
    cbn [firstn collectBytes]. tuple_eq.
  - apply IH; lia.
Qed.

(** One turn of the encoders' outer loop. *)
Lemma EncodeLoop_group (fuel : nat) (s : list byte) (withPadding_ : bool)
    (iter : nat) (acc : list byte) :
  (0 < groupBytes)%nat -> (iter < length s)%nat ->
  encode (S fuel) s withPadding_ iter acc =
    let* acc' :=
      encodeGroup (firstn groupBytes (skipn iter s)) withPadding_ acc in
    encode fuel s withPadding_
      (iter + length (firstn groupBytes (skipn iter s)))%nat acc'.
Proof.
  intros Hpos Hlt. cbn [EncodeLoop].
  destruct (Nat.eqb_spec iter (length s)) as [Heq|_]; [lia|].
  rewrite CollectGroup_collect by lia.
  replace (iter + groupBytes - iter)%nat with groupBytes by lia.
  unfold EncodeGroup.
  destruct (collectBytes bits (firstn groupBytes (skipn iter s)) 0 0)
    as [b c].
  cbn [bind].
  destruct (padGroup b c) as [[b' c']|e| |]; cbn [bind]; try reflexivity.
  destruct (EmitSymbols bits symbolBits encodeSymbol
              (symbolIndices groupSymbols) b' c' withPadding_ acc)
    as [acc'|e| |]; cbn [bind]; try reflexivity.
  f_equal. rewrite length_firstn, length_skipn. lia.
Qed.

(** Full groups, each encoded to [symbols] symbols that depend on the
    bytes of the group only. *)
Hypothesis groupBytes_pos : (0 < groupBytes)%nat.
Variable withPadding_ : bool.
Variable symbolsOf : list byte -> list byte.
Hypothesis encodeGroup_full :
  forall g acc,
    length g = groupBytes ->
    encodeGroup g withPadding_ acc = Returned (acc ++ symbolsOf g).

Local Abbreviation symbolsOfGroups :=
  (Rfc4648.symbolsOfGroups groupBytes symbolsOf).

Lemma EncodeLoop_full_groups (k : nat) :
  forall (pre l t acc : list byte) (fuel : nat),
    length l = (k * groupBytes)%nat ->
    encode (k + fuel) (pre ++ l ++ t) withPadding_ (length pre) acc
    = encode fuel (pre ++ l ++ t) withPadding_ (length pre + length l)%nat
        (acc ++ symbolsOfGroups k l).
Proof.
  induction k as [|k IH]; intros pre l t acc fuel Hlen.
  - destruct l; [|cbn in Hlen; lia].
    cbn. rewrite Nat.add_0_r, app_nil_r. reflexivity.
  - cbn [Nat.mul] in Hlen.
    assert (Lg : length (firstn groupBytes l) = groupBytes)
      by (rewrite length_firstn; lia).
    assert (Ll : length (skipn groupBytes l) = (k * groupBytes)%nat)
      by (rewrite length_skipn; lia).
    cbn [Nat.add Rfc4648.symbolsOfGroups].
    assert (Hfirst : firstn groupBytes (skipn (length pre) (pre ++ l ++ t))
                     = firstn groupBytes l).
    { rewrite skipn_length_app.
      rewrite <- (firstn_skipn groupBytes l) at 1.
      rewrite <- app_assoc.
      rewrite <- Lg at 1.
      apply firstn_length_app. }
    rewrite EncodeLoop_group
      by (try assumption; rewrite !length_app; lia).
    rewrite Hfirst, encodeGroup_full by exact Lg. cbn [bind].
    pose proof (IH (pre ++ firstn groupBytes l) (skipn groupBytes l) t
                  (acc ++ symbolsOf (firstn groupBytes l)) fuel Ll) as H.
    rewrite <- !app_assoc in H.
    rewrite (app_assoc (firstn groupBytes l)), firstn_skipn in H.
    rewrite length_app, Lg, Ll in H.
    rewrite Lg, H.
    replace (length pre + length l)%nat
      with (length pre + groupBytes + k * groupBytes)%nat by lia.
    reflexivity.
Qed.

End Rfc4648Encode.

Lemma lor_disjoint (x v k : Z) :
  0 <= k -> 0 <= v < 2 ^ k -> Z.lor (x * 2 ^ k) v = x * 2 ^ k + v.
Proof.
  intros Hk Hv. rewrite <- Z.shiftl_mul_pow2 by lia.
  assert (L : Z.land (Z.shiftl x k) v = 0).
  { apply Z.bits_inj'. intros n Hn. rewrite Z.land_spec, Z.bits_0.
    destruct (Z.lt_ge_cases n k).
    - rewrite Z.shiftl_spec_low by lia. reflexivity.
    - replace v with (v mod 2 ^ k) by (apply Z.mod_small; lia).
      rewrite Z.mod_pow2_bits_high by lia. apply andb_false_r. }
  rewrite Z.add_nocarry_lxor by exact L. symmetry.
  apply Z.lxor_lor, L.
Qed.

Lemma bitsetShl_small (n b k : Z) :
  0 <= k -> 0 <= b * 2 ^ k < 2 ^ n -> bitsetShl n b k = b * 2 ^ k.
Proof.
  intros Hk Hb. unfold bitsetShl.
  rewrite Z.shiftl_mul_pow2 by lia. apply Z.mod_small, Hb.
Qed.

Section Rfc4648Symbols.

Import Rfc4648.

Context {X : Type}.
Variable raise : ErrorType -> X.
Variable bits symbolBits : Z.
Variable encodeSymbol : Z -> Outcome X byte.
Variable decodeSymbol : byte -> Symbol.
(** The character that stands for a value. *)
Variable symbolOf : Z -> byte.

Hypothesis symbolBits_pos : 0 < symbolBits.
Hypothesis bits_small : bits < 2 ^ 32.
Hypothesis encode_table :
  forall v, 0 <= v < 2 ^ symbolBits -> encodeSymbol v = Returned (symbolOf v).
Hypothesis decode_table :
  forall v, 0 <= v < 2 ^ symbolBits -> decodeSymbol (symbolOf v) = Digit v.

(** The [i]-th symbol of the group held in [bitset], counting from 1. *)
Local Abbreviation sym bitset :=
  (fun i : nat =>
     symbolOf (Z.shiftr bitset (bits - symbolBits * Z.of_nat i)
               mod 2 ^ symbolBits)).
Local Abbreviation emit :=
  (EmitSymbols bits symbolBits encodeSymbol).
Local Abbreviation scan := (scanSymbols raise bits symbolBits decodeSymbol).

(** Past the last symbol of the group: pad characters, or nothing. *)
Lemma EmitSymbols_pads (len k cn : nat) (bitset : Z) (withPadding_ : bool)
    (acc : list byte) :
  (cn < k)%nat ->
  emit (map Z.of_nat (seq k len)) bitset (Z.of_nat cn) withPadding_ acc
  = Returned (acc ++ if withPadding_ then repeat "=" len else []).
Proof.
  revert k acc; induction len as [|len IH]; intros k acc Hk.
  - cbn. destruct withPadding_; rewrite app_nil_r; reflexivity.
  - cbn [seq map EmitSymbols].
    destruct (Z.ltb_spec (Z.of_nat cn) (Z.of_nat k)) as [_|]; [|lia].
    destruct withPadding_.
    + unfold appendChar. cbn [bind].
      rewrite IH by lia. cbn [repeat]. rewrite <- app_assoc. reflexivity.
    + rewrite app_nil_r. reflexivity.
Qed.

(** The symbols of the group, then what follows them. *)
Lemma EmitSymbols_symbols (m : nat) :
  forall (len k cn : nat) (bitset : Z) (withPadding_ : bool)
         (acc : list byte),
    (k + m = cn + 1)%nat -> (m <= len)%nat ->
    emit (map Z.of_nat (seq k len)) bitset (Z.of_nat cn) withPadding_ acc
    = Returned (acc ++ map (sym bitset) (seq k m)
                  ++ if withPadding_ then repeat "=" (len - m) else []).
Proof.
  induction m as [|m IH]; intros len k cn bitset withPadding_ acc Hk Hlen.
  - rewrite EmitSymbols_pads by lia. rewrite Nat.sub_0_r. reflexivity.
  - destruct len as [|len]; [lia|].
    cbn [seq map EmitSymbols].
    destruct (Z.ltb_spec (Z.of_nat cn) (Z.of_nat k)) as [|_]; [lia|].
    rewrite encode_table by (apply Z.mod_pos_bound; lia).
    cbn [bind]. unfold appendChar. cbn [bind].
    rewrite (IH len (S k) cn) by lia.
    cbn [Nat.sub]. rewrite <- app_assoc. reflexivity.
Qed.

(** Decoding the first [c] symbols of a group gives back the top
    [c * symbolBits] bits of the bitset they were taken from. *)
Lemma scan_emitted (c : nat) (bitset : Z) :
  symbolBits * Z.of_nat c <= bits ->
  0 <= bitset < 2 ^ bits ->
  scan (map (sym bitset) (seq 1 c)) 0 0 0
  = Returned (bitset / 2 ^ (bits - symbolBits * Z.of_nat c), 0, Z.of_nat c).
Proof.
  intros Hc Hb. induction c as [|c IH].
  - cbn [seq map scanSymbols]. rewrite Z.mul_0_r, Z.sub_0_r.
    rewrite Z.div_small by exact Hb. reflexivity.
  - rewrite seq_S, map_app, scan_app. rewrite IH by lia. cbn [bind].
    cbn [map scanSymbols]. unfold DecodeStep.
    change (0 <? 0) with false. cbn [andb].
    rewrite decode_table by (apply Z.mod_pos_bound; lia).
    cbn [bind].
    replace (Z.of_nat (1 + c)) with (Z.of_nat c + 1) by lia.
    set (m := bits - symbolBits * (Z.of_nat c + 1)).
    assert (Hm : 0 <= m) by (unfold m; lia).
    replace (bits - symbolBits * Z.of_nat c) with (m + symbolBits)
      by (unfold m; lia).
    rewrite Z.shiftr_div_pow2 by exact Hm.
    assert (P1 : 0 < 2 ^ m) by (apply Z.pow_pos_nonneg; lia).
    assert (P2 : 0 < 2 ^ symbolBits) by (apply Z.pow_pos_nonneg; lia).
    assert (T : bitset / 2 ^ (m + symbolBits)
                = bitset / 2 ^ m / 2 ^ symbolBits).
    { rewrite Z.pow_add_r by lia. rewrite Z.div_div by lia. reflexivity. }
    rewrite T.
    pose proof (Z.div_mod (bitset / 2 ^ m) (2 ^ symbolBits)
                  ltac:(lia)) as D.
    pose proof (Z.mod_pos_bound (bitset / 2 ^ m) (2 ^ symbolBits) P2) as R.
    assert (Hq : 0 <= bitset / 2 ^ m < 2 ^ (bits - m)).
    { split; [apply Z.div_pos; lia|].
      apply Z.div_lt_upper_bound; [lia|].
      rewrite <- Z.pow_add_r by lia.
      replace (m + (bits - m)) with bits by lia. lia. }
    assert (Hq2 : 0 <= bitset / 2 ^ m / 2 ^ symbolBits)
      by (apply Z.div_pos; lia).
    assert (Hle : 2 ^ (bits - m) <= 2 ^ bits)
      by (apply Z.pow_le_mono_r; lia).
    rewrite bitsetShl_small by lia.
    rewrite lor_disjoint by lia.
    assert (Hcb : Z.of_nat c + 1 <= bits) by nia.
    unfold u32. rewrite (Z.mod_small (Z.of_nat c + 1)) by lia.
    replace (bits - symbolBits * Z.of_nat (S c)) with m by (unfold m; lia).
    replace (Z.of_nat c + 1) with (Z.of_nat (S c)) by lia.
    rewrite Z.mul_comm, <- D. reflexivity.
Qed.

End Rfc4648Symbols.

Lemma bigEndian_ge (g : list byte) (x : Z) :
  0 <= x -> x <= Rfc4648.bigEndian g x.
Proof.
  revert x; induction g as [|a g IH]; intros x Hx; [cbn; lia|].
  unfold Rfc4648.bigEndian in *. cbn [fold_left].
  pose proof (byteToZ_range a).
  specialize (IH (x * 256 + byteToZ a)). lia.
Qed.

Lemma bigEndian_bound (g : list byte) (x : Z) :
  0 <= x ->
  Rfc4648.bigEndian g x < (x + 1) * 2 ^ (8 * Z.of_nat (length g)).
Proof.
  revert x; induction g as [|a g IH]; intros x Hx.
  - cbn. lia.
  - unfold Rfc4648.bigEndian in *. cbn [fold_left].
    pose proof (byteToZ_range a) as R.
    specialize (IH (x * 256 + byteToZ a) ltac:(lia)).
    replace (8 * Z.of_nat (length (a :: g)))
      with (8 + 8 * Z.of_nat (length g)) by (cbn [length]; lia).
    rewrite Z.pow_add_r by lia. change (2 ^ 8) with 256.
    assert (P : 0 < 2 ^ (8 * Z.of_nat (length g)))
      by (apply Z.pow_pos_nonneg; lia).
    nia.
Qed.

Lemma collectBytes_bigEndian (bits : Z) (g : list byte) (b c : Z) :
  0 <= b -> Rfc4648.bigEndian g b < 2 ^ bits ->
  0 <= c -> c + Z.of_nat (length g) < 2 ^ 32 ->
  Rfc4648.collectBytes bits g b c
  = (Rfc4648.bigEndian g b, c + Z.of_nat (length g)).
Proof.
  revert b c; induction g as [|a g IH]; intros b c Hb Hlt Hc Hn.
  - cbn. rewrite Z.add_0_r. reflexivity.
  - cbn [Rfc4648.collectBytes Rfc4648.CollectStep].
    unfold Rfc4648.bigEndian in *. cbn [fold_left] in *.
    cbn [length] in Hn.
    pose proof (byteToZ_range a) as R.
    pose proof (bigEndian_ge g (b * 256 + byteToZ a) ltac:(lia)) as G.
    unfold Rfc4648.bigEndian in G.
    assert (E1 : bitsetShl bits b 8 = b * 256).
    { rewrite bitsetShl_small; change (2 ^ 8) with 256; lia. }
    assert (E2 : Z.lor (b * 256) (byteToZ a) = b * 256 + byteToZ a).
    { apply (lor_disjoint b (byteToZ a) 8); change (2 ^ 8) with 256; lia. }
    rewrite E1, E2.
    unfold u32. rewrite Z.mod_small by lia.
    rewrite IH by lia. cbn [length]. f_equal. lia.
Qed.

Lemma shiftPads_value (bits symbolBits : Z) (k : nat) (b : Z) :
  0 <= symbolBits -> 0 <= b ->
  b * 2 ^ (symbolBits * Z.of_nat k) < 2 ^ bits ->
  Rfc4648.shiftPads bits symbolBits k b = b * 2 ^ (symbolBits * Z.of_nat k).
Proof.
  intro Hs. revert b; induction k as [|k IH]; intros b Hb Hlt.
  - cbn [Rfc4648.shiftPads]. rewrite Z.mul_0_r. cbn. lia.
  - cbn [Rfc4648.shiftPads].
    replace (symbolBits * Z.of_nat (S k))
      with (symbolBits + symbolBits * Z.of_nat k) in * by lia.
    rewrite Z.pow_add_r in * by lia.
    assert (P1 : 0 < 2 ^ symbolBits) by (apply Z.pow_pos_nonneg; lia).
    assert (P2 : 0 < 2 ^ (symbolBits * Z.of_nat k))
      by (apply Z.pow_pos_nonneg; lia).
    assert (Hbs : 0 <= b * 2 ^ symbolBits < 2 ^ bits) by nia.
    rewrite bitsetShl_small by lia.
    rewrite IH by nia. ring.
Qed.

Lemma shiftr_truncated (b m d : Z) :
  0 <= m <= d -> 0 <= b ->
  Z.shiftr (b / 2 ^ m * 2 ^ m) d = Z.shiftr b d.
Proof.
  intros Hm Hb. rewrite !Z.shiftr_div_pow2 by lia.
  replace d with (m + (d - m)) by lia.
  rewrite Z.pow_add_r by lia.
  assert (P : 0 < 2 ^ m) by (apply Z.pow_pos_nonneg; lia).
  assert (Q : 0 < 2 ^ (d - m)) by (apply Z.pow_pos_nonneg; lia).
  rewrite <- !Z.div_div by lia.
  rewrite Z.div_mul by lia. reflexivity.
Qed.

Lemma byteOfZ_eq (z : Z) (c : byte) : z mod 256 = byteToZ c -> byteOfZ z = c.
Proof.
  intro H. rewrite <- byteOfZ_mod, H. apply byteOfZ_byteToZ.
Qed.

(** ** Base32, Base32Hex, Base64, Base64Url: decoding what was encoded *)

Section Rfc4648RoundTrip.

Import Rfc4648.

Variable bits symbolBits : Z.
Variable groupBytes groupSymbols : nat.
Variable encodeSymbol : Z -> Outcome ErrorType byte.
Variable decodeSymbol : byte -> Symbol.
Variable padGroup : Z -> Z -> Outcome ErrorType (Z * Z).
Variable tailGroup : Z -> Z -> Z -> Outcome ErrorType (Z * Z).
Variable decodedBytes : Z -> Z -> Outcome ErrorType (list byte).
(** The characters that stand for the bytes of one group. *)
Variable groupOf : list byte -> bool -> list byte.

Local Abbreviation encode :=
  (EncodeLoop bits symbolBits groupBytes groupSymbols encodeSymbol padGroup).
Local Abbreviation encodeGroup :=
  (EncodeGroup bits symbolBits groupSymbols encodeSymbol padGroup).
Local Abbreviation decode :=
  (DecodeLoop (fun e => e) appendChar bits symbolBits groupSymbols
     decodeSymbol tailGroup decodedBytes).
Local Abbreviation scan :=
  (scanSymbols (fun e : ErrorType => e) bits symbolBits decodeSymbol).
Local Abbreviation symbols :=
  (Forall (fun c => isSymbol decodeSymbol c = true)).
Local Abbreviation groupsBytes :=
  (fullGroupsBytes bits symbolBits groupSymbols decodeSymbol decodedBytes).

Hypothesis groupBytes_pos : (0 < groupBytes)%nat.
Hypothesis groupSymbols_pos : (0 < groupSymbols)%nat.
Hypothesis groupSymbols_small : Z.of_nat groupSymbols < 2 ^ 32.
Hypothesis tail_full :
  forall b p, tailGroup b p (Z.of_nat groupSymbols) = Returned (b, p).
Hypothesis bytes_full :
  forall b, exists bytes, decodedBytes b 0 = Returned bytes.
Hypothesis group_encode :
  forall g withPadding_ acc,
    (0 < length g <= groupBytes)%nat ->
    encodeGroup g withPadding_ acc = Returned (acc ++ groupOf g withPadding_).
Hypothesis group_decode :
  forall g withPadding_,
    (0 < length g <= groupBytes)%nat ->
    (0 < length (groupOf g withPadding_) <= groupSymbols)%nat
    /\ (let* (b, p, n) := scan (groupOf g withPadding_) 0 0 0 in
        let* (b, p) := tailGroup b p n in
        decodedBytes b p) = Returned g.
Hypothesis group_full :
  forall g withPadding_,
    length g = groupBytes ->
    length (groupOf g withPadding_) = groupSymbols
    /\ symbols (groupOf g withPadding_).

Lemma group_fullGroupBytes (g : list byte) (withPadding_ : bool) :
  length g = groupBytes ->
  fullGroupBytes bits symbolBits decodeSymbol decodedBytes
    (groupOf g withPadding_) = g.
Proof.
  intro Hlen.
  destruct (group_full g withPadding_ Hlen) as [L S].
  destruct (group_decode g withPadding_ ltac:(lia)) as [_ D].
  rewrite (scan_symbols (fun e : ErrorType => e) bits symbolBits
             decodeSymbol _ 0 0 S) in D by lia.
  cbn [bind] in D. rewrite L, Z.add_0_l, tail_full in D. cbn [bind] in D.
  unfold fullGroupBytes. rewrite D. reflexivity.
Qed.

Lemma symbolsOfGroups_decode (withPadding_ : bool) (k : nat)
    (l : list byte) :
  length l = (k * groupBytes)%nat ->
  let p := symbolsOfGroups groupBytes (fun g => groupOf g withPadding_) k l in
  length p = (k * groupSymbols)%nat /\ symbols p /\ groupsBytes k p = l.
Proof.
  cbv zeta. revert l; induction k as [|k IH]; intros l Hlen.
  - destruct l; [|cbn in Hlen; lia]. cbn. auto.
  - cbn [Nat.mul] in Hlen.
    assert (Lg : length (firstn groupBytes l) = groupBytes)
      by (rewrite length_firstn; lia).
    assert (Ll : length (skipn groupBytes l) = (k * groupBytes)%nat)
      by (rewrite length_skipn; lia).
    destruct (group_full _ withPadding_ Lg) as (L1 & S1).
    pose proof (group_fullGroupBytes _ withPadding_ Lg) as D1.
    destruct (IH _ Ll) as (L2 & S2 & D2).
    cbn [symbolsOfGroups fullGroupsBytes Nat.mul].
    split; [rewrite length_app; lia|].
    split; [apply Forall_app; auto|].
    rewrite <- L1 at 1 3.
    rewrite firstn_length_app, skipn_length_app, D1, D2.
    apply firstn_skipn.
Qed.

(** The encoding has the characters of the full groups and of one more
    group at most. *)
Lemma encodingOf_length (s : list byte) (withPadding_ : bool) :
  let k := (length s / groupBytes)%nat in
  length (encodingOf groupBytes groupOf s withPadding_)
  = (k * groupSymbols
     + match skipn (k * groupBytes) s with
       | [] => 0
       | g => length (groupOf g withPadding_)
       end)%nat
  /\ (length (encodingOf groupBytes groupOf s withPadding_)
      <= (k + 1) * groupSymbols)%nat.
Proof.
  cbv zeta. unfold encodingOf.
  set (k := (length s / groupBytes)%nat).
  assert (Hdiv : (k * groupBytes <= length s < k * groupBytes + groupBytes)%nat).
  { unfold k. pose proof (Nat.div_mod_eq (length s) groupBytes) as D.
    pose proof (Nat.mod_upper_bound (length s) groupBytes ltac:(lia)) as M.
    lia. }
  assert (Ll : length (firstn (k * groupBytes) s) = (k * groupBytes)%nat)
    by (rewrite length_firstn; lia).
  assert (Lg : (length (skipn (k * groupBytes) s) < groupBytes)%nat)
    by (rewrite length_skipn; lia).
  destruct (symbolsOfGroups_decode withPadding_ k _ Ll) as (LP & _ & _).
  rewrite length_app, LP.
  destruct (skipn (k * groupBytes) s) as [|c g'] eqn:Eg.
  - cbn [length]. lia.
  - destruct (group_decode (c :: g') withPadding_) as (Lf & _);
      [cbn [length] in *; lia|].
    lia.
Qed.

(** The encoders compute [encodingOf], and decoding it gives back the
    bytes. *)
Lemma encode_decode (s : list byte) (withPadding_ : bool) :
  encode (S (length s)) s withPadding_ 0 []
  = Returned (encodingOf groupBytes groupOf s withPadding_)
  /\ decode (S (length (encodingOf groupBytes groupOf s withPadding_)))
       (encodingOf groupBytes groupOf s withPadding_) 0 []
     = Returned s.
Proof.
  unfold encodingOf.
  set (k := (length s / groupBytes)%nat).
  set (l := firstn (k * groupBytes) s).
  set (g := skipn (k * groupBytes) s).
  assert (Hdiv : (k * groupBytes <= length s < k * groupBytes + groupBytes)%nat).
  { unfold k. pose proof (Nat.div_mod_eq (length s) groupBytes) as D.
    pose proof (Nat.mod_upper_bound (length s) groupBytes ltac:(lia)) as M.
    lia. }
  assert (Hs : s = l ++ g) by (symmetry; apply firstn_skipn).
  assert (Ll : length l = (k * groupBytes)%nat)
    by (unfold l; rewrite length_firstn; lia).
  assert (Lg : (length g < groupBytes)%nat)
    by (unfold g; rewrite length_skipn; lia).
  assert (Lk : (k <= length l)%nat) by nia.
  destruct (symbolsOfGroups_decode withPadding_ k l Ll) as (LP & SP & DP).
  assert (Hfull : forall g acc,
             length g = groupBytes ->
             encodeGroup g withPadding_ acc
             = Returned (acc ++ groupOf g withPadding_))
    by (intros g0 acc Hg; apply group_encode; lia).
  pose proof (EncodeLoop_full_groups bits symbolBits groupBytes groupSymbols
                encodeSymbol padGroup groupBytes_pos withPadding_
                (fun g => groupOf g withPadding_) Hfull
                k [] l g [] (S (length s) - k) Ll) as HE.
  cbn [app length Nat.add] in HE. rewrite <- Hs in HE.
  replace (k + (S (length s) - k))%nat with (S (length s)) in HE
    by (rewrite Hs, length_app; lia).
  destruct g as [|c g'] eqn:Eg.
  - (* the input is made of full groups *)
    rewrite app_nil_r in Hs |- *. split.
    + rewrite HE.
      replace (S (length s) - k)%nat with (S (length s - k)) by lia.
      cbn [EncodeLoop]. rewrite <- Hs, Nat.eqb_refl. reflexivity.
    + rewrite (DecodeLoop_only_groups (fun e => e) bits symbolBits
                 groupSymbols decodeSymbol tailGroup decodedBytes
                 groupSymbols_pos groupSymbols_small tail_full bytes_full
                 k _ LP SP).
      rewrite DP. congruence.
  - (* a short final group follows *)
    destruct (group_decode (c :: g') withPadding_) as (Lf & Df);
      [cbn [length] in *; lia|].
    split.
    + rewrite HE.
      replace (S (length s) - k)%nat with (S (S (length s - S k)))
        by (rewrite Hs, length_app; cbn [length]; lia).
      rewrite EncodeLoop_group
        by (try assumption; rewrite Hs, length_app; cbn [length]; lia).
      assert (Hfirst : firstn groupBytes (skipn (length l) s) = c :: g').
      { rewrite Hs, skipn_length_app. apply firstn_all2. lia. }
      rewrite Hfirst, group_encode by (cbn [length] in *; lia).
      cbn [bind EncodeLoop].
      replace (length l + length (c :: g'))%nat with (length s)
        by (rewrite Hs, length_app; reflexivity).
      rewrite Nat.eqb_refl. reflexivity.
    + destruct (groupOf (c :: g') withPadding_) as [|f final'] eqn:Ef;
        [cbn [length] in Lf; lia|].
      rewrite (DecodeLoop_last_group (fun e => e) bits symbolBits
                 groupSymbols decodeSymbol tailGroup decodedBytes
                 groupSymbols_pos groupSymbols_small tail_full bytes_full
                 k _ final' f LP SP) by lia.
      destruct (scan (f :: final') 0 0 0) as [[[b p] n]|e| |];
        cbn [bind] in Df |- *; try discriminate Df.
      destruct (tailGroup b p n) as [[b' p']|e| |];
        cbn [bind] in Df |- *; try discriminate Df.
      rewrite Df. cbn [bind]. rewrite DP, Hs. reflexivity.
Qed.

End Rfc4648RoundTrip.

Section Rfc4648GroupSymbols.

Import Rfc4648.

Variable bits symbolBits : Z.
Variable encodeSymbol : Z -> Outcome ErrorType byte.
Variable decodeSymbol : byte -> Symbol.

Hypothesis symbolBits_pos : 0 < symbolBits.
Hypothesis bits_small : bits < 2 ^ 32.
Hypothesis alphabet :
  forall v, 0 <= v < 2 ^ symbolBits ->
    exists c, encodeSymbol v = Returned c /\ decodeSymbol c = Digit v.
Hypothesis pad_symbol : decodeSymbol "=" = Pad.

Local Abbreviation symbolOf := (Rfc4648.symbolOf encodeSymbol).
Local Abbreviation groupSymbolsOf :=
  (Rfc4648.groupSymbolsOf bits symbolBits symbolOf).
Local Abbreviation scan :=
  (scanSymbols (fun e : ErrorType => e) bits symbolBits decodeSymbol).

Lemma symbolOf_encode (v : Z) :
  0 <= v < 2 ^ symbolBits -> encodeSymbol v = Returned (symbolOf v).
Proof.
  intro H. destruct (alphabet v H) as [c [E _]].
  unfold Rfc4648.symbolOf. rewrite E. reflexivity.
Qed.

Lemma symbolOf_decode (v : Z) :
  0 <= v < 2 ^ symbolBits -> decodeSymbol (symbolOf v) = Digit v.
Proof.
  intro H. destruct (alphabet v H) as [c [E D]].
  unfold Rfc4648.symbolOf. rewrite E. exact D.
Qed.

Lemma groupSymbolsOf_length (n : nat) (bitset : Z) :
  length (groupSymbolsOf n bitset) = n.
Proof. unfold Rfc4648.groupSymbolsOf. rewrite length_map. apply length_seq. Qed.

Lemma groupSymbolsOf_symbols (n : nat) (bitset : Z) :
  Forall (fun c => isSymbol decodeSymbol c = true) (groupSymbolsOf n bitset).
Proof.
  unfold Rfc4648.groupSymbolsOf. apply Forall_forall. intros c Hin.
  apply in_map_iff in Hin. destruct Hin as [i [<- _]].
  unfold isSymbol. rewrite symbolOf_decode; [reflexivity|].
  apply Z.mod_pos_bound. apply Z.pow_pos_nonneg; lia.
Qed.

(** What the encoders emit for a group of [n] symbols. *)
Lemma EmitSymbols_group (groupSymbols n : nat) (bitset : Z)
    (withPadding_ : bool) (acc : list byte) :
  (n <= groupSymbols)%nat ->
  EmitSymbols bits symbolBits encodeSymbol (symbolIndices groupSymbols)
    bitset (Z.of_nat n) withPadding_ acc
  = Returned (acc ++ groupSymbolsOf n bitset
                ++ if withPadding_ then repeat "=" (groupSymbols - n)
                   else []).
Proof.
  intro H. unfold symbolIndices.
  apply (EmitSymbols_symbols bits symbolBits encodeSymbol symbolOf
           symbolBits_pos symbolOf_encode n groupSymbols 1 n); lia.
Qed.

(** What the decoders' inner loop makes of these symbols and of the pad
    characters behind them. *)
Lemma scan_group (n k : nat) (bitset : Z) :
  symbolBits * Z.of_nat (n + k) <= bits ->
  0 <= bitset < 2 ^ bits ->
  scan (groupSymbolsOf n bitset ++ repeat "=" k) 0 0 0
  = Returned (bitset / 2 ^ (bits - symbolBits * Z.of_nat n)
              * 2 ^ (symbolBits * Z.of_nat k),
              Z.of_nat k, Z.of_nat (n + k)).
Proof.
  intros Hn Hb.
  assert (Hnk : Z.of_nat (n + k) <= bits) by nia.
  rewrite scan_app. unfold Rfc4648.groupSymbolsOf.
  rewrite (scan_emitted (fun e : ErrorType => e) bits symbolBits
             decodeSymbol symbolOf symbolBits_pos bits_small symbolOf_decode)
    by (try assumption; nia).
  cbn [bind].
  set (m := bits - symbolBits * Z.of_nat n).
  assert (Hm : symbolBits * Z.of_nat k <= m) by (unfold m; nia).
  assert (Hm0 : 0 <= symbolBits * Z.of_nat k) by nia.
  assert (P : 0 < 2 ^ m) by (apply Z.pow_pos_nonneg; lia).
  assert (Hq : 0 <= bitset / 2 ^ m) by (apply Z.div_pos; lia).
  assert (Hlt : bitset / 2 ^ m * 2 ^ (symbolBits * Z.of_nat k) < 2 ^ bits).
  { assert (Hle : bitset / 2 ^ m * 2 ^ m <= bitset)
      by (rewrite Z.mul_comm; apply Z.mul_div_le; lia).
    assert (Hpw : 2 ^ (symbolBits * Z.of_nat k) <= 2 ^ m)
      by (apply Z.pow_le_mono_r; lia).
    nia. }
  rewrite (scan_pads (fun e : ErrorType => e) bits symbolBits decodeSymbol
             pad_symbol) by lia.
  rewrite shiftPads_value by lia.
  repeat f_equal; lia.
Qed.

End Rfc4648GroupSymbols.

(** The value of one byte of the bitset of a group. *)
Ltac byte_ranges :=
  repeat match goal with
         | c : byte |- _ =>
             lazymatch goal with
             | H : 0 <= byteToZ c < 256 |- _ => fail
             | _ => pose proof (byteToZ_range c)
             end
         end.

Ltac powers :=
  repeat match goal with
         | |- context [2 ^ ?k] =>
             let v := eval vm_compute in (2 ^ k) in change (2 ^ k) with v
         end.

Ltac byte_value :=
  apply byteOfZ_eq; rewrite ?Z.shiftr_div_pow2 by lia;
  unfold Rfc4648.bigEndian; cbn [fold_left];
  byte_ranges; powers; Z.div_mod_to_equations; lia.

Ltac group_bytes :=
  apply byteOfZ_eq; unfold bitsetShl;
  rewrite ?Z.shiftl_mul_pow2, ?Z.shiftr_div_pow2 by lia;
  unfold Rfc4648.bigEndian; cbn [fold_left];
  byte_ranges; powers; Z.div_mod_to_equations; lia.

Ltac closed_numbers :=
  repeat match goal with
         | |- context [Z.of_nat ?n] =>
             let v := eval vm_compute in (Z.of_nat n) in
             progress change (Z.of_nat n) with v
         end.

Section Radix64RoundTrip.

Variable encodeSymbol : Z -> Outcome Rfc4648.ErrorType byte.
Variable decodeSymbol : byte -> Rfc4648.Symbol.

Hypothesis alphabet :
  forall v, 0 <= v < 2 ^ 6 ->
    exists c, encodeSymbol v = Returned c /\ decodeSymbol c = Rfc4648.Digit v.
Hypothesis pad_symbol : decodeSymbol "=" = Rfc4648.Pad.

Local Abbreviation groupOf := (Radix64.groupOf encodeSymbol).
Local Abbreviation encodeGroup :=
  (Rfc4648.EncodeGroup 24 6 4 encodeSymbol Radix64.padGroup).
Local Abbreviation scan :=
  (Rfc4648.scanSymbols (fun e : Rfc4648.ErrorType => e) 24 6 decodeSymbol).

(** One turn of the encoders' outer loop writes the characters of the
    group. *)
Lemma Radix64_EncodeGroup (g : list byte) (withPadding_ : bool)
    (acc : list byte) :
  (0 < length g <= 3)%nat ->
  encodeGroup g withPadding_ acc = Returned (acc ++ groupOf g withPadding_).
Proof.
  intro Hlen.
  pose proof (bigEndian_bound g 0 ltac:(lia)) as Bd.
  pose proof (bigEndian_ge g 0 ltac:(lia)) as Bg.
  assert (Hp : 2 ^ (8 * Z.of_nat (length g)) <= 2 ^ 24)
    by (apply Z.pow_le_mono_r; lia).
  unfold Rfc4648.EncodeGroup, Radix64.groupOf.
  rewrite collectBytes_bigEndian by lia.
  destruct g as [|a [|b [|c [|d g]]]]; cbn [length] in *; try lia;
    cbn [Z.of_nat Pos.of_succ_nat Pos.succ Z.add Radix64.padGroup bind
         Nat.sub Z.mul];
    rewrite ?Z.mul_1_r; rewrite ?bitsetShl_small by (powers; lia).
  - apply (EmitSymbols_group 24 6 encodeSymbol decodeSymbol ltac:(lia)
             alphabet 4 2). lia.
  - apply (EmitSymbols_group 24 6 encodeSymbol decodeSymbol ltac:(lia)
             alphabet 4 3). lia.
  - apply (EmitSymbols_group 24 6 encodeSymbol decodeSymbol ltac:(lia)
             alphabet 4 4). lia.
Qed.

Lemma Radix64_groupOf_length (g : list byte) (withPadding_ : bool) :
  (0 < length g <= 3)%nat ->
  length (groupOf g withPadding_)
  = if withPadding_ then 4%nat else ((8 * length g + 5) / 6)%nat.
Proof.
  intro Hlen. unfold Radix64.groupOf.
  rewrite length_app, groupSymbolsOf_length.
  destruct g as [|a [|b [|c [|d g]]]]; cbn [length] in *; try lia;
    destruct withPadding_; reflexivity.
Qed.

(** The decoders' inner loop and the statements after it give back the
    bytes of the group. *)
Lemma Radix64_decode_group (g : list byte) (withPadding_ : bool) :
  (0 < length g <= 3)%nat ->
  (let* (b, p, n) := scan (groupOf g withPadding_) 0 0 0 in
   let* (b, p) := Radix64.tailGroup (fun e => e) b p n in
   Radix64.decodedBytes (fun e => e) b p)
  = Returned g.
Proof.
  intro Hlen. unfold Radix64.groupOf.
  pose proof (bigEndian_bound g 0 ltac:(lia)) as Bd.
  pose proof (bigEndian_ge g 0 ltac:(lia)) as Bg.
  replace (if withPadding_
           then repeat "=" (4 - (8 * length g + 5) / 6) else [])
    with (repeat "="
            (if withPadding_ then 4 - (8 * length g + 5) / 6 else 0)%nat)
    by (destruct withPadding_; reflexivity).
  destruct g as [|a [|b [|c [|d g]]]]; cbn [length] in *; try lia;
    (rewrite (scan_group 24 6 encodeSymbol decodeSymbol ltac:(lia)
                ltac:(lia) alphabet pad_symbol);
     [|destruct withPadding_; cbn; lia
      |split; [lia|]; revert Bd; powers; cbn [Nat.sub Z.of_nat]; lia]);
    destruct withPadding_; closed_numbers;
    cbn [bind Radix64.tailGroup Radix64.decodedBytes];
    apply f_equal;
    repeat (apply (f_equal2 (@cons byte)); [group_bytes|]);
    reflexivity.
Qed.

Lemma Radix64_groupOf_full (g : list byte) (withPadding_ : bool) :
  length g = 3%nat ->
  length (groupOf g withPadding_) = 4%nat
  /\ Forall (fun c => Rfc4648.isSymbol decodeSymbol c = true)
       (groupOf g withPadding_).
Proof.
  intro Hlen. split.
  - rewrite Radix64_groupOf_length by lia. rewrite Hlen.
    destruct withPadding_; reflexivity.
  - unfold Radix64.groupOf. rewrite Hlen. apply Forall_app. split.
    + apply (groupSymbolsOf_symbols 24 6 encodeSymbol decodeSymbol
               ltac:(lia) alphabet).
    + destruct withPadding_; constructor.
Qed.

Lemma Radix64_encode_decode (s : list byte) (withPadding_ : bool) :
  Radix64.EncodeStringToString encodeSymbol s withPadding_
  = Returned (Rfc4648.encodingOf 3 groupOf s withPadding_)
  /\ Radix64.DecodeStringToString decodeSymbol
       (Rfc4648.encodingOf 3 groupOf s withPadding_)
     = Returned s.
Proof.
  apply (encode_decode 24 6 3 4 encodeSymbol decodeSymbol Radix64.padGroup
           (Radix64.tailGroup (fun e => e))
           (Radix64.decodedBytes (fun e => e)) groupOf).
  - lia.
  - lia.
  - cbn. lia.
  - apply Radix64_tail_full.
  - apply Radix64_bytes_full.
  - intros g w acc H. apply Radix64_EncodeGroup, H.
  - intros g w H. split.
    + rewrite Radix64_groupOf_length by exact H.
      destruct g as [|a [|b [|c [|d g]]]]; cbn [length] in *; try lia;
        destruct w; cbn; lia.
    + apply Radix64_decode_group, H.
  - apply Radix64_groupOf_full.
Qed.

End Radix64RoundTrip.

Section Radix32RoundTrip.

Variable encodeSymbol : Z -> Outcome Rfc4648.ErrorType byte.
Variable decodeSymbol : byte -> Rfc4648.Symbol.

Hypothesis alphabet :
  forall v, 0 <= v < 2 ^ 5 ->
    exists c, encodeSymbol v = Returned c /\ decodeSymbol c = Rfc4648.Digit v.
Hypothesis pad_symbol : decodeSymbol "=" = Rfc4648.Pad.

Local Abbreviation groupOf := (Radix32.groupOf encodeSymbol).
Local Abbreviation encodeGroup :=
  (Rfc4648.EncodeGroup 40 5 8 encodeSymbol Radix32.padGroup).
Local Abbreviation scan :=
  (Rfc4648.scanSymbols (fun e : Rfc4648.ErrorType => e) 40 5 decodeSymbol).

(** One turn of the encoders' outer loop writes the characters of the
    group. *)
Lemma Radix32_EncodeGroup (g : list byte) (withPadding_ : bool)
    (acc : list byte) :
  (0 < length g <= 5)%nat ->
  encodeGroup g withPadding_ acc = Returned (acc ++ groupOf g withPadding_).
Proof.
  intro Hlen.
  pose proof (bigEndian_bound g 0 ltac:(lia)) as Bd.
  pose proof (bigEndian_ge g 0 ltac:(lia)) as Bg.
  assert (Hp : 2 ^ (8 * Z.of_nat (length g)) <= 2 ^ 40)
    by (apply Z.pow_le_mono_r; lia).
  unfold Rfc4648.EncodeGroup, Radix32.groupOf.
  rewrite collectBytes_bigEndian by lia.
  destruct g as [|a [|b [|c [|d [|e [|f g]]]]]]; cbn [length] in *; try lia;
    cbn [Z.of_nat Pos.of_succ_nat Pos.succ Z.add Radix32.padGroup bind
         Nat.sub Z.mul];
    rewrite ?Z.mul_1_r; rewrite ?bitsetShl_small by (powers; lia).
  - apply (EmitSymbols_group 40 5 encodeSymbol decodeSymbol ltac:(lia)
             alphabet 8 2). lia.
  - apply (EmitSymbols_group 40 5 encodeSymbol decodeSymbol ltac:(lia)
             alphabet 8 4). lia.
  - apply (EmitSymbols_group 40 5 encodeSymbol decodeSymbol ltac:(lia)
             alphabet 8 5). lia.
  - apply (EmitSymbols_group 40 5 encodeSymbol decodeSymbol ltac:(lia)
             alphabet 8 7). lia.
  - apply (EmitSymbols_group 40 5 encodeSymbol decodeSymbol ltac:(lia)
             alphabet 8 8). lia.
Qed.

Lemma Radix32_groupOf_length (g : list byte) (withPadding_ : bool) :
  (0 < length g <= 5)%nat ->
  length (groupOf g withPadding_)
  = if withPadding_ then 8%nat else ((8 * length g + 4) / 5)%nat.
Proof.
  intro Hlen. unfold Radix32.groupOf.
  rewrite length_app, groupSymbolsOf_length.
  destruct g as [|a [|b [|c [|d [|e [|f g]]]]]]; cbn [length] in *; try lia;
    destruct withPadding_; reflexivity.
Qed.

(** The decoders' inner loop and the statements after it give back the
    bytes of the group. *)
Lemma Radix32_decode_group (g : list byte) (withPadding_ : bool) :
  (0 < length g <= 5)%nat ->
  (let* (b, p, n) := scan (groupOf g withPadding_) 0 0 0 in
   let* (b, p) := Radix32.tailGroup (fun e => e) b p n in
   Radix32.decodedBytes (fun e => e) b p)
  = Returned g.
Proof.
  intro Hlen. unfold Radix32.groupOf.
  pose proof (bigEndian_bound g 0 ltac:(lia)) as Bd.
  pose proof (bigEndian_ge g 0 ltac:(lia)) as Bg.
  replace (if withPadding_
           then repeat "=" (8 - (8 * length g + 4) / 5) else [])
    with (repeat "="
            (if withPadding_ then 8 - (8 * length g + 4) / 5 else 0)%nat)
    by (destruct withPadding_; reflexivity).
  destruct g as [|a [|b [|c [|d [|e [|f g]]]]]]; cbn [length] in *; try lia;
    (rewrite (scan_group 40 5 encodeSymbol decodeSymbol ltac:(lia)
                ltac:(lia) alphabet pad_symbol);
     [|destruct withPadding_; cbn; lia
      |split; [lia|]; revert Bd; powers; cbn [Nat.sub Z.of_nat]; lia]);
    destruct withPadding_; closed_numbers;
    cbn [bind Radix32.tailGroup Radix32.decodedBytes];
    apply f_equal;
    repeat (apply (f_equal2 (@cons byte)); [group_bytes|]);
    reflexivity.
Qed.

Lemma Radix32_groupOf_full (g : list byte) (withPadding_ : bool) :
  length g = 5%nat ->
  length (groupOf g withPadding_) = 8%nat
  /\ Forall (fun c => Rfc4648.isSymbol decodeSymbol c = true)
       (groupOf g withPadding_).
Proof.
  intro Hlen. split.
  - rewrite Radix32_groupOf_length by lia. rewrite Hlen.
    destruct withPadding_; reflexivity.
  - unfold Radix32.groupOf. rewrite Hlen. apply Forall_app. split.
    + apply (groupSymbolsOf_symbols 40 5 encodeSymbol decodeSymbol
               ltac:(lia) alphabet).
    + destruct withPadding_; constructor.
Qed.

Lemma Radix32_encode_decode (s : list byte) (withPadding_ : bool) :
  Radix32.EncodeStringToString encodeSymbol s withPadding_
  = Returned (Rfc4648.encodingOf 5 groupOf s withPadding_)
  /\ Radix32.DecodeStringToString decodeSymbol
       (Rfc4648.encodingOf 5 groupOf s withPadding_)
     = Returned s.
Proof.
  apply (encode_decode 40 5 5 8 encodeSymbol decodeSymbol Radix32.padGroup
           (Radix32.tailGroup (fun e => e))
           (Radix32.decodedBytes (fun e => e)) groupOf).
  - lia.
  - lia.
  - cbn. lia.
  - apply Radix32_tail_full.
  - apply Radix32_bytes_full.
  - intros g w acc H. apply Radix32_EncodeGroup, H.
  - intros g w H. split.
    + rewrite Radix32_groupOf_length by exact H.
      destruct g as [|a [|b [|c [|d [|e [|f g]]]]]]; cbn [length] in *; try lia;
        destruct w; cbn; lia.
    + apply Radix32_decode_group, H.
  - apply Radix32_groupOf_full.
Qed.

End Radix32RoundTrip.

Section Radix64Length.

Variable encodeSymbol : Z -> Outcome Rfc4648.ErrorType byte.
Variable decodeSymbol : byte -> Rfc4648.Symbol.

Hypothesis alphabet :
  forall v, 0 <= v < 2 ^ 6 ->
    exists c, encodeSymbol v = Returned c /\ decodeSymbol c = Rfc4648.Digit v.
Hypothesis pad_symbol : decodeSymbol "=" = Rfc4648.Pad.

Local Abbreviation groupOf := (Radix64.groupOf encodeSymbol).

Lemma Radix64_encodingOf_length (s : list byte) (withPadding_ : bool) :
  length (Rfc4648.encodingOf 3 groupOf s withPadding_)
  = (if withPadding_ then 4 * ((length s + 2) / 3)
     else (8 * length s + 5) / 6)%nat
  /\ (length (Rfc4648.encodingOf 3 groupOf s withPadding_)
      <= (length s / 3 + 1) * 4)%nat.
Proof.
  destruct (encodingOf_length 24 6 3 4 decodeSymbol
              (Radix64.tailGroup (fun e => e))
              (Radix64.decodedBytes (fun e => e)) groupOf
              ltac:(lia) ltac:(lia) ltac:(cbn; lia) Radix64_tail_full)
    with (s := s) (withPadding_ := withPadding_) as [H Hle].
  - intros g w Hg. split.
    + rewrite (Radix64_groupOf_length encodeSymbol) by exact Hg.
      destruct g as [|a [|b [|c [|d g]]]]; cbn [length] in *; try lia;
        destruct w; cbn; lia.
    + apply (Radix64_decode_group encodeSymbol decodeSymbol alphabet
               pad_symbol), Hg.
  - apply (Radix64_groupOf_full encodeSymbol decodeSymbol alphabet).
  - split; [|exact Hle]. rewrite H. clear H Hle.
    set (k := (length s / 3)%nat).
    assert (Hdiv : (length s = length (skipn (k * 3) s) + k * 3)%nat
                   /\ (length (skipn (k * 3) s) < 3)%nat).
    { rewrite length_skipn. unfold k.
      pose proof (Nat.div_mod_eq (length s) 3) as D.
      pose proof (Nat.mod_upper_bound (length s) 3 ltac:(lia)) as M. lia. }
    destruct Hdiv as [Hn Hr].
    destruct (skipn (k * 3) s) as [|a [|b [|c g]]] eqn:Eg;
      cbn [length] in Hr, Hn; try lia;
      rewrite ?(Radix64_groupOf_length encodeSymbol) by (cbn [length]; lia);
      cbn [length]; rewrite Hn; destruct withPadding_;
      try change ((8 * 1 + 5) / 6)%nat with 2%nat;
      try change ((8 * 2 + 5) / 6)%nat with 3%nat.
  all: clearbody k; clear Eg Hn.
  all: repeat match goal with
         | |- context [((?r + ?k * ?c + ?d) / ?c)%nat] =>
             replace (r + k * c + d)%nat with ((r + d) + k * c)%nat by lia;
             rewrite (Nat.div_add (r + d) k c) by lia
         | |- context [((8 * (?r + ?k * ?c) + ?d) / ?e)%nat] =>
             replace (8 * (r + k * c) + d)%nat
               with ((8 * r + d) + (k * 4) * e)%nat by lia;
             rewrite (Nat.div_add (8 * r + d) (k * 4) e) by lia
         end.
  all: match goal with
       | |- context [(?a / ?c)%nat] =>
           let v := eval vm_compute in (a / c)%nat in
           change (a / c)%nat with v
       end; lia.
Qed.

End Radix64Length.

Section Radix32Length.

Variable encodeSymbol : Z -> Outcome Rfc4648.ErrorType byte.
Variable decodeSymbol : byte -> Rfc4648.Symbol.

Hypothesis alphabet :
  forall v, 0 <= v < 2 ^ 5 ->
    exists c, encodeSymbol v = Returned c /\ decodeSymbol c = Rfc4648.Digit v.
Hypothesis pad_symbol : decodeSymbol "=" = Rfc4648.Pad.

Local Abbreviation groupOf := (Radix32.groupOf encodeSymbol).

Lemma Radix32_encodingOf_length (s : list byte) (withPadding_ : bool) :
  length (Rfc4648.encodingOf 5 groupOf s withPadding_)
  = (if withPadding_ then 8 * ((length s + 4) / 5)
     else (8 * length s + 4) / 5)%nat
  /\ (length (Rfc4648.encodingOf 5 groupOf s withPadding_)
      <= (length s / 5 + 1) * 8)%nat.
Proof.
  destruct (encodingOf_length 40 5 5 8 decodeSymbol
              (Radix32.tailGroup (fun e => e))
              (Radix32.decodedBytes (fun e => e)) groupOf
              ltac:(lia) ltac:(lia) ltac:(cbn; lia) Radix32_tail_full)
    with (s := s) (withPadding_ := withPadding_) as [H Hle].
  - intros g w Hg. split.
    + rewrite (Radix32_groupOf_length encodeSymbol) by exact Hg.
      destruct g as [|a [|b [|c [|d [|e [|f g]]]]]]; cbn [length] in *; try lia;
        destruct w; cbn; lia.
    + apply (Radix32_decode_group encodeSymbol decodeSymbol alphabet
               pad_symbol), Hg.
  - apply (Radix32_groupOf_full encodeSymbol decodeSymbol alphabet).
  - split; [|exact Hle]. rewrite H. clear H Hle.
    set (k := (length s / 5)%nat).
    assert (Hdiv : (length s = length (skipn (k * 5) s) + k * 5)%nat
                   /\ (length (skipn (k * 5) s) < 5)%nat).
    { rewrite length_skipn. unfold k.
      pose proof (Nat.div_mod_eq (length s) 5) as D.
      pose proof (Nat.mod_upper_bound (length s) 5 ltac:(lia)) as M. lia. }
    destruct Hdiv as [Hn Hr].
    destruct (skipn (k * 5) s) as [|a [|b [|c [|d [|e g]]]]] eqn:Eg;
      cbn [length] in Hr, Hn; try lia;
      rewrite ?(Radix32_groupOf_length encodeSymbol) by (cbn [length]; lia);
      cbn [length]; rewrite Hn; destruct withPadding_;
      try change ((8 * 1 + 4) / 5)%nat with 2%nat;
      try change ((8 * 2 + 4) / 5)%nat with 4%nat;
      try change ((8 * 3 + 4) / 5)%nat with 5%nat;
      try change ((8 * 4 + 4) / 5)%nat with 7%nat.
  all: clearbody k; clear Eg Hn.
  all: repeat match goal with
         | |- context [((?r + ?k * ?c + ?d) / ?c)%nat] =>
             replace (r + k * c + d)%nat with ((r + d) + k * c)%nat by lia;
             rewrite (Nat.div_add (r + d) k c) by lia
         | |- context [((8 * (?r + ?k * ?c) + ?d) / ?e)%nat] =>
             replace (8 * (r + k * c) + d)%nat
               with ((8 * r + d) + (k * 8) * e)%nat by lia;
             rewrite (Nat.div_add (8 * r + d) (k * 8) e) by lia
         end.
  all: match goal with
       | |- context [(?a / ?c)%nat] =>
           let v := eval vm_compute in (a / c)%nat in
           change (a / c)%nat with v
       end; lia.
Qed.

End Radix32Length.

(** The encoders' and the decoders' tables are inverse to each other on
    the values of a symbol; checked value by value. *)
Lemma alphabet_checked
    (encodeSymbol : Z -> Outcome Rfc4648.ErrorType byte)
    (decodeSymbol : byte -> Rfc4648.Symbol) (n : nat) :
  forallb
    (fun i =>
       match encodeSymbol (Z.of_nat i) with
       | Returned c =>
           match decodeSymbol c with
           | Rfc4648.Digit v => v =? Z.of_nat i
           | _ => false
           end
       | _ => false
       end) (seq 0 n) = true ->
  forall v, 0 <= v < Z.of_nat n ->
    exists c, encodeSymbol v = Returned c /\ decodeSymbol c = Rfc4648.Digit v.
Proof.
  intros H v Hv. rewrite forallb_forall in H.
  specialize (H (Z.to_nat v) ltac:(apply in_seq; lia)).
  rewrite Z2Nat.id in H by lia.
  destruct (encodeSymbol v) as [c| | |]; try discriminate H.
  exists c. split; [reflexivity|].
  destruct (decodeSymbol c) as [w| |]; try discriminate H.
  apply Z.eqb_eq in H. congruence.
Qed.

Lemma Base64_alphabet (v : Z) :
  0 <= v < 2 ^ 6 ->
  exists c, @Base64.encodeSymbol Rfc4648.ErrorType v = Returned c
            /\ Base64.decodeSymbol c = Rfc4648.Digit v.
Proof.
  apply (alphabet_checked Base64.encodeSymbol Base64.decodeSymbol 64).
  vm_compute. reflexivity.
Qed.

Lemma Base64Url_alphabet (v : Z) :
  0 <= v < 2 ^ 6 ->
  exists c, @Base64Url.encodeSymbol Rfc4648.ErrorType v = Returned c
            /\ Base64Url.decodeSymbol c = Rfc4648.Digit v.
Proof.
  apply (alphabet_checked Base64Url.encodeSymbol Base64Url.decodeSymbol 64).
  vm_compute. reflexivity.
Qed.

Lemma Base32_alphabet (v : Z) :
  0 <= v < 2 ^ 5 ->
  exists c, @Base32.encodeSymbol Rfc4648.ErrorType v = Returned c
            /\ Base32.decodeSymbol c = Rfc4648.Digit v.
Proof.
  apply (alphabet_checked Base32.encodeSymbol Base32.decodeSymbol 32).
  vm_compute. reflexivity.
Qed.

Lemma Base32Hex_alphabet (v : Z) :
  0 <= v < 2 ^ 5 ->
  exists c, @Base32Hex.encodeSymbol Rfc4648.ErrorType v = Returned c
            /\ Base32Hex.decodeSymbol c = Rfc4648.Digit v.
Proof.
  apply (alphabet_checked Base32Hex.encodeSymbol Base32Hex.decodeSymbol 32).
  vm_compute. reflexivity.
Qed.

(** Base64 and Base64Url round trip on strings: with or without padding,
    the encoders return the encoding described by [Radix64.groupOf], and
    the decoders give back the original bytes from it. *)
Theorem Base64_round_trip_string (string_ : list byte) (withPadding_ : bool) :
  (exists encoded,
      Base64.EncodeStringToString string_ withPadding_ = Returned encoded
      /\ encoded = Rfc4648.encodingOf 3 (Radix64.groupOf Base64.encodeSymbol)
                     string_ withPadding_
      /\ Base64.DecodeStringToString encoded = Returned string_)
  /\ (exists encoded,
         Base64Url.EncodeStringToString string_ withPadding_
         = Returned encoded
         /\ encoded = Rfc4648.encodingOf 3
                        (Radix64.groupOf Base64Url.encodeSymbol)
                        string_ withPadding_
         /\ Base64Url.DecodeStringToString encoded = Returned string_).
Proof.
  split.
  - destruct (Radix64_encode_decode Base64.encodeSymbol Base64.decodeSymbol
                Base64_alphabet eq_refl string_ withPadding_) as [E D].
    eexists. split; [exact E|]. split; [reflexivity|exact D].
  - destruct (Radix64_encode_decode Base64Url.encodeSymbol
                Base64Url.decodeSymbol Base64Url_alphabet eq_refl string_
                withPadding_) as [E D].
    eexists. split; [exact E|]. split; [reflexivity|exact D].
Qed.

(** Base32 and Base32Hex round trip on strings, in the same way; the
    decoders accept the unpadded encoding as well as the padded one. *)
Theorem Base32_round_trip_string (string_ : list byte) (withPadding_ : bool) :
  (exists encoded,
      Base32.EncodeStringToString string_ withPadding_ = Returned encoded
      /\ encoded = Rfc4648.encodingOf 5 (Radix32.groupOf Base32.encodeSymbol)
                     string_ withPadding_
      /\ Base32.DecodeStringToString encoded = Returned string_)
  /\ (exists encoded,
         Base32Hex.EncodeStringToString string_ withPadding_
         = Returned encoded
         /\ encoded = Rfc4648.encodingOf 5
                        (Radix32.groupOf Base32Hex.encodeSymbol)
                        string_ withPadding_
         /\ Base32Hex.DecodeStringToString encoded = Returned string_).
Proof.
  split.
  - destruct (Radix32_encode_decode Base32.encodeSymbol Base32.decodeSymbol
                Base32_alphabet eq_refl string_ withPadding_) as [E D].
    eexists. split; [exact E|]. split; [reflexivity|exact D].
  - destruct (Radix32_encode_decode Base32Hex.encodeSymbol
                Base32Hex.decodeSymbol Base32Hex_alphabet eq_refl string_
                withPadding_) as [E D].
    eexists. split; [exact E|]. split; [reflexivity|exact D].
Qed.

(** The length of the Base64 and Base64Url encodings: four characters
    for every three bytes, the last group filled up with pad characters,
    when padding is asked for; else one character for every six bits,
    rounded up. *)
Theorem Base64_encoded_length (string_ : list byte) (withPadding_ : bool) :
  let n := (if withPadding_ then 4 * ((length string_ + 2) / 3)
            else (8 * length string_ + 5) / 6)%nat in
  (exists encoded,
      Base64.EncodeStringToString string_ withPadding_ = Returned encoded
      /\ length encoded = n)
  /\ (exists encoded,
         Base64Url.EncodeStringToString string_ withPadding_
         = Returned encoded
         /\ length encoded = n).
Proof.
  cbv zeta. split.
  - destruct (Radix64_encode_decode Base64.encodeSymbol Base64.decodeSymbol
                Base64_alphabet eq_refl string_ withPadding_) as [E _].
    eexists. split; [exact E|].
    apply (Radix64_encodingOf_length Base64.encodeSymbol Base64.decodeSymbol
             Base64_alphabet eq_refl).
  - destruct (Radix64_encode_decode Base64Url.encodeSymbol
                Base64Url.decodeSymbol Base64Url_alphabet eq_refl string_
                withPadding_) as [E _].
    eexists. split; [exact E|].
    apply (Radix64_encodingOf_length Base64Url.encodeSymbol
             Base64Url.decodeSymbol Base64Url_alphabet eq_refl).
Qed.

(** The length of the Base32 and Base32Hex encodings: eight characters
    for every five bytes, the last group filled up with pad characters,
    when padding is asked for; else one character for every five bits,
    rounded up. *)
Theorem Base32_encoded_length (string_ : list byte) (withPadding_ : bool) :
  let n := (if withPadding_ then 8 * ((length string_ + 4) / 5)
            else (8 * length string_ + 4) / 5)%nat in
  (exists encoded,
      Base32.EncodeStringToString string_ withPadding_ = Returned encoded
      /\ length encoded = n)
  /\ (exists encoded,
         Base32Hex.EncodeStringToString string_ withPadding_
         = Returned encoded
         /\ length encoded = n).
Proof.
  cbv zeta. split.
  - destruct (Radix32_encode_decode Base32.encodeSymbol Base32.decodeSymbol
                Base32_alphabet eq_refl string_ withPadding_) as [E _].
    eexists. split; [exact E|].
    apply (Radix32_encodingOf_length Base32.encodeSymbol Base32.decodeSymbol
             Base32_alphabet eq_refl).
  - destruct (Radix32_encode_decode Base32Hex.encodeSymbol
                Base32Hex.decodeSymbol Base32Hex_alphabet eq_refl string_
                withPadding_) as [E _].
    eexists. split; [exact E|].
    apply (Radix32_encodingOf_length Base32Hex.encodeSymbol
             Base32Hex.decodeSymbol Base32Hex_alphabet eq_refl).
Qed.

Section RadixBytes.

Variable encodeSymbol : Z -> Outcome Rfc4648.ErrorType byte.
Variable decodeSymbol : byte -> Rfc4648.Symbol.
Hypothesis pad_symbol : decodeSymbol "=" = Rfc4648.Pad.

Lemma Radix64_round_trip_bytes (b : ByteBuffer.ByteBuffer)
    (withPadding_ : bool) (h : ByteBuffer.Heap) :
  (forall v, 0 <= v < 2 ^ 6 ->
     exists c, encodeSymbol v = Returned c
               /\ decodeSymbol c = Rfc4648.Digit v) ->
  ByteBuffer.wellFormed b ->
  4 * ByteBuffer._size b + 12 <= ByteBuffer.GetMaximumSize ->
  ByteBuffer.unfailing h ->
  exists encoded,
    Radix64.EncodeByteBufferToString encodeSymbol b withPadding_
    = Returned encoded
    /\ Radix64.DecodeStringToByteBuffer decodeSymbol encoded h = Returned b.
Proof.
  intros alphabet Hw Hmax Hh.
  destruct (wellFormed_size b Hw) as [Sz _].
  destruct (Radix64_encode_decode encodeSymbol decodeSymbol alphabet
              pad_symbol (ByteBuffer.contents b) withPadding_) as [E D].
  destruct (Radix64_encodingOf_length encodeSymbol decodeSymbol alphabet
              pad_symbol (ByteBuffer.contents b) withPadding_) as [_ L].
  eexists. split; [exact E|].
  rewrite Radix64_DecodeStringToByteBuffer_staged.
  - rewrite D. cbn [ByteBuffer.toByteBuffer].
    rewrite <- wellFormed_ofList by assumption. reflexivity.
  - pose proof (Nat.Div0.mul_div_le (length (ByteBuffer.contents b)) 3).
    lia.
  - assumption.
Qed.

Lemma Radix32_round_trip_bytes (b : ByteBuffer.ByteBuffer)
    (withPadding_ : bool) (h : ByteBuffer.Heap) :
  (forall v, 0 <= v < 2 ^ 5 ->
     exists c, encodeSymbol v = Returned c
               /\ decodeSymbol c = Rfc4648.Digit v) ->
  ByteBuffer.wellFormed b ->
  8 * ByteBuffer._size b + 40 <= ByteBuffer.GetMaximumSize ->
  ByteBuffer.unfailing h ->
  exists encoded,
    Radix32.EncodeByteBufferToString encodeSymbol b withPadding_
    = Returned encoded
    /\ Radix32.DecodeStringToByteBuffer decodeSymbol encoded h = Returned b.
Proof.
  intros alphabet Hw Hmax Hh.
  destruct (wellFormed_size b Hw) as [Sz _].
  destruct (Radix32_encode_decode encodeSymbol decodeSymbol alphabet
              pad_symbol (ByteBuffer.contents b) withPadding_) as [E D].
  destruct (Radix32_encodingOf_length encodeSymbol decodeSymbol alphabet
              pad_symbol (ByteBuffer.contents b) withPadding_) as [_ L].
  eexists. split; [exact E|].
  rewrite Radix32_DecodeStringToByteBuffer_staged.
  - rewrite D. cbn [ByteBuffer.toByteBuffer].
    rewrite <- wellFormed_ofList by assumption. reflexivity.
  - pose proof (Nat.Div0.mul_div_le (length (ByteBuffer.contents b)) 5).
    lia.
  - assumption.
Qed.

End RadixBytes.

(** Base64 and Base64Url round trip on buffers: the encoding of a buffer,
    padded or not, decodes to the same buffer, when no allocation fails
    and the buffer is short enough for the staging of its encoding. *)
Theorem Base64_round_trip_bytes
    (byteBuffer_ : ByteBuffer.ByteBuffer) (withPadding_ : bool)
    (h : ByteBuffer.Heap) :
  ByteBuffer.wellFormed byteBuffer_ ->
  4 * ByteBuffer._size byteBuffer_ + 12 <= ByteBuffer.GetMaximumSize ->
  ByteBuffer.unfailing h ->
  (exists encoded,
      Base64.EncodeByteBufferToString byteBuffer_ withPadding_
      = Returned encoded
      /\ Base64.DecodeStringToByteBuffer encoded h = Returned byteBuffer_)
  /\ (exists encoded,
         Base64Url.EncodeByteBufferToString byteBuffer_ withPadding_
         = Returned encoded
         /\ Base64Url.DecodeStringToByteBuffer encoded h
            = Returned byteBuffer_).
Proof.
  intros Hw Hmax Hh. split.
  - apply (Radix64_round_trip_bytes Base64.encodeSymbol Base64.decodeSymbol
             eq_refl byteBuffer_ withPadding_ h Base64_alphabet);
      assumption.
  - apply (Radix64_round_trip_bytes Base64Url.encodeSymbol
             Base64Url.decodeSymbol eq_refl byteBuffer_ withPadding_ h
             Base64Url_alphabet); assumption.
Qed.

Lemma Base64_round_trip_bytes_witness :
  exists encoded,
    Base64.EncodeByteBufferToString oneByte true = Returned encoded
    /\ Base64.DecodeStringToByteBuffer encoded [] = Returned oneByte.
Proof.
  apply (Base64_round_trip_bytes oneByte true []).
  - unfold ByteBuffer.wellFormed, ByteBuffer.GetMaximumSize; cbn; lia.
  - unfold ByteBuffer.GetMaximumSize; cbn; lia.
  - constructor.
Defined.

(** Base32 and Base32Hex round trip on buffers, in the same way. *)
Theorem Base32_round_trip_bytes
    (byteBuffer_ : ByteBuffer.ByteBuffer) (withPadding_ : bool)
    (h : ByteBuffer.Heap) :
  ByteBuffer.wellFormed byteBuffer_ ->
  8 * ByteBuffer._size byteBuffer_ + 40 <= ByteBuffer.GetMaximumSize ->
  ByteBuffer.unfailing h ->
  (exists encoded,
      Base32.EncodeByteBufferToString byteBuffer_ withPadding_
      = Returned encoded
      /\ Base32.DecodeStringToByteBuffer encoded h = Returned byteBuffer_)
  /\ (exists encoded,
         Base32Hex.EncodeByteBufferToString byteBuffer_ withPadding_
         = Returned encoded
         /\ Base32Hex.DecodeStringToByteBuffer encoded h
            = Returned byteBuffer_).
Proof.
  intros Hw Hmax Hh. split.
  - apply (Radix32_round_trip_bytes Base32.encodeSymbol Base32.decodeSymbol
             eq_refl byteBuffer_ withPadding_ h Base32_alphabet);
      assumption.
  - apply (Radix32_round_trip_bytes Base32Hex.encodeSymbol
             Base32Hex.decodeSymbol eq_refl byteBuffer_ withPadding_ h
             Base32Hex_alphabet); assumption.
Qed.

Lemma Base32_round_trip_bytes_witness :
  exists encoded,
    Base32.EncodeByteBufferToString oneByte false = Returned encoded
    /\ Base32.DecodeStringToByteBuffer encoded [] = Returned oneByte.
Proof.
  apply (Base32_round_trip_bytes oneByte false []).
  - unfold ByteBuffer.wellFormed, ByteBuffer.GetMaximumSize; cbn; lia.
  - unfold ByteBuffer.GetMaximumSize; cbn; lia.
  - constructor.
Defined.

(** ** Ascii85: what the encoders write, and what the decoders make of it *)

Section Ascii85Groups.

Import Ascii85.

Lemma groups_grouped (k : nat) :
  forall s, (length s <= k)%nat ->
    grouped (groups k s) /\ concat (groups k s) = s
    /\ (length (groups k s) <= length s)%nat.
Proof.
  induction k as [|k IH]; intros s Hk.
  - destruct s; [cbn; auto|cbn in Hk; lia].
  - destruct s as [|a s]; [cbn; auto|].
    cbn [groups].
    set (t := a :: s) in *.
    assert (Lt : (1 <= length t)%nat) by (unfold t; cbn; lia).
    destruct (IH (skipn 4 t)) as (G & C & L);
      [rewrite length_skipn; lia|].
    rewrite length_skipn in L.
    split; [|split].
    + cbn [grouped].
      destruct (groups k (skipn 4 t)) as [|g' rest] eqn:Eg.
      * rewrite length_firstn; lia.
      * split; [|exact G].
        assert (Hs : skipn 4 t <> []).
        { intro Hn. rewrite Hn in Eg. destruct k; discriminate Eg. }
        rewrite length_firstn.
        destruct (Nat.le_gt_cases (length t) 4) as [Hle|Hgt]; [|lia].
        exfalso; apply Hs, skipn_all2; exact Hle.
    + cbn [concat]. rewrite C. apply firstn_skipn.
    + cbn [length]. lia.
Qed.

Lemma zero_byte (a : byte) : Byte.eqb x00 a = (byteToZ a =? 0).
Proof. destruct a; reflexivity. Qed.

Lemma groupValue_zero (g : list byte) :
  (length g <= 4)%nat -> (groupValue g =? 0) = zeroGroup g.
Proof.
  intro H.
  destruct g as [|a [|b [|c [|d [|e g]]]]]; [| | | | |cbn in H; lia];
    unfold groupValue, zeroGroup, Rfc4648.bigEndian;
    cbn [fold_left forallb length]; rewrite ?zero_byte;
    repeat match goal with
           | |- context [byteToZ ?x] =>
               let R := fresh "R" in
               pose proof (byteToZ_range x) as R;
               generalize dependent (byteToZ x); intros
           end;
    match goal with
    | |- context [2 ^ ?e] =>
        let v := eval vm_compute in (2 ^ e) in change (2 ^ e) with v
    end;
    repeat match goal with
           | |- context [?x =? 0] => destruct (Z.eqb_spec x 0)
           end; cbn [andb]; try reflexivity; lia.
Qed.

Lemma groupValue_range (g : list byte) :
  (length g <= 4)%nat -> 0 <= groupValue g < 2 ^ 32.
Proof.
  intro H.
  destruct g as [|a [|b [|c [|d [|e g]]]]]; [| | | | |cbn in H; lia];
    unfold groupValue, Rfc4648.bigEndian;
    cbn [fold_left length];
    repeat match goal with
           | |- context [byteToZ ?x] =>
               let R := fresh "R" in
               pose proof (byteToZ_range x) as R;
               generalize dependent (byteToZ x); intros
           end;
    match goal with
    | |- context [2 ^ (8 * ?e)] =>
        let v := eval vm_compute in (2 ^ (8 * e)) in
        change (2 ^ (8 * e)) with v
    end; change (2 ^ 32) with 4294967296; lia.
Qed.

Lemma digitsOf_length (v : Z) : length (digitsOf v) = 5%nat.
Proof. reflexivity. Qed.

(** One turn of the encoders' outer loop writes the characters of the
    group. *)
Lemma Ascii85_EncodeGroup_groupOf (foldSpaces_ : bool) (g acc : list byte) :
  (1 <= length g <= 4)%nat ->
  (let (bitset, counter) := Rfc4648.collectBytes 32 g 0 0 in
   EncodeGroup foldSpaces_ bitset counter acc)
  = Returned (acc ++ groupOf foldSpaces_ g).
Proof.
  intro H.
  pose proof (bigEndian_bound g 0 ltac:(lia)) as B.
  pose proof (bigEndian_ge g 0 ltac:(lia)) as G.
  assert (P : 2 ^ (8 * Z.of_nat (length g)) <= 2 ^ 32)
    by (apply Z.pow_le_mono_r; lia).
  rewrite collectBytes_bigEndian by lia.
  pose proof (groupValue_zero g ltac:(lia)) as Z0.
  pose proof (groupValue_range g ltac:(lia)) as R.
  unfold groupOf. rewrite <- Z0. clear Z0.
  unfold groupValue in *.
  unfold EncodeGroup.
  assert (L : (length g = 1 \/ length g = 2 \/ length g = 3
               \/ length g = 4)%nat) by lia.
  destruct L as [L|[L|[L|L]]]; rewrite L in *;
    match goal with
    | |- context [padGroup _ (0 + Z.of_nat ?n)] =>
        let v := eval vm_compute in (0 + Z.of_nat n) in
        change (0 + Z.of_nat n) with v
    end;
    cbn [padGroup bind];
    match goal with
    | H : context [2 ^ (8 * ?e)] |- _ =>
        let v := eval vm_compute in (8 * e) in
        change (8 * e) with v in *
    end;
    try (rewrite bitsetShl_small by lia);
    rewrite ?Z.pow_0_r, ?Z.mul_1_r in *;
    (destruct (_ =? 0); [reflexivity|]);
    (destruct ((_ =? 0x20202020) && foldSpaces_); [reflexivity|]);
    unfold appendDigits;
    match goal with
    | |- context [radix85 5 ?v] =>
        change (map (fun code => byteOfZ (code + 33)) (rev (radix85 5 v)))
          with (digitsOf v)
    end;
    match goal with
    | |- context [u32 ?e] =>
        let v := eval vm_compute in (u32 e) in change (u32 e) with v
    end;
    match goal with
    | |- context [Z.to_nat ?e] =>
        let v := eval vm_compute in (Z.to_nat e) in
        change (Z.to_nat e) with v
    | _ => idtac
    end;
    cbn [Z.eqb Pos.eqb].
  1-3: rewrite firstn_app, length_app, digitsOf_length;
    rewrite firstn_all2 by lia;
    match goal with
    | |- Returned (_ ++ firstn ?x _) = Returned (_ ++ firstn ?y _) =>
        replace x with y by lia; reflexivity
    end.
  rewrite (firstn_all2 (n := 5)) by (rewrite digitsOf_length; lia).
  reflexivity.
Qed.

Lemma grouped_cons (g : list byte) (rest : list (list byte)) :
  grouped (g :: rest) ->
  (1 <= length g <= 4)%nat /\ grouped rest
  /\ (length g = 4%nat \/ rest = []).
Proof.
  destruct rest as [|g' rest]; cbn [grouped].
  - intro H. split; [lia|]. split; [exact I|]. right; reflexivity.
  - intros [L G]. split; [lia|]. split; [exact G|]. left; exact L.
Qed.

(** The first group of what is left of the input. *)
Lemma grouped_first (g : list byte) (rest : list (list byte))
    (pre : list byte) :
  grouped (g :: rest) ->
  firstn 4 (skipn (length pre) (pre ++ concat (g :: rest))) = g.
Proof.
  intro H. apply grouped_cons in H. destruct H as (L & _ & [L4|Hr]);
    [|subst rest].
  - rewrite skipn_length_app. cbn [concat]. rewrite <- L4.
    apply firstn_length_app.
  - rewrite skipn_length_app. cbn [concat]. rewrite app_nil_r.
    apply firstn_all2. lia.
Qed.

(** One turn of the encoders' outer loop. *)
Lemma Ascii85_EncodeLoop_turn (fuel : nat) (s : list byte)
    (foldSpaces_ : bool) (iter : nat) (acc : list byte) :
  (iter < length s)%nat ->
  EncodeLoop (S fuel) s foldSpaces_ iter acc =
    let* acc' :=
      (let (bitset, counter) :=
         Rfc4648.collectBytes 32 (firstn 4 (skipn iter s)) 0 0 in
       EncodeGroup foldSpaces_ bitset counter acc) in
    EncodeLoop fuel s foldSpaces_
      (iter + length (firstn 4 (skipn iter s)))%nat acc'.
Proof.
  intro Hlt. cbn [EncodeLoop].
  destruct (Nat.eqb_spec iter (length s)) as [Heq|_]; [lia|].
  rewrite CollectGroup_collect by lia.
  replace (iter + 4 - iter)%nat with 4%nat by lia.
  destruct (Rfc4648.collectBytes 32 (firstn 4 (skipn iter s)) 0 0)
    as [b c].
  cbn [bind].
  destruct (EncodeGroup foldSpaces_ b c acc) as [acc'|e| |]; cbn [bind];
    try reflexivity.
  f_equal. rewrite length_firstn, length_skipn. lia.
Qed.

(** The encoders' outer loop writes the characters of every group. *)
Lemma Ascii85_EncodeLoop_groups (foldSpaces_ : bool)
    (gs : list (list byte)) :
  grouped gs ->
  forall (pre acc : list byte) (fuel : nat),
    (length gs < fuel)%nat ->
    EncodeLoop fuel (pre ++ concat gs) foldSpaces_ (length pre) acc
    = Returned (acc ++ flat_map (groupOf foldSpaces_) gs).
Proof.
  induction gs as [|g rest IH]; intros G pre acc fuel Hf;
    (destruct fuel as [|fuel]; [lia|]).
  - cbn [concat flat_map EncodeLoop]. rewrite !app_nil_r.
    rewrite Nat.eqb_refl. reflexivity.
  - pose proof (grouped_first g rest pre G) as F.
    apply grouped_cons in G. destruct G as (L & G & _).
    rewrite Ascii85_EncodeLoop_turn
      by (cbn [concat]; rewrite !length_app; lia).
    rewrite F, Ascii85_EncodeGroup_groupOf by exact L.
    cbn [bind concat flat_map].
    rewrite app_assoc, <- length_app.
    rewrite IH by (try exact G; cbn [length] in Hf; lia).
    rewrite <- app_assoc. reflexivity.
Qed.

End Ascii85Groups.

(** The digits of a 32-bit value in radix 85. *)
Lemma radix85_digits (v : Z) :
  0 <= v < 2 ^ 32 ->
  exists d1 d2 d3 d4 d5,
    Ascii85.radix85 5 v = [d5; d4; d3; d2; d1]
    /\ (0 <= d1 < 85 /\ 0 <= d2 < 85 /\ 0 <= d3 < 85 /\ 0 <= d4 < 85
        /\ 0 <= d5 < 85)
    /\ v = d1 * 52200625 + d2 * 614125 + d3 * 7225 + d4 * 85 + d5.
Proof.
  intro H. change (2 ^ 32) with 4294967296 in H.
  cbn [Ascii85.radix85].
  do 5 eexists. split; [reflexivity|].
  split; [|]; Z.div_mod_to_equations; lia.
Qed.

Lemma digit_char (d : Z) :
  0 <= d < 85 -> byteToZ (byteOfZ (d + 33)) = d + 33.
Proof. intro H. rewrite byteToZ_byteOfZ. apply Z.mod_small. lia. Qed.

Lemma byte_at (t k : Z) (a : byte) :
  0 <= k -> t / 2 ^ k mod 256 = byteToZ a -> byteOfZ (Z.shiftr t k) = a.
Proof.
  intros Hk H. rewrite Z.shiftr_div_pow2 by exact Hk.
  rewrite <- byteOfZ_mod, H. apply byteOfZ_byteToZ.
Qed.

Lemma digitsValue_app (l1 l2 : list byte) (c b : Z) :
  Ascii85.digitsValue (l1 ++ l2) c b
  = Ascii85.digitsValue l2 (c + Z.of_nat (length l1))
      (Ascii85.digitsValue l1 c b).
Proof.
  revert c b; induction l1 as [|x l1 IH]; intros c b.
  - cbn. rewrite Z.add_0_r. reflexivity.
  - cbn [app Ascii85.digitsValue length]. rewrite IH. f_equal. lia.
Qed.

Lemma top_bytes (B delta M m k : Z) :
  M = 2 ^ m -> 0 <= m <= k -> 0 <= delta < M ->
  (B * M + delta) / 2 ^ k mod 256 = B / 2 ^ (k - m) mod 256.
Proof.
  intros -> Hm Hd. f_equal.
  replace k with (m + (k - m)) at 1 by lia.
  rewrite Z.pow_add_r by lia.
  assert (P : 0 < 2 ^ m) by (apply Z.pow_pos_nonneg; lia).
  assert (Q : 0 < 2 ^ (k - m)) by (apply Z.pow_pos_nonneg; lia).
  rewrite <- Z.div_div by lia.
  rewrite Z.div_add_l by lia.
  rewrite (Z.div_small delta) by lia.
  rewrite Z.add_0_r. reflexivity.
Qed.

Section Ascii85Decode.

Import Ascii85.

Context {X St : Type}.
Variable raise : ErrorType -> X.
Variable put : St -> byte -> Outcome X St.
Variable putZeros : St -> Outcome X St.

(** A character that stands for a radix-85 digit. *)
Local Abbreviation digit := (fun ch : byte => 33 <= byteToZ ch <= 117).

Lemma digit_not_blank (ch : byte) : digit ch -> isBlank ch = false.
Proof. destruct ch; cbn; intro H; try reflexivity; lia. Qed.

Lemma skipn_cons_nth (s t : list byte) (i : nat) (ch : byte) :
  skipn i s = ch :: t -> nth i s x00 = ch /\ skipn (S i) s = t.
Proof.
  revert s; induction i as [|i IH]; intros s H.
  - destruct s; [discriminate H|]. cbn in H. injection H as -> ->.
    split; reflexivity.
  - destruct s; [discriminate H|]. cbn [skipn] in H.
    destruct (IH s H) as [N K]. split; [exact N|exact K].
Qed.

(** The inner loop over the digits of a group. *)
Lemma DecodeGroup_digits (s : list byte) (e iter : nat) :
  forall (l post : list byte) (fuel jter : nat) (b c : Z),
    (length l <= fuel)%nat -> l <> [] ->
    skipn jter s = l ++ post ->
    Forall digit l ->
    iter <> e ->
    (jter + length l <= e)%nat -> (jter + length l <= iter + 5)%nat ->
    ((jter + length l)%nat = e \/ (jter + length l)%nat = (iter + 5)%nat) ->
    0 <= c -> c + Z.of_nat (length l) <= 5 ->
    0 <= b <= c * 2 ^ 33 ->
    DecodeGroup raise fuel s e iter jter b c
    = Returned ((jter + length l - 1)%nat, digitsValue l c b,
                c + Z.of_nat (length l)).
Proof.
  induction l as [|ch l IH];
    intros post fuel jter b c Hf Hl Hs Hd Hie He H5 Hend Hc Hc5 Hb;
    [contradiction|].
  destruct fuel as [|fuel]; [cbn in Hf; lia|].
  cbn [length] in *.
  cbn [DecodeGroup].
  destruct (Nat.eqb_spec iter e) as [|_]; [contradiction|].
  cbn [app] in Hs. apply skipn_cons_nth in Hs. destruct Hs as [Hn Hs].
  rewrite Hn.
  inversion Hd as [|? ? Hch Hd']; subst.
  rewrite digit_not_blank by exact Hch.
  destruct (Z.ltb_spec (byteToZ (nth jter s x00)) 33) as [|_]; [lia|].
  destruct (Z.gtb_spec (byteToZ (nth jter s x00)) 117) as [|_]; [lia|].
  cbn [orb].
  change (2 ^ 33) with 8589934592 in *.
  unfold u32. rewrite (Z.mod_small (c + 1)) by (change (2 ^ 32) with 4294967296; lia).
  assert (Hadd : addDigit (E := X) b (byteToZ (nth jter s x00)) (c + 1)
                 = Returned (b + (byteToZ (nth jter s x00) - 33)
                                 * 85 ^ (4 - c))).
  { assert (C : c = 0 \/ c = 1 \/ c = 2 \/ c = 3 \/ c = 4) by lia.
    destruct C as [->|[->|[->|[->| ->]]]];
      match goal with
      | |- context [addDigit _ _ (?k + 1)] =>
          let v := eval vm_compute in (k + 1) in change (k + 1) with v
      end; cbn [addDigit];
      unfold u64; change (2 ^ 64) with 18446744073709551616;
      (rewrite Z.mod_small by lia);
      match goal with
      | |- context [85 ^ ?k] =>
          let v := eval vm_compute in (85 ^ k) in change (85 ^ k) with v
      end; f_equal; lia. }
  rewrite Hadd. cbn [bind digitsValue].
  assert (Hb' : 0 <= b + (byteToZ (nth jter s x00) - 33) * 85 ^ (4 - c)
                <= (c + 1) * 8589934592).
  { assert (C : c = 0 \/ c = 1 \/ c = 2 \/ c = 3 \/ c = 4) by lia.
    destruct C as [->|[->|[->|[->| ->]]]];
      match goal with
      | |- context [85 ^ ?k] =>
          let v := eval vm_compute in (85 ^ k) in change (85 ^ k) with v
      end; lia. }
  destruct l as [|ch' l].
  - cbn [length] in *.
    assert (T : (S jter =? e)%nat || (S jter =? iter + 5)%nat = true).
    { destruct Hend as [Hend|Hend];
        [destruct (Nat.eqb_spec (S jter) e); [reflexivity|lia]|
         destruct (Nat.eqb_spec (S jter) (iter + 5)); [|lia];
         apply orb_true_r]. }
    rewrite T. cbn [digitsValue]. tuple_eq.
  - cbn [length] in *.
    destruct (Nat.eqb_spec (S jter) e) as [|_]; [lia|].
    destruct (Nat.eqb_spec (S jter) (iter + 5)) as [|_]; [lia|].
    cbn [orb].
    rewrite (IH post fuel (S jter)) by
      (try assumption; try discriminate; cbn [length]; lia).
    cbn [length]. tuple_eq.
Qed.

(** The missing digits count as 84, the digit of ['u']. *)
Lemma PadDigits_value (fuel : nat) :
  forall b c,
    0 <= c <= 5 -> (Z.to_nat (5 - c) < fuel)%nat ->
    0 <= b <= c * 2 ^ 33 ->
    PadDigits (E := X) fuel b c
    = Returned (digitsValue (repeat "u" (Z.to_nat (5 - c))) c b).
Proof.
  induction fuel as [|fuel IH]; intros b c Hc Hf Hb; [lia|].
  cbn [PadDigits].
  change (2 ^ 33) with 8589934592 in *.
  destruct (Z.ltb_spec c 5) as [Hlt|Hge].
  - unfold u32.
    rewrite (Z.mod_small (c + 1)) by (change (2 ^ 32) with 4294967296; lia).
    replace (Z.to_nat (5 - c)) with (S (Z.to_nat (5 - (c + 1)))) by lia.
    cbn [repeat digitsValue].
    change (byteToZ "u" - 33) with 84.
    assert (C : c = 0 \/ c = 1 \/ c = 2 \/ c = 3 \/ c = 4) by lia.
    destruct C as [->|[->|[->|[->| ->]]]];
      match goal with
      | |- context [PadDigits _ _ (?k + 1)] =>
          let v := eval vm_compute in (k + 1) in change (k + 1) with v
      end; cbn [bind];
      unfold u64; change (2 ^ 64) with 18446744073709551616;
      (rewrite Z.mod_small by lia);
      cbn [bind]; (rewrite IH by lia);
      match goal with
      | |- context [85 ^ ?k] =>
          let v := eval vm_compute in (85 ^ k) in change (85 ^ k) with v
      end; do 2 f_equal; lia.
  - replace c with 5 by lia. reflexivity.
Qed.

Lemma digitsValue_five (c1 c2 c3 c4 c5 : byte) :
  digitsValue [c1; c2; c3; c4; c5] 0 0
  = (byteToZ c1 - 33) * 52200625 + (byteToZ c2 - 33) * 614125
    + (byteToZ c3 - 33) * 7225 + (byteToZ c4 - 33) * 85
    + (byteToZ c5 - 33).
Proof.
  cbn [digitsValue].
  change (85 ^ (4 - 0)) with 52200625.
  change (85 ^ (4 - (0 + 1))) with 614125.
  change (85 ^ (4 - (0 + 1 + 1))) with 7225.
  change (85 ^ (4 - (0 + 1 + 1 + 1))) with 85.
  change (85 ^ (4 - (0 + 1 + 1 + 1 + 1))) with 1.
  ring.
Qed.

(** The digits written for a group give back its bytes, the digits cut
    off a ragged group being made up by the digit 84. *)
Lemma group_recovered (g : list byte) :
  (1 <= length g <= 4)%nat ->
  let d := firstn (S (length g)) (digitsOf (groupValue g)) in
  Forall digit d /\ length d = S (length g)
  /\ decodedBytes (E := X)
       (digitsValue (d ++ repeat "u" (4 - length g)) 0 0 mod 2 ^ 32)
       (u32 (5 - Z.of_nat (S (length g))))
     = Returned g.
Proof.
  intro H.
  pose proof (groupValue_range g ltac:(lia)) as R.
  destruct (radix85_digits (groupValue g) R)
    as (d1 & d2 & d3 & d4 & d5 & Er & (R1 & R2 & R3 & R4 & R5) & Ev).
  unfold digitsOf. rewrite Er. clear Er.
  cbn [rev app map].
  destruct g as [|a [|b [|c [|d [|e g]]]]];
    [cbn in H; lia| | | | |cbn in H; lia];
    unfold groupValue, Rfc4648.bigEndian in Ev, R;
    cbn [fold_left length] in Ev, R;
    match type of Ev with
    | context [2 ^ ?k] =>
        let v := eval vm_compute in (2 ^ k) in change (2 ^ k) with v in Ev, R
    end;
    cbn [length firstn Nat.sub repeat app];
    (split; [repeat constructor; rewrite digit_char by lia; lia|]);
    (split; [reflexivity|]);
    rewrite digitsValue_five, !digit_char by lia;
    change (byteToZ "u" - 33) with 84;
    match goal with
    | |- context [u32 ?k] =>
        let v := eval vm_compute in (u32 k) in change (u32 k) with v
    end;
    cbn [decodedBytes];
    change (2 ^ 32) with 4294967296 in *;
    repeat match goal with
           | x : byte |- _ =>
               lazymatch goal with
               | _ : 0 <= byteToZ x < 256 |- _ => fail
               | _ => pose proof (byteToZ_range x)
               end
           end;
    match type of Ev with
    | ?B * ?M = _ =>
        match goal with
        | |- context [?T mod 4294967296] =>
            let delta := fresh "delta" in
            let Hd := fresh "Hd" in
            let HT := fresh "HT" in
            assert (exists delta, 0 <= delta < M /\ T = B * M + delta)
              as (delta & Hd & HT) by (exists (T - B * M); lia);
            rewrite HT; clear HT Ev R1 R2 R3 R4 R5;
            rewrite (Z.mod_small (B * M + delta)) by lia
        end
    end.
  all: apply f_equal.
  all: repeat (apply f_equal2; [|try reflexivity]).
  all: first [apply byte_at; [lia|]
             |rewrite <- (Z.shiftr_0_r (_ + delta)); apply byte_at; [lia|]].
  all: first [rewrite (top_bytes _ _ _ 24) by (try reflexivity; lia)
             |rewrite (top_bytes _ _ _ 16) by (try reflexivity; lia)
             |rewrite (top_bytes _ _ _ 8) by (try reflexivity; lia)
             |rewrite (top_bytes _ _ _ 0) by (try reflexivity; lia)].
  all: match goal with
       | |- context [2 ^ ?k] =>
           let v := eval vm_compute in (2 ^ k) in change (2 ^ k) with v
       end.
  all: clear R Hd; Z.div_mod_to_equations; lia.
Qed.

Lemma digitsValue_bound (l : list byte) :
  forall c b,
    Forall digit l -> 0 <= c -> c + Z.of_nat (length l) <= 5 ->
    0 <= b <= c * 2 ^ 33 ->
    0 <= digitsValue l c b <= (c + Z.of_nat (length l)) * 2 ^ 33.
Proof.
  change (2 ^ 33) with 8589934592.
  induction l as [|ch l IH]; intros c b Hd Hc Hc5 Hb.
  - cbn [digitsValue length]. lia.
  - inversion Hd as [|? ? Hch Hd']; subst.
    cbn [digitsValue length] in *.
    assert (Hb' : 0 <= b + (byteToZ ch - 33) * 85 ^ (4 - c)
                  <= (c + 1) * 8589934592).
    { assert (C : c = 0 \/ c = 1 \/ c = 2 \/ c = 3 \/ c = 4) by lia.
      destruct C as [->|[->|[->|[->| ->]]]];
        match goal with
        | |- context [85 ^ ?k] =>
            let v := eval vm_compute in (85 ^ k) in change (85 ^ k) with v
        end; lia. }
    specialize (IH (c + 1) _ Hd' ltac:(lia) ltac:(lia) Hb'). lia.
Qed.

(** The main loop at the first digit of a group. *)
Lemma DecodeLoop_digit_turn (fuel : nat) (s : list byte) (e : nat)
    (foldSpaces_ : bool) (iter : nat) (out : St) :
  iter <> e -> digit (nth iter s x00) ->
  DecodeLoop raise put putZeros (S fuel) s e foldSpaces_ iter out =
    let* (iter', bitsetNumber, counter) :=
      DecodeGroup raise (length s) s e iter iter 0 0 in
    let* out := FlushGroup put bitsetNumber counter out in
    DecodeLoop raise put putZeros fuel s e foldSpaces_ (S iter') out.
Proof.
  intros Hie Hd. cbn [DecodeLoop].
  destruct (Nat.eqb_spec iter e) as [|_]; [contradiction|].
  destruct (nth iter s x00); try reflexivity; cbn in Hd; lia.
Qed.

(** The bytes of a group written as ['y']. *)
Lemma space_group (g : list byte) :
  (length g <= 4)%nat -> groupValue g = 0x20202020 ->
  g = [" "; " "; " "; " "].
Proof.
  intros H V.
  destruct g as [|a [|b [|c [|d [|e g]]]]];
    [| | | | |cbn in H; lia];
    unfold groupValue, Rfc4648.bigEndian in V;
    cbn [fold_left length] in V;
    match type of V with
    | context [2 ^ ?k] =>
        let v := eval vm_compute in (2 ^ k) in change (2 ^ k) with v in V
    end;
    repeat match goal with
           | x : byte |- _ =>
               lazymatch goal with
               | _ : 0 <= byteToZ x < 256 |- _ => fail
               | _ => pose proof (byteToZ_range x)
               end
           end; try lia.
  assert (A : byteToZ a = 32) by lia.
  assert (B : byteToZ b = 32) by lia.
  assert (C : byteToZ c = 32) by lia.
  assert (D : byteToZ d = 32) by lia.
  rewrite <- (byteOfZ_byteToZ a), <- (byteOfZ_byteToZ b),
    <- (byteOfZ_byteToZ c), <- (byteOfZ_byteToZ d), A, B, C, D.
  reflexivity.
Qed.

(** The decoders' main loop on what the encoders wrote for the groups
    [gs]. *)
Lemma DecodeLoop_groups (foldSpaces_ : bool) (gs : list (list byte)) :
  grouped gs ->
  forall (pre post s : list byte) (e : nat) (out : St) (fuel : nat),
    s = pre ++ flat_map (groupOf foldSpaces_) gs ++ post ->
    e = (length pre + length (flat_map (groupOf foldSpaces_) gs))%nat ->
    (length gs < fuel)%nat ->
    DecodeLoop raise put putZeros fuel s e foldSpaces_ (length pre) out
    = putGroups put putZeros gs out.
Proof.
  induction gs as [|g rest IH]; intros G pre post s e out fuel Hs He Hf;
    (destruct fuel as [|fuel]; [lia|]).
  - cbn [flat_map length] in He. rewrite Nat.add_0_r in He. subst e.
    cbn [DecodeLoop putGroups]. rewrite Nat.eqb_refl. reflexivity.
  - apply grouped_cons in G. destruct G as (L & G & Hlast).
    cbn [flat_map] in Hs, He. cbn [length] in Hf.
    set (enc := flat_map (groupOf foldSpaces_) rest) in *.
    cbn [putGroups].
    unfold groupOf in Hs, He.
    destruct (zeroGroup g) eqn:Zg;
      [|destruct ((groupValue g =? 0x20202020) && foldSpaces_) eqn:Yg].
    + (* written as z *)
      cbn [app length] in Hs, He.
      assert (N : nth (length pre) s x00 = "z")
        by (rewrite Hs; apply nth_middle).
      cbn [DecodeLoop].
      destruct (Nat.eqb_spec (length pre) e) as [|_]; [lia|].
      rewrite N.
      destruct (putZeros out) as [out'|x| |]; cbn [bind]; try reflexivity.
      replace (S (length pre)) with (length (pre ++ ["z"]))
        by (rewrite length_app; cbn [length]; lia).
      apply (IH G (pre ++ ["z"]) post);
        [rewrite Hs, <- app_assoc; reflexivity
        |rewrite length_app; cbn [length]; fold enc; lia|lia].
    + (* written as y *)
      apply andb_true_iff in Yg. destruct Yg as [Yv Yf].
      apply Z.eqb_eq in Yv. apply space_group in Yv; [|lia].
      subst g foldSpaces_.
      cbn [app length] in Hs, He.
      assert (N : nth (length pre) s x00 = "y")
        by (rewrite Hs; apply nth_middle).
      cbn [DecodeLoop].
      destruct (Nat.eqb_spec (length pre) e) as [|_]; [lia|].
      rewrite N.
      destruct (Rfc4648.putAll put out [" "; " "; " "; " "])
        as [out'|x| |]; cbn [bind]; try reflexivity.
      replace (S (length pre)) with (length (pre ++ ["y"]))
        by (rewrite length_app; cbn [length]; lia).
      apply (IH G (pre ++ ["y"]) post);
        [rewrite Hs, <- app_assoc; reflexivity
        |rewrite length_app; cbn [length]; fold enc; lia|lia].
    + (* written as digits *)
      clear Yg.
      destruct (group_recovered g L) as (Dd & Dl & Db).
      set (d := firstn (S (length g)) (digitsOf (groupValue g))) in *.
      assert (Hsk : skipn (length pre) s = d ++ (enc ++ post)).
      { rewrite Hs, skipn_length_app, <- app_assoc. reflexivity. }
      assert (Hnil : d <> [])
        by (intro Hn; rewrite Hn in Dl; discriminate Dl).
      assert (Hend : (length g = 4)%nat \/ enc = []).
      { destruct Hlast as [|Hr]; [left; assumption|].
        right. unfold enc. rewrite Hr. reflexivity. }
      assert (Hls : (length pre + length d + length enc <= length s)%nat)
        by (rewrite Hs, !length_app; lia).
      rewrite length_app in He.
      assert (Hd0 : digit (nth (length pre) s x00)).
      { destruct d as [|ch d'] eqn:Ed; [contradiction|].
        cbn [app] in Hsk. apply skipn_cons_nth in Hsk.
        destruct Hsk as [-> _]. inversion Dd; assumption. }
      rewrite DecodeLoop_digit_turn by (try assumption; lia).
      assert (Hstop : (length pre + length d)%nat = e
                      \/ (length pre + length d)%nat = (length pre + 5)%nat).
      { destruct Hend as [H4|Hn];
          [right; lia|left; rewrite Hn in He; cbn [length] in He; lia]. }
      rewrite (DecodeGroup_digits s e (length pre) d (enc ++ post)
                 (length s) (length pre) 0 0
                 ltac:(lia) Hnil Hsk Dd ltac:(lia) ltac:(lia) ltac:(lia)
                 Hstop ltac:(lia) ltac:(lia)
                 ltac:(change (2 ^ 33) with 8589934592; lia)).
      cbn [bind].
      unfold FlushGroup.
      pose proof (digitsValue_bound d 0 0 Dd ltac:(lia) ltac:(lia)
                    ltac:(lia)) as Bd.
      rewrite PadDigits_value by lia.
      cbn [bind].
      rewrite Dl in *.
      replace (Z.to_nat (5 - (0 + Z.of_nat (S (length g)))))
        with (4 - length g)%nat by lia.
      replace (digitsValue (repeat "u" (4 - length g))
                 (0 + Z.of_nat (S (length g))) (digitsValue d 0 0))
        with (digitsValue (d ++ repeat "u" (4 - length g)) 0 0)
        by (rewrite digitsValue_app, Dl; reflexivity).
      replace (0 + Z.of_nat (S (length g))) with (Z.of_nat (S (length g)))
        by lia.
      rewrite Db. cbn [bind].
      destruct (Rfc4648.putAll put out g) as [out'|x| |]; cbn [bind];
        try reflexivity.
      replace (S (length pre + S (length g) - 1))
        with (length (pre ++ d))
        by (rewrite length_app, Dl; lia).
      apply (IH G (pre ++ d) post);
        [rewrite Hs, <- !app_assoc; reflexivity
        |rewrite length_app; fold enc; lia|lia].
Qed.

End Ascii85Decode.

Section Ascii85Encoded.

Import Ascii85.

Lemma groupOf_nonempty (foldSpaces_ : bool) (g : list byte) :
  (1 <= length (groupOf foldSpaces_ g) <= 5)%nat.
Proof.
  unfold groupOf.
  destruct (zeroGroup g); [cbn; lia|].
  destruct ((groupValue g =? 0x20202020) && foldSpaces_); [cbn; lia|].
  rewrite length_firstn, digitsOf_length. lia.
Qed.

Lemma encoded_groups_length (foldSpaces_ : bool) (gs : list (list byte)) :
  (length gs <= length (flat_map (groupOf foldSpaces_) gs)
   <= 5 * length gs)%nat.
Proof.
  induction gs as [|g gs IH]; [cbn; lia|].
  cbn [flat_map length]. rewrite length_app.
  pose proof (groupOf_nonempty foldSpaces_ g). lia.
Qed.

(** The encoders return the encoding in words. *)
Lemma EncodeStringToString_encodingOf (s : list byte)
    (foldSpaces_ adobeMode_ : bool) :
  EncodeStringToString s foldSpaces_ adobeMode_
  = Returned (encodingOf s foldSpaces_ adobeMode_).
Proof.
  unfold EncodeStringToString, encodingOf.
  destruct (groups_grouped (length s) s (le_n _)) as (G & C & L).
  pose proof (Ascii85_EncodeLoop_groups foldSpaces_ (groups (length s) s) G
                [] (if adobeMode_ then ["<"; "~"] else [])
                (S (length s)) ltac:(lia)) as H.
  cbn [app length] in H. rewrite C in H. rewrite H. cbn [bind].
  destruct adobeMode_; [|reflexivity].
  rewrite <- app_assoc. reflexivity.
Qed.

Context {X St : Type}.
Variable raise : ErrorType -> X.
Variable put : St -> byte -> Outcome X St.
Variable putZeros : St -> Outcome X St.

Lemma FindBegin_delimiter (fuel : nat) (t : list byte) :
  t <> [] -> FindBegin raise (S fuel) ("<" :: "~" :: t) 0 = Returned 2%nat.
Proof.
  intro H. destruct t as [|c t]; [contradiction|]. reflexivity.
Qed.

Lemma FindEnd_delimiter (fuel : nat) (t : list byte) :
  t <> [] ->
  FindEnd raise (S fuel) (t ++ ["~"; ">"]) 0 = Returned (length t).
Proof.
  intro H. cbn [FindEnd].
  rewrite rev_app_distr. cbn [rev app nth]. rewrite length_app.
  cbn [length].
  destruct (Nat.eqb_spec 0 (length t + 2)) as [|_]; [lia|].
  destruct (Nat.eqb_spec (0 + 2) (length t + 2)) as [E|_].
  - destruct t; [contradiction|cbn [length] in E; lia].
  - change ((">" =? ">")%byte && ("~" =? "~")%byte && negb false)
      with true.
    cbn iota. f_equal. lia.
Qed.

(** The decoders on the encoding of [s], whatever their sink. *)
Lemma Decode_encodingOf (s : list byte) (foldSpaces_ adobeMode_ : bool)
    (out : St) :
  Decode raise put putZeros (encodingOf s foldSpaces_ adobeMode_)
    foldSpaces_ adobeMode_ out
  = putGroups put putZeros (groups (length s) s) out.
Proof.
  unfold Decode, encodingOf.
  destruct (groups_grouped (length s) s (le_n _)) as (G & _ & _).
  set (gs := groups (length s) s) in *.
  pose proof (encoded_groups_length foldSpaces_ gs) as L.
  set (body := flat_map (groupOf foldSpaces_) gs) in *.
  destruct adobeMode_.
  - change (["<"; "~"] ++ body ++ ["~"; ">"])
      with ("<" :: "~" :: (body ++ ["~"; ">"])).
    rewrite FindBegin_delimiter by (destruct body; discriminate).
    change ("<" :: "~" :: (body ++ ["~"; ">"]))
      with (["<"; "~"] ++ body ++ ["~"; ">"]).
    rewrite (app_assoc ["<"; "~"] body).
    rewrite FindEnd_delimiter by discriminate.
    rewrite <- app_assoc.
    cbn [bind].
    apply (DecodeLoop_groups raise put putZeros foldSpaces_ gs G
             ["<"; "~"] ["~"; ">"]);
      [reflexivity| |].
    + rewrite length_app. reflexivity.
    + rewrite !length_app. cbn [length]. lia.
  - cbn [bind].
    apply (DecodeLoop_groups raise put putZeros foldSpaces_ gs G [] []);
      [rewrite app_nil_r; reflexivity|reflexivity|lia].
Qed.

Lemma putAll_app (out : St) (l1 l2 : list byte) :
  Rfc4648.putAll put out (l1 ++ l2)
  = let* out' := Rfc4648.putAll put out l1 in Rfc4648.putAll put out' l2.
Proof.
  revert out; induction l1 as [|c l1 IH]; intro out; [reflexivity|].
  cbn [app Rfc4648.putAll].
  destruct (put out c) as [out'|x| |]; cbn [bind]; try reflexivity.
  apply IH.
Qed.

(** A sink that takes four zero bytes for a ['z']. *)
Lemma putGroups_zeros (gs : list (list byte)) (out : St) :
  putGroups put
    (fun out => Rfc4648.putAll put out [x00; x00; x00; x00]) gs out
  = Rfc4648.putAll put out
      (concat (map (fun g => if zeroGroup g then [x00; x00; x00; x00]
                             else g) gs)).
Proof.
  revert out; induction gs as [|g gs IH]; intro out; [reflexivity|].
  cbn [putGroups map concat]. rewrite putAll_app.
  destruct (zeroGroup g);
    (destruct (Rfc4648.putAll put out _) as [out'|x| |]; cbn [bind];
     try reflexivity; apply IH).
Qed.

End Ascii85Encoded.

Section Ascii85RoundTrip.

Import Ascii85.

(** The string sink drops a ['z']. *)
Lemma putGroups_dropped {X : Type} (gs : list (list byte))
    (out : list byte) :
  putGroups (E := X) appendChar (fun out => Returned out) gs out
  = Returned (out ++ concat (filter (fun g => negb (zeroGroup g)) gs)).
Proof.
  revert out; induction gs as [|g gs IH]; intro out.
  - cbn. rewrite app_nil_r. reflexivity.
  - cbn [putGroups filter].
    destruct (zeroGroup g); cbn [negb bind]; [apply IH|].
    rewrite putAll_appendChar. cbn [bind concat].
    rewrite IH, <- app_assoc. reflexivity.
Qed.

Lemma grouped_nonempty (gs : list (list byte)) :
  grouped gs -> Forall (fun g => (1 <= length g <= 4)%nat) gs.
Proof.
  induction gs as [|g gs IH]; intro G; [constructor|].
  apply grouped_cons in G. destruct G as (L & G & _).
  constructor; [exact L|apply IH, G].
Qed.

(** Nothing is lost exactly when no group is dropped. *)
Lemma dropped_none (gs : list (list byte)) :
  Forall (fun g => (1 <= length g <= 4)%nat) gs ->
  (length (concat (filter (fun g => negb (zeroGroup g)) gs))
   <= length (concat gs))%nat
  /\ (concat (filter (fun g => negb (zeroGroup g)) gs) = concat gs
      <-> existsb zeroGroup gs = false).
Proof.
  induction 1 as [|g gs L _ [IHl IH]]; [cbn; split; [lia|tauto]|].
  cbn [filter existsb concat].
  destruct (zeroGroup g); cbn [negb orb concat].
  - split; [rewrite length_app; lia|].
    split; [|discriminate].
    intro E. apply (f_equal (@length byte)) in E.
    rewrite length_app in E. lia.
  - rewrite !length_app. split; [lia|].
    split.
    + intro E. apply app_inv_head in E. apply IH, E.
    + intro E. apply IH in E. rewrite E. reflexivity.
Qed.

(** A full group of zeros is four zero bytes. *)
Lemma zeroGroup_repeat (g : list byte) :
  zeroGroup g = true -> g = repeat x00 (length g).
Proof.
  induction g as [|a g IH]; [reflexivity|].
  cbn [zeroGroup forallb length repeat]. intro H.
  apply andb_true_iff in H. destruct H as [A G].
  apply Byte.byte_dec_bl in A. subst a.
  f_equal. apply IH, G.
Qed.

Lemma zeros_longer (gs : list (list byte)) :
  Forall (fun g => (1 <= length g <= 4)%nat) gs ->
  (length (concat gs)
   <= length (concat (map (fun g => if zeroGroup g
                                    then [x00; x00; x00; x00] else g) gs)))%nat.
Proof.
  induction 1 as [|g gs L _ IH]; [cbn; lia|].
  cbn [map concat]. rewrite !length_app.
  destruct (zeroGroup g); cbn [length]; lia.
Qed.

Lemma zeros_kept (gs : list (list byte)) :
  Forall (fun g => (1 <= length g <= 4)%nat) gs ->
  concat (map (fun g => if zeroGroup g then [x00; x00; x00; x00] else g) gs)
  = concat gs
  <-> existsb (fun g => zeroGroup g && negb (length g =? 4)%nat) gs = false.
Proof.
  induction 1 as [|g gs L F IH]; [cbn; tauto|].
  pose proof (zeros_longer gs F) as Len.
  cbn [map concat existsb].
  destruct (zeroGroup g) eqn:Zg; cbn [andb orb].
  - destruct (Nat.eqb_spec (length g) 4) as [L4|L4]; cbn [negb orb].
    + apply zeroGroup_repeat in Zg. rewrite L4 in Zg. cbn [repeat] in Zg.
      subst g.
      split.
      * intro E. apply app_inv_head in E. apply IH, E.
      * intro E. apply IH in E. rewrite E. reflexivity.
    + split; [|discriminate].
      intro E. apply (f_equal (@length byte)) in E.
      rewrite !length_app in E. cbn [length] in E. lia.
  - split.
    + intro E. apply app_inv_head in E. apply IH, E.
    + intro E. apply IH in E. rewrite E. reflexivity.
Qed.

Lemma zeros_longest (gs : list (list byte)) :
  grouped gs ->
  (length (concat (map (fun g => if zeroGroup g
                                 then [x00; x00; x00; x00] else g) gs))
   <= length (concat gs) + 3)%nat.
Proof.
  induction gs as [|g gs IH]; intro G; [cbn; lia|].
  apply grouped_cons in G. destruct G as (L & G & Hlast).
  cbn [map concat]. rewrite !length_app.
  destruct Hlast as [L4|Hn].
  - specialize (IH G). destruct (zeroGroup g); cbn [length]; lia.
  - subst gs. cbn [map concat length].
    destruct (zeroGroup g); cbn [length]; lia.
Qed.

Lemma groups_count (k : nat) :
  forall s, (length s <= k)%nat ->
    (4 * length (groups k s) <= length s + 3)%nat.
Proof.
  induction k as [|k IH]; intros s Hk; [cbn; lia|].
  destruct s as [|a s]; [cbn; lia|].
  cbn [groups]. set (t := a :: s) in *.
  assert (Lt : (1 <= length t)%nat) by (unfold t; cbn; lia).
  cbn [length].
  destruct (Nat.le_gt_cases (length t) 4) as [Hle|Hgt].
  - rewrite (skipn_all2 t) by exact Hle.
    destruct k; cbn [groups length]; lia.
  - specialize (IH (skipn 4 t)). rewrite length_skipn in IH. lia.
Qed.

(** The buffer decoder on the encoding of [s]. *)
Lemma Ascii85_decode_encoded_bytes (s : list byte)
    (foldSpaces_ adobeMode_ : bool) (h : ByteBuffer.Heap) :
  Z.of_nat (length s) + 3 <= ByteBuffer.GetMaximumSize ->
  ByteBuffer.unfailing h ->
  DecodeStringToByteBuffer (encodingOf s foldSpaces_ adobeMode_)
    foldSpaces_ adobeMode_ h
  = Returned
      (ByteBuffer.ofList
         (concat (map (fun g => if zeroGroup g then [x00; x00; x00; x00]
                                else g)
                    (groups (length s) s)))).
Proof.
  intros Hmax Hh.
  unfold DecodeStringToByteBuffer.
  destruct (newStaging_ready h Hh) as (st & N & Rdy & Stg).
  rewrite N. cbn [lift bind].
  rewrite Decode_encodingOf, putGroups_zeros.
  destruct (groups_grouped (length s) s (le_n _)) as (G & C & _).
  pose proof (zeros_longest _ G) as Len. rewrite C in Len.
  destruct (putAll_staged (X := ErrorType) st
              (concat (map (fun g => if zeroGroup g
                                     then [x00; x00; x00; x00] else g)
                         (groups (length s) s))) Rdy
              ltac:(rewrite Stg; cbn [length]; lia))
    as (st' & P & Rdy' & Stg').
  unfold ByteBuffer.stageByte in P. rewrite P. cbn [bind].
  rewrite finishStaging_staged
    by (try exact Rdy'; rewrite Stg', Stg; cbn [app]; lia).
  rewrite Stg', Stg. reflexivity.
Qed.

End Ascii85RoundTrip.

(** Ascii85 encoding always returns.  Every group of four bytes is
    written as ['z'] when it is all zero, as ['y'] when it is four spaces
    and spaces are folded, and as the five radix-85 digits of its value
    otherwise; a shorter final group is written as one digit more than it
    has bytes, or as ['z'] when it is all zero.  That is at most five
    characters for every four bytes, and Adobe mode adds the two
    delimiters and nothing else. *)
Theorem Ascii85_encoding (string_ : list byte) (foldSpaces_ : bool) :
  let body :=
    flat_map (Ascii85.groupOf foldSpaces_)
      (Ascii85.groups (length string_) string_) in
  Ascii85.EncodeStringToString string_ foldSpaces_ false = Returned body
  /\ Ascii85.EncodeStringToString string_ foldSpaces_ true
     = Returned (["<"; "~"] ++ body ++ ["~"; ">"])
  /\ (4 * length body <= 5 * (length string_ + 3))%nat
  /\ (string_ = [] -> body = []).
Proof.
  cbv zeta. rewrite !EncodeStringToString_encodingOf.
  split; [reflexivity|]. split; [reflexivity|].
  split.
  - pose proof (encoded_groups_length foldSpaces_
                  (Ascii85.groups (length string_) string_)) as L.
    pose proof (groups_count (length string_) string_ (le_n _)) as C.
    lia.
  - intros ->. reflexivity.
Qed.

(** Ascii85 round trip on strings: decoding what was encoded, under the
    same options, returns the input without its all-zero groups (the
    groups of four bytes counted from the start, and the shorter final
    one); so the round trip gives back the input exactly when none of
    its groups is all zero. *)
Theorem Ascii85_round_trip_string
    (string_ : list byte) (foldSpaces_ adobeMode_ : bool) :
  exists encoded,
    Ascii85.EncodeStringToString string_ foldSpaces_ adobeMode_
    = Returned encoded
    /\ Ascii85.DecodeStringToString encoded foldSpaces_ adobeMode_
       = Returned
           (concat (filter (fun g => negb (Ascii85.zeroGroup g))
                      (Ascii85.groups (length string_) string_)))
    /\ (Ascii85.DecodeStringToString encoded foldSpaces_ adobeMode_
        = Returned string_
        <-> existsb Ascii85.zeroGroup
              (Ascii85.groups (length string_) string_) = false).
Proof.
  eexists. split; [apply EncodeStringToString_encodingOf|].
  unfold Ascii85.DecodeStringToString.
  rewrite Decode_encodingOf, putGroups_dropped. cbn [app].
  split; [reflexivity|].
  destruct (groups_grouped (length string_) string_ (le_n _))
    as (G & C & _).
  destruct (dropped_none _ (grouped_nonempty _ G)) as [_ D].
  rewrite C in D. rewrite <- D.
  split; [intro E; injection E as E; exact E|intros ->; reflexivity].
Qed.

(** Ascii85 round trip on buffers, when no allocation fails: decoding
    what was encoded returns the bytes of the buffer, except that a final
    group of one to three zero bytes comes back as four zero bytes; so
    the round trip gives back the buffer exactly when it does not end in
    such a group. *)
Theorem Ascii85_round_trip_bytes
    (byteBuffer_ : ByteBuffer.ByteBuffer) (foldSpaces_ adobeMode_ : bool)
    (h : ByteBuffer.Heap) :
  ByteBuffer.wellFormed byteBuffer_ ->
  ByteBuffer._size byteBuffer_ + 3 <= ByteBuffer.GetMaximumSize ->
  ByteBuffer.unfailing h ->
  let groups :=
    Ascii85.groups (length (ByteBuffer.contents byteBuffer_))
      (ByteBuffer.contents byteBuffer_) in
  exists encoded,
    Ascii85.EncodeByteBufferToString byteBuffer_ foldSpaces_ adobeMode_
    = Returned encoded
    /\ Ascii85.DecodeStringToByteBuffer encoded foldSpaces_ adobeMode_ h
       = Returned
           (ByteBuffer.ofList
              (concat (map (fun g => if Ascii85.zeroGroup g
                                     then [x00; x00; x00; x00] else g)
                         groups)))
    /\ (Ascii85.DecodeStringToByteBuffer encoded foldSpaces_ adobeMode_ h
        = Returned byteBuffer_
        <-> existsb (fun g => Ascii85.zeroGroup g
                              && negb (length g =? 4)%nat) groups
            = false).
Proof.
  intros Hw Hmax Hh. cbv zeta.
  destruct (wellFormed_size byteBuffer_ Hw) as [Sz _].
  unfold Ascii85.EncodeByteBufferToString.
  eexists. split; [apply EncodeStringToString_encodingOf|].
  rewrite Ascii85_decode_encoded_bytes by (try assumption; lia).
  split; [reflexivity|].
  destruct (groups_grouped (length (ByteBuffer.contents byteBuffer_))
              (ByteBuffer.contents byteBuffer_) (le_n _)) as (G & C & _).
  pose proof (zeros_kept _ (grouped_nonempty _ G)) as K.
  rewrite C in K. rewrite <- K.
  split.
  - intro E. injection E as E.
    apply (f_equal ByteBuffer.contents) in E.
    rewrite ofList_contents in E. exact E.
  - intros ->. rewrite <- wellFormed_ofList by assumption. reflexivity.
Qed.

Lemma Ascii85_round_trip_bytes_witness :
  let groups :=
    Ascii85.groups (length (ByteBuffer.contents oneByte))
      (ByteBuffer.contents oneByte) in
  exists encoded,
    Ascii85.EncodeByteBufferToString oneByte false true = Returned encoded
    /\ Ascii85.DecodeStringToByteBuffer encoded false true []
       = Returned
           (ByteBuffer.ofList
              (concat (map (fun g => if Ascii85.zeroGroup g
                                     then [x00; x00; x00; x00] else g)
                         groups)))
    /\ (Ascii85.DecodeStringToByteBuffer encoded false true []
        = Returned oneByte
        <-> existsb (fun g => Ascii85.zeroGroup g
                              && negb (length g =? 4)%nat) groups
            = false).
Proof.
  apply (Ascii85_round_trip_bytes oneByte false true []).
  - unfold ByteBuffer.wellFormed, ByteBuffer.GetMaximumSize; cbn; lia.
  - unfold ByteBuffer.GetMaximumSize; cbn; lia.
  - constructor.
Defined.

(** ** Ascii85: the two decoding surfaces *)

Section Ascii85Surfaces.

Import Ascii85.

Variable s : list byte.

Local Abbreviation raiseB := (@inl ErrorType ByteBuffer.Exception).
Local Abbreviation raiseS := (fun e : ErrorType => e).

Lemma FindBegin_lift (fuel iter : nat) :
  FindBegin raiseB fuel s iter = lift inl (FindBegin raiseS fuel s iter).
Proof.
  revert iter; induction fuel as [|fuel IH]; intro iter;
    cbn [FindBegin]; [reflexivity|].
  destruct (iter =? length s)%nat; [reflexivity|].
  destruct (Byte.eqb (nth iter s x00) "<"
            && Byte.eqb (nth (S iter) s x00) "~"
            && negb (iter + 2 =? length s)%nat); [reflexivity|].
  destruct (isBlank (nth iter s x00)); [|reflexivity].
  destruct (S iter =? length s)%nat; [reflexivity|apply IH].
Qed.

Lemma FindEnd_lift (fuel riter : nat) :
  FindEnd raiseB fuel s riter = lift inl (FindEnd raiseS fuel s riter).
Proof.
  revert riter; induction fuel as [|fuel IH]; intro riter;
    cbn [FindEnd]; [reflexivity|].
  destruct (riter =? length s)%nat; [reflexivity|].
  destruct (Byte.eqb (nth riter (rev s) x00) ">"
            && Byte.eqb (nth (S riter) (rev s) x00) "~"
            && negb (riter + 2 =? length s)%nat); [reflexivity|].
  destruct (isBlank (nth riter (rev s) x00)); [|reflexivity].
  destruct (S riter =? length s)%nat; [reflexivity|apply IH].
Qed.

Lemma addDigit_lift (b p c : Z) :
  addDigit (E := Exception) b p c = lift inl (addDigit (E := ErrorType) b p c).
Proof. unfold addDigit. case_switch. Qed.

Lemma Ascii85_DecodeGroup_lift (fuel e iter jter : nat) (b c : Z) :
  DecodeGroup raiseB fuel s e iter jter b c
  = lift inl (DecodeGroup raiseS fuel s e iter jter b c).
Proof.
  revert iter jter b c; induction fuel as [|fuel IH];
    intros iter jter b c; cbn [DecodeGroup]; [reflexivity|].
  destruct (iter =? e)%nat; [reflexivity|].
  destruct (isBlank (nth jter s x00)).
  - destruct (S jter =? e)%nat; [reflexivity|apply IH].
  - destruct ((byteToZ (nth jter s x00) <? 33)
              || (byteToZ (nth jter s x00) >? 117)); [reflexivity|].
    rewrite addDigit_lift.
    destruct (addDigit (E := ErrorType) b (byteToZ (nth jter s x00))
                (u32 (c + 1))) as [b'|x| |]; cbn [lift bind];
      try reflexivity.
    destruct ((S jter =? e)%nat || (S jter =? iter + 5)%nat);
      [reflexivity|apply IH].
Qed.

Lemma PadDigits_lift (fuel : nat) (b c : Z) :
  PadDigits (E := Exception) fuel b c
  = lift inl (PadDigits (E := ErrorType) fuel b c).
Proof.
  revert b c; induction fuel as [|fuel IH]; intros b c;
    cbn [PadDigits]; [reflexivity|].
  destruct (c <? 5); [|reflexivity].
  destruct (u32 (c + 1)) as [|p|p]; try reflexivity.
  repeat match goal with
         | q : positive |- _ =>
             destruct q; try reflexivity; try (cbn [bind]; apply IH)
         end.
Qed.

Lemma Ascii85_decodedBytes_lift (b c : Z) :
  decodedBytes (E := Exception) b c
  = lift inl (decodedBytes (E := ErrorType) b c).
Proof. unfold decodedBytes. case_switch. Qed.

Lemma Ascii85_decodedBytes_most (b c : Z) (bytes : list byte) :
  decodedBytes (E := ErrorType) b c = Returned bytes ->
  (length bytes <= 4)%nat.
Proof.
  unfold decodedBytes.
  destruct c as [|p|p]; try discriminate.
  - intro H; injection H as <-; cbn; lia.
  - repeat match goal with
           | q : positive |- _ =>
               destruct q; try discriminate;
               try (intro H; injection H as <-; cbn; lia)
           end.
Qed.

(** The statements after the [switch] on the two sinks. *)
Lemma FlushGroup_staging (b c : Z) (st : ByteBuffer.Staging) :
  ByteBuffer.stagingReady st ->
  Z.of_nat (length (ByteBuffer.staged st)) + 4 <= ByteBuffer.GetMaximumSize ->
  ByteBuffer.agree (E := ErrorType)
    (Z.of_nat (length (ByteBuffer.staged st)) + 4)
    (FlushGroup appendChar b c (ByteBuffer.staged st))
    (FlushGroup ByteBuffer.stageByte b c st).
Proof.
  intros Hr Hmax. unfold FlushGroup.
  rewrite PadDigits_lift.
  destruct (PadDigits (E := ErrorType) 6 b c) as [b'|x| |];
    cbn [lift bind ByteBuffer.agree]; try reflexivity.
  rewrite Ascii85_decodedBytes_lift.
  destruct (decodedBytes (E := ErrorType) (b' mod 2 ^ 32) (u32 (5 - c)))
    as [bytes|x| |] eqn:Eb; cbn [lift bind ByteBuffer.agree];
    try reflexivity.
  apply Ascii85_decodedBytes_most in Eb.
  rewrite putAll_appendChar.
  destruct (putAll_staged (X := ErrorType) st bytes Hr)
    as (st1 & -> & Hr1 & Hs1); [lia|].
  cbn [ByteBuffer.agree]. split; [rewrite length_app; lia|].
  exists st1. auto.
Qed.

Hypothesis no_z : ~ In "z" s.

Lemma no_z_nth (iter : nat) : nth iter s x00 <> "z".
Proof.
  intro H. destruct (nth_in_or_default iter s x00) as [I|D].
  - rewrite H in I. exact (no_z I).
  - rewrite H in D. discriminate D.
Qed.

(** The main loop on a staging buffer follows the main loop on a
    string; each turn adds four bytes at most. *)
Lemma Ascii85_DecodeLoop_staging (e : nat) (foldSpaces_ : bool)
    (putZeros : ByteBuffer.Staging -> Outcome Exception ByteBuffer.Staging)
    (fuel : nat) :
  forall (iter : nat) (st : ByteBuffer.Staging),
    ByteBuffer.stagingReady st ->
    Z.of_nat (length (ByteBuffer.staged st)) + 4 * Z.of_nat fuel
    <= ByteBuffer.GetMaximumSize ->
    ByteBuffer.agree
      (Z.of_nat (length (ByteBuffer.staged st)) + 4 * Z.of_nat fuel)
      (DecodeLoop raiseS appendChar (fun out => Returned out) fuel s e
         foldSpaces_ iter (ByteBuffer.staged st))
      (DecodeLoop raiseB ByteBuffer.stageByte putZeros fuel s e
         foldSpaces_ iter st).
Proof.
  induction fuel as [|fuel IH]; intros iter st Hr Hmax;
    cbn [DecodeLoop]; [reflexivity|].
  destruct (iter =? e)%nat.
  { eapply agree_weaken; [|apply agree_Returned, Hr]. lia. }
  pose proof (no_z_nth iter) as Hz.
  assert (Hturn :
    forall (r : Outcome ErrorType (list byte))
           (r' : Outcome Exception ByteBuffer.Staging) (next : nat),
      ByteBuffer.agree (Z.of_nat (length (ByteBuffer.staged st)) + 4) r r' ->
      ByteBuffer.agree
        (Z.of_nat (length (ByteBuffer.staged st)) + 4 * Z.of_nat (S fuel))
        (let* out := r in
         DecodeLoop raiseS appendChar (fun out => Returned out) fuel s e
           foldSpaces_ next out)
        (let* st' := r' in
         DecodeLoop raiseB ByteBuffer.stageByte putZeros fuel s e
           foldSpaces_ next st')).
  { intros r r' next A.
    destruct r as [out|x| |]; cbn [ByteBuffer.agree] in A;
      [|subst r'; reflexivity..].
    destruct A as (Hl & st1 & -> & Hr1 & Hs1). cbn [bind].
    rewrite <- Hs1 in *.
    eapply agree_weaken; [|apply IH; [exact Hr1|lia]]. lia. }
  assert (Hsame :
    forall next,
      ByteBuffer.agree
        (Z.of_nat (length (ByteBuffer.staged st)) + 4 * Z.of_nat (S fuel))
        (DecodeLoop raiseS appendChar (fun out => Returned out) fuel s e
           foldSpaces_ next (ByteBuffer.staged st))
        (DecodeLoop raiseB ByteBuffer.stageByte putZeros fuel s e
           foldSpaces_ next st)).
  { intro next. eapply agree_weaken; [|apply IH; [exact Hr|lia]]. lia. }
  assert (Hgroup :
    ByteBuffer.agree
      (Z.of_nat (length (ByteBuffer.staged st)) + 4 * Z.of_nat (S fuel))
      (let* (iter', bitsetNumber, counter) :=
         DecodeGroup raiseS (length s) s e iter iter 0 0 in
       let* out := FlushGroup appendChar bitsetNumber counter
                     (ByteBuffer.staged st) in
       DecodeLoop raiseS appendChar (fun out => Returned out) fuel s e
         foldSpaces_ (S iter') out)
      (let* (iter', bitsetNumber, counter) :=
         DecodeGroup raiseB (length s) s e iter iter 0 0 in
       let* st' := FlushGroup ByteBuffer.stageByte bitsetNumber counter st in
       DecodeLoop raiseB ByteBuffer.stageByte putZeros fuel s e
         foldSpaces_ (S iter') st')).
  { rewrite Ascii85_DecodeGroup_lift.
    destruct (DecodeGroup raiseS (length s) s e iter iter 0 0)
      as [[[iter' b] c]|x| |]; cbn [lift bind ByteBuffer.agree];
      try reflexivity.
    apply Hturn, FlushGroup_staging; [exact Hr|lia]. }
  assert (Hy :
    ByteBuffer.agree
      (Z.of_nat (length (ByteBuffer.staged st)) + 4 * Z.of_nat (S fuel))
      (if foldSpaces_
       then let* out := Rfc4648.putAll appendChar (ByteBuffer.staged st)
                          [" "; " "; " "; " "] in
            DecodeLoop raiseS appendChar (fun out => Returned out) fuel s e
              foldSpaces_ (S iter) out
       else Thrown STRING_PARSE_ERROR)
      (if foldSpaces_
       then let* st' := Rfc4648.putAll ByteBuffer.stageByte st
                          [" "; " "; " "; " "] in
            DecodeLoop raiseB ByteBuffer.stageByte putZeros fuel s e
              foldSpaces_ (S iter) st'
       else Thrown (inl STRING_PARSE_ERROR))).
  { destruct foldSpaces_; [|reflexivity].
    apply Hturn. rewrite putAll_appendChar.
    destruct (putAll_staged (X := ErrorType) st [" "; " "; " "; " "] Hr)
      as (st1 & -> & Hr1 & Hs1); [cbn [length]; lia|].
    cbn [ByteBuffer.agree]. split; [rewrite length_app; cbn [length]; lia|].
    exists st1. auto. }
  destruct (nth iter s x00); try exact Hgroup; try apply Hsame;
    try exact Hy.
  contradiction Hz; reflexivity.
Qed.

End Ascii85Surfaces.

(** The two decoding surfaces of Ascii85 agree on an input that does not
    hold the character ['z']: when no allocation fails,
    [DecodeStringToByteBuffer] returns the buffer of the bytes that
    [DecodeStringToString] returns, or raises the same error. *)
Theorem Ascii85_decode_surfaces_agree
    (encodedString_ : list byte) (foldSpaces_ adobeMode_ : bool)
    (h : ByteBuffer.Heap) :
  ~ In "z" encodedString_ ->
  4 * Z.of_nat (length encodedString_) + 4 <= ByteBuffer.GetMaximumSize ->
  ByteBuffer.unfailing h ->
  Ascii85.DecodeStringToByteBuffer encodedString_ foldSpaces_ adobeMode_ h
  = ByteBuffer.toByteBuffer
      (Ascii85.DecodeStringToString encodedString_ foldSpaces_ adobeMode_).
Proof.
  intros Hz Hmax Hh.
  unfold Ascii85.DecodeStringToByteBuffer, Ascii85.DecodeStringToString.
  cbv zeta.
  apply (staging_frame
           (fun out =>
              Ascii85.Decode (fun e => e) appendChar
                (fun out => Returned out) encodedString_ foldSpaces_
                adobeMode_ out)
           (fun st =>
              Ascii85.Decode inl
                (fun st c => lift inr (ByteBuffer.addToByteBuffer st c))
                (fun st =>
                   Rfc4648.putAll
                     (fun st c =>
                        lift inr (ByteBuffer.addToByteBuffer st c))
                     st [x00; x00; x00; x00])
                encodedString_ foldSpaces_ adobeMode_ st) h Hh).
  intros st Hr Hs. unfold Ascii85.Decode.
  assert (Hloop :
    forall b e,
      ByteBuffer.agree ByteBuffer.GetMaximumSize
        (Ascii85.DecodeLoop (fun e => e) appendChar
           (fun out => Returned out) (S (length encodedString_))
           encodedString_ e foldSpaces_ b [])
        (Ascii85.DecodeLoop inl
           (fun st c => lift inr (ByteBuffer.addToByteBuffer st c))
           (fun st =>
              Rfc4648.putAll
                (fun st c => lift inr (ByteBuffer.addToByteBuffer st c))
                st [x00; x00; x00; x00])
           (S (length encodedString_)) encodedString_ e foldSpaces_ b st)).
  { intros b e.
    pose proof (Ascii85_DecodeLoop_staging encodedString_ Hz e foldSpaces_
                  (fun st =>
                     Rfc4648.putAll
                       (fun st c =>
                          lift inr (ByteBuffer.addToByteBuffer st c))
                       st [x00; x00; x00; x00])
                  (S (length encodedString_)) b st Hr) as H.
    rewrite Hs in H. cbn [length] in H.
    eapply agree_weaken; [|apply H; lia]. lia. }
  destruct adobeMode_; [|cbn [bind]; apply Hloop].
  rewrite FindBegin_lift, FindEnd_lift.
  destruct (Ascii85.FindBegin (fun e => e) (S (length encodedString_))
              encodedString_ 0) as [b|x| |]; cbn [lift bind ByteBuffer.agree];
    try reflexivity.
  destruct (Ascii85.FindEnd (fun e => e) (S (length encodedString_))
              encodedString_ 0) as [e|x| |]; cbn [lift bind ByteBuffer.agree];
    try reflexivity.
  apply Hloop.
Qed.

Lemma Ascii85_decode_surfaces_agree_witness :
  Ascii85.DecodeStringToByteBuffer ["8"; "7"; "c"; "U"; "R"] false false []
  = ByteBuffer.toByteBuffer
      (Ascii85.DecodeStringToString ["8"; "7"; "c"; "U"; "R"] false false).
Proof.
  apply (Ascii85_decode_surfaces_agree ["8"; "7"; "c"; "U"; "R"] false false
           []).
  - cbn. intuition discriminate.
  - unfold ByteBuffer.GetMaximumSize; cbn; lia.
  - constructor.
Defined.

(** ** Base32 and Base64: what the decoders refuse, and how they end *)

Section Rfc4648Refusals.

Import Rfc4648.

Variable bits symbolBits : Z.
Variable groupSymbols : nat.
Variable decodeSymbol : byte -> Symbol.
Variable tailGroup : Z -> Z -> Z -> Outcome ErrorType (Z * Z).
Variable decodedBytes : Z -> Z -> Outcome ErrorType (list byte).

Hypothesis groupSymbols_pos : (0 < groupSymbols)%nat.
Hypothesis groupSymbols_small : Z.of_nat groupSymbols < 2 ^ 32.
Hypothesis tail_full :
  forall b p, tailGroup b p (Z.of_nat groupSymbols) = Returned (b, p).
Hypothesis bytes_full :
  forall b, exists bytes, decodedBytes b 0 = Returned bytes.
(** No group runs into [UnreachableTerminate]. *)
Hypothesis tail_safe :
  forall b p n,
    1 <= n <= Z.of_nat groupSymbols ->
    (exists r, tailGroup b p n = Returned r)
    \/ tailGroup b p n = Thrown STRING_PARSE_ERROR.
Hypothesis bytes_safe :
  forall b p,
    (exists bytes, decodedBytes b p = Returned bytes)
    \/ decodedBytes b p = Thrown STRING_PARSE_ERROR.

Local Abbreviation decode :=
  (DecodeLoop (fun e : ErrorType => e) appendChar bits symbolBits
     groupSymbols decodeSymbol tailGroup decodedBytes).
Local Abbreviation symbols :=
  (Forall (fun c : byte => isSymbol decodeSymbol c = true)).

(** A character outside the alphabet that only symbols of the alphabet
    come before. *)
Lemma DecodeLoop_foreign (c : byte) (l2 : list byte) (fuel : nat) :
  decodeSymbol c = Invalid ->
  forall (pre l1 out : list byte),
    symbols l1 ->
    (length l1 < fuel)%nat ->
    decode fuel (pre ++ l1 ++ c :: l2) (length pre) out
    = Thrown STRING_PARSE_ERROR.
Proof.
  intro Hc. induction fuel as [|fuel IH]; intros pre l1 out Hl Hf; [lia|].
  assert (Hsk : skipn (length pre) (pre ++ l1 ++ c :: l2) = l1 ++ c :: l2)
    by apply skipn_length_app.
  destruct (Nat.le_gt_cases groupSymbols (length l1)) as [Hge|Hlt].
  - rewrite <- (firstn_skipn groupSymbols l1) in Hl.
    apply Forall_app in Hl. destruct Hl as [Hg Hrest].
    assert (Lg : length (firstn groupSymbols l1) = groupSymbols)
      by (rewrite length_firstn; lia).
    rewrite (DecodeLoop_full_group (fun e => e) bits symbolBits groupSymbols
               decodeSymbol tailGroup decodedBytes groupSymbols_pos
               groupSymbols_small tail_full bytes_full fuel _
               (firstn groupSymbols l1));
      [|rewrite Hsk, firstn_app;
        replace (groupSymbols - length l1)%nat with 0%nat by lia;
        cbn [firstn]; apply app_nil_r|exact Lg|exact Hg].
    pose proof (IH (pre ++ firstn groupSymbols l1) (skipn groupSymbols l1)
                  (out ++ fullGroupBytes bits symbolBits decodeSymbol
                            decodedBytes (firstn groupSymbols l1))
                  Hrest) as H.
    rewrite <- app_assoc, (app_assoc (firstn groupSymbols l1)),
      firstn_skipn, length_app, Lg in H.
    apply H. rewrite length_skipn. lia.
  - rewrite DecodeLoop_step
      by (try assumption; rewrite !length_app; cbn [length]; lia).
    rewrite Hsk, firstn_app.
    rewrite (firstn_all2 (n := groupSymbols) l1) by lia.
    replace (groupSymbols - length l1)%nat
      with (S (groupSymbols - length l1 - 1)) by lia.
    cbn [firstn]. rewrite scan_app.
    rewrite scan_symbols by (try assumption; lia).
    cbn [bind scanSymbols]. unfold DecodeStep.
    change (0 <? 0) with false. cbn [andb]. rewrite Hc. reflexivity.
Qed.

(** The loop ends by returning or by the parse error. *)
Lemma DecodeLoop_safe (s : list byte) (fuel : nat) :
  forall (iter : nat) (out : list byte),
    (iter <= length s)%nat -> (length s - iter < fuel)%nat ->
    (exists r, decode fuel s iter out = Returned r)
    \/ decode fuel s iter out = Thrown STRING_PARSE_ERROR.
Proof.
  induction fuel as [|fuel IH]; intros iter out Hi Hf; [lia|].
  destruct (Nat.eq_dec iter (length s)) as [->|Hne].
  { left. exists out. cbn [DecodeLoop]. rewrite Nat.eqb_refl. reflexivity. }
  rewrite DecodeLoop_step by (try assumption; lia).
  set (g := firstn groupSymbols (skipn iter s)).
  assert (Lg : (1 <= length g <= groupSymbols
                /\ iter + length g <= length s)%nat).
  { unfold g. rewrite length_firstn, length_skipn. lia. }
  destruct (scan_outcome (fun e => e) bits symbolBits decodeSymbol g 0 0 0)
    as [[[[b p] n] Hs]|Hs]; rewrite Hs; cbn [bind]; [|right; reflexivity].
  apply scan_counts in Hs; [|lia|lia].
  destruct (tail_safe b p n ltac:(lia)) as [[[b1 p1] ->]| ->];
    cbn [bind]; [|right; reflexivity].
  destruct (bytes_safe b1 p1) as [[bytes ->]| ->];
    cbn [bind]; [|right; reflexivity].
  destruct (0 <? p1); [left; eexists; reflexivity|].
  apply IH; lia.
Qed.

End Rfc4648Refusals.

Ltac settle_switch :=
  repeat match goal with
         | |- context [match ?x with _ => _ end] => destruct x
         end;
  first [left; eexists; reflexivity | right; reflexivity].

Lemma Radix64_tail_safe (b p n : Z) :
  1 <= n <= Z.of_nat 4 ->
  (exists r, Radix64.tailGroup (fun e : Rfc4648.ErrorType => e) b p n
             = Returned r)
  \/ Radix64.tailGroup (fun e : Rfc4648.ErrorType => e) b p n
     = Thrown Rfc4648.STRING_PARSE_ERROR.
Proof.
  intro H. assert (C : n = 1 \/ n = 2 \/ n = 3 \/ n = 4) by lia.
  destruct C as [->|[->|[->| ->]]]; unfold Radix64.tailGroup;
    settle_switch.
Qed.

Lemma Radix64_bytes_safe (b p : Z) :
  (exists bytes, Radix64.decodedBytes (fun e : Rfc4648.ErrorType => e) b p
                 = Returned bytes)
  \/ Radix64.decodedBytes (fun e : Rfc4648.ErrorType => e) b p
     = Thrown Rfc4648.STRING_PARSE_ERROR.
Proof. unfold Radix64.decodedBytes. settle_switch. Qed.

Lemma Radix32_tail_safe (b p n : Z) :
  1 <= n <= Z.of_nat 8 ->
  (exists r, Radix32.tailGroup (fun e : Rfc4648.ErrorType => e) b p n
             = Returned r)
  \/ Radix32.tailGroup (fun e : Rfc4648.ErrorType => e) b p n
     = Thrown Rfc4648.STRING_PARSE_ERROR.
Proof.
  intro H.
  assert (C : n = 1 \/ n = 2 \/ n = 3 \/ n = 4 \/ n = 5 \/ n = 6 \/ n = 7
              \/ n = 8) by lia.
  destruct C as [->|[->|[->|[->|[->|[->|[->| ->]]]]]]];
    unfold Radix32.tailGroup; settle_switch.
Qed.

Lemma Radix32_bytes_safe (b p : Z) :
  (exists bytes, Radix32.decodedBytes (fun e : Rfc4648.ErrorType => e) b p
                 = Returned bytes)
  \/ Radix32.decodedBytes (fun e : Rfc4648.ErrorType => e) b p
     = Thrown Rfc4648.STRING_PARSE_ERROR.
Proof. unfold Radix32.decodedBytes. settle_switch. Qed.

Section RadixRefusals.

Variable decodeSymbol : byte -> Rfc4648.Symbol.

Lemma Radix64_foreign (l1 l2 : list byte) (c : byte) :
  Forall (fun c => Rfc4648.isSymbol decodeSymbol c = true) l1 ->
  decodeSymbol c = Rfc4648.Invalid ->
  Radix64.DecodeStringToString decodeSymbol (l1 ++ c :: l2)
  = Thrown Rfc4648.STRING_PARSE_ERROR.
Proof.
  intros Hl Hc. unfold Radix64.DecodeStringToString.
  apply (DecodeLoop_foreign 24 6 4 decodeSymbol _ _ ltac:(lia)
           ltac:(cbn; lia) Radix64_tail_full Radix64_bytes_full c l2
           (S (length (l1 ++ c :: l2))) Hc [] l1 [] Hl).
  rewrite length_app. lia.
Qed.

Lemma Radix32_foreign (l1 l2 : list byte) (c : byte) :
  Forall (fun c => Rfc4648.isSymbol decodeSymbol c = true) l1 ->
  decodeSymbol c = Rfc4648.Invalid ->
  Radix32.DecodeStringToString decodeSymbol (l1 ++ c :: l2)
  = Thrown Rfc4648.STRING_PARSE_ERROR.
Proof.
  intros Hl Hc. unfold Radix32.DecodeStringToString.
  apply (DecodeLoop_foreign 40 5 8 decodeSymbol _ _ ltac:(lia)
           ltac:(cbn; lia) Radix32_tail_full Radix32_bytes_full c l2
           (S (length (l1 ++ c :: l2))) Hc [] l1 [] Hl).
  rewrite length_app. lia.
Qed.

Lemma Radix64_safe (s : list byte) :
  Rfc4648.returnsOrRefuses (fun e => e)
    (Radix64.DecodeStringToString decodeSymbol s).
Proof.
  apply (DecodeLoop_safe 24 6 4 decodeSymbol _ _ ltac:(lia) ltac:(cbn; lia)
           Radix64_tail_safe Radix64_bytes_safe s (S (length s)) 0 []); lia.
Qed.

Lemma Radix32_safe (s : list byte) :
  Rfc4648.returnsOrRefuses (fun e => e)
    (Radix32.DecodeStringToString decodeSymbol s).
Proof.
  apply (DecodeLoop_safe 40 5 8 decodeSymbol _ _ ltac:(lia) ltac:(cbn; lia)
           Radix32_tail_safe Radix32_bytes_safe s (S (length s)) 0 []); lia.
Qed.

Lemma toByteBuffer_safe (r : Outcome Rfc4648.ErrorType (list byte)) :
  Rfc4648.returnsOrRefuses (fun e => e) r ->
  Rfc4648.returnsOrRefuses inl (ByteBuffer.toByteBuffer r).
Proof.
  intros [[out ->]| ->]; [left; eexists; reflexivity|right; reflexivity].
Qed.

Lemma Radix64_safe_bytes (s : list byte) (h : ByteBuffer.Heap) :
  3 * Z.of_nat (length s) <= ByteBuffer.GetMaximumSize ->
  ByteBuffer.unfailing h ->
  Rfc4648.returnsOrRefuses inl
    (Radix64.DecodeStringToByteBuffer decodeSymbol s h).
Proof.
  intros Hmax Hh.
  rewrite Radix64_DecodeStringToByteBuffer_staged by assumption.
  apply toByteBuffer_safe, Radix64_safe.
Qed.

Lemma Radix32_safe_bytes (s : list byte) (h : ByteBuffer.Heap) :
  5 * Z.of_nat (length s) <= ByteBuffer.GetMaximumSize ->
  ByteBuffer.unfailing h ->
  Rfc4648.returnsOrRefuses inl
    (Radix32.DecodeStringToByteBuffer decodeSymbol s h).
Proof.
  intros Hmax Hh.
  rewrite Radix32_DecodeStringToByteBuffer_staged by assumption.
  apply toByteBuffer_safe, Radix32_safe.
Qed.

End RadixRefusals.

(** The Base32 and Base64 decoders skip nothing: a character that is
    neither a symbol of the alphabet nor the pad character, and that only
    symbols of the alphabet come before, makes them raise the parse
    error wherever it stands.  A blank or a line break is such a
    character. *)
Theorem Rfc4648_foreign_character_refused (l1 l2 : list byte) (c : byte) :
  (Forall (fun c => Rfc4648.isSymbol Base64.decodeSymbol c = true) l1 ->
   Base64.decodeSymbol c = Rfc4648.Invalid ->
   Base64.DecodeStringToString (l1 ++ c :: l2)
   = Thrown Rfc4648.STRING_PARSE_ERROR)
  /\ (Forall (fun c => Rfc4648.isSymbol Base64Url.decodeSymbol c = true) l1 ->
      Base64Url.decodeSymbol c = Rfc4648.Invalid ->
      Base64Url.DecodeStringToString (l1 ++ c :: l2)
      = Thrown Rfc4648.STRING_PARSE_ERROR)
  /\ (Forall (fun c => Rfc4648.isSymbol Base32.decodeSymbol c = true) l1 ->
      Base32.decodeSymbol c = Rfc4648.Invalid ->
      Base32.DecodeStringToString (l1 ++ c :: l2)
      = Thrown Rfc4648.STRING_PARSE_ERROR)
  /\ (Forall (fun c => Rfc4648.isSymbol Base32Hex.decodeSymbol c = true) l1 ->
      Base32Hex.decodeSymbol c = Rfc4648.Invalid ->
      Base32Hex.DecodeStringToString (l1 ++ c :: l2)
      = Thrown Rfc4648.STRING_PARSE_ERROR)
  /\ Forall (fun blank =>
               Base64.decodeSymbol blank = Rfc4648.Invalid
               /\ Base64Url.decodeSymbol blank = Rfc4648.Invalid
               /\ Base32.decodeSymbol blank = Rfc4648.Invalid
               /\ Base32Hex.decodeSymbol blank = Rfc4648.Invalid)
       [" "; x0a; x0d; x09].
Proof.
  split; [apply Radix64_foreign|].
  split; [apply Radix64_foreign|].
  split; [apply Radix32_foreign|].
  split; [apply Radix32_foreign|].
  repeat constructor.
Qed.

Lemma Rfc4648_foreign_character_refused_witness :
  Base64.DecodeStringToString (["Q"; "U"; "J"; "D"] ++ x0a :: ["Q"; "U"])
  = Thrown Rfc4648.STRING_PARSE_ERROR.
Proof.
  apply (proj1 (Rfc4648_foreign_character_refused
                  ["Q"; "U"; "J"; "D"] ["Q"; "U"] x0a)).
  - repeat constructor.
  - reflexivity.
Defined.

(** The Base32 and Base64 decoders never reach [UnreachableTerminate]:
    on every input the string decoders return or raise the parse error,
    and so do the buffer decoders when no allocation fails and the input
    is short enough for the staging of its bytes. *)
Theorem Rfc4648_decode_never_terminates_abruptly
    (encodedString_ : list byte) (h : ByteBuffer.Heap) :
  (Rfc4648.returnsOrRefuses (fun e => e)
     (Base64.DecodeStringToString encodedString_)
   /\ Rfc4648.returnsOrRefuses (fun e => e)
        (Base64Url.DecodeStringToString encodedString_)
   /\ Rfc4648.returnsOrRefuses (fun e => e)
        (Base32.DecodeStringToString encodedString_)
   /\ Rfc4648.returnsOrRefuses (fun e => e)
        (Base32Hex.DecodeStringToString encodedString_))
  /\ (5 * Z.of_nat (length encodedString_) <= ByteBuffer.GetMaximumSize ->
      ByteBuffer.unfailing h ->
      Rfc4648.returnsOrRefuses inl
        (Base64.DecodeStringToByteBuffer encodedString_ h)
      /\ Rfc4648.returnsOrRefuses inl
           (Base64Url.DecodeStringToByteBuffer encodedString_ h)
      /\ Rfc4648.returnsOrRefuses inl
           (Base32.DecodeStringToByteBuffer encodedString_ h)
      /\ Rfc4648.returnsOrRefuses inl
           (Base32Hex.DecodeStringToByteBuffer encodedString_ h)).
Proof.
  split.
  - split; [apply Radix64_safe|].
    split; [apply Radix64_safe|].
    split; [apply Radix32_safe|apply Radix32_safe].
  - intros Hmax Hh.
    split; [apply Radix64_safe_bytes; [lia|assumption]|].
    split; [apply Radix64_safe_bytes; [lia|assumption]|].
    split; apply Radix32_safe_bytes; assumption.
Qed.

Lemma Rfc4648_decode_never_terminates_abruptly_witness :
  Rfc4648.returnsOrRefuses inl
    (Base32.DecodeStringToByteBuffer ["M"; "="; "="; "="] []).
Proof.
  apply (proj2 (Rfc4648_decode_never_terminates_abruptly
                  ["M"; "="; "="; "="] [])).
  - unfold ByteBuffer.GetMaximumSize; cbn; lia.
  - constructor.
Defined.

(** ** Ascii85: a group of digits is taken as it comes *)

Lemma Ascii85_decodedBytes_firstn (bitset : Z) (n : nat) :
  (1 <= n <= 5)%nat ->
  Ascii85.decodedBytes (E := Ascii85.ErrorType) bitset
    (u32 (5 - Z.of_nat n))
  = Returned
      (firstn (n - 1)
         [byteOfZ (Z.shiftr bitset 24); byteOfZ (Z.shiftr bitset 16);
          byteOfZ (Z.shiftr bitset 8); byteOfZ bitset]).
Proof.
  intro H.
  assert (C : (n = 1 \/ n = 2 \/ n = 3 \/ n = 4 \/ n = 5)%nat) by lia.
  destruct C as [->|[->|[->|[->| ->]]]]; reflexivity.
Qed.

(** The decoders on an input that is one group of digits. *)
Lemma Ascii85_decode_digits (l : list byte) (foldSpaces_ : bool) :
  Forall (fun ch => 33 <= byteToZ ch <= 117) l ->
  (1 <= length l <= 5)%nat ->
  Ascii85.DecodeStringToString l foldSpaces_ false
  = Returned
      (let bitset :=
         Ascii85.digitsValue (l ++ repeat "u" (5 - length l)) 0 0
         mod 2 ^ 32 in
       firstn (length l - 1)
         [byteOfZ (Z.shiftr bitset 24); byteOfZ (Z.shiftr bitset 16);
          byteOfZ (Z.shiftr bitset 8); byteOfZ bitset]).
Proof.
  intros Hd Hl.
  unfold Ascii85.DecodeStringToString, Ascii85.Decode. cbn [bind].
  assert (H0 : 33 <= byteToZ (nth 0 l x00) <= 117).
  { destruct l as [|c l]; [cbn in Hl; lia|]. inversion Hd; assumption. }
  change 0%nat with (@length byte []) at 2.
  rewrite DecodeLoop_digit_turn by (cbn [length]; try assumption; lia).
  cbn [length].
  rewrite (DecodeGroup_digits (fun e => e) l (length l) 0 l []
             (length l) 0 0 0
             ltac:(lia) ltac:(intro E; rewrite E in Hl; cbn in Hl; lia)
             ltac:(cbn [skipn]; rewrite app_nil_r; reflexivity)
             Hd ltac:(lia) ltac:(lia) ltac:(lia)
             ltac:(left; lia) ltac:(lia) ltac:(lia)
             ltac:(change (2 ^ 33) with 8589934592; lia)).
  cbn [bind]. unfold Ascii85.FlushGroup.
  pose proof (digitsValue_bound l 0 0 Hd ltac:(lia) ltac:(lia)
                ltac:(lia)) as Bd.
  rewrite PadDigits_value by lia.
  cbn [bind].
  replace (Z.to_nat (5 - (0 + Z.of_nat (length l))))
    with (5 - length l)%nat by lia.
  replace (Ascii85.digitsValue (repeat "u" (5 - length l))
             (0 + Z.of_nat (length l)) (Ascii85.digitsValue l 0 0))
    with (Ascii85.digitsValue (l ++ repeat "u" (5 - length l)) 0 0)
    by (rewrite digitsValue_app; reflexivity).
  replace (0 + Z.of_nat (length l)) with (Z.of_nat (length l)) by lia.
  rewrite Ascii85_decodedBytes_firstn by exact Hl.
  cbn [bind]. rewrite putAll_appendChar. cbn [bind app].
  destruct (length l) as [|n] eqn:E; [lia|].
  cbn [Ascii85.DecodeLoop].
  replace (S (0 + S n - 1)) with (S n) by lia.
  rewrite Nat.eqb_refl. reflexivity.
Qed.

(** The Ascii85 decoders take a group of digits as it comes.  An input
    of one to five digits is never refused: the digits missing from five
    count as 84, the value is reduced modulo 2^32 without any check that
    it is below 2^32, and one byte less than there are digits is
    returned, so a single digit gives the empty string. *)
Theorem Ascii85_decode_group_unchecked
    (digits : list byte) (foldSpaces_ : bool) :
  Forall (fun ch => 33 <= byteToZ ch <= 117) digits ->
  (1 <= length digits <= 5)%nat ->
  let bitset :=
    Ascii85.digitsValue (digits ++ repeat "u" (5 - length digits)) 0 0
    mod 2 ^ 32 in
  Ascii85.DecodeStringToString digits foldSpaces_ false
  = Returned
      (firstn (length digits - 1)
         [byteOfZ (Z.shiftr bitset 24); byteOfZ (Z.shiftr bitset 16);
          byteOfZ (Z.shiftr bitset 8); byteOfZ bitset])
  /\ (length digits = 1%nat ->
      Ascii85.DecodeStringToString digits foldSpaces_ false = Returned [])
  /\ Ascii85.digitsValue ["u"; "u"; "u"; "u"; "u"] 0 0 = 85 ^ 5 - 1
  /\ 2 ^ 32 < 85 ^ 5 - 1.
Proof.
  intros Hd Hl. cbv zeta.
  split; [apply Ascii85_decode_digits; assumption|].
  split; [|split; [reflexivity|reflexivity]].
  intro L1. rewrite Ascii85_decode_digits by assumption.
  rewrite L1. reflexivity.
Qed.

Lemma Ascii85_decode_group_unchecked_witness :
  Ascii85.DecodeStringToString ["s"; "8"; "W"; "-"; x22] false false
  = Returned [x00; x00; x00; x00].
Proof.
  apply (Ascii85_decode_group_unchecked ["s"; "8"; "W"; "-"; x22] false).
  - repeat constructor; cbn; lia.
  - cbn; lia.
Defined.

(** ** ByteBuffer: the sized and the pointer constructors *)

Section ByteBufferConstructors.

Import ByteBuffer.

Lemma ByteBuffer_from_pointer_ofList (src : list byte) (n : nat)
    (h : Heap) :
  unfailing h ->
  (1 <= n <= length src)%nat -> Z.of_nat n <= GetMaximumSize ->
  exists h',
    unfailing h'
    /\ ByteBuffer_from_pointer (Some src) (Z.of_nat n) h
       = (Returned (ofList (firstn n src)), h').
Proof.
  intros Hh Hn Hmax. unfold ByteBuffer_from_pointer.
  destruct (Z.gtb_spec (Z.of_nat n) GetMaximumSize); [lia|].
  destruct (Z.ltb_spec (Z.of_nat n) 1); [lia|].
  destruct (unfailing_make_unique (Z.of_nat n) h Hh) as [-> Hh'].
  exists (tl h). split; [assumption|].
  rewrite Nat2Z.id, copy_prefix by lia.
  assert (L : length (firstn n src) = n) by (rewrite length_firstn; lia).
  destruct (firstn n src) as [|c l] eqn:E; [cbn in L; lia|].
  unfold ofList. rewrite L. reflexivity.
Qed.

(** The constructors from a length and from a pointer and a length.
    Within the maximum length and when no allocation fails, the first
    gives that many zero bytes and the second a copy of the first
    [size_] bytes at [buffer_]; a length above the maximum raises the
    size-limit error, a null pointer with a positive length or a non-null
    pointer with the length zero raises the invalid-arguments error, and
    a failed allocation raises the allocation error. *)
Theorem ByteBuffer_constructors
    (size_ : Z) (source : list byte) (h : Heap) :
  0 <= size_ ->
  (size_ <= GetMaximumSize -> unfailing h ->
   (exists b,
       fst (ByteBuffer_sized size_ h) = Returned b
       /\ wellFormed b /\ contents b = repeat x00 (Z.to_nat size_))
   /\ (1 <= size_ <= Z.of_nat (length source) ->
       exists b,
         fst (ByteBuffer_from_pointer (Some source) size_ h) = Returned b
         /\ wellFormed b
         /\ contents b = firstn (Z.to_nat size_) source))
  /\ (GetMaximumSize < size_ ->
      fst (ByteBuffer_sized size_ h)
      = Thrown (Error MAXIMUM_SIZE_LIMIT_ERROR)
      /\ fst (ByteBuffer_from_pointer (Some source) size_ h)
         = Thrown (Error MAXIMUM_SIZE_LIMIT_ERROR)
      /\ fst (ByteBuffer_from_pointer None size_ h)
         = Thrown (Error MAXIMUM_SIZE_LIMIT_ERROR))
  /\ (0 < size_ <= GetMaximumSize ->
      fst (ByteBuffer_from_pointer None size_ h)
      = Thrown (Error INVALID_ARGUMENTS_ERROR)
      /\ fst (ByteBuffer_sized size_ (false :: h))
         = Thrown (Error ALLOCATION_ERROR)
      /\ fst (ByteBuffer_from_pointer (Some source) size_ (false :: h))
         = Thrown (Error ALLOCATION_ERROR))
  /\ fst (ByteBuffer_from_pointer (Some source) 0 h)
     = Thrown (Error INVALID_ARGUMENTS_ERROR)
  /\ fst (ByteBuffer_from_pointer None 0 h) = Returned empty.
Proof.
  intro H0.
  destruct (Z_of_nat_complete size_ H0) as [n ->].
  rewrite Nat2Z.id.
  split; [|split; [|split; [|split]]].
  - intros Hmax Hh. split.
    + destruct (ByteBuffer_sized_ofList n h Hh Hmax) as (h' & _ & ->).
      eexists. split; [reflexivity|].
      split; [apply ofList_wellFormed; rewrite repeat_length; exact Hmax|].
      apply ofList_contents.
    + intro Hn.
      destruct (ByteBuffer_from_pointer_ofList source n h Hh ltac:(lia) Hmax)
        as (h' & _ & ->).
      eexists. split; [reflexivity|].
      split; [apply ofList_wellFormed; rewrite length_firstn; lia|].
      apply ofList_contents.
  - intro Hbig.
    unfold ByteBuffer_sized, ByteBuffer_from_pointer.
    destruct (Z.gtb_spec (Z.of_nat n) GetMaximumSize); [|lia].
    repeat split.
  - intros [Hpos Hmax].
    unfold ByteBuffer_sized, ByteBuffer_from_pointer.
    destruct (Z.gtb_spec (Z.of_nat n) GetMaximumSize); [lia|].
    destruct (Z.gtb_spec (Z.of_nat n) 0); [|lia].
    destruct (Z.ltb_spec (Z.of_nat n) 1); [lia|].
    repeat split.
  - reflexivity.
  - reflexivity.
Qed.

End ByteBufferConstructors.

Lemma ByteBuffer_constructors_witness :
  (exists b,
      fst (ByteBuffer.ByteBuffer_sized 2 []) = Returned b
      /\ ByteBuffer.wellFormed b
      /\ ByteBuffer.contents b = repeat x00 (Z.to_nat 2))
  /\ (1 <= 2 <= Z.of_nat (length [x01; x02; x03]) ->
      exists b,
        fst (ByteBuffer.ByteBuffer_from_pointer (Some [x01; x02; x03]) 2 [])
        = Returned b
        /\ ByteBuffer.wellFormed b
        /\ ByteBuffer.contents b = firstn (Z.to_nat 2) [x01; x02; x03]).
Proof.
  apply (proj1 (ByteBuffer_constructors 2 [x01; x02; x03] [] ltac:(lia))).
  - unfold ByteBuffer.GetMaximumSize; cbn; lia.
  - constructor.
Defined.
